(** * Script image generator: record store, prompt assembler and batch
      generation, embedded in Rocq.

    The development follows the TypeScript sources file by file:
    - [src/types/index.ts]            records [Script], [Character], [Scene];
    - [src/lib/storage.ts]            the record store over [localStorage];
    - [src/lib/imageStorage.ts]       the blob store (identifier generation);
    - [src/lib/gemini.ts]             [getStyleModifier], [buildScenePrompt];
    - [src/pages/Characters.tsx]      reference image upload, generation, removal;
    - [src/pages/Generate.tsx]        [handleGenerateOne];
    - [src/pages/ScriptNew.tsx], [src/pages/ScriptDetail.tsx]
                                      turning an analysis result into records.

    Definitions come first (one module per source file), the lemmas and the
    theorems about them follow. *)

From Stdlib Require Import String Ascii List ZArith NArith Bool Arith Lia.
From Stdlib Require Import Permutation Sorted DecimalString DecimalN DecimalZ.
Import ListNotations.
Local Open Scope string_scope.
Local Open Scope list_scope.

Set Implicit Arguments.

(* ================================================================== *)
(** * JavaScript values used by the sources *)
(* ================================================================== *)

Module JS.

(** The line feed of a template literal that spans several lines. *)
Definition LF : string := String (ascii_of_nat 10) EmptyString.

(** Truthiness of a [string | undefined]: [undefined] and the empty string
    are falsy, every other string is truthy. *)
Definition truthy (o : option string) : bool :=
  match o with
  | Some s => negb (String.eqb s "")
  | None => false
  end.

(** [a || d] for [a : string | undefined] and a string [d]. *)
Definition or_else (o : option string) (d : string) : string :=
  match o with
  | Some s => if truthy o then s else d
  | None => d
  end.

(** [a || undefined]. *)
Definition or_undefined (o : option string) : option string :=
  if truthy o then o else None.

(** [l || []] for an optional array. *)
Definition or_empty {A} (o : option (list A)) : list A :=
  match o with Some l => l | None => [] end.

(** [Array.prototype.join]. *)
Fixpoint join (sep : string) (l : list string) : string :=
  match l with
  | [] => ""
  | [x] => x
  | x :: rest => x ++ sep ++ join sep rest
  end.

(** [arr.filter(Boolean)] on an array of [string | undefined]. *)
Fixpoint filter_Boolean (l : list (option string)) : list string :=
  match l with
  | [] => []
  | Some s :: rest =>
      if truthy (Some s) then s :: filter_Boolean rest else filter_Boolean rest
  | None :: rest => filter_Boolean rest
  end.

(** [arr.slice(0, n)]: a negative [n] counts from the end of the array. *)
Definition slice0 {A} (l : list A) (n : Z) : list A :=
  if (0 <=? n)%Z then firstn (Z.to_nat n) l
  else firstn (length l - Z.to_nat (- n)) l.

(** [arr.filter((_, i) => i !== index)]. *)
Fixpoint remove_at {A} (index : nat) (l : list A) : list A :=
  match l, index with
  | [], _ => []
  | _ :: rest, O => rest
  | x :: rest, S i => x :: remove_at i rest
  end.

(** [arr.find(p)] and [arr.findIndex(p)] ([None] stands for -1). *)
Fixpoint findIndex {A} (p : A -> bool) (l : list A) : option nat :=
  match l with
  | [] => None
  | x :: rest =>
      if p x then Some O
      else match findIndex p rest with Some i => Some (S i) | None => None end
  end.

(** [arr[index] = v] for an index inside the array. *)
Fixpoint set_at {A} (index : nat) (v : A) (l : list A) : list A :=
  match l, index with
  | [], _ => []
  | _ :: rest, O => v :: rest
  | x :: rest, S i => x :: set_at i v rest
  end.

(** The array after [arr[arr.findIndex(p)] = f(arr[arr.findIndex(p)])]. *)
Fixpoint updateFirst {A} (p : A -> bool) (f : A -> A) (l : list A) : list A :=
  match l with
  | [] => []
  | x :: rest => if p x then f x :: rest else x :: updateFirst p f rest
  end.

(** Decimal rendering of a non-negative number inside a template literal. *)
Definition decimal (n : N) : string := NilZero.string_of_uint (N.to_uint n).

End JS.

(* ================================================================== *)
(** * src/types/index.ts *)
(* ================================================================== *)

(** An optional field [f?: T] is an [option T]: [None] is [undefined]. *)

Module ScriptStatus.
Inductive t := draft | analyzing | ready | generating | completed.
End ScriptStatus.

Module SceneStatus.
Inductive t := pending | generating | completed | failed.
End SceneStatus.

Module Script.
Record t := mk {
  id : string;
  title : string;
  rawContent : string;
  genre : option string;
  styleGuide : option string;
  status : ScriptStatus.t;
  createdAt : string;
  updatedAt : string
}.
End Script.

Module Appearance.
Record t := mk {
  age : option string;
  gender : option string;
  height : option string;
  hair : option string;
  face : option string;
  skinTone : option string;
  features : option (list string)
}.
End Appearance.

Module Character.
Record t := mk {
  id : string;
  scriptId : string;
  name : string;
  appearance : Appearance.t;
  defaultOutfit : option string;
  referenceImages : list string;
  selectedImage : option string;
  basePrompt : option string;
  createdAt : string;
  updatedAt : string
}.
End Character.

Module Scene.
Record t := mk {
  id : string;
  scriptId : string;
  sceneNumber : Z;
  title : option string;
  location : option string;
  timeOfDay : option string;
  originalText : string;
  visualDescription : option string;
  generatedPrompt : option string;
  userEditedPrompt : option string;
  characterIds : list string;
  generatedImages : list string;
  selectedImage : option string;
  status : SceneStatus.t;
  createdAt : string;
  updatedAt : string
}.
End Scene.

(** The analysis result of the external model ([AnalysisResult]). *)
Module Analysis.
Record character := mkCharacter {
  name : string;
  appearance : Appearance.t;
  defaultOutfit : option string
}.
Record scene := mkScene {
  sceneNumber : Z;
  title : option string;
  location : option string;
  timeOfDay : option string;
  originalText : string;
  visualDescription : string;
  characterNames : list string
}.
Record result := mkResult {
  characters : list character;
  scenes : list scene;
  styleGuide : option string
}.
End Analysis.

(* ================================================================== *)
(** * src/lib/gemini.ts: the prompt assembler *)
(* ================================================================== *)

Module Gemini.

Inductive ImageStyle := realistic | anime | watercolor | cinematic | comic.

Definition getStyleModifier (style : ImageStyle) : string :=
  match style with
  | realistic =>
      "Photorealistic, high-resolution photograph, natural lighting, realistic skin texture, shot on professional camera, 8K quality"
  | anime =>
      "Japanese anime style, vibrant colors, clean line art, expressive eyes, detailed background, Studio Ghibli quality"
  | cinematic =>
      "Cinematic movie still, dramatic lighting, shallow depth of field, anamorphic lens flare, film grain, Hollywood production quality"
  | watercolor =>
      "Soft watercolor painting, delicate brush strokes, gentle color blending, artistic and dreamy atmosphere"
  | comic =>
      "Comic book style, bold outlines, dynamic composition, graphic novel aesthetic, cel shading"
  end.

(** The two structural parameter types of [buildScenePrompt]. *)
Record SceneInput := mkSceneInput {
  location : option string;
  timeOfDay : option string;
  visualDescription : option string;
  userEditedPrompt : option string
}.

Record CharacterInput := mkCharacterInput {
  name : string;
  appearance : Appearance.t;
  defaultOutfit : option string
}.

(** The body of the [characters.map] callback. *)
Definition describeCharacter (char : CharacterInput) : string :=
  let app := appearance char in
  let features :=
    JS.join ", "
      (JS.filter_Boolean
         ([ Appearance.age app; Appearance.gender app; Appearance.height app;
            Appearance.hair app; Appearance.face app; Appearance.skinTone app ]
          ++ map Some (JS.or_empty (Appearance.features app)))) in
  "- " ++ name char ++ ": " ++ features ++ ". Outfit: "
    ++ JS.or_else (defaultOutfit char) "casual".

Definition buildScenePrompt (scene : SceneInput)
    (characters : list CharacterInput) (style : ImageStyle) : string :=
  match JS.or_undefined (userEditedPrompt scene) with
  | Some edited => edited
  | None =>
    let styleModifier := getStyleModifier style in
    let characterDescriptions :=
      JS.join JS.LF (map describeCharacter characters) in
    styleModifier ++ JS.LF ++
    JS.LF ++
    "SCENE:" ++ JS.LF ++
    "- Location: " ++ JS.or_else (location scene) "unspecified" ++ JS.LF ++
    "- Time: " ++ JS.or_else (timeOfDay scene) "day" ++ JS.LF ++
    JS.LF ++
    "CHARACTERS (match the reference images exactly):" ++ JS.LF ++
    characterDescriptions ++ JS.LF ++
    JS.LF ++
    "SCENE DESCRIPTION:" ++ JS.LF ++
    JS.or_else (visualDescription scene) "No description" ++ JS.LF ++
    JS.LF ++
    "CRITICAL REQUIREMENTS:" ++ JS.LF ++
    "- Characters MUST match the provided reference images exactly" ++ JS.LF ++
    "- Maintain consistent facial features, hair style, and body proportions" ++ JS.LF ++
    "- Follow the specified art style strictly" ++ JS.LF ++
    "- High quality, professional composition"
  end.

End Gemini.

(* ================================================================== *)
(** * The prompt as the specification words it *)
(* ================================================================== *)

(** The specification describes the generated prompt section by section.
    [PromptSpec] follows those words, not the source; the theorem on
    [Gemini.buildScenePrompt] compares the two. *)

Module PromptSpec.
Import Gemini.
Local Open Scope string_scope.

(** A field takes part when it is present and not empty. *)
Definition present (field : option string) : list string :=
match field with
| Some text => if String.eqb text "" then [] else [text]
| None => []
end.

Definition withFallback (field : option string) (fallback : string) : string :=
match present field with
| text :: _ => text
| [] => fallback
end.

(** age, gender, height, hair, face, skinTone, then each free-form feature. *)
Definition appearanceFields (app : Appearance.t) : list string :=
present (Appearance.age app) ++ present (Appearance.gender app)
  ++ present (Appearance.height app) ++ present (Appearance.hair app)
  ++ present (Appearance.face app) ++ present (Appearance.skinTone app)
  ++ match Appearance.features app with
     | Some features => flat_map (fun f => present (Some f)) features
     | None => []
     end.

Fixpoint commaSeparated (fields : list string) : string :=
match fields with
| [] => ""
| [last] => last
| field :: more => field ++ ", " ++ commaSeparated more
end.

Definition characterLine (char : CharacterInput) : string :=
"- " ++ name char ++ ": " ++ commaSeparated (appearanceFields (appearance char))
  ++ ". Outfit: " ++ withFallback (defaultOutfit char) "casual".

Fixpoint lines (l : list string) : string :=
match l with
| [] => ""
| [last] => last
| line :: more => line ++ JS.LF ++ lines more
end.

Definition sceneSection (scene : SceneInput) : string :=
lines [ "SCENE:";
        "- Location: " ++ withFallback (location scene) "unspecified";
        "- Time: " ++ withFallback (timeOfDay scene) "day" ].

Definition characterSection (characters : list CharacterInput) : string :=
lines [ "CHARACTERS (match the reference images exactly):";
        lines (map characterLine characters) ].

Definition descriptionSection (scene : SceneInput) : string :=
lines [ "SCENE DESCRIPTION:";
        withFallback (visualDescription scene) "No description" ].

Definition closingBlock : string :=
lines [ "CRITICAL REQUIREMENTS:";
        "- Characters MUST match the provided reference images exactly";
        "- Maintain consistent facial features, hair style, and body proportions";
        "- Follow the specified art style strictly";
        "- High quality, professional composition" ].

(** The modifier phrase of the style, then the sections, a blank line
    between each two. *)
Definition generatedPrompt (modifierPhrase : string) (scene : SceneInput)
    (characters : list CharacterInput) : string :=
modifierPhrase ++ JS.LF ++ JS.LF
  ++ sceneSection scene ++ JS.LF ++ JS.LF
  ++ characterSection characters ++ JS.LF ++ JS.LF
  ++ descriptionSection scene ++ JS.LF ++ JS.LF
  ++ closingBlock.

End PromptSpec.

(* ================================================================== *)
(** * The platform: [JSON.stringify], [JSON.parse] and [localStorage] *)
(* ================================================================== *)

(** The record store keeps its collections as JSON text.  [JSON.stringify]
    and [JSON.parse] belong to the platform, not to the repository; they are
    modelled here on the JSON-serializable values the store holds: strings
    are byte strings, numbers are integers, and an object is the list of its
    own properties in insertion order. *)

Module JSON.

Local Open Scope nat_scope.
Local Open Scope string_scope.

Unset Elimination Schemes.
Inductive value :=
| Null
| Bool (b : bool)
| Number (z : Z)
| Str (s : string)
| Array (elements : list value)
| Object (members : list (string * value)).
Set Elimination Schemes.

Definition quote : ascii := ascii_of_nat 34.
Definition backslash : ascii := ascii_of_nat 92.

Definition hex_digit (n : nat) : ascii :=
  if (n <? 10)%nat then ascii_of_nat (48 + n) else ascii_of_nat (87 + n).

Definition hex_value (c : ascii) : option nat :=
  let n := nat_of_ascii c in
  if (48 <=? n)%nat && (n <=? 57)%nat then Some (n - 48)
  else if (97 <=? n)%nat && (n <=? 102)%nat then Some (n - 87)
  else if (65 <=? n)%nat && (n <=? 70)%nat then Some (n - 55)
  else None.

(** [QuoteJSONString]: the escape of one code unit. *)
Definition escape_char (c : ascii) : string :=
  let n := nat_of_ascii c in
  if (n =? 34)%nat then String backslash (String quote "")
  else if (n =? 92)%nat then String backslash (String backslash "")
  else if (n =? 8)%nat then String backslash "b"
  else if (n =? 12)%nat then String backslash "f"
  else if (n =? 10)%nat then String backslash "n"
  else if (n =? 13)%nat then String backslash "r"
  else if (n =? 9)%nat then String backslash "t"
  else if (n <? 32)%nat then
    String backslash
      (String "u" (String "0" (String "0"
         (String (hex_digit (n / 16)) (String (hex_digit (n mod 16)) "")))))
  else String c "".

Fixpoint escape (s : string) : string :=
  match s with
  | EmptyString => ""
  | String c rest => escape_char c ++ escape rest
  end.

Definition quoted (s : string) : string :=
  String quote (escape s ++ String quote "").

Definition number_text (z : Z) : string :=
  if (z <? 0)%Z then String "-" (JS.decimal (Z.abs_N z))
  else JS.decimal (Z.to_N z).

Fixpoint stringify (v : value) : string :=
  match v with
  | Null => "null"
  | Bool true => "true"
  | Bool false => "false"
  | Number z => number_text z
  | Str s => quoted s
  | Array elements =>
      "[" ++ (fix elems (l : list value) : string :=
                match l with
                | [] => "]"
                | [x] => stringify x ++ "]"
                | x :: rest => stringify x ++ "," ++ elems rest
                end) elements
  | Object members =>
      "{" ++ (fix membs (l : list (string * value)) : string :=
                match l with
                | [] => "}"
                | [(k, x)] => quoted k ++ ":" ++ stringify x ++ "}"
                | (k, x) :: rest =>
                    quoted k ++ ":" ++ stringify x ++ "," ++ membs rest
                end) members
  end.

(** ** Parsing *)

Definition is_ws (c : ascii) : bool :=
  let n := nat_of_ascii c in
  (n =? 32)%nat || (n =? 9)%nat || (n =? 10)%nat || (n =? 13)%nat.

Definition is_digit (c : ascii) : bool :=
  let n := nat_of_ascii c in (48 <=? n)%nat && (n <=? 57)%nat.

Fixpoint skip_ws (s : string) : string :=
  match s with
  | String c rest => if is_ws c then skip_ws rest else s
  | EmptyString => s
  end.

(** The UTF-8 bytes of a code point below 65536. *)
Definition utf8 (n : nat) : string :=
  if (n <? 128)%nat then String (ascii_of_nat n) ""
  else if (n <? 2048)%nat then
    String (ascii_of_nat (192 + n / 64)) (String (ascii_of_nat (128 + n mod 64)) "")
  else
    String (ascii_of_nat (224 + n / 4096))
      (String (ascii_of_nat (128 + (n / 64) mod 64))
         (String (ascii_of_nat (128 + n mod 64)) "")).

Definition unescape (c : ascii) : option ascii :=
  let n := nat_of_ascii c in
  if (n =? 34)%nat then Some quote
  else if (n =? 92)%nat then Some backslash
  else if (n =? 47)%nat then Some "/"%char
  else if (n =? 98)%nat then Some (ascii_of_nat 8)
  else if (n =? 102)%nat then Some (ascii_of_nat 12)
  else if (n =? 110)%nat then Some (ascii_of_nat 10)
  else if (n =? 114)%nat then Some (ascii_of_nat 13)
  else if (n =? 116)%nat then Some (ascii_of_nat 9)
  else None.

Definition hex4 (a b c d : ascii) : option nat :=
  match hex_value a, hex_value b, hex_value c, hex_value d with
  | Some x, Some y, Some z, Some w => Some (((x * 16 + y) * 16 + z) * 16 + w)
  | _, _, _, _ => None
  end.

(** The characters of a string literal after its opening quote; the result
    is the string and the text after the closing quote. *)
Fixpoint parse_chars (s : string) : option (string * string) :=
  match s with
  | EmptyString => None
  | String c rest =>
      if Ascii.eqb c quote then Some ("", rest)
      else if Ascii.eqb c backslash then
        match rest with
        | String e rest1 =>
            if Ascii.eqb e "u" then
              match rest1 with
              | String h1 (String h2 (String h3 (String h4 rest2))) =>
                  match hex4 h1 h2 h3 h4, parse_chars rest2 with
                  | Some n, Some (t, r) => Some (utf8 n ++ t, r)
                  | _, _ => None
                  end
              | _ => None
              end
            else
              match unescape e, parse_chars rest1 with
              | Some c', Some (t, r) => Some (String c' t, r)
              | _, _ => None
              end
        | EmptyString => None
        end
      else if (nat_of_ascii c <? 32)%nat then None
      else
        match parse_chars rest with
        | Some (t, r) => Some (String c t, r)
        | None => None
        end
  end.

(** The longest prefix of digits and what follows it. *)
Fixpoint span_digits (s : string) : string * string :=
  match s with
  | String c rest =>
      if is_digit c then
        let (d, r) := span_digits rest in (String c d, r)
      else ("", s)
  | EmptyString => ("", "")
  end.

Definition starts_number_tail (s : string) : bool :=
  match s with
  | String c _ =>
      is_digit c || Ascii.eqb c "." || Ascii.eqb c "e" || Ascii.eqb c "E"
  | EmptyString => false
  end.

(** An integer literal without sign: no leading zero, and neither a
    fraction nor an exponent follows (those lie outside the model). *)
Definition parse_digits (s : string) : option (N * string) :=
  let (d, r) := span_digits s in
  match d with
  | EmptyString => None
  | String c more =>
      if Ascii.eqb c "0" && negb (String.eqb more "") then None
      else if starts_number_tail r then None
      else
        match NilZero.uint_of_string d with
        | Some u => Some (N.of_uint u, r)
        | None => None
        end
  end.

Definition parse_number (s : string) : option (value * string) :=
  match s with
  | String c rest =>
      if Ascii.eqb c "-" then
        match parse_digits rest with
        | Some (n, r) => Some (Number (- Z.of_N n), r)
        | None => None
        end
      else
        match parse_digits s with
        | Some (n, r) => Some (Number (Z.of_N n), r)
        | None => None
        end
  | EmptyString => None
  end.

(** [expect lit s]: [s] without its prefix [lit]. *)
Fixpoint expect (lit s : string) : option string :=
  match lit, s with
  | EmptyString, _ => Some s
  | String a lit', String b s' => if Ascii.eqb a b then expect lit' s' else None
  | String _ _, EmptyString => None
  end.

(** The text after the first character of [s] when that is [c]. *)
Definition starts_with (c : ascii) (s : string) : option string :=
  match s with
  | String c' r => if Ascii.eqb c' c then Some r else None
  | EmptyString => None
  end.

(** The number of nested calls that parsing the text of a value takes. *)
Fixpoint size (v : value) : nat :=
  match v with
  | Array elements =>
      S ((fix sizes (l : list value) : nat :=
            match l with
            | [] => 0
            | x :: rest => S (size x + sizes rest)
            end) elements)
  | Object members =>
      S ((fix sizes (l : list (string * value)) : nat :=
            match l with
            | [] => 0
            | (_, x) :: rest => S (size x + sizes rest)
            end) members)
  | _ => 1
  end.

Fixpoint parse_value (fuel : nat) (s : string) {struct fuel}
  : option (value * string) :=
  match fuel with
  | O => None
  | S n =>
      match skip_ws s with
      | EmptyString => None
      | String c rest =>
          if Ascii.eqb c "[" then
            match starts_with "]" (skip_ws rest) with
            | Some r => Some (Array [], r)
            | None =>
                match parse_elements n rest with
                | Some (l, r) => Some (Array l, r)
                | None => None
                end
            end
          else if Ascii.eqb c "{" then
            match starts_with "}" (skip_ws rest) with
            | Some r => Some (Object [], r)
            | None =>
                match parse_members n rest with
                | Some (l, r) => Some (Object l, r)
                | None => None
                end
            end
          else if Ascii.eqb c quote then
            match parse_chars rest with
            | Some (t, r) => Some (Str t, r)
            | None => None
            end
          else if Ascii.eqb c "n" then
            option_map (fun r => (Null, r)) (expect "ull" rest)
          else if Ascii.eqb c "t" then
            option_map (fun r => (Bool true, r)) (expect "rue" rest)
          else if Ascii.eqb c "f" then
            option_map (fun r => (Bool false, r)) (expect "alse" rest)
          else parse_number (String c rest)
      end
  end

(** [value (, value)* ]] *)
with parse_elements (fuel : nat) (s : string) {struct fuel}
  : option (list value * string) :=
  match fuel with
  | O => None
  | S n =>
      match parse_value n s with
      | Some (v, r) =>
          match skip_ws r with
          | String c r' =>
              if Ascii.eqb c "," then
                match parse_elements n r' with
                | Some (l, r'') => Some (v :: l, r'')
                | None => None
                end
              else if Ascii.eqb c "]" then Some ([v], r')
              else None
          | EmptyString => None
          end
      | None => None
      end
  end

(** [string : value (, string : value)* }] *)
with parse_members (fuel : nat) (s : string) {struct fuel}
  : option (list (string * value) * string) :=
  match fuel with
  | O => None
  | S n =>
      match skip_ws s with
      | String q afterq =>
          if Ascii.eqb q quote then
            match parse_chars afterq with
            | Some (k, r0) =>
                match skip_ws r0 with
                | String colon r1 =>
                    if Ascii.eqb colon ":" then
                      match parse_value n r1 with
                      | Some (v, r) =>
                          match skip_ws r with
                          | String c r' =>
                              if Ascii.eqb c "," then
                                match parse_members n r' with
                                | Some (l, r'') => Some ((k, v) :: l, r'')
                                | None => None
                                end
                              else if Ascii.eqb c "}" then Some ([(k, v)], r')
                              else None
                          | EmptyString => None
                          end
                      | None => None
                      end
                    else None
                | EmptyString => None
                end
            | None => None
            end
          else None
      | EmptyString => None
      end
  end.

(** [JSON.parse]: one value, then only white space.  [None] is the
    [SyntaxError] it throws. *)
Definition parse (s : string) : option value :=
  match parse_value (S (String.length s)) s with
  | Some (v, r) =>
      match skip_ws r with
      | EmptyString => Some v
      | String _ _ => None
      end
  | None => None
  end.

(** Induction over a value and, through [Forall], over its children. *)
Fixpoint value_ind (P : value -> Prop)
    (HNull : P Null) (HBool : forall b, P (Bool b))
    (HNumber : forall z, P (Number z)) (HStr : forall s, P (Str s))
    (HArray : forall l, Forall P l -> P (Array l))
    (HObject : forall l, Forall (fun kv => P (snd kv)) l -> P (Object l))
    (v : value) {struct v} : P v :=
  let rec := value_ind HNull HBool HNumber HStr HArray HObject in
  match v with
  | Null => HNull
  | Bool b => HBool b
  | Number z => HNumber z
  | Str s => HStr s
  | Array l =>
      HArray l
        ((fix all (l : list value) : Forall P l :=
            match l with
            | [] => Forall_nil P
            | x :: r => Forall_cons x (rec x) (all r)
            end) l)
  | Object l =>
      HObject l
        ((fix all (l : list (string * value))
            : Forall (fun kv => P (snd kv)) l :=
            match l with
            | [] => Forall_nil _
            | kv :: r => Forall_cons kv (rec (snd kv)) (all r)
            end) l)
  end.

(** The two local loops of [stringify], named. *)
Fixpoint elems (l : list value) : string :=
  match l with
  | [] => "]"
  | [x] => stringify x ++ "]"
  | x :: rest => stringify x ++ "," ++ elems rest
  end.

Fixpoint membs (l : list (string * value)) : string :=
  match l with
  | [] => "}"
  | [(k, x)] => quoted k ++ ":" ++ stringify x ++ "}"
  | (k, x) :: rest => quoted k ++ ":" ++ stringify x ++ "," ++ membs rest
  end.

(** The characters a value may start with. *)
Definition value_start (c : ascii) : bool :=
  (is_digit c || Ascii.eqb c "-" || Ascii.eqb c quote || Ascii.eqb c "["
   || Ascii.eqb c "{" || Ascii.eqb c "n" || Ascii.eqb c "t" || Ascii.eqb c "f")%bool.

Fixpoint sizes (l : list value) : nat :=
  match l with
  | [] => 0
  | x :: rest => S (size x + sizes rest)
  end.

Fixpoint msizes (l : list (string * value)) : nat :=
  match l with
  | [] => 0
  | (_, x) :: rest => S (size x + msizes rest)
  end.

(** What the round trip says of one value. *)
Definition parses_back (v : value) : Prop :=
  forall fuel rest,
    size v <= fuel -> starts_number_tail rest = false ->
    parse_value fuel (stringify v ++ rest) = Some (v, rest).

End JSON.

(* ================================================================== *)
(** * The records as JSON values *)
(* ================================================================== *)

(** TypeScript erases its types: a [Script], [Character] or [Scene] is the
    JavaScript object with those properties.  [to_json] builds that object
    (a property whose value is [undefined] is dropped by [JSON.stringify]),
    [of_json] reads the properties back by name, as the property accesses
    of the sources do. *)

Module Codec.
Import JSON.

Class Serializable (T : Type) := {
  to_json : T -> value;
  of_json : value -> option T
}.

Definition obind {A B} (o : option A) (f : A -> option B) : option B :=
  match o with Some a => f a | None => None end.

Notation "'let?' x ':=' e 'in' k" := (obind e (fun x => k))
  (at level 10, x name, e at level 100, k at level 200).

(** [o[k]]: with a repeated key the last member wins, as in [JSON.parse]. *)
Definition get (k : string) (members : list (string * value)) : option value :=
  fold_left
    (fun acc kv => if String.eqb (fst kv) k then Some (snd kv) else acc)
    members None.

Definition optional (k : string) (o : option value) : list (string * value) :=
  match o with Some v => [(k, v)] | None => [] end.

Definition as_object (v : value) : option (list (string * value)) :=
  match v with Object m => Some m | _ => None end.

Definition as_string (v : value) : option string :=
  match v with Str s => Some s | _ => None end.

Definition as_number (v : value) : option Z :=
  match v with Number z => Some z | _ => None end.

Fixpoint as_list {T} (f : value -> option T) (l : list value) : option (list T) :=
  match l with
  | [] => Some []
  | x :: rest =>
      let? a := f x in
      let? b := as_list f rest in
      Some (a :: b)
  end.

Definition as_array {T} (f : value -> option T) (v : value) : option (list T) :=
  match v with Array l => as_list f l | _ => None end.

(** A property that the record type requires. *)
Definition required {T} (f : value -> option T) (k : string)
    (m : list (string * value)) : option T :=
  let? v := get k m in f v.

(** A property declared with [?]: absent means [undefined]. *)
Definition opt {T} (f : value -> option T) (k : string)
    (m : list (string * value)) : option (option T) :=
  match get k m with
  | Some v => let? a := f v in Some (Some a)
  | None => Some None
  end.

#[export] Instance Serializable_string : Serializable string :=
  {| to_json := Str; of_json := as_string |}.

#[export] Instance Serializable_list {T} `{Serializable T} : Serializable (list T) :=
  {| to_json := fun l => Array (map to_json l);
     of_json := as_array of_json |}.

(** *** Script *)

Definition script_status_text (st : ScriptStatus.t) : string :=
  match st with
  | ScriptStatus.draft => "draft"
  | ScriptStatus.analyzing => "analyzing"
  | ScriptStatus.ready => "ready"
  | ScriptStatus.generating => "generating"
  | ScriptStatus.completed => "completed"
  end.

Definition as_script_status (v : value) : option ScriptStatus.t :=
  let? s := as_string v in
  if String.eqb s "draft" then Some ScriptStatus.draft
  else if String.eqb s "analyzing" then Some ScriptStatus.analyzing
  else if String.eqb s "ready" then Some ScriptStatus.ready
  else if String.eqb s "generating" then Some ScriptStatus.generating
  else if String.eqb s "completed" then Some ScriptStatus.completed
  else None.

Definition script_to_json (s : Script.t) : value :=
  Object
    ([ ("id", Str (Script.id s));
       ("title", Str (Script.title s));
       ("rawContent", Str (Script.rawContent s)) ]
     ++ optional "genre" (option_map Str (Script.genre s))
     ++ optional "styleGuide" (option_map Str (Script.styleGuide s))
     ++ [ ("status", Str (script_status_text (Script.status s)));
          ("createdAt", Str (Script.createdAt s));
          ("updatedAt", Str (Script.updatedAt s)) ]).

Definition script_of_json (v : value) : option Script.t :=
  let? m := as_object v in
  let? id := required as_string "id" m in
  let? title := required as_string "title" m in
  let? rawContent := required as_string "rawContent" m in
  let? genre := opt as_string "genre" m in
  let? styleGuide := opt as_string "styleGuide" m in
  let? status := required as_script_status "status" m in
  let? createdAt := required as_string "createdAt" m in
  let? updatedAt := required as_string "updatedAt" m in
  Some (Script.mk id title rawContent genre styleGuide status createdAt updatedAt).

#[export] Instance Serializable_Script : Serializable Script.t :=
  {| to_json := script_to_json; of_json := script_of_json |}.

(** *** Appearance and Character *)

Definition appearance_to_json (a : Appearance.t) : value :=
  Object
    (optional "age" (option_map Str (Appearance.age a))
     ++ optional "gender" (option_map Str (Appearance.gender a))
     ++ optional "height" (option_map Str (Appearance.height a))
     ++ optional "hair" (option_map Str (Appearance.hair a))
     ++ optional "face" (option_map Str (Appearance.face a))
     ++ optional "skinTone" (option_map Str (Appearance.skinTone a))
     ++ optional "features"
          (option_map (fun l => Array (map Str l)) (Appearance.features a))).

Definition appearance_of_json (v : value) : option Appearance.t :=
  let? m := as_object v in
  let? age := opt as_string "age" m in
  let? gender := opt as_string "gender" m in
  let? height := opt as_string "height" m in
  let? hair := opt as_string "hair" m in
  let? face := opt as_string "face" m in
  let? skinTone := opt as_string "skinTone" m in
  let? features := opt (as_array as_string) "features" m in
  Some (Appearance.mk age gender height hair face skinTone features).

Definition character_to_json (c : Character.t) : value :=
  Object
    ([ ("id", Str (Character.id c));
       ("scriptId", Str (Character.scriptId c));
       ("name", Str (Character.name c));
       ("appearance", appearance_to_json (Character.appearance c)) ]
     ++ optional "defaultOutfit" (option_map Str (Character.defaultOutfit c))
     ++ [ ("referenceImages", Array (map Str (Character.referenceImages c))) ]
     ++ optional "selectedImage" (option_map Str (Character.selectedImage c))
     ++ optional "basePrompt" (option_map Str (Character.basePrompt c))
     ++ [ ("createdAt", Str (Character.createdAt c));
          ("updatedAt", Str (Character.updatedAt c)) ]).

Definition character_of_json (v : value) : option Character.t :=
  let? m := as_object v in
  let? id := required as_string "id" m in
  let? scriptId := required as_string "scriptId" m in
  let? name := required as_string "name" m in
  let? appearance := required appearance_of_json "appearance" m in
  let? defaultOutfit := opt as_string "defaultOutfit" m in
  let? referenceImages := required (as_array as_string) "referenceImages" m in
  let? selectedImage := opt as_string "selectedImage" m in
  let? basePrompt := opt as_string "basePrompt" m in
  let? createdAt := required as_string "createdAt" m in
  let? updatedAt := required as_string "updatedAt" m in
  Some (Character.mk id scriptId name appearance defaultOutfit referenceImages
          selectedImage basePrompt createdAt updatedAt).

#[export] Instance Serializable_Character : Serializable Character.t :=
  {| to_json := character_to_json; of_json := character_of_json |}.

(** *** Scene *)

Definition scene_status_text (st : SceneStatus.t) : string :=
  match st with
  | SceneStatus.pending => "pending"
  | SceneStatus.generating => "generating"
  | SceneStatus.completed => "completed"
  | SceneStatus.failed => "failed"
  end.

Definition as_scene_status (v : value) : option SceneStatus.t :=
  let? s := as_string v in
  if String.eqb s "pending" then Some SceneStatus.pending
  else if String.eqb s "generating" then Some SceneStatus.generating
  else if String.eqb s "completed" then Some SceneStatus.completed
  else if String.eqb s "failed" then Some SceneStatus.failed
  else None.

Definition scene_to_json (s : Scene.t) : value :=
  Object
    ([ ("id", Str (Scene.id s));
       ("scriptId", Str (Scene.scriptId s));
       ("sceneNumber", Number (Scene.sceneNumber s)) ]
     ++ optional "title" (option_map Str (Scene.title s))
     ++ optional "location" (option_map Str (Scene.location s))
     ++ optional "timeOfDay" (option_map Str (Scene.timeOfDay s))
     ++ [ ("originalText", Str (Scene.originalText s)) ]
     ++ optional "visualDescription" (option_map Str (Scene.visualDescription s))
     ++ optional "generatedPrompt" (option_map Str (Scene.generatedPrompt s))
     ++ optional "userEditedPrompt" (option_map Str (Scene.userEditedPrompt s))
     ++ [ ("characterIds", Array (map Str (Scene.characterIds s)));
          ("generatedImages", Array (map Str (Scene.generatedImages s))) ]
     ++ optional "selectedImage" (option_map Str (Scene.selectedImage s))
     ++ [ ("status", Str (scene_status_text (Scene.status s)));
          ("createdAt", Str (Scene.createdAt s));
          ("updatedAt", Str (Scene.updatedAt s)) ]).

Definition scene_of_json (v : value) : option Scene.t :=
  let? m := as_object v in
  let? id := required as_string "id" m in
  let? scriptId := required as_string "scriptId" m in
  let? sceneNumber := required as_number "sceneNumber" m in
  let? title := opt as_string "title" m in
  let? location := opt as_string "location" m in
  let? timeOfDay := opt as_string "timeOfDay" m in
  let? originalText := required as_string "originalText" m in
  let? visualDescription := opt as_string "visualDescription" m in
  let? generatedPrompt := opt as_string "generatedPrompt" m in
  let? userEditedPrompt := opt as_string "userEditedPrompt" m in
  let? characterIds := required (as_array as_string) "characterIds" m in
  let? generatedImages := required (as_array as_string) "generatedImages" m in
  let? selectedImage := opt as_string "selectedImage" m in
  let? status := required as_scene_status "status" m in
  let? createdAt := required as_string "createdAt" m in
  let? updatedAt := required as_string "updatedAt" m in
  Some (Scene.mk id scriptId sceneNumber title location timeOfDay originalText
          visualDescription generatedPrompt userEditedPrompt characterIds
          generatedImages selectedImage status createdAt updatedAt).

#[export] Instance Serializable_Scene : Serializable Scene.t :=
  {| to_json := scene_to_json; of_json := scene_of_json |}.

(** What a lawful [Serializable] instance satisfies. *)
Definition lawful (T : Type) {S : Serializable T} : Prop :=
  forall x : T, of_json (to_json x) = Some x.
Arguments lawful T {S}.

End Codec.

(* ================================================================== *)
(** * The browser around the application *)
(* ================================================================== *)

(** What a call may throw: the [SyntaxError] of [JSON.parse], a [TypeError]
    (also used when stored text does not hold a value of the record type
    that the caller casts it to, which the typed model cannot represent),
    an [Error] with its message, or a value that is not an [Error]. *)
Inductive exn :=
| SyntaxError
| TypeError
| Error (message : string)
| NotAnError.

Inductive result (A : Type) :=
| Ok (a : A)
| Throw (e : exn).
Arguments Ok {A} a.
Arguments Throw {A} e.

(** [err instanceof Error ? err.message : fallback].  The message text of
    an error raised by the engine differs between engines; its name stands
    for it. *)
Definition messageOr (fallback : string) (e : exn) : string :=
match e with
| SyntaxError => "SyntaxError"
| TypeError => "TypeError"
| Error message => message
| NotAnError => fallback
end.

(** The reply of the external model to [generateContent]. *)
Module GenAI.
Record InlineData := mkInlineData {
  mimeType : option string;
  data : option string
}.
Record Part := mkPart {
  text : option string;
  inlineData : option InlineData
}.
Record Candidate := mkCandidate {
  parts : option (list Part)      (* [content?.parts] *)
}.
Record Response := mkResponse {
  candidates : option (list Candidate)
}.
End GenAI.

(** Predicates on the characters of a text, for the statements about
    texts. *)
Module Text.

Fixpoint every (p : ascii -> bool) (s : string) : bool :=
  match s with
  | EmptyString => true
  | String c rest => p c && every p rest
  end.

(** The text has no occurrence of the character. *)
Definition without (c : ascii) (s : string) : bool :=
  every (fun x => negb (Ascii.eqb x c)) s.

End Text.

Module Browser.

(** [localStorage]: [getItem] answers [null] ([None]) for an absent key. *)
Definition storage := string -> option string.

Definition getItem (k : string) (st : storage) : option string := st k.

Definition setItem (k v : string) (st : storage) : storage :=
  fun k' => if String.eqb k' k then Some v else st k'.

(** A record of one IndexedDB object store of the blob store. *)
Record ImageRecord := mkImage {
  imageId : string;
  ownerId : string;
  imageIndex : nat;
  data : string;
  createdAt : string
}.

(** What the program cannot decide, each as the sequence of the values
    that successive calls return: the clock, the random identifiers and
    the replies of the external model; and the key of the build
    environment. *)
Record Env := mkEnv {
  clock : nat -> N;
  uuid : nat -> string;
  model : nat -> result GenAI.Response;
  VITE_GOOGLE_API_KEY : option string
}.

(** The state of the mounted page (the [useState] cells of the pages).
    The progress counters ([generatingProgress], [progress]) only feed the
    labels of the buttons and are left out. *)
Record UI := mkUI {
  error : string;
  isAnalyzing : bool;
  generating : option string;
  imageCache : string -> option string;
  charImageCache : string -> option string;
  selectedStyle : Gemini.ImageStyle;
  script : option Script.t;
  characters : list Character.t;
  scenes : list Scene.t;
  navigated : option string
}.

(** The state of the browser. *)
Record World := mkWorld {
  localStorage : storage;
  images : list ImageRecord;            (* object store 'images' *)
  characterImages : list ImageRecord;   (* object store 'character-images' *)
  env : Env;
  ticks : nat;                          (* readings of the clock so far *)
  uuids : nat;                          (* identifiers drawn so far *)
  calls : nat;                          (* calls of the model so far *)
  ui : UI
}.

Definition with_localStorage (st : storage) (w : World) : World :=
  mkWorld st (images w) (characterImages w) (env w) (ticks w) (uuids w)
    (calls w) (ui w).

Definition with_images (l : list ImageRecord) (w : World) : World :=
  mkWorld (localStorage w) l (characterImages w) (env w) (ticks w) (uuids w)
    (calls w) (ui w).

Definition with_characterImages (l : list ImageRecord) (w : World) : World :=
  mkWorld (localStorage w) (images w) l (env w) (ticks w) (uuids w)
    (calls w) (ui w).

Definition with_ticks (n : nat) (w : World) : World :=
  mkWorld (localStorage w) (images w) (characterImages w) (env w) n (uuids w)
    (calls w) (ui w).

Definition with_uuids (n : nat) (w : World) : World :=
  mkWorld (localStorage w) (images w) (characterImages w) (env w) (ticks w) n
    (calls w) (ui w).

Definition with_calls (n : nat) (w : World) : World :=
  mkWorld (localStorage w) (images w) (characterImages w) (env w) (ticks w)
    (uuids w) n (ui w).

Definition with_ui (u : UI) (w : World) : World :=
  mkWorld (localStorage w) (images w) (characterImages w) (env w) (ticks w)
    (uuids w) (calls w) u.

(** Computations on the world that may throw; the world survives a throw. *)
Definition M (A : Type) := World -> result A * World.

Definition ret {A} (a : A) : M A := fun w => (Ok a, w).

Definition bind {A B} (m : M A) (f : A -> M B) : M B :=
  fun w =>
    match m w with
    | (Ok a, w') => f a w'
    | (Throw e, w') => (Throw e, w')
    end.

Definition throw {A} (e : exn) : M A := fun w => (Throw e, w).

(** [try { body } catch (err) { handler(err) }] *)
Definition try_catch {A} (body : M A) (handler : exn -> M A) : M A :=
  fun w =>
    match body w with
    | (Ok a, w') => (Ok a, w')
    | (Throw e, w') => handler e w'
    end.

(** [Date.now()] *)
Definition Date_now : M N :=
  fun w => (Ok (clock (env w) (ticks w)), with_ticks (S (ticks w)) w).

(** [uuidv4()] *)
Definition uuidv4 : M string :=
  fun w => (Ok (uuid (env w) (uuids w)), with_uuids (S (uuids w)) w).

(** The page state: reading it, and one setter per cell. *)
Definition getUI : M UI := fun w => (Ok (ui w), w).

Definition setUI (f : UI -> UI) : M unit := fun w => (Ok tt, with_ui (f (ui w)) w).

Definition setError (message : string) : M unit :=
  setUI (fun u => mkUI message (isAnalyzing u) (generating u) (imageCache u)
                    (charImageCache u) (selectedStyle u) (script u) (characters u)
                    (scenes u) (navigated u)).

Definition setIsAnalyzing (b : bool) : M unit :=
  setUI (fun u => mkUI (error u) b (generating u) (imageCache u)
                    (charImageCache u) (selectedStyle u) (script u) (characters u)
                    (scenes u) (navigated u)).

Definition setGenerating (g : option string) : M unit :=
  setUI (fun u => mkUI (error u) (isAnalyzing u) g (imageCache u)
                    (charImageCache u) (selectedStyle u) (script u) (characters u)
                    (scenes u) (navigated u)).

(** [setImageCache(prev => ({ ...prev, ...cache }))] *)
Definition setImageCache (cache : string -> option string) : M unit :=
  setUI (fun u => mkUI (error u) (isAnalyzing u) (generating u)
                    (fun k => match cache k with Some v => Some v | None => imageCache u k end)
                    (charImageCache u) (selectedStyle u) (script u) (characters u)
                    (scenes u) (navigated u)).

Definition setCharImageCache (cache : string -> option string) : M unit :=
  setUI (fun u => mkUI (error u) (isAnalyzing u) (generating u) (imageCache u)
                    (fun k => match cache k with Some v => Some v | None => charImageCache u k end)
                    (selectedStyle u) (script u) (characters u) (scenes u) (navigated u)).

Definition setCharacters (l : list Character.t) : M unit :=
  setUI (fun u => mkUI (error u) (isAnalyzing u) (generating u) (imageCache u)
                    (charImageCache u) (selectedStyle u) (script u) l (scenes u)
                    (navigated u)).

Definition setScenes (l : list Scene.t) : M unit :=
  setUI (fun u => mkUI (error u) (isAnalyzing u) (generating u) (imageCache u)
                    (charImageCache u) (selectedStyle u) (script u) (characters u) l
                    (navigated u)).

Definition setScript (x : option Script.t) : M unit :=
  setUI (fun u => mkUI (error u) (isAnalyzing u) (generating u) (imageCache u)
                    (charImageCache u) (selectedStyle u) x (characters u) (scenes u)
                    (navigated u)).

Definition navigate (path : string) : M unit :=
  setUI (fun u => mkUI (error u) (isAnalyzing u) (generating u) (imageCache u)
                    (charImageCache u) (selectedStyle u) (script u) (characters u)
                    (scenes u) (Some path)).

(** [try { body } finally { cleanup }] *)
Definition try_finally {A} (body : M A) (cleanup : M unit) : M A :=
  fun w =>
    match body w with
    | (r, w') =>
        match cleanup w' with
        | (Ok _, w'') => (r, w'')
        | (Throw e, w'') => (Throw e, w'')
        end
    end.

(** Decimal digits of [n], padded with zeros to [width] characters. *)
Definition pad (width : nat) (n : N) : string :=
  let d := JS.decimal n in
  (fix zeros (k : nat) : string :=
     match k with O => d | S k' => String "0" (zeros k') end)
    (width - String.length d).

(** [Date.prototype.toISOString] of a time in milliseconds since the epoch
    (days to a civil date in the proleptic Gregorian calendar). *)
Definition toISOString (ms : N) : string :=
  let days := (ms / 86400000)%N in
  let rest := (ms mod 86400000)%N in
  let z := (days + 719468)%N in
  let era := (z / 146097)%N in
  let doe := (z mod 146097)%N in
  let yoe := ((doe - doe / 1460 + doe / 36524 - doe / 146096) / 365)%N in
  let doy := (doe - (365 * yoe + yoe / 4 - yoe / 100))%N in
  let mp := ((5 * doy + 2) / 153)%N in
  let d := (doy - (153 * mp + 2) / 5 + 1)%N in
  let m := (if mp <? 10 then mp + 3 else mp - 9)%N in
  let y := (yoe + era * 400 + (if m <=? 2 then 1 else 0))%N in
  (if (y <=? 9999)%N then pad 4 y else String "+" (pad 6 y))
    ++ "-" ++ pad 2 m ++ "-" ++ pad 2 d
    ++ "T" ++ pad 2 (rest / 3600000)%N
    ++ ":" ++ pad 2 ((rest / 60000) mod 60)%N
    ++ ":" ++ pad 2 ((rest / 1000) mod 60)%N
    ++ "." ++ pad 3 (rest mod 1000)%N ++ "Z".

(** [new Date().toISOString()] *)
Definition Date_toISOString : M string :=
  bind Date_now (fun ms => ret (toISOString ms)).

(** Projections of a world that was built by the setters, computed. *)
Ltac norm_world :=
  cbn [localStorage images characterImages env ticks uuids calls ui
       with_localStorage with_images with_characterImages with_ticks
       with_uuids with_calls with_ui
       error isAnalyzing generating imageCache charImageCache selectedStyle
       script characters scenes navigated] in *.

End Browser.

Declare Scope world_scope.
Delimit Scope world_scope with world.
Notation "x <- m ;; k" := (Browser.bind m (fun x => k))
  (at level 61, m at next level, right associativity) : world_scope.
Notation "m ;;; k" := (Browser.bind m (fun _ => k))
  (at level 61, right associativity) : world_scope.

(* ================================================================== *)
(** * [Partial<T>]: the updates of a record *)
(* ================================================================== *)

(** A key of a [Partial<T>] is present ([Some v]) or absent ([None]); a
    present key of an optional property may hold [undefined] ([Some None]).
    [apply old updates] is the spread [{ ...old, ...updates }]. *)

Definition over {A} (update : option A) (old : A) : A :=
  match update with Some v => v | None => old end.

Module ScriptPatch.
Record t := mk {
  id : option string;
  title : option string;
  rawContent : option string;
  genre : option (option string);
  styleGuide : option (option string);
  status : option ScriptStatus.t;
  createdAt : option string;
  updatedAt : option string
}.
Definition empty : t := mk None None None None None None None None.
Definition apply (old : Script.t) (u : t) : Script.t :=
  Script.mk
    (over (id u) (Script.id old)) (over (title u) (Script.title old))
    (over (rawContent u) (Script.rawContent old))
    (over (genre u) (Script.genre old))
    (over (styleGuide u) (Script.styleGuide old))
    (over (status u) (Script.status old))
    (over (createdAt u) (Script.createdAt old))
    (over (updatedAt u) (Script.updatedAt old)).
Definition with_updatedAt (now : string) (s : Script.t) : Script.t :=
  Script.mk (Script.id s) (Script.title s) (Script.rawContent s) (Script.genre s)
    (Script.styleGuide s) (Script.status s) (Script.createdAt s) now.
End ScriptPatch.

Module CharacterPatch.
Record t := mk {
  id : option string;
  scriptId : option string;
  name : option string;
  appearance : option Appearance.t;
  defaultOutfit : option (option string);
  referenceImages : option (list string);
  selectedImage : option (option string);
  basePrompt : option (option string);
  createdAt : option string;
  updatedAt : option string
}.
Definition empty : t := mk None None None None None None None None None None.
Definition apply (old : Character.t) (u : t) : Character.t :=
  Character.mk
    (over (id u) (Character.id old)) (over (scriptId u) (Character.scriptId old))
    (over (name u) (Character.name old))
    (over (appearance u) (Character.appearance old))
    (over (defaultOutfit u) (Character.defaultOutfit old))
    (over (referenceImages u) (Character.referenceImages old))
    (over (selectedImage u) (Character.selectedImage old))
    (over (basePrompt u) (Character.basePrompt old))
    (over (createdAt u) (Character.createdAt old))
    (over (updatedAt u) (Character.updatedAt old)).
Definition with_updatedAt (now : string) (c : Character.t) : Character.t :=
  Character.mk (Character.id c) (Character.scriptId c) (Character.name c)
    (Character.appearance c) (Character.defaultOutfit c)
    (Character.referenceImages c) (Character.selectedImage c)
    (Character.basePrompt c) (Character.createdAt c) now.
End CharacterPatch.

Module ScenePatch.
Record t := mk {
  id : option string;
  scriptId : option string;
  sceneNumber : option Z;
  title : option (option string);
  location : option (option string);
  timeOfDay : option (option string);
  originalText : option string;
  visualDescription : option (option string);
  generatedPrompt : option (option string);
  userEditedPrompt : option (option string);
  characterIds : option (list string);
  generatedImages : option (list string);
  selectedImage : option (option string);
  status : option SceneStatus.t;
  createdAt : option string;
  updatedAt : option string
}.
Definition empty : t :=
  mk None None None None None None None None None None None None None None
     None None.
Definition apply (old : Scene.t) (u : t) : Scene.t :=
  Scene.mk
    (over (id u) (Scene.id old)) (over (scriptId u) (Scene.scriptId old))
    (over (sceneNumber u) (Scene.sceneNumber old))
    (over (title u) (Scene.title old)) (over (location u) (Scene.location old))
    (over (timeOfDay u) (Scene.timeOfDay old))
    (over (originalText u) (Scene.originalText old))
    (over (visualDescription u) (Scene.visualDescription old))
    (over (generatedPrompt u) (Scene.generatedPrompt old))
    (over (userEditedPrompt u) (Scene.userEditedPrompt old))
    (over (characterIds u) (Scene.characterIds old))
    (over (generatedImages u) (Scene.generatedImages old))
    (over (selectedImage u) (Scene.selectedImage old))
    (over (status u) (Scene.status old))
    (over (createdAt u) (Scene.createdAt old))
    (over (updatedAt u) (Scene.updatedAt old)).
Definition with_updatedAt (now : string) (s : Scene.t) : Scene.t :=
  Scene.mk (Scene.id s) (Scene.scriptId s) (Scene.sceneNumber s) (Scene.title s)
    (Scene.location s) (Scene.timeOfDay s) (Scene.originalText s)
    (Scene.visualDescription s) (Scene.generatedPrompt s)
    (Scene.userEditedPrompt s) (Scene.characterIds s) (Scene.generatedImages s)
    (Scene.selectedImage s) (Scene.status s) (Scene.createdAt s) now.
End ScenePatch.

(* ================================================================== *)
(** * src/lib/storage.ts: the record store *)
(* ================================================================== *)

Module Storage.
Import Browser Codec.
Local Open Scope world_scope.

Definition STORAGE_PREFIX : string := "script-image-generator:".

Definition saveData {T} {S : Serializable T} (key : string) (data : T) : M unit :=
  fun w =>
    (Ok tt,
     with_localStorage
       (setItem (STORAGE_PREFIX ++ key) (JSON.stringify (to_json data))
          (localStorage w)) w).

(** [data ? JSON.parse(data) : null]; the text [null] parses to [null]. *)
Definition loadData {T} {S : Serializable T} (key : string) : M (option T) :=
  fun w =>
    match getItem (STORAGE_PREFIX ++ key) (localStorage w) with
    | Some data =>
        if String.eqb data "" then (Ok None, w)
        else
          match JSON.parse data with
          | Some JSON.Null => (Ok None, w)
          | Some v =>
              match of_json v with
              | Some x => (Ok (Some x), w)
              | None => (Throw TypeError, w)
              end
          | None => (Throw SyntaxError, w)
          end
    | None => (Ok None, w)
    end.

Definition saveApiKey (apiKey : string) : M unit := saveData "apiKey" apiKey.
Definition loadApiKey : M (option string) := loadData "apiKey".

(** *** Scripts *)

Definition loadScripts : M (list Script.t) :=
  data <- loadData "scripts" ;; ret (JS.or_empty data).

Definition saveScripts (scripts : list Script.t) : M unit :=
  saveData "scripts" scripts.

Definition getScript (id : string) : M (option Script.t) :=
  scripts <- loadScripts ;;
  ret (find (fun s => String.eqb (Script.id s) id) scripts).

Definition addScript (script : Script.t) : M unit :=
  scripts <- loadScripts ;; saveScripts (scripts ++ [script]).

Definition updateScript (id : string) (updates : ScriptPatch.t) : M unit :=
  scripts <- loadScripts ;;
  match JS.findIndex (fun s => String.eqb (Script.id s) id) scripts with
  | Some index =>
      match nth_error scripts index with
      | Some old =>
          now <- Date_toISOString ;;
          saveScripts
            (JS.set_at index
               (ScriptPatch.with_updatedAt now (ScriptPatch.apply old updates))
               scripts)
      | None => ret tt
      end
  | None => ret tt
  end.

(** *** Characters *)

Definition loadCharacters : M (list Character.t) :=
  data <- loadData "characters" ;; ret (JS.or_empty data).

Definition saveCharacters (characters : list Character.t) : M unit :=
  saveData "characters" characters.

Definition getCharactersByScript (scriptId : string) : M (list Character.t) :=
  characters <- loadCharacters ;;
  ret (filter (fun c => String.eqb (Character.scriptId c) scriptId) characters).

Definition getCharacter (id : string) : M (option Character.t) :=
  characters <- loadCharacters ;;
  ret (find (fun c => String.eqb (Character.id c) id) characters).

Definition addCharacter (character : Character.t) : M unit :=
  characters <- loadCharacters ;; saveCharacters (characters ++ [character]).

Definition updateCharacter (id : string) (updates : CharacterPatch.t) : M unit :=
  characters <- loadCharacters ;;
  match JS.findIndex (fun c => String.eqb (Character.id c) id) characters with
  | Some index =>
      match nth_error characters index with
      | Some old =>
          now <- Date_toISOString ;;
          saveCharacters
            (JS.set_at index
               (CharacterPatch.with_updatedAt now (CharacterPatch.apply old updates))
               characters)
      | None => ret tt
      end
  | None => ret tt
  end.

Definition deleteCharacter (id : string) : M unit :=
  characters <- loadCharacters ;;
  saveCharacters
    (filter (fun c => negb (String.eqb (Character.id c) id)) characters).

(** *** Scenes *)

Definition loadScenes : M (list Scene.t) :=
  data <- loadData "scenes" ;; ret (JS.or_empty data).

Definition saveScenes (scenes : list Scene.t) : M unit :=
  saveData "scenes" scenes.

(** [arr.sort((a, b) => a.sceneNumber - b.sceneNumber)]: the sort of the
    language is stable, and so is this insertion sort. *)
Fixpoint insertByNumber (x : Scene.t) (l : list Scene.t) : list Scene.t :=
  match l with
  | [] => [x]
  | y :: rest =>
      if (Scene.sceneNumber x <=? Scene.sceneNumber y)%Z then x :: y :: rest
      else y :: insertByNumber x rest
  end.

Definition sortByNumber (l : list Scene.t) : list Scene.t :=
  fold_right insertByNumber [] l.

(** The order of that sort. *)
Definition byNumber (a b : Scene.t) : Prop :=
  (Scene.sceneNumber a <= Scene.sceneNumber b)%Z.

Definition getScenesByScript (scriptId : string) : M (list Scene.t) :=
  scenes <- loadScenes ;;
  ret (sortByNumber
         (filter (fun s => String.eqb (Scene.scriptId s) scriptId) scenes)).

Definition getScene (id : string) : M (option Scene.t) :=
  scenes <- loadScenes ;;
  ret (find (fun s => String.eqb (Scene.id s) id) scenes).

Definition addScene (scene : Scene.t) : M unit :=
  scenes <- loadScenes ;; saveScenes (scenes ++ [scene]).

Definition updateScene (id : string) (updates : ScenePatch.t) : M unit :=
  scenes <- loadScenes ;;
  match JS.findIndex (fun s => String.eqb (Scene.id s) id) scenes with
  | Some index =>
      match nth_error scenes index with
      | Some old =>
          now <- Date_toISOString ;;
          saveScenes
            (JS.set_at index
               (ScenePatch.with_updatedAt now (ScenePatch.apply old updates))
               scenes)
      | None => ret tt
      end
  | None => ret tt
  end.

Definition deleteScene (id : string) : M unit :=
  scenes <- loadScenes ;;
  saveScenes (filter (fun s => negb (String.eqb (Scene.id s) id)) scenes).

(** *** Cascading delete and bulk save *)

Definition deleteScript (id : string) : M unit :=
  loaded <- loadScripts ;;
  let scripts := filter (fun s => negb (String.eqb (Script.id s) id)) loaded in
  saveScripts scripts ;;;
  loadedCharacters <- loadCharacters ;;
  let characters :=
    filter (fun c => negb (String.eqb (Character.scriptId c) id)) loadedCharacters in
  saveCharacters characters ;;;
  loadedScenes <- loadScenes ;;
  let scenes :=
    filter (fun s => negb (String.eqb (Scene.scriptId s) id)) loadedScenes in
  saveScenes scenes.

Definition saveAnalysisResult (scriptId : string)
    (characters : list Character.t) (scenes : list Scene.t) : M unit :=
  loadedCharacters <- loadCharacters ;;
  let existingCharacters :=
    filter (fun c => negb (String.eqb (Character.scriptId c) scriptId))
      loadedCharacters in
  loadedScenes <- loadScenes ;;
  let existingScenes :=
    filter (fun s => negb (String.eqb (Scene.scriptId s) scriptId)) loadedScenes in
  saveCharacters (existingCharacters ++ characters) ;;;
  saveScenes (existingScenes ++ scenes).

(** What a load reports in a world. *)
Definition scriptsOf (w : World) : result (list Script.t) := fst (loadScripts w).
Definition charactersOf (w : World) : result (list Character.t) :=
  fst (loadCharacters w).
Definition scenesOf (w : World) : result (list Scene.t) := fst (loadScenes w).

(** The part of the world that the record store never touches. *)
(** The text stored under a key of the record store. *)
Definition storedText (key : string) (w : World) : option string :=
  getItem (STORAGE_PREFIX ++ key) (localStorage w).

(** What an update of a record leaves as it is: the current time becomes
    its [updatedAt]. *)
Definition touchedScript (w : World) (updates : ScriptPatch.t) (old : Script.t) :=
  ScriptPatch.with_updatedAt (toISOString (clock (env w) (ticks w)))
    (ScriptPatch.apply old updates).

Definition touchedCharacter (w : World) (updates : CharacterPatch.t)
    (old : Character.t) :=
  CharacterPatch.with_updatedAt (toISOString (clock (env w) (ticks w)))
    (CharacterPatch.apply old updates).

Definition touchedScene (w : World) (updates : ScenePatch.t) (old : Scene.t) :=
  ScenePatch.with_updatedAt (toISOString (clock (env w) (ticks w)))
    (ScenePatch.apply old updates).

(** What the record store leaves alone when it writes a collection. *)
Definition besideRecords (w w' : World) : Prop :=
  storedText "apiKey" w' = storedText "apiKey" w
  /\ env w' = env w /\ calls w' = calls w /\ uuids w' = uuids w /\ ui w' = ui w
  /\ images w' = images w /\ characterImages w' = characterImages w.

Definition outside (w : World) :=
  (images w, characterImages w, env w, ticks w, uuids w, calls w, ui w).

(** A key whose stored text is not empty and is no JSON text. *)
Definition corrupted (key : string) (w : World) : Prop :=
  exists text,
    storedText key w = Some text /\ text <> ""%string /\ JSON.parse text = None.

(** A key that is absent, or whose stored text is empty or [null]. *)
Definition blank (key : string) (w : World) : Prop :=
  storedText key w = None \/ storedText key w = Some ""%string
  \/ storedText key w = Some "null"%string.

End Storage.

(* ================================================================== *)
(** * src/lib/imageStorage.ts: the blob store *)
(* ================================================================== *)

(** The two object stores have the key path [id]: a [put] replaces the
    record of the same key.  Opening the database and its requests are
    taken to succeed. *)

Module ImageStorage.
Import Browser.
Local Open Scope world_scope.
Local Open Scope string_scope.

Definition put (r : ImageRecord) (store : list ImageRecord) : list ImageRecord :=
  r :: filter (fun x => negb (String.eqb (imageId x) (imageId r))) store.

Definition get (id : string) (store : list ImageRecord) : option ImageRecord :=
  find (fun x => String.eqb (imageId x) id) store.

Definition delete (id : string) (store : list ImageRecord) : list ImageRecord :=
  filter (fun x => negb (String.eqb (imageId x) id)) store.

Definition saveImage (sceneId : string) (imageIndex : nat) (imageData : string)
  : M string :=
  now <- Date_now ;;
  let id := sceneId ++ "_" ++ JS.decimal (N.of_nat imageIndex) ++ "_" ++ JS.decimal now in
  createdAt <- Date_toISOString ;;
  fun w =>
    (Ok id,
     with_images (put (mkImage id sceneId imageIndex imageData createdAt) (images w)) w).

(** [request.result?.data || null] *)
Definition getImage (id : string) : M (option string) :=
  fun w =>
    (Ok (match get id (images w) with
         | Some r => JS.or_undefined (Some (data r))
         | None => None
         end), w).

Definition saveCharacterImage (characterId : string) (imageIndex : nat)
    (imageData : string) : M string :=
  now <- Date_now ;;
  let id := "char_" ++ characterId ++ "_" ++ JS.decimal (N.of_nat imageIndex)
              ++ "_" ++ JS.decimal now in
  createdAt <- Date_toISOString ;;
  fun w =>
    (Ok id,
     with_characterImages
       (put (mkImage id characterId imageIndex imageData createdAt)
          (characterImages w)) w).

Definition getCharacterImage (id : string) : M (option string) :=
  fun w =>
    (Ok (match get id (characterImages w) with
         | Some r => JS.or_undefined (Some (data r))
         | None => None
         end), w).

Definition deleteCharacterImage (id : string) : M unit :=
  fun w => (Ok tt, with_characterImages (delete id (characterImages w)) w).

Definition deleteImage (id : string) : M unit :=
  fun w => (Ok tt, with_images (delete id (images w)) w).

(** [store.getAll()]: every record, in the ascending order of the keys.
    Keys are compared unit by unit, which for keys in ASCII (the keys that
    this program makes from UUIDs and numbers) is byte by byte. *)
Fixpoint insertByKey (r : ImageRecord) (l : list ImageRecord) : list ImageRecord :=
  match l with
  | [] => [r]
  | y :: rest =>
      if String.leb (imageId r) (imageId y) then r :: y :: rest
      else y :: insertByKey r rest
  end.

Definition getAll (store : list ImageRecord) : list ImageRecord :=
  fold_right insertByKey [] store.

(** The [{ id, data }] of a record. *)
Definition idAndData (img : ImageRecord) : string * string :=
  (imageId img, data img).

Definition getImagesByScene (sceneId : string) : M (list (string * string)) :=
  fun w =>
    (Ok (map idAndData
           (filter (fun img => String.eqb (ownerId img) sceneId) (getAll (images w)))),
     w).

Definition getImagesByCharacter (characterId : string)
  : M (list (string * string)) :=
  fun w =>
    (Ok (map idAndData
           (filter (fun img => String.eqb (ownerId img) characterId)
              (getAll (characterImages w)))),
     w).

(** [for (const img of images) await deleteImage(img.id)] *)
Fixpoint deleteImages (imgs : list (string * string)) : M unit :=
  match imgs with
  | [] => ret tt
  | img :: rest => deleteImage (fst img) ;;; deleteImages rest
  end.

Definition deleteImagesByScene (sceneId : string) : M unit :=
  imgs <- getImagesByScene sceneId ;; deleteImages imgs.

End ImageStorage.

(* ================================================================== *)
(** * src/lib/gemini.ts: the calls of the external model *)
(* ================================================================== *)

Module GeminiClient.
Import Browser Codec.
Local Open Scope world_scope.
Local Open Scope string_scope.

Definition getApiKey : M (option string) :=
  fun w =>
    match JS.or_undefined (VITE_GOOGLE_API_KEY (env w)) with
    | Some envKey => (Ok (Some envKey), w)
    | None => Storage.loadApiKey w
    end.

(** The client object itself carries no state of interest; [getAI] either
    finds a key or throws. *)
Definition getAI : M unit :=
  apiKey <- getApiKey ;;
  if JS.truthy apiKey then ret tt
  else throw (Error "API 키가 설정되지 않았습니다. 설정 페이지에서 Gemini API 키를 입력해주세요.").

(** [getAI().models.generateContent(...)]: the next reply of the model. *)
Definition generateContent : M GenAI.Response :=
  getAI ;;;
  fun w => (model (env w) (calls w), with_calls (S (calls w)) w).

(** The white space of the engine's [\s], for text without white space
    outside ASCII. *)
Definition is_space (c : ascii) : bool :=
  let n := nat_of_ascii c in ((9 <=? n) && (n <=? 13) || (n =? 32))%nat.

Fixpoint trimStart (s : string) : string :=
  match s with
  | String c rest => if is_space c then trimStart rest else s
  | EmptyString => s
  end.

Fixpoint trimEnd (s : string) : string :=
  match s with
  | String c rest =>
      let rest' := trimEnd rest in
      if is_space c && String.eqb rest' "" then "" else String c rest'
  | EmptyString => ""
  end.

Definition trim (s : string) : string := trimEnd (trimStart s).

(** [s.slice(a, b)] for indices inside the string. *)
Definition slice (a b : nat) (s : string) : string :=
  if (b <=? a)%nat then "" else substring a (b - a) s.

Definition drop (n : nat) (s : string) : string :=
  substring n (String.length s - n) s.

Fixpoint lastIndexOf (c : ascii) (s : string) : option nat :=
  match s with
  | EmptyString => None
  | String x rest =>
      match lastIndexOf c rest with
      | Some i => Some (S i)
      | None => if Ascii.eqb x c then Some 0 else None
      end
  end.

Definition fence : string := "```".

(** The group of [responseText.match(/```json\s*([\s\S]*?)\s*```/)]:
    after the first opening fence and its white space, the text up to the
    next fence, without the white space before that fence. *)
Definition fenced (responseText : string) : option string :=
  match index 0 (fence ++ "json") responseText with
  | Some i =>
      let body := trimStart (drop (i + 7) responseText) in
      match index 0 fence body with
      | Some q => Some (trimEnd (substring 0 q body))
      | None => None
      end
  | None => None
  end.

Definition locateJson (responseText : string) : string :=
  match fenced responseText with
  | Some inner => inner
  | None =>
      match index 0 "{" responseText, lastIndexOf "}" responseText with
      | Some startIndex, Some endIndex =>
          slice startIndex (endIndex + 1) responseText
      | _, _ => responseText
      end
  end.

(** [response.candidates?.[0]?.content?.parts?.[0]?.text || ''] *)
Definition firstText (response : GenAI.Response) : string :=
  match GenAI.candidates response with
  | Some (candidate :: _) =>
      match GenAI.parts candidate with
      | Some (part :: _) => JS.or_else (GenAI.text part) ""
      | _ => ""
      end
  | _ => ""
  end.

(** [JSON.parse(jsonStr) as AnalysisResult] *)
Definition analysisCharacter_of_json (v : JSON.value) : option Analysis.character :=
  let? m := as_object v in
  let? name := required as_string "name" m in
  let? appearance := required appearance_of_json "appearance" m in
  let? defaultOutfit := opt as_string "defaultOutfit" m in
  Some (Analysis.mkCharacter name appearance defaultOutfit).

Definition analysisScene_of_json (v : JSON.value) : option Analysis.scene :=
  let? m := as_object v in
  let? sceneNumber := required as_number "sceneNumber" m in
  let? title := opt as_string "title" m in
  let? location := opt as_string "location" m in
  let? timeOfDay := opt as_string "timeOfDay" m in
  let? originalText := required as_string "originalText" m in
  let? visualDescription := required as_string "visualDescription" m in
  let? characterNames := required (as_array as_string) "characterNames" m in
  Some (Analysis.mkScene sceneNumber title location timeOfDay originalText
          visualDescription characterNames).

Definition analysis_of_json (v : JSON.value) : option Analysis.result :=
  let? m := as_object v in
  let? characters := required (as_array analysisCharacter_of_json) "characters" m in
  let? scenes := required (as_array analysisScene_of_json) "scenes" m in
  let? styleGuide := opt as_string "styleGuide" m in
  Some (Analysis.mkResult characters scenes styleGuide).

Definition parseAnalysis (responseText : string) : M Analysis.result :=
  match JSON.parse (locateJson responseText) with
  | Some v =>
      match analysis_of_json v with
      | Some r => ret r
      | None => throw TypeError
      end
  | None => throw SyntaxError
  end.

Definition analyzeScript (content : string) : M Analysis.result :=
  response <- generateContent ;;
  parseAnalysis (firstText response).

(** The first part that carries image data, as a data URL. *)
Fixpoint firstImage (parts : list GenAI.Part) : option string :=
  match parts with
  | [] => None
  | part :: rest =>
      match GenAI.inlineData part with
      | Some inline =>
          match JS.or_undefined (GenAI.data inline) with
          | Some d =>
              Some ("data:" ++ JS.or_else (GenAI.mimeType inline) "image/png"
                      ++ ";base64," ++ d)
          | None => firstImage rest
          end
      | None => firstImage rest
      end
  end.

(** What [generateSceneImage] makes of a reply. *)
Definition extractImage (response : GenAI.Response) : result string :=
  match GenAI.candidates response with
  | None | Some [] => Throw (Error "이미지 생성 실패: 응답이 없습니다.")
  | Some (candidate :: _) =>
      let parts := JS.or_empty (GenAI.parts candidate) in
      match firstImage parts with
      | Some image => Ok image
      | None =>
          match find (fun p => JS.truthy (GenAI.text p)) parts with
          | Some textPart =>
              Throw (Error ("이미지 생성 실패: " ++ JS.or_else (GenAI.text textPart) ""))
          | None => Throw (Error "이미지 생성 실패: 이미지 데이터를 찾을 수 없습니다.")
          end
      end
  end.

(** The request (the prompt and the first eight reference images) leaves
    the program; the reply is the next one of the model. *)
Definition generateSceneImage (prompt : string) (referenceImages : list string)
  : M string :=
  response <- generateContent ;;
  match extractImage response with
  | Ok image => ret image
  | Throw e => throw e
  end.

(** Whether the call of the model at position [pos] from now yields an
    image: a key is configured and the reply carries image data. *)
Definition keyConfigured (w : World) : bool :=
  match fst (getApiKey w) with
  | Ok apiKey => JS.truthy apiKey
  | Throw _ => false
  end.

Definition replyHasImage (reply : result GenAI.Response) : bool :=
  match reply with
  | Ok response =>
      match extractImage response with Ok _ => true | Throw _ => false end
  | Throw _ => false
  end.

Definition attemptSucceeds (w : World) (pos : nat) : bool :=
  keyConfigured w && replyHasImage (model (env w) (calls w + pos)).

End GeminiClient.

(* ================================================================== *)
(** * [Map]: the map of the language *)
(* ================================================================== *)

(** [new Map(entries)] sets the entries one after the other: a key keeps
    the place of its first entry and takes the value of its last. *)
Module JSMap.

Definition t := list (string * string).

Fixpoint set (k v : string) (m : t) : t :=
  match m with
  | [] => [(k, v)]
  | (k', v') :: rest =>
      if String.eqb k' k then (k', v) :: rest else (k', v') :: set k v rest
  end.

Definition of_entries (entries : list (string * string)) : t :=
  fold_left (fun m kv => set (fst kv) (snd kv) m) entries [].

Fixpoint get (k : string) (m : t) : option string :=
  match m with
  | [] => None
  | (k', v) :: rest => if String.eqb k' k then Some v else get k rest
  end.

End JSMap.

(* ================================================================== *)
(** * src/pages/ScriptNew.tsx and src/pages/ScriptDetail.tsx *)
(* ================================================================== *)

Module Pages.
Import Browser Storage GeminiClient.
Local Open Scope world_scope.
Local Open Scope string_scope.

Fixpoint mapM {A B} (f : A -> M B) (l : list A) : M (list B) :=
  match l with
  | [] => ret []
  | x :: rest => y <- f x ;; ys <- mapM f rest ;; ret (y :: ys)
  end.

(** [result.characters.map((c) => ({ id: uuidv4(), scriptId, ... }))] *)
Definition newCharacter (scriptId now : string) (c : Analysis.character)
  : M Character.t :=
  id <- uuidv4 ;;
  ret (Character.mk id scriptId (Analysis.name c) (Analysis.appearance c)
         (Analysis.defaultOutfit c) [] None None now now).

(** [s.characterNames.map((name) => charNameToId.get(name)).filter((id) => !!id)] *)
Definition linkCharacterIds (charNameToId : JSMap.t) (characterNames : list string)
  : list string :=
  JS.filter_Boolean (map (fun name => JSMap.get name charNameToId) characterNames).

Definition newScene (scriptId now : string) (charNameToId : JSMap.t)
    (s : Analysis.scene) : M Scene.t :=
  id <- uuidv4 ;;
  ret (Scene.mk id scriptId (Analysis.sceneNumber s) (Analysis.title s)
         (Analysis.location s) (Analysis.timeOfDay s) (Analysis.originalText s)
         (Some (Analysis.visualDescription s)) None None
         (linkCharacterIds charNameToId (Analysis.characterNames s))
         [] None SceneStatus.pending now now).

(** The records of an analysis result, as both pages build them. *)
Definition buildRecords (scriptId now : string) (result : Analysis.result)
  : M (list Character.t * list Scene.t) :=
  characters <- mapM (newCharacter scriptId now) (Analysis.characters result) ;;
  let charNameToId :=
    JSMap.of_entries (map (fun c => (Character.name c, Character.id c)) characters) in
  scenes <- mapM (newScene scriptId now charNameToId) (Analysis.scenes result) ;;
  ret (characters, scenes).

Definition statusAndGuide (st : ScriptStatus.t) (guide : option string)
  : ScriptPatch.t :=
  ScriptPatch.mk None None None None (Some guide) (Some st) None None.

Definition statusOnly (st : ScriptStatus.t) : ScriptPatch.t :=
  ScriptPatch.mk None None None None None (Some st) None None.

(** ScriptNew: [handleSubmit] with the text of the three form fields. *)
Definition handleSubmit (title rawContent genre : string) : M unit :=
  setError "" ;;;
  if negb (JS.truthy (Some (trim title))) then setError "제목을 입력해주세요."
  else if negb (JS.truthy (Some (trim rawContent))) then
    setError "대본 내용을 입력해주세요."
  else
    scriptId <- uuidv4 ;;
    now <- Date_toISOString ;;
    let script :=
      Script.mk scriptId (trim title) (trim rawContent)
        (JS.or_undefined (Some (trim genre))) None ScriptStatus.analyzing now now in
    addScript script ;;;
    setIsAnalyzing true ;;;
    try_finally
      (try_catch
         (result <- analyzeScript rawContent ;;
          records <- buildRecords scriptId now result ;;
          saveAnalysisResult scriptId (fst records) (snd records) ;;;
          updateScript scriptId
            (statusAndGuide ScriptStatus.ready (Analysis.styleGuide result)) ;;;
          navigate ("/scripts/" ++ scriptId))
         (fun err =>
            setError (messageOr "분석 중 오류가 발생했습니다." err) ;;;
            updateScript scriptId (statusOnly ScriptStatus.draft)))
      (setIsAnalyzing false).

(** ScriptDetail: [loadData], which the tabs call as [onUpdate]. *)
Definition ScriptDetail_loadData (id : string) : M unit :=
  s <- getScript id ;;
  match s with
  | Some found =>
      setScript (Some found) ;;;
      characters <- getCharactersByScript id ;;
      setCharacters characters ;;;
      scenes <- getScenesByScript id ;;
      setScenes scenes
  | None => ret tt
  end.

(** ScriptDetail: [handleReanalyze] of the script shown, with the answer of
    the confirmation dialog. *)
Definition handleReanalyze (script : Script.t) (confirmed : bool) : M unit :=
  if negb confirmed then ret tt
  else
    setIsAnalyzing true ;;;
    setError "" ;;;
    try_finally
      (try_catch
         (result <- analyzeScript (Script.rawContent script) ;;
          now <- Date_toISOString ;;
          records <- buildRecords (Script.id script) now result ;;
          saveAnalysisResult (Script.id script) (fst records) (snd records) ;;;
          updateScript (Script.id script)
            (statusAndGuide ScriptStatus.ready (Analysis.styleGuide result)) ;;;
          ScriptDetail_loadData (Script.id script))
         (fun err => setError (messageOr "분석 중 오류가 발생했습니다." err)))
      (setIsAnalyzing false).

(** What an analysis of [content] reports in a world. *)
Definition analysisOf (content : string) (w : World) : result Analysis.result :=
  fst (analyzeScript content w).

(** A step that leaves the record store, the environment and the error
    cell as they are. *)
Definition quiet (w w' : World) : Prop :=
  localStorage w' = localStorage w /\ env w' = env w
  /\ error (ui w') = error (ui w).

(** The three collections load, with these contents. *)
Definition loads (w : World) (scripts : list Script.t)
    (characters : list Character.t) (scenes : list Scene.t) : Prop :=
  scriptsOf w = Ok scripts /\ charactersOf w = Ok characters
  /\ scenesOf w = Ok scenes.

(** The cells of the page that loading data leaves alone. *)
Definition flagsOf (u : UI) :=
  (error u, isAnalyzing u, generating u, selectedStyle u, navigated u).

(** A step that leaves the record store, the environment and those cells
    as they are. *)
Definition calm (w w' : World) : Prop :=
  localStorage w' = localStorage w /\ env w' = env w
  /\ flagsOf (ui w') = flagsOf (ui w).

End Pages.

(* ================================================================== *)
(** * The linking of scenes to characters as the specification words it *)
(* ================================================================== *)

(** [LinkSpec] follows the words of the specification, not the source:
    a listed name stands for the character of exactly that name, a name
    that no character has is dropped.  With several characters of one
    name, [firstMatchIds] takes the first of them (the specification's
    first-match map) and [lastMatchIds] the last. *)
Module LinkSpec.

Definition named (name : string) (c : Character.t) : bool :=
  String.eqb (Character.name c) name.

Definition firstMatchIds (characters : list Character.t) (names : list string)
  : list string :=
  flat_map (fun name =>
              match find (named name) characters with
              | Some c => [Character.id c]
              | None => []
              end) names.

Definition lastMatchIds (characters : list Character.t) (names : list string)
  : list string :=
  flat_map (fun name =>
              match find (named name) (rev characters) with
              | Some c => [Character.id c]
              | None => []
              end) names.

(** What both pages store of an analysis result. *)
Definition linked (result : Analysis.result) (scriptId : string)
    (cs : list Character.t) (ss : list Scene.t) : Prop :=
  map Character.name cs = map Analysis.name (Analysis.characters result)
  /\ Forall (fun c => Character.scriptId c = scriptId
                      /\ Character.referenceImages c = []
                      /\ Character.selectedImage c = None) cs
  /\ Forall2 (fun s a => Scene.characterIds s
                         = lastMatchIds cs (Analysis.characterNames a)
                         /\ Scene.scriptId s = scriptId
                         /\ Scene.sceneNumber s = Analysis.sceneNumber a
                         /\ Scene.status s = SceneStatus.pending
                         /\ Scene.generatedImages s = [])
       ss (Analysis.scenes result).

End LinkSpec.

(* ================================================================== *)
(** * Async functions and the event loop *)
(* ================================================================== *)

(** An async function runs up to its next [await] as one step of the event
    loop, and is resumed later; between the two, the handlers of other
    events may run.  A [Task] is the code up to the next [await]: it ends
    ([Finished]) or is suspended with the code that follows ([Suspended]).
    An awaited operation (a call of the model, a request to the blob store,
    a timer) takes effect when the function is resumed; a [Throw] is the
    rejection of the promise of the function. *)
Module Async.
Import Browser.
Local Open Scope world_scope.

#[local] Unset Elimination Schemes.
Inductive Step (A : Type) : Type :=
| Finished (a : A)
| Suspended (next : M (Step A)).
#[local] Set Elimination Schemes.

Arguments Finished {A} a.
Arguments Suspended {A} next.

Definition Task (A : Type) : Type := M (Step A).

Definition finish {A} (a : A) : Task A := ret (Finished a).

(** Code without [await]. *)
Definition now {A} (m : M A) : Task A := a <- m ;; ret (Finished a).

(** [await m] *)
Definition await {A} (m : M A) : Task A := ret (Suspended (now m)).

(** [await new Promise((resolve) => setTimeout(resolve, ms))] *)
Definition pause : Task unit := await (ret tt).

Fixpoint bindS {A B} (s : Step A) (k : A -> Task B) : Task B :=
  match s with
  | Finished a => k a
  | Suspended next =>
      ret (Suspended (fun w =>
                        match next w with
                        | (Ok s', w') => bindS s' k w'
                        | (Throw e, w') => (Throw e, w')
                        end))
  end.

Definition bindT {A B} (t : Task A) (k : A -> Task B) : Task B :=
  fun w =>
    match t w with
    | (Ok s, w') => bindS s k w'
    | (Throw e, w') => (Throw e, w')
    end.

(** [try { body } catch (err) { handler(err) }] around code that awaits. *)
Fixpoint catchS {A} (s : Step A) (handler : exn -> Task A) : Step A :=
  match s with
  | Finished a => Finished a
  | Suspended next =>
      Suspended (fun w =>
                   match next w with
                   | (Ok s', w') => (Ok (catchS s' handler), w')
                   | (Throw e, w') => handler e w'
                   end)
  end.

Definition catchT {A} (body : Task A) (handler : exn -> Task A) : Task A :=
  fun w =>
    match body w with
    | (Ok s, w') => (Ok (catchS s handler), w')
    | (Throw e, w') => handler e w'
    end.

(** [try { body } finally { cleanup }] around code that awaits, for a
    cleanup that does not. *)
Fixpoint finallyS {A} (s : Step A) (cleanup : M unit) : Task A :=
  match s with
  | Finished a => cleanup ;;; ret (Finished a)
  | Suspended next =>
      ret (Suspended (fun w =>
                        match next w with
                        | (Ok s', w') => finallyS s' cleanup w'
                        | (Throw e, w') => (cleanup ;;; throw e) w'
                        end))
  end.

Definition finallyT {A} (body : Task A) (cleanup : M unit) : Task A :=
  fun w =>
    match body w with
    | (Ok s, w') => finallyS s cleanup w'
    | (Throw e, w') => (cleanup ;;; throw e) w'
    end.

(** The steps of a task leave a property of the world as they find it,
    whatever happens between them. *)
Fixpoint keepsS (I : World -> Prop) {A} (s : Step A) : Prop :=
  match s with
  | Finished _ => True
  | Suspended next =>
      forall w, I w ->
        match next w with
        | (Ok s', w') => I w' /\ keepsS I s'
        | (Throw _, w') => I w'
        end
  end.

Definition keeps (I : World -> Prop) {A} (t : Task A) : Prop :=
  keepsS I (Suspended t).

Definition preserves (I : World -> Prop) {A} (m : M A) : Prop :=
  forall w, I w -> I (snd (m w)).

(** The page between two events: the state of the browser and the async
    functions that wait to be resumed. *)
Record Page := mkPage {
  world : World;
  pending : list (Task unit)
}.

(** An event handler runs up to its first [await]; a rejection that nothing
    awaits is reported on the console only. *)
Definition spawn (t : Task unit) (p : Page) : Page :=
  match t (world p) with
  | (Ok (Suspended next), w') => mkPage w' (pending p ++ [next])
  | (_, w') => mkPage w' (pending p)
  end.

(** What a waiting function awaits arrives: it runs up to its next
    [await], and keeps its place among the waiting ones. *)
Definition resume (k : nat) (p : Page) : Page :=
  match nth_error (pending p) k with
  | Some t =>
      match t (world p) with
      | (Ok (Suspended next), w') =>
          mkPage w' (firstn k (pending p) ++ next :: skipn (S k) (pending p))
      | (_, w') => mkPage w' (JS.remove_at k (pending p))
      end
  | None => p
  end.

(** The world has the property, and every waiting function keeps it. *)
Definition steady (I : World -> Prop) (p : Page) : Prop :=
  I (world p) /\ Forall (keeps I) (pending p).

End Async.

Declare Scope task_scope.
Delimit Scope task_scope with task.
Notation "x <- m ;; k" := (Async.bindT m (fun x => k))
  (at level 61, m at next level, right associativity) : task_scope.
Notation "m ;;; k" := (Async.bindT m (fun _ => k))
  (at level 61, right associativity) : task_scope.

(* ================================================================== *)
(** * src/pages/Characters.tsx *)
(* ================================================================== *)

(** A promise that nobody awaits: what it throws is reported by the
    browser as an unhandled rejection and reaches no caller. *)
Definition floating (m : Browser.M unit) : Browser.M unit :=
  Browser.try_catch m (fun _ => Browser.ret tt).

Definition startsWithData (imageId : string) : bool := prefix "data:" imageId.

Definition cachePut (imageId : string) (imageData : string)
    (cache : string -> option string) : string -> option string :=
  fun k => if String.eqb k imageId then Some imageData else cache k.

Module CharactersPage.
Import Browser Storage ImageStorage GeminiClient Pages Async.
Local Open Scope world_scope.
Local Open Scope string_scope.

Definition IMAGES_PER_CHARACTER : nat := 3.

(** The inner loop of the page's [loadCharacters] over the reference images
    of one character. *)
Fixpoint cacheCharacterImages (ids : list string)
    (cache : string -> option string) : M (string -> option string) :=
  match ids with
  | [] => ret cache
  | imageId :: rest =>
      if negb (JS.truthy (cache imageId)) && negb (startsWithData imageId) then
        imageData <- getCharacterImage imageId ;;
        match JS.or_undefined imageData with
        | Some d => cacheCharacterImages rest (cachePut imageId d cache)
        | None => cacheCharacterImages rest cache
        end
      else if startsWithData imageId then
        cacheCharacterImages rest (cachePut imageId imageId cache)
      else cacheCharacterImages rest cache
  end.

Fixpoint cacheAllCharacters (chars : list Character.t)
    (cache : string -> option string) : M (string -> option string) :=
  match chars with
  | [] => ret cache
  | char :: rest =>
      cache' <- cacheCharacterImages (Character.referenceImages char) cache ;;
      cacheAllCharacters rest cache'
  end.

Definition loadCharacters (scriptId : string) : M unit :=
  chars <- getCharactersByScript scriptId ;;
  setCharacters chars ;;;
  cache <- cacheAllCharacters chars (fun _ => None) ;;
  setImageCache cache.

(** [loadCharacters()] is not awaited: it sets the characters of the page
    at once, and what it reads from the blob store afterwards only fills
    the image cache; [onUpdate] is [loadData] of the enclosing script
    page. *)
Definition handleUpdateCharacter (scriptId id : string)
    (updates : CharacterPatch.t) : M unit :=
  updateCharacter id updates ;;;
  floating (loadCharacters scriptId) ;;;
  ScriptDetail_loadData scriptId.

(** The [getStyleModifier] of this page. *)
Definition getStyleModifier (style : Gemini.ImageStyle) : string :=
  match style with
  | Gemini.realistic =>
      "Photorealistic portrait, high-resolution photograph, natural lighting, realistic skin texture, shot on professional camera, 8K quality"
  | Gemini.anime =>
      "Japanese anime style character, vibrant colors, clean line art, expressive eyes, detailed shading"
  | Gemini.cinematic =>
      "Cinematic portrait, dramatic lighting, shallow depth of field, film grain, Hollywood production quality"
  | Gemini.watercolor =>
      "Soft watercolor portrait, delicate brush strokes, gentle color blending, artistic and dreamy"
  | Gemini.comic =>
      "Comic book style character, bold outlines, dynamic pose, graphic novel aesthetic, cel shading"
  end.

Definition portraitPrompt (style : Gemini.ImageStyle) (character : Character.t)
  : string :=
  let app := Character.appearance character in
  getStyleModifier style ++ JS.LF ++
  JS.LF ++
  "CHARACTER PORTRAIT - Full body or upper body shot" ++ JS.LF ++
  JS.LF ++
  "Character Details:" ++ JS.LF ++
  "- Name: " ++ Character.name character ++ JS.LF ++
  "- Age: " ++ JS.or_else (Appearance.age app) "young adult" ++ JS.LF ++
  "- Gender: " ++ JS.or_else (Appearance.gender app) "unspecified" ++ JS.LF ++
  "- Hair: " ++ JS.or_else (Appearance.hair app) "natural hair" ++ JS.LF ++
  "- Face: " ++ JS.or_else (Appearance.face app) "attractive features" ++ JS.LF ++
  "- Skin tone: " ++ JS.or_else (Appearance.skinTone app) "natural" ++ JS.LF ++
  "- Height: " ++ JS.or_else (Appearance.height app) "average" ++ JS.LF ++
  "- Outfit: " ++ JS.or_else (Character.defaultOutfit character)
                    "casual modern clothes" ++ JS.LF ++
  match Appearance.features app with
  | Some (f :: fs) => "- Features: " ++ JS.join ", " (f :: fs)
  | _ => ""
  end ++ JS.LF ++
  JS.LF ++
  "REQUIREMENTS:" ++ JS.LF ++
  "- Clear, well-lit portrait suitable for character reference" ++ JS.LF ++
  "- Neutral background or simple setting" ++ JS.LF ++
  "- Character facing camera or 3/4 view" ++ JS.LF ++
  "- High quality, detailed rendering" ++ JS.LF ++
  "- Consistent with the specified art style".

(** The loop [for (let i = 0; i < IMAGES_PER_CHARACTER; i++)], over the
    indices still to try.  A turn awaits the model, then the blob store
    and, but for the last turn, a pause; what it throws is logged only. *)
Fixpoint portraitAttempts (character : Character.t) (prompt : string)
    (indices : list nat) (newImageIds : list string) : Task (list string) :=
  match indices with
  | [] => finish newImageIds
  | i :: rest =>
      (ids <- catchT
                (imageData <- await (generateSceneImage prompt []) ;;
                 imageId <- await (saveCharacterImage (Character.id character)
                                     (length (Character.referenceImages character) + i)
                                     imageData) ;;
                 now (setImageCache (cachePut imageId imageData (fun _ => None))) ;;;
                 (if (i <? IMAGES_PER_CHARACTER - 1)%nat then pause
                  else finish tt) ;;;
                 finish (newImageIds ++ [imageId])%list)
                (fun _ => finish newImageIds) ;;
       portraitAttempts character prompt rest ids)%task
  end.

Definition generatedUpdates (character : Character.t) (newImageIds : list string)
  : CharacterPatch.t :=
  CharacterPatch.mk None None None None None
    (Some (JS.slice0 (Character.referenceImages character ++ newImageIds)%list 8))
    (if JS.truthy (Character.selectedImage character) then None
     else Some (hd_error newImageIds))
    None None None.

(** [handleGenerateCharacterImages] as the render [render] closed over it.
    The record is written at the end, from the [character] that the
    handler was called with. *)
Definition handleGenerateCharacterImages (render : UI) (scriptId : string)
    (character : Character.t) : Task unit :=
  (now (setError "" ;;; setGenerating (Some (Character.id character)))%world ;;;
   finallyT
     (catchT
        (let prompt := portraitPrompt (selectedStyle render) character in
         newImageIds <- portraitAttempts character prompt
                          (seq 0 IMAGES_PER_CHARACTER) [] ;;
         match newImageIds with
         | _ :: _ =>
             now (handleUpdateCharacter scriptId (Character.id character)
                    (generatedUpdates character newImageIds))
         | [] => now (throw (Error "이미지 생성에 모두 실패했습니다."))
         end)
        (fun err =>
           now (setError (messageOr "이미지 생성 중 오류가 발생했습니다." err))))
     (setGenerating None))%task.

(** The button of a card: [disabled={isGenerating || length >= 8}]. *)
Definition clickGenerate (scriptId : string) (character : Character.t)
  : Task unit :=
  (render <- now getUI ;;
   let isGenerating :=
     match generating render with
     | Some id => String.eqb id (Character.id character)
     | None => false
     end in
   if isGenerating || (8 <=? length (Character.referenceImages character))%nat
   then finish tt
   else handleGenerateCharacterImages render scriptId character)%task.

(** One turn of the loop of [handleGenerateAll], for the character [char]
    of the render: the character is read again from the store, and its
    portraits are generated when it is still stored with fewer than eight
    images; whatever is thrown is logged only. *)
Definition generateAllStep (render : UI) (scriptId : string) (char : Character.t)
  : Task unit :=
  catchT
    (freshChars <- now (getCharactersByScript scriptId) ;;
     match find (fun c => String.eqb (Character.id c) (Character.id char))
             freshChars with
     | Some freshChar =>
         if (length (Character.referenceImages freshChar) <? 8)%nat
         then handleGenerateCharacterImages render scriptId freshChar
         else finish tt
     | None => finish tt
     end)%task
    (fun _ => finish tt).

(** The loop of [handleGenerateAll], with its pause between two
    characters. *)
Fixpoint generateAllLoop (render : UI) (scriptId : string)
    (targetCharacters : list Character.t) : Task unit :=
  match targetCharacters with
  | [] => finish tt
  | char :: rest =>
      (generateAllStep render scriptId char ;;;
       match rest with
       | [] => finish tt
       | _ :: _ => pause
       end ;;;
       generateAllLoop render scriptId rest)%task
  end.

(** [handleGenerateAll] as the render [render] closed over it. *)
Definition handleGenerateAll (render : UI) (scriptId : string) : Task unit :=
  let targetCharacters :=
    filter (fun c => (length (Character.referenceImages c) <? 8)%nat)
      (characters render) in
  match targetCharacters with
  | [] =>
      now (setError "생성할 캐릭터가 없습니다. (모든 캐릭터가 이미 8개의 이미지를 가지고 있습니다)")
  | _ :: _ =>
      (now (setError "") ;;; generateAllLoop render scriptId targetCharacters)%task
  end.

(** ** CharacterCard *)

(** The values of the form of a card. *)
Record Form := mkForm {
  formName : string;
  formAppearance : Appearance.t;
  formOutfit : string
}.

(** [handleSave]: an empty outfit is stored as no outfit. *)
Definition savedUpdates (form : Form) : CharacterPatch.t :=
  CharacterPatch.mk None None (Some (formName form)) (Some (formAppearance form))
    (Some (JS.or_undefined (Some (formOutfit form)))) None None None None None.

Definition uploadedUpdates (character : Character.t) (imageId : string)
  : CharacterPatch.t :=
  CharacterPatch.mk None None None None None
    (Some (Character.referenceImages character ++ [imageId])%list)
    (if JS.truthy (Character.selectedImage character) then None
     else Some (Some imageId))
    None None None.

(** [reader.onload] for one file, whose data URL is [base64]: the blob
    store is awaited, then the record is written from the [character] of
    the render in which the files were chosen. *)
Definition onload (scriptId : string) (character : Character.t) (base64 : string)
  : Task unit :=
  (imageId <- await (saveCharacterImage (Character.id character)
                       (length (Character.referenceImages character)) base64) ;;
   now (setImageCache (cachePut imageId base64 (fun _ => None)) ;;;
        handleUpdateCharacter scriptId (Character.id character)
          (uploadedUpdates character imageId))%world)%task.

Definition filesToProcess (character : Character.t) (files : list string)
  : list string :=
  JS.slice0 files (8 - Z.of_nat (length (Character.referenceImages character))).

(** [handleImageUpload] only starts the readers: it yields one callback per
    file to process, each closed over the [character] of this render and
    run when its reader has read the file. *)
Definition handleImageUpload (scriptId : string) (character : Character.t)
    (files : option (list string)) : list (Task unit) :=
  match files with
  | None => []
  | Some all => map (onload scriptId character) (filesToProcess character all)
  end.

Definition removedUpdates (character : Character.t) (index : nat)
    (imageId : string) : CharacterPatch.t :=
  let newImages := JS.remove_at index (Character.referenceImages character) in
  CharacterPatch.mk None None None None None
    (Some newImages)
    (match Character.selectedImage character with
     | Some selected =>
         if String.eqb selected imageId
         then Some (JS.or_undefined (hd_error newImages))
         else None
     | None => None
     end)
    None None None.

(** [handleRemoveImage]: the blob store is awaited, then the record is
    written from the [character] of the render of the click. *)
Definition handleRemoveImage (scriptId : string) (character : Character.t)
    (index : nat) : Task unit :=
  match nth_error (Character.referenceImages character) index with
  | None => now (throw TypeError)
  | Some imageId =>
      ((if negb (startsWithData imageId) then await (deleteCharacterImage imageId)
        else finish tt) ;;;
       now (handleUpdateCharacter scriptId (Character.id character)
              (removedUpdates character index imageId)))%task
  end.

Definition selectedUpdates (imageId : string) : CharacterPatch.t :=
  CharacterPatch.mk None None None None None None (Some (Some imageId))
    None None None.

(** A click on the tile of the image at [index]. *)
Definition onSelectImage (scriptId : string) (character : Character.t)
    (index : nat) : M unit :=
  match nth_error (Character.referenceImages character) index with
  | Some imageId =>
      handleUpdateCharacter scriptId (Character.id character)
        (selectedUpdates imageId)
  | None => ret tt
  end.

(** What the page keeps true of a character: no reference is the empty
    string, and the selection, if any, is one of the references. *)
Definition referencesOk (c : Character.t) : Prop :=
  Forall (fun imageId => imageId <> "") (Character.referenceImages c).

Definition selectionOk (c : Character.t) : Prop :=
  match Character.selectedImage c with
  | Some selected => In selected (Character.referenceImages c)
  | None => True
  end.

(** The invariant of the page: at most eight references, none empty, and
    a selection among them. *)
Definition pageInvariant (c : Character.t) : Prop :=
  length (Character.referenceImages c) <= 8 /\ referencesOk c /\ selectionOk c.

(** The cap of the page on the reference images of a character. *)
Definition capped (c : Character.t) : Prop :=
  length (Character.referenceImages c) <= 8.

(** The stored record after [updateCharacter] merged [updates] at time [t]. *)
Definition merged (t : string) (updates : CharacterPatch.t) (old : Character.t)
  : Character.t :=
  CharacterPatch.with_updatedAt t (CharacterPatch.apply old updates).

Definition hasId (id : string) (c : Character.t) : bool :=
  String.eqb (Character.id c) id.

(** The record that [updateCharacter] and [getCharacter] find under an id. *)
Definition stored (id : string) (l : list Character.t) : option Character.t :=
  find (hasId id) l.

(** [getImageSrc] of the page, with the cache of the render. *)
Definition getImageSrc (imageCache : string -> option string)
    (imageId : string) : string :=
  if startsWithData imageId then imageId
  else JS.or_else (imageCache imageId) "".

(** What the loop of [loadCharacters] finds for an image id: the id itself
    when it is a data URL, and otherwise the data stored under it, if any
    and not empty. *)
Definition found (w : World) (imageId : string) : option string :=
  if startsWithData imageId then Some imageId
  else match get imageId (characterImages w) with
       | Some r => JS.or_undefined (Some (data r))
       | None => None
       end.

(** ** The page and its events *)

(** What the user does on the page, and [Resume]: what the [k]-th waiting
    function awaits arrives. *)
Inductive Action :=
| ClickGenerate (characterId : string)
| ClickGenerateAll
| ChooseFiles (characterId : string) (files : list string)
| ClickRemove (characterId : string) (index : nat)
| ClickImage (characterId : string) (index : nat)
| ClickStyle (style : Gemini.ImageStyle)
| SaveForm (characterId : string) (form : Form)
| Resume (k : nat).

(** The card of a character shows the record of the last render. *)
Definition shown (characterId : string) (w : World) : option Character.t :=
  find (hasId characterId) (characters (ui w)).

(** [disabled={generating !== null || (pendingCount === 0 && partialCount === 0)}] *)
Definition generateAllDisabled (render : UI) : bool :=
  match generating render with
  | Some _ => true
  | None =>
      let pendingCount :=
        length (filter (fun c => (length (Character.referenceImages c) =? 0)%nat)
                  (characters render)) in
      let partialCount :=
        length (filter (fun c =>
                          (0 <? length (Character.referenceImages c))%nat
                          && (length (Character.referenceImages c) <? 8)%nat)
                  (characters render)) in
      (pendingCount =? 0)%nat && (partialCount =? 0)%nat
  end.

(** [setSelectedStyle(style.id)] *)
Definition setSelectedStyle (style : Gemini.ImageStyle) : M unit :=
  setUI (fun u => mkUI (error u) (isAnalyzing u) (generating u) (imageCache u)
                    (charImageCache u) style (script u) (characters u) (scenes u)
                    (navigated u)).

(** One event of the page of the script [scriptId].  The handlers are the
    closures of the current render; the input for files is part of the
    gallery of a character that has images, fewer than eight; the buttons
    of the styles are disabled while a generation runs. *)
Definition fire (scriptId : string) (a : Action) (p : Page) : Page :=
  let w := world p in
  match a with
  | Resume k => resume k p
  | ClickGenerateAll =>
      if generateAllDisabled (ui w) then p
      else spawn (handleGenerateAll (ui w) scriptId) p
  | ClickGenerate characterId =>
      match shown characterId w with
      | Some character => spawn (clickGenerate scriptId character) p
      | None => p
      end
  | ChooseFiles characterId files =>
      match shown characterId w with
      | Some character =>
          if (0 <? length (Character.referenceImages character))%nat
             && (length (Character.referenceImages character) <? 8)%nat
          then mkPage w (pending p
                         ++ handleImageUpload scriptId character (Some files))%list
          else p
      | None => p
      end
  | ClickRemove characterId index =>
      match shown characterId w with
      | Some character => spawn (handleRemoveImage scriptId character index) p
      | None => p
      end
  | ClickImage characterId index =>
      match shown characterId w with
      | Some character => spawn (now (onSelectImage scriptId character index)) p
      | None => p
      end
  | ClickStyle style =>
      match generating (ui w) with
      | Some _ => p
      | None => spawn (now (setSelectedStyle style)) p
      end
  | SaveForm characterId form =>
      match shown characterId w with
      | Some character =>
          spawn (now (handleUpdateCharacter scriptId (Character.id character)
                        (savedUpdates form))) p
      | None => p
      end
  end.

Definition play (scriptId : string) (actions : list Action) (p : Page) : Page :=
  fold_left (fun q a => fire scriptId a q) actions p.

(** The page as it is mounted: [useEffect(() => { loadCharacters(); })]. *)
Definition mount (scriptId : string) (w : World) : Page :=
  spawn (now (floating (loadCharacters scriptId))) (mkPage w []).

(** The stored characters are those of [ids], each with at most eight
    reference images, and so are the characters of the render. *)
Definition tidy (scripts : list Script.t) (ids : list string)
    (scenes : list Scene.t) (w : World) : Prop :=
  exists l,
    loads w scripts l scenes
    /\ map Character.id l = ids
    /\ Forall capped l
    /\ Forall capped (characters (ui w)).

End CharactersPage.

(* ================================================================== *)
(** * src/pages/Generate.tsx *)
(* ================================================================== *)

Module GeneratePage.
Import Browser Storage ImageStorage GeminiClient Pages.
Local Open Scope world_scope.
Local Open Scope string_scope.

Definition IMAGES_PER_GENERATION : nat := 3.

(** The loops of [loadData] that fill the two caches. *)
Fixpoint cacheSceneImages (ids : list string)
    (cache : string -> option string) : M (string -> option string) :=
  match ids with
  | [] => ret cache
  | imageId :: rest =>
      if negb (JS.truthy (cache imageId)) && negb (startsWithData imageId) then
        imageData <- getImage imageId ;;
        match JS.or_undefined imageData with
        | Some d => cacheSceneImages rest (cachePut imageId d cache)
        | None => cacheSceneImages rest cache
        end
      else cacheSceneImages rest cache
  end.

Fixpoint cacheAllScenes (l : list Scene.t)
    (cache : string -> option string) : M (string -> option string) :=
  match l with
  | [] => ret cache
  | scene :: rest =>
      cache1 <- cacheSceneImages (Scene.generatedImages scene) cache ;;
      cache2 <- match JS.or_undefined (Scene.selectedImage scene) with
                | Some selected => cacheSceneImages [selected] cache1
                | None => ret cache1
                end ;;
      cacheAllScenes rest cache2
  end.

Definition loadData (scriptId : string) : M unit :=
  loadedScenes <- getScenesByScript scriptId ;;
  setScenes loadedScenes ;;;
  loadedCharacters <- getCharactersByScript scriptId ;;
  setCharacters loadedCharacters ;;;
  cache <- cacheAllScenes loadedScenes (fun _ => None) ;;
  setImageCache cache ;;;
  charCache <- CharactersPage.cacheAllCharacters loadedCharacters (fun _ => None) ;;
  setCharImageCache charCache.

(** [scene.characterIds.map((id) => getCharacter(id)).filter((c) => !!c)] *)
Fixpoint getSceneCharacters (characterIds : list string) : M (list Character.t) :=
  match characterIds with
  | [] => ret []
  | id :: rest =>
      found <- getCharacter id ;;
      more <- getSceneCharacters rest ;;
      ret (match found with Some c => c :: more | None => more end)
  end.

(** [charImageCache[imageId] || (imageId.startsWith('data:') ? imageId : null)] *)
Definition referenceData (cache : string -> option string) (imageId : string)
  : option string :=
  match JS.or_undefined (cache imageId) with
  | Some d => Some d
  | None => if startsWithData imageId then JS.or_undefined (Some imageId) else None
  end.

Definition pushReference (cache : string -> option string) (imageId : string)
    (referenceImages : list string) : list string :=
  if (length referenceImages <? 8)%nat then
    match referenceData cache imageId with
    | Some d => (referenceImages ++ [d])%list
    | None => referenceImages
    end
  else referenceImages.

(** The references of one character: the selected image first, then the
    others, while fewer than eight have been collected. *)
Definition characterReferences (cache : string -> option string)
    (char : Character.t) (referenceImages : list string) : list string :=
  let first :=
    match JS.or_undefined (Character.selectedImage char) with
    | Some selected => pushReference cache selected referenceImages
    | None => referenceImages
    end in
  fold_left
    (fun acc imageId =>
       if match Character.selectedImage char with
          | Some selected => String.eqb imageId selected
          | None => false
          end
       then acc
       else pushReference cache imageId acc)
    (Character.referenceImages char) first.

Definition collectReferences (cache : string -> option string)
    (sceneCharacters : list Character.t) : list string :=
  fold_left (fun acc char => characterReferences cache char acc) sceneCharacters [].

(** What the collecting keeps true of the list so far. *)
Definition collected (acc : list string) : Prop :=
  length acc <= 8 /\ Forall (fun d => d <> "") acc.

(** The loop [for (let i = 0; i < count; i++)] over the indices still to
    try; the pause between two calls changes no state. *)
Fixpoint sceneAttempts (scene : Scene.t) (prompt : string)
    (referenceImages : list string) (indices : list nat)
    (newImageIds : list string) : M (list string) :=
  match indices with
  | [] => ret newImageIds
  | i :: rest =>
      ids <- try_catch
               (imageData <- generateSceneImage prompt referenceImages ;;
                imageId <- saveImage (Scene.id scene)
                             (length (Scene.generatedImages scene) + i) imageData ;;
                setImageCache (cachePut imageId imageData (fun _ => None)) ;;;
                ret (newImageIds ++ [imageId])%list)
               (fun _ => ret newImageIds) ;;
      sceneAttempts scene prompt referenceImages rest ids
  end.

Definition statusOnly (st : SceneStatus.t) : ScenePatch.t :=
  ScenePatch.mk None None None None None None None None None None None None
    None (Some st) None None.

Definition completedUpdates (existingImages newImageIds : list string)
  : ScenePatch.t :=
  ScenePatch.mk None None None None None None None None None None None
    (Some (existingImages ++ newImageIds)%list)
    (Some (hd_error newImageIds))
    (Some SceneStatus.completed) None None.

(** The identifier that [saveImage] gives, at the time [now], to the image
    of the attempt [i] for [scene]. *)
Definition imageIdOf (scene : Scene.t) (i : nat) (now : N) : string :=
  Scene.id scene ++ "_"
    ++ JS.decimal (N.of_nat (length (Scene.generatedImages scene) + i))
    ++ "_" ++ JS.decimal now.

Definition producedBy (scene : Scene.t) (imageId : string) (i : nat) : Prop :=
  exists now, imageId = imageIdOf scene i now.

(** The scene of an id in a list, as [find] and [findIndex] see it. *)
Definition isScene (id : string) (s : Scene.t) : bool := String.eqb (Scene.id s) id.

(** [handleGenerateOne] as the render [render] closed over it: the style
    and the cache of character images are those of that render. *)
Definition handleGenerateOne (render : UI) (scriptId : string) (scene : Scene.t)
    (count : nat) : M unit :=
  setError "" ;;;
  setGenerating (Some (Scene.id scene)) ;;;
  try_finally
    (try_catch
       (updateScene (Scene.id scene) (statusOnly SceneStatus.generating) ;;;
        loadData scriptId ;;;
        sceneCharacters <- getSceneCharacters (Scene.characterIds scene) ;;
        let referenceImages :=
          collectReferences (charImageCache render) sceneCharacters in
        let prompt :=
          Gemini.buildScenePrompt
            (Gemini.mkSceneInput (Scene.location scene) (Scene.timeOfDay scene)
               (Scene.visualDescription scene) (Scene.userEditedPrompt scene))
            (map (fun c => Gemini.mkCharacterInput (Character.name c)
                             (Character.appearance c) (Character.defaultOutfit c))
               sceneCharacters)
            (selectedStyle render) in
        newImageIds <- sceneAttempts scene prompt referenceImages (seq 0 count) [] ;;
        match newImageIds with
        | _ :: _ =>
            current <- getScenesByScript scriptId ;;
            let currentScene :=
              find (fun s => String.eqb (Scene.id s) (Scene.id scene)) current in
            let existingImages :=
              match currentScene with
              | Some s => Scene.generatedImages s
              | None => []
              end in
            updateScene (Scene.id scene)
              (completedUpdates existingImages newImageIds)
        | [] => throw (Error "이미지 생성에 모두 실패했습니다.")
        end ;;;
        loadData scriptId ;;;
        ScriptDetail_loadData scriptId)
       (fun err =>
          setError (messageOr "이미지 생성 중 오류가 발생했습니다." err) ;;;
          updateScene (Scene.id scene) (statusOnly SceneStatus.failed) ;;;
          loadData scriptId))
    (setGenerating None).

(** A click on the button of a scene, in the current render. *)
Definition clickGenerate (scriptId : string) (scene : Scene.t) : M unit :=
  render <- getUI ;;
  handleGenerateOne render scriptId scene IMAGES_PER_GENERATION.

(** [s.status === 'pending' || s.status === 'failed'] *)
Definition isPending (s : Scene.t) : bool :=
  match Scene.status s with
  | SceneStatus.pending | SceneStatus.failed => true
  | _ => false
  end.

(** The loop of [handleGenerateAll] over the scenes of the render that
    wait; whatever a run throws is logged only, and the pauses between two
    scenes change no state. *)
Fixpoint generateAllLoop (render : UI) (scriptId : string)
    (pendingScenes : list Scene.t) : M unit :=
  match pendingScenes with
  | [] => ret tt
  | scene :: rest =>
      try_catch (handleGenerateOne render scriptId scene IMAGES_PER_GENERATION)
        (fun _ => ret tt) ;;;
      generateAllLoop render scriptId rest
  end.

Definition handleGenerateAll (render : UI) (scriptId : string) : M unit :=
  let pendingScenes := filter isPending (scenes render) in
  match pendingScenes with
  | [] => setError "생성할 장면이 없습니다."
  | _ :: _ => setError "" ;;; generateAllLoop render scriptId pendingScenes
  end.

(** Two lists of scenes with the same ids and scripts, place by place. *)
Definition sameScenes (l l0 : list Scene.t) : Prop :=
  Forall2 (fun a b => Scene.id a = Scene.id b
                      /\ Scene.scriptId a = Scene.scriptId b) l l0.

(** The scene is stored, in the script of the page. *)
Definition storedIn (scriptId : string) (l : list Scene.t) (scene : Scene.t) : Prop :=
  exists stored,
    find (isScene (Scene.id scene)) l = Some stored
    /\ Scene.scriptId stored = scriptId.

(** The stored scene of this id has been generated, or has failed. *)
Definition settled (l : list Scene.t) (scene : Scene.t) : Prop :=
  exists final,
    find (isScene (Scene.id scene)) l = Some final
    /\ (Scene.status final = SceneStatus.completed
        \/ Scene.status final = SceneStatus.failed).

Definition selectedUpdates (imageId : string) : ScenePatch.t :=
  ScenePatch.mk None None None None None None None None None None None None
    (Some (Some imageId)) None None None.

Definition handleSelectImage (scriptId sceneId imageId : string) : M unit :=
  updateScene sceneId (selectedUpdates imageId) ;;;
  floating (loadData scriptId).

End GeneratePage.

(* ================================================================== *)
(** * [src/pages/Scenes.tsx] *)
(* ================================================================== *)

Module ScenesPage.
Import Browser Storage Pages.
Local Open Scope world_scope.
Local Open Scope string_scope.

Definition handleUpdateScene (scriptId id : string) (updates : ScenePatch.t)
  : M unit :=
  updateScene id updates ;;;
  listed <- getScenesByScript scriptId ;;
  setScenes listed ;;;
  ScriptDetail_loadData scriptId.

(** [characterIds.map((id) => characters.find((c) => c.id === id)?.name)
    .filter(Boolean).join(', ')] *)
Definition getCharacterNames (characters : list Character.t)
    (characterIds : list string) : string :=
  JS.join ", "
    (JS.filter_Boolean
       (map (fun id =>
               option_map Character.name
                 (find (fun c => String.eqb (Character.id c) id) characters))
          characterIds)).

(** The text of the editor of a card when the card is mounted:
    [scene.userEditedPrompt || scene.generatedPrompt
     || scene.visualDescription || ''] *)
Definition initialPromptText (scene : Scene.t) : string :=
  JS.or_else (Scene.userEditedPrompt scene)
    (JS.or_else (Scene.generatedPrompt scene)
       (JS.or_else (Scene.visualDescription scene) "")).

Definition promptUpdates (promptText : string) : ScenePatch.t :=
  ScenePatch.mk None None None None None None None None None
    (Some (Some promptText)) None None None None None None.

(** [handleSavePrompt] of the card of [scene], with the text of the
    editor. *)
Definition handleSavePrompt (scriptId : string) (scene : Scene.t)
    (promptText : string) : M unit :=
  handleUpdateScene scriptId (Scene.id scene) (promptUpdates promptText).

(** What [handleGenerateOne] gives to [buildScenePrompt] for a scene. *)
Definition promptInput (scene : Scene.t) : Gemini.SceneInput :=
  Gemini.mkSceneInput (Scene.location scene) (Scene.timeOfDay scene)
    (Scene.visualDescription scene) (Scene.userEditedPrompt scene).

End ScenesPage.

(* ================================================================== *)
(** * [src/pages/Home.tsx] *)
(* ================================================================== *)

Module HomePage.
Import Browser Storage.
Local Open Scope world_scope.

(** [handleDelete] with the answer of the confirmation dialog; the [scripts]
    cell of the page is passed in and its new value is returned. *)
Definition handleDelete (confirmed : bool) (id : string) (scripts : list Script.t)
  : M (list Script.t) :=
  if confirmed then deleteScript id ;;; loadScripts else ret scripts.

End HomePage.

(* ================================================================== *)
(** * Sample data *)
(* ================================================================== *)

Module Samples.
Import Browser Storage.

(** A world whose record store holds three scripts' worth of records,
    written by the store's own save functions. *)
Definition emptyUI : UI :=
  mkUI "" false None (fun _ => None) (fun _ => None) Gemini.realistic None [] [] None.

Definition sampleEnv : Env :=
  mkEnv (fun k => 1700000000000 + N.of_nat k)%N
    (fun k => ("uuid-" ++ JS.decimal (N.of_nat k))%string)
    (fun _ => Throw (Error "network"))
    (Some "key").

Definition emptyWorld : World :=
  mkWorld (fun _ => None) [] [] sampleEnv 0 0 0 emptyUI.

Definition sampleScript (id : string) : Script.t :=
  Script.mk id "Cafe" "INT. CAFE - DAY" None None ScriptStatus.ready
    "2023-11-14T22:13:20.000Z" "2023-11-14T22:13:20.000Z".

Definition sampleCharacter (id scriptId name : string) (images : list string)
    (selected : option string) : Character.t :=
  Character.mk id scriptId name
    (Appearance.mk (Some "mid-20s") None None (Some "long black hair") None None
       (Some ["freckles"]))
    None images selected None
    "2023-11-14T22:13:20.000Z" "2023-11-14T22:13:20.000Z".

Definition sampleScene (id scriptId : string) (number : Z)
    (images : list string) (st : SceneStatus.t) : Scene.t :=
  Scene.mk id scriptId number (Some "Opening") (Some "cafe") None
    "Anna drinks coffee." (Some "A woman drinks coffee.") None None ["c1"]
    images None st "2023-11-14T22:13:20.000Z" "2023-11-14T22:13:20.000Z".

Definition sampleScripts := [sampleScript "s1"; sampleScript "s2"].
Definition sampleCharacters :=
  [sampleCharacter "c1" "s1" "Anna" [] None;
   sampleCharacter "c2" "s2" "Bob" ["char_c2_0_1"] (Some "char_c2_0_1");
   sampleCharacter "c3" "s1" "Carl" [] None].
Definition sampleScenes :=
  [sampleScene "n1" "s2" 1 [] SceneStatus.pending;
   sampleScene "n2" "s1" 2 ["n2_0_5"] SceneStatus.completed;
   sampleScene "n3" "s1" 1 [] SceneStatus.pending].

Definition sampleWorld : World :=
  snd (saveScenes sampleScenes
         (snd (saveCharacters sampleCharacters
                 (snd (saveScripts sampleScripts emptyWorld))))).

(** A world in which one character has seven reference images. *)
Definition sevenImages : list string :=
  ["char_c7_0_1"; "char_c7_1_2"; "char_c7_2_3"; "char_c7_3_4"; "char_c7_4_5";
   "char_c7_5_6"; "char_c7_6_7"]%string.

Definition gwen : Character.t :=
  sampleCharacter "c7" "s1" "Gwen" sevenImages (Some "char_c7_0_1"%string).

Definition galleryCharacters : list Character.t :=
  [sampleCharacter "c2" "s2" "Bob" ["char_c2_0_1"] (Some "char_c2_0_1"); gwen]%string.

Definition galleryWorld : World :=
  snd (saveScenes sampleScenes
         (snd (saveCharacters galleryCharacters
                 (snd (saveScripts sampleScripts emptyWorld))))).

(** The sample world with a text under [characters] that is no JSON. *)
Definition brokenCharactersWorld : World :=
  with_localStorage
    (setItem (STORAGE_PREFIX ++ "characters") "{oops" (localStorage sampleWorld))
    sampleWorld.

(** The sample world without a key, neither of the build nor stored. *)
Definition noKeyWorld : World :=
  mkWorld (localStorage sampleWorld) [] []
    (mkEnv (clock sampleEnv) (uuid sampleEnv) (fun _ => Throw (Error "network")) None)
    0 0 0 emptyUI.

(** A reply of the model that carries one image. *)
Definition imageReply (data : string) : result GenAI.Response :=
  Ok (GenAI.mkResponse
        (Some [GenAI.mkCandidate
                 (Some [GenAI.mkPart None
                          (Some (GenAI.mkInlineData (Some "image/png"%string)
                                   (Some data)))])])).

(** A reply of the model that carries one text part. *)
Definition textReply (text : string) : result GenAI.Response :=
  Ok (GenAI.mkResponse
        (Some [GenAI.mkCandidate (Some [GenAI.mkPart (Some text) None])])).

(** The sample world with a model that answers every call with [reply]. *)
Definition worldWithModel (reply : nat -> result GenAI.Response) : World :=
  mkWorld (localStorage sampleWorld) [] []
    (mkEnv (clock sampleEnv) (uuid sampleEnv) reply (Some "key")) 0 0 0 emptyUI.

(** The sample world with a model whose second call fails and whose other
    calls yield an image. *)
Definition studioWorld : World :=
  worldWithModel (fun k => match k with
                           | 1 => Throw (Error "quota")
                           | _ => imageReply "AAAA"
                           end).

Definition apologyWorld : World :=
  worldWithModel (fun _ => textReply "Sorry, I cannot analyze this script.").

(** The JSON text of an analysis result, inside a fenced block, as the
    model is asked to reply. *)
Definition analysis_to_json (r : Analysis.result) : JSON.value :=
  JSON.Object
    [("characters",
      JSON.Array
        (map (fun c =>
                JSON.Object
                  ([("name", JSON.Str (Analysis.name c));
                    ("appearance", Codec.appearance_to_json (Analysis.appearance c))]
                   ++ Codec.optional "defaultOutfit"
                        (option_map JSON.Str (Analysis.defaultOutfit c))))
           (Analysis.characters r)));
     ("scenes",
      JSON.Array
        (map (fun x =>
                JSON.Object
                  ([("sceneNumber", JSON.Number (Analysis.sceneNumber x))]
                   ++ Codec.optional "title" (option_map JSON.Str (Analysis.title x))
                   ++ Codec.optional "location"
                        (option_map JSON.Str (Analysis.location x))
                   ++ Codec.optional "timeOfDay"
                        (option_map JSON.Str (Analysis.timeOfDay x))
                   ++ [("originalText", JSON.Str (Analysis.originalText x));
                       ("visualDescription", JSON.Str (Analysis.visualDescription x));
                       ("characterNames",
                        JSON.Array (map JSON.Str (Analysis.characterNames x)))]))
           (Analysis.scenes r)))].

Definition fencedReply (r : Analysis.result) : result GenAI.Response :=
  textReply (GeminiClient.fence ++ "json" ++ JS.LF
               ++ JSON.stringify (analysis_to_json r) ++ JS.LF
               ++ GeminiClient.fence)%string.

Definition anna : Analysis.character :=
  Analysis.mkCharacter "Anna" (Appearance.mk (Some "30") None None None None None None) None.

Definition annaTwice : Analysis.result :=
  Analysis.mkResult [anna; anna]
    [Analysis.mkScene 1 None (Some "cafe") None "Anna drinks coffee."
       "A woman drinks coffee." ["Anna"]]
    None.

Definition annaAndBob : Analysis.result :=
  Analysis.mkResult [anna]
    [Analysis.mkScene 1 None (Some "cafe") None "Anna drinks coffee."
       "A woman drinks coffee." ["Anna"];
     Analysis.mkScene 2 None None None "Bob waves." "A man waves." ["Bob"]]
    None.

Definition annaTwiceWorld : World := worldWithModel (fun _ => fencedReply annaTwice).
Definition annaAndBobWorld : World := worldWithModel (fun _ => fencedReply annaAndBob).

(** What the page of script s1 shows of the sample scenes: its two scenes,
    by number. *)
Definition studioRender : UI :=
  mkUI "" false None (fun _ => None) (fun _ => None) Gemini.realistic None []
    [sampleScene "n3" "s1" 1 [] SceneStatus.pending;
     sampleScene "n2" "s1" 2 ["n2_0_5"] SceneStatus.completed] None.

(** A world in which one character has six reference images, with a model
    that answers every call with an image. *)
Definition fay : Character.t :=
  sampleCharacter "c6" "s1" "Fay"
    ["char_c6_0_1"; "char_c6_1_2"; "char_c6_2_3"; "char_c6_3_4"; "char_c6_4_5";
     "char_c6_5_6"]%string (Some "char_c6_0_1"%string).

Definition atelierWorld : World :=
  mkWorld
    (localStorage
       (snd (saveScenes sampleScenes
               (snd (saveCharacters [fay]
                       (snd (saveScripts sampleScripts emptyWorld)))))))
    [] []
    (mkEnv (clock sampleEnv) (uuid sampleEnv) (fun _ => imageReply "AAAA")
       (Some "key"%string))
    0 0 0 emptyUI.

End Samples.

(** The JSON value that the model is asked for, with every property of an
    analysis result. *)
Module Reply.
Import Codec.

Definition character_json (c : Analysis.character) : JSON.value :=
  JSON.Object
    ([("name", JSON.Str (Analysis.name c));
      ("appearance", appearance_to_json (Analysis.appearance c))]
     ++ optional "defaultOutfit" (option_map JSON.Str (Analysis.defaultOutfit c))).

Definition scene_json (x : Analysis.scene) : JSON.value :=
  JSON.Object
    ([("sceneNumber", JSON.Number (Analysis.sceneNumber x))]
     ++ optional "title" (option_map JSON.Str (Analysis.title x))
     ++ optional "location" (option_map JSON.Str (Analysis.location x))
     ++ optional "timeOfDay" (option_map JSON.Str (Analysis.timeOfDay x))
     ++ [("originalText", JSON.Str (Analysis.originalText x));
         ("visualDescription", JSON.Str (Analysis.visualDescription x));
         ("characterNames",
          JSON.Array (map JSON.Str (Analysis.characterNames x)))]).

Definition members (r : Analysis.result) : list (string * JSON.value) :=
  ([("characters", JSON.Array (map character_json (Analysis.characters r)));
    ("scenes", JSON.Array (map scene_json (Analysis.scenes r)))]
   ++ optional "styleGuide" (option_map JSON.Str (Analysis.styleGuide r))).

Definition analysis_json (r : Analysis.result) : JSON.value :=
  JSON.Object (members r).

(** The reply that carries one text part. *)
Definition withText (text : string) : GenAI.Response :=
  GenAI.mkResponse
    (Some [GenAI.mkCandidate (Some [GenAI.mkPart (Some text) None])]).

(** A sample: words around the JSON of an analysis, and a world whose model
    answers with them. *)
Definition chattyText : string :=
  ("Sure. " ++ JSON.stringify (analysis_json Samples.annaAndBob)
     ++ " Anything else?")%string.

Definition chattyWorld : Browser.World :=
  Samples.worldWithModel (fun _ => Ok (withText chattyText)).

End Reply.

(* ================================================================== *)
(** * Lemmas: strings and lists *)
(* ================================================================== *)

Section StringFacts.

Local Open Scope string_scope.

Lemma append_assoc (a b c : string) : (a ++ b) ++ c = a ++ (b ++ c).
Proof. induction a as [|x a IH]; simpl; [reflexivity | now rewrite IH]. Qed.

Lemma append_nil_r (a : string) : a ++ "" = a.
Proof. induction a as [|x a IH]; simpl; [reflexivity | now rewrite IH]. Qed.

Lemma length_append (a b : string) :
  String.length (a ++ b) = String.length a + String.length b.
Proof. induction a as [|x a IH]; simpl; [reflexivity | now rewrite IH]. Qed.

End StringFacts.

(* ================================================================== *)
(** * Lemmas: the JSON round trip of the platform model *)
(* ================================================================== *)

Module JSONFacts.
Import JSON.
Local Open Scope string_scope.

Lemma stringify_Array l : stringify (Array l) = "[" ++ elems l.
Proof. reflexivity. Qed.

Lemma stringify_Object l : stringify (Object l) = "{" ++ membs l.
Proof. reflexivity. Qed.

(** *** String literals *)

Lemma parse_chars_escape_char c t s r :
  parse_chars t = Some (s, r) ->
  parse_chars (escape_char c ++ t) = Some (String c s, r).
Proof.
  intros H.
  destruct c as [[] [] [] [] [] [] [] []]; simpl; rewrite H; reflexivity.
Qed.

Lemma parse_chars_escape s rest :
  parse_chars (escape s ++ String quote rest) = Some (s, rest).
Proof.
  induction s as [|c s IH]; simpl.
  - reflexivity.
  - rewrite append_assoc. now apply parse_chars_escape_char.
Qed.

Lemma parse_chars_quoted s rest :
  exists t, quoted s ++ rest = String quote t /\ parse_chars t = Some (s, rest).
Proof.
  exists (escape s ++ String quote rest). split.
  - unfold quoted. simpl. now rewrite append_assoc.
  - apply parse_chars_escape.
Qed.

(** *** Numbers *)

Lemma not_tail_not_digit rest :
  starts_number_tail rest = false -> span_digits rest = ("", rest).
Proof.
  destruct rest as [|c rest]; simpl; [reflexivity|].
  intros H. apply orb_false_iff in H as [H _].
  apply orb_false_iff in H as [H _]. apply orb_false_iff in H as [H _].
  now rewrite H.
Qed.

Lemma span_digits_uint d rest :
  starts_number_tail rest = false ->
  span_digits (NilEmpty.string_of_uint d ++ rest)
  = (NilEmpty.string_of_uint d, rest).
Proof.
  intros H. induction d; simpl; try (rewrite IHd; reflexivity).
  now apply not_tail_not_digit.
Qed.

Lemma to_uint_nonnil n : N.to_uint n <> Decimal.Nil.
Proof.
  destruct n; simpl; [discriminate | apply DecimalPos.Unsigned.to_uint_nonnil].
Qed.

Lemma to_uint_no_leading_zero n d : N.to_uint n = Decimal.D0 d -> d = Decimal.Nil.
Proof.
  intros H.
  assert (E : Decimal.unorm (N.to_uint n) = N.to_uint n).
  { rewrite <- DecimalN.Unsigned.to_of. now rewrite DecimalN.Unsigned.of_to. }
  rewrite H in E. unfold Decimal.unorm in E.
  destruct (Decimal.nzhead (Decimal.D0 d)) eqn:Hz; try discriminate.
  - now inversion E.
  - exfalso. now apply (DecimalFacts.nzhead_nonzero (Decimal.D0 d) u).
Qed.

Lemma decimal_alt n : JS.decimal n = NilEmpty.string_of_uint (N.to_uint n).
Proof.
  unfold JS.decimal, NilZero.string_of_uint.
  destruct (N.to_uint n) eqn:E; try reflexivity.
  now apply to_uint_nonnil in E.
Qed.

Lemma decimal_head n :
  exists c more, JS.decimal n = String c more /\ is_digit c = true
    /\ (c = "0"%char -> more = "").
Proof.
  rewrite decimal_alt.
  destruct (N.to_uint n) as [|d|d|d|d|d|d|d|d|d|d] eqn:E;
    [now apply to_uint_nonnil in E | simpl; eexists; eexists;
                                    (split; [reflexivity | split; [reflexivity|]]) ..];
    try discriminate.
  intros _. apply to_uint_no_leading_zero in E. now subst.
Qed.

Lemma parse_digits_decimal n rest :
  starts_number_tail rest = false ->
  parse_digits (JS.decimal n ++ rest) = Some (n, rest).
Proof.
  intros H. unfold parse_digits.
  rewrite decimal_alt, (span_digits_uint _ _ H), <- decimal_alt.
  destruct (decimal_head n) as (c & more & E & _ & Hz).
  rewrite E, H.
  assert (G : (Ascii.eqb c "0" && negb (more =? ""))%bool = false).
  { destruct (Ascii.eqb_spec c "0") as [->|]; [|reflexivity].
    now rewrite (Hz eq_refl). }
  rewrite G, <- E. unfold JS.decimal.
  rewrite NilZero.usu by apply to_uint_nonnil.
  now rewrite DecimalN.Unsigned.of_to.
Qed.

Lemma parse_number_text z rest :
  starts_number_tail rest = false ->
  parse_number (number_text z ++ rest) = Some (Number z, rest).
Proof.
  intros H. unfold number_text.
  destruct (Z.ltb_spec z 0).
  - simpl. rewrite (parse_digits_decimal _ _ H). do 3 f_equal. lia.
  - destruct (decimal_head (Z.to_N z)) as (c & more & E & Hd & _).
    unfold parse_number. rewrite E. simpl.
    assert (G : Ascii.eqb c "-" = false).
    { destruct (Ascii.eqb_spec c "-") as [->|]; [discriminate | reflexivity]. }
    rewrite G. change (String c (more ++ rest)) with (String c more ++ rest).
    rewrite <- E, (parse_digits_decimal _ _ H). do 3 f_equal. lia.
Qed.

(** *** Values *)

Lemma value_start_facts c :
  value_start c = true ->
  is_ws c = false /\ Ascii.eqb c "]" = false /\ Ascii.eqb c "}" = false.
Proof.
  destruct c as [[] [] [] [] [] [] [] []]; intros H; vm_compute in H;
    (discriminate H || (vm_compute; auto)).
Qed.

Lemma stringify_head v :
  exists c t, stringify v = String c t /\ value_start c = true.
Proof.
  destruct v as [|[]|z|s|l|l]; try (eexists; eexists; split; reflexivity).
  simpl. unfold number_text. destruct (z <? 0)%Z.
  - eexists; eexists; split; reflexivity.
  - destruct (decimal_head (Z.to_N z)) as (c & more & E & Hd & _).
    exists c, more. split; [assumption|]. unfold value_start. now rewrite Hd.
Qed.

Lemma skip_ws_start c t : value_start c = true -> skip_ws (String c t) = String c t.
Proof. intros H. apply value_start_facts in H as (H & _). simpl. now rewrite H. Qed.

Lemma size_Array l : size (Array l) = S (sizes l).
Proof. reflexivity. Qed.

Lemma size_Object l : size (Object l) = S (msizes l).
Proof. reflexivity. Qed.

Lemma parse_value_number n c t :
  (is_digit c || Ascii.eqb c "-")%bool = true ->
  parse_value (S n) (String c t) = parse_number (String c t).
Proof.
  destruct c as [[] [] [] [] [] [] [] []]; intros H; vm_compute in H;
    (discriminate H || reflexivity).
Qed.

Lemma parses_back_Number z : parses_back (Number z).
Proof.
  intros [|n] rest Hf Hr; [simpl in Hf; lia|].
  rewrite <- (parse_number_text z rest Hr).
  change (stringify (Number z)) with (number_text z).
  unfold number_text. destruct (z <? 0)%Z.
  - now apply parse_value_number.
  - destruct (decimal_head (Z.to_N z)) as (c & more & E & Hd & _).
    rewrite E. apply parse_value_number. now rewrite Hd.
Qed.

Lemma parses_back_Str s : parses_back (Str s).
Proof.
  intros [|n] rest Hf Hr; [simpl in Hf; lia|].
  destruct (parse_chars_quoted s rest) as (t & E & Ht).
  change (stringify (Str s)) with (quoted s). rewrite E.
  change (parse_value (S n) (String quote t))
    with (match parse_chars t with
          | Some (t, r) => Some (Str t, r)
          | None => None
          end).
  now rewrite Ht.
Qed.

Lemma skip_ws_punct c t : is_ws c = false -> skip_ws (String c t) = String c t.
Proof. intros H. simpl. now rewrite H. Qed.

Lemma append_one c t : String c "" ++ t = String c t.
Proof. reflexivity. Qed.

Lemma parse_elements_S n s :
  parse_elements (S n) s
  = match parse_value n s with
    | Some (v, r) =>
        match skip_ws r with
        | String c r' =>
            if Ascii.eqb c "," then
              match parse_elements n r' with
              | Some (l, r'') => Some (v :: l, r'')
              | None => None
              end
            else if Ascii.eqb c "]" then Some ([v], r')
            else None
        | EmptyString => None
        end
    | None => None
    end.
Proof. reflexivity. Qed.

Lemma parse_members_S n s :
  parse_members (S n) s
  = match skip_ws s with
    | String q afterq =>
        if Ascii.eqb q quote then
          match parse_chars afterq with
          | Some (k, r0) =>
              match skip_ws r0 with
              | String colon r1 =>
                  if Ascii.eqb colon ":" then
                    match parse_value n r1 with
                    | Some (v, r) =>
                        match skip_ws r with
                        | String c r' =>
                            if Ascii.eqb c "," then
                              match parse_members n r' with
                              | Some (l, r'') => Some ((k, v) :: l, r'')
                              | None => None
                              end
                            else if Ascii.eqb c "}" then Some ([(k, v)], r')
                            else None
                        | EmptyString => None
                        end
                    | None => None
                    end
                  else None
              | EmptyString => None
              end
          | None => None
          end
        else None
    | EmptyString => None
    end.
Proof. reflexivity. Qed.

Lemma parse_value_bracket n rest :
  parse_value (S n) (String "[" rest)
  = match starts_with "]" (skip_ws rest) with
    | Some r => Some (Array [], r)
    | None =>
        match parse_elements n rest with
        | Some (l, r) => Some (Array l, r)
        | None => None
        end
    end.
Proof. reflexivity. Qed.

Lemma parse_value_brace n rest :
  parse_value (S n) (String "{" rest)
  = match starts_with "}" (skip_ws rest) with
    | Some r => Some (Object [], r)
    | None =>
        match parse_members n rest with
        | Some (l, r) => Some (Object l, r)
        | None => None
        end
    end.
Proof. reflexivity. Qed.

#[local] Arguments elems : simpl never.
#[local] Arguments membs : simpl never.
#[local] Arguments stringify : simpl never.
#[local] Arguments quoted : simpl never.

Lemma parse_elements_elems l :
  Forall parses_back l -> l <> [] ->
  forall fuel rest,
    sizes l <= fuel -> parse_elements fuel (elems l ++ rest) = Some (l, rest).
Proof.
  induction 1 as [|x l Hx Hl IH]; [congruence|].
  intros _ [|n] rest Hf; [simpl in Hf; lia|]. simpl in Hf.
  destruct l as [|y l].
  - change (elems [x]) with (stringify x ++ "]").
    rewrite append_assoc, append_one, parse_elements_S.
    rewrite Hx by (simpl; auto; lia).
    rewrite skip_ws_punct by reflexivity. reflexivity.
  - change (elems (x :: y :: l)) with (stringify x ++ "," ++ elems (y :: l)).
    rewrite !append_assoc, !append_one, parse_elements_S.
    rewrite Hx by (simpl; auto; lia).
    rewrite skip_ws_punct by reflexivity. cbv beta iota.
    simpl Ascii.eqb. cbv iota.
    rewrite IH by (try discriminate; simpl in *; lia). reflexivity.
Qed.

Lemma parse_members_membs l :
  Forall (fun kv => parses_back (snd kv)) l -> l <> [] ->
  forall fuel rest,
    msizes l <= fuel -> parse_members fuel (membs l ++ rest) = Some (l, rest).
Proof.
  induction 1 as [|[k x] l Hx Hl IH]; [congruence|].
  intros _ [|n] rest Hf; [simpl in Hf; lia|]. simpl in Hf, Hx.
  destruct l as [|[k' y] l].
  - change (membs [(k, x)]) with (quoted k ++ ":" ++ stringify x ++ "}").
    rewrite !append_assoc, !append_one.
    destruct (parse_chars_quoted k (String ":" (stringify x ++ String "}" rest)))
      as (t & E & Ht).
    rewrite E, parse_members_S, skip_ws_punct by reflexivity.
    cbv beta iota. change (Ascii.eqb quote quote) with true. cbv iota.
    rewrite Ht, skip_ws_punct by reflexivity.
    cbv beta iota. simpl Ascii.eqb. cbv iota.
    rewrite Hx by (simpl; auto; lia).
    rewrite skip_ws_punct by reflexivity. reflexivity.
  - change (membs ((k, x) :: (k', y) :: l))
      with (quoted k ++ ":" ++ stringify x ++ "," ++ membs ((k', y) :: l)).
    rewrite !append_assoc, !append_one.
    destruct (parse_chars_quoted k
                (String ":" (stringify x ++ String "," (membs ((k', y) :: l) ++ rest))))
      as (t & E & Ht).
    rewrite E, parse_members_S, skip_ws_punct by reflexivity.
    cbv beta iota. change (Ascii.eqb quote quote) with true. cbv iota.
    rewrite Ht, skip_ws_punct by reflexivity.
    cbv beta iota. simpl Ascii.eqb. cbv iota.
    rewrite Hx by (simpl; auto; lia).
    rewrite skip_ws_punct by reflexivity. cbv beta iota.
    simpl Ascii.eqb. cbv iota.
    rewrite IH by (try discriminate; simpl in *; lia). reflexivity.
Qed.

Lemma starts_with_start c t close :
  value_start c = true -> (close = "]" \/ close = "}")%char ->
  starts_with close (skip_ws (String c t)) = None.
Proof.
  intros H Hc. rewrite skip_ws_start by assumption.
  apply value_start_facts in H as (_ & H1 & H2).
  unfold starts_with. destruct Hc; subst; now (rewrite H1 || rewrite H2).
Qed.

Lemma elems_head l rest :
  l <> [] -> exists c t, elems l ++ rest = String c t /\ value_start c = true.
Proof.
  destruct l as [|x l]; [congruence|]. intros _.
  destruct (stringify_head x) as (c & t & E & H).
  destruct l; unfold elems; fold elems; rewrite !append_assoc, E;
    eexists; eexists; (split; [reflexivity | assumption]).
Qed.

Lemma parses_back_Array l : Forall parses_back l -> parses_back (Array l).
Proof.
  intros Hl [|n] rest Hf Hr; [simpl in Hf; lia|].
  rewrite size_Array in Hf.
  rewrite stringify_Array, append_assoc, append_one, parse_value_bracket.
  destruct l as [|x l].
  - reflexivity.
  - destruct (elems_head rest (l := x :: l)) as (c & t & E & H); [discriminate|].
    rewrite E, (@starts_with_start c t "]") by auto. rewrite <- E.
    rewrite (parse_elements_elems Hl) by (try discriminate; lia).
    reflexivity.
Qed.

Lemma parses_back_Object l :
  Forall (fun kv => parses_back (snd kv)) l -> parses_back (Object l).
Proof.
  intros Hl [|n] rest Hf Hr; [simpl in Hf; lia|].
  rewrite size_Object in Hf.
  rewrite stringify_Object, append_assoc, append_one, parse_value_brace.
  destruct l as [|[k x] l].
  - reflexivity.
  - assert (E : exists t, membs ((k, x) :: l) ++ rest = String quote t).
    { destruct l as [|[k' y] l]; unfold membs; fold membs; unfold quoted;
        simpl; eexists; reflexivity. }
    destruct E as (t & E).
    rewrite E, (@starts_with_start quote t "}") by auto. rewrite <- E.
    rewrite (parse_members_membs Hl) by (try discriminate; lia).
    reflexivity.
Qed.

Lemma parses_back_all v : parses_back v.
Proof.
  induction v using value_ind.
  - intros [|n] rest Hf Hr; [simpl in Hf; lia | reflexivity].
  - intros [|n] rest Hf Hr; [simpl in Hf; lia | destruct b; reflexivity].
  - apply parses_back_Number.
  - apply parses_back_Str.
  - now apply parses_back_Array.
  - now apply parses_back_Object.
Qed.

Lemma size_le_length v : size v <= String.length (stringify v).
Proof.
  induction v using value_ind.
  - simpl; lia.
  - destruct b; simpl; lia.
  - destruct (stringify_head (Number z)) as (c & t & E & _). rewrite E. simpl. lia.
  - destruct (stringify_head (Str s)) as (c & t & E & _). rewrite E. simpl. lia.
  - rewrite size_Array, stringify_Array. simpl String.length.
    apply le_n_S.
    induction H as [|x l Hx Hl IH]; [simpl; lia|].
    destruct l as [|y l].
    + change (elems [x]) with (stringify x ++ "]").
      rewrite length_append. simpl. lia.
    + change (elems (x :: y :: l)) with (stringify x ++ "," ++ elems (y :: l)).
      rewrite !length_append. simpl sizes in *. simpl String.length. lia.
  - rewrite size_Object, stringify_Object. simpl String.length.
    apply le_n_S.
    induction H as [|[k x] l Hx Hl IH]; [simpl; lia|]. simpl in Hx.
    destruct l as [|[k' y] l].
    + change (membs [(k, x)]) with (quoted k ++ ":" ++ stringify x ++ "}").
      rewrite !length_append. simpl. lia.
    + change (membs ((k, x) :: (k', y) :: l))
        with (quoted k ++ ":" ++ stringify x ++ "," ++ membs ((k', y) :: l)).
      rewrite !length_append. simpl msizes in *. simpl String.length. lia.
Qed.

(** The round trip of the platform: [JSON.parse(JSON.stringify(v))] is [v]. *)
Lemma parse_stringify v : parse (stringify v) = Some v.
Proof.
  unfold parse.
  rewrite <- (append_nil_r (stringify v)) at 2.
  rewrite parses_back_all; [reflexivity | | reflexivity].
  pose proof (size_le_length v). lia.
Qed.

Lemma stringify_nonempty v : stringify v <> "".
Proof. destruct (stringify_head v) as (c & t & E & _). now rewrite E. Qed.

End JSONFacts.

(* ================================================================== *)
(** * Lemmas: the records as JSON values *)
(* ================================================================== *)

Module CodecFacts.
Import JSON Codec.

Lemma as_list_map {T} (f : value -> option T) (g : T -> value) :
  (forall x, f (g x) = Some x) ->
  forall l, as_list f (map g l) = Some l.
Proof.
  intros H. induction l as [|x l IH]; simpl; [reflexivity|].
  now rewrite H, IH.
Qed.

Lemma as_strings l : as_list as_string (map Str l) = Some l.
Proof. now apply as_list_map. Qed.

Lemma lawful_string : lawful string.
Proof. intros x. reflexivity. Qed.

Lemma lawful_list (T : Type) {S : Serializable T} : lawful T -> lawful (list T).
Proof. intros HT l. simpl. now apply as_list_map. Qed.

Lemma script_status_back st : as_script_status (Str (script_status_text st)) = Some st.
Proof. now destruct st. Qed.

Lemma scene_status_back st : as_scene_status (Str (scene_status_text st)) = Some st.
Proof. now destruct st. Qed.

Lemma lawful_Script : lawful Script.t.
Proof.
  intros [id title raw [genre|] [guide|] st created updated];
    cbn -[as_script_status script_status_text];
    rewrite script_status_back; reflexivity.
Qed.

Lemma appearance_back a : appearance_of_json (appearance_to_json a) = Some a.
Proof.
  destruct a as [[?|] [?|] [?|] [?|] [?|] [?|] [?|]];
    cbn -[as_list]; rewrite ?as_strings; reflexivity.
Qed.

Lemma lawful_Character : lawful Character.t.
Proof.
  intros [id sid name app [outfit|] refs [sel|] [base|] created updated];
    cbn -[as_list appearance_of_json appearance_to_json];
    rewrite appearance_back; cbn -[as_list]; rewrite as_strings; reflexivity.
Qed.

Lemma lawful_Scene : lawful Scene.t.
Proof.
  intros [id sid num [title|] [loc|] [time|] text [desc|] [gen|] [edited|]
            chars imgs [sel|] st created updated];
    cbn -[as_list as_scene_status scene_status_text];
    rewrite !as_strings; cbn -[as_scene_status scene_status_text];
    rewrite scene_status_back; reflexivity.
Qed.

End CodecFacts.

(* ================================================================== *)
(** * Lemmas: the record store *)
(* ================================================================== *)

Module StorageFacts.
Import Browser Codec CodecFacts Storage.
Local Open Scope world_scope.

Lemma bind_Ok {A B} (m : M A) (k : A -> M B) w a w' :
  m w = (Ok a, w') -> (x <- m ;; k x) w = k a w'.
Proof. unfold bind. now intros ->. Qed.

Lemma bind_Throw {A B} (m : M A) (k : A -> M B) w e w' :
  m w = (Throw e, w') -> (x <- m ;; k x) w = (Throw e, w').
Proof. unfold bind. now intros ->. Qed.

Lemma getItem_setItem k v st : getItem k (setItem k v st) = Some v.
Proof. unfold getItem, setItem. now rewrite String.eqb_refl. Qed.

Lemma getItem_setItem_other k k' v st :
  k' <> k -> getItem k' (setItem k v st) = getItem k' st.
Proof.
  intros H. unfold getItem, setItem.
  now destruct (String.eqb_spec k' k).
Qed.

(** A load reads [localStorage] and changes nothing. *)
Lemma loadData_world {T} {S : Serializable T} key w :
  snd (loadData (T := T) key w) = w.
Proof.
  unfold loadData. destruct (getItem _ _) as [data|]; [|reflexivity].
  destruct (data =? "")%string; [reflexivity|].
  destruct (JSON.parse data) as [[]|]; try reflexivity;
    destruct (of_json _); reflexivity.
Qed.

Lemma loadData_reads {T} {S : Serializable T} key w1 w2 :
  getItem (STORAGE_PREFIX ++ key) (localStorage w1)
  = getItem (STORAGE_PREFIX ++ key) (localStorage w2) ->
  fst (loadData (T := T) key w1) = fst (loadData (T := T) key w2).
Proof.
  unfold loadData. intros ->. destruct (getItem _ _) as [data|]; [|reflexivity].
  destruct (data =? "")%string; [reflexivity|].
  destruct (JSON.parse data) as [[]|]; try reflexivity;
    destruct (of_json _); reflexivity.
Qed.

(** The round trip of the store for a lawful record type whose values are
    not [null]. *)
Lemma loadData_saveData {T} {S : Serializable T} :
  lawful T -> (forall x : T, to_json x <> JSON.Null) ->
  forall key (data : T) w,
    let w' := snd (saveData key data w) in
    loadData key w' = (Ok (Some data), w').
Proof.
  intros HT Hnull key data w. simpl. unfold loadData. simpl.
  rewrite getItem_setItem.
  destruct (String.eqb_spec (JSON.stringify (to_json data)) "") as [E|_].
  - now apply JSONFacts.stringify_nonempty in E.
  - rewrite JSONFacts.parse_stringify, HT.
    specialize (Hnull data). now destruct (to_json data).
Qed.

Lemma loadData_saveData_other {T U} {S : Serializable T} {S' : Serializable U}
    key key' (data : T) w :
  key' <> key ->
  fst (loadData (T := U) key' (snd (saveData key data w)))
  = fst (loadData (T := U) key' w).
Proof.
  intros H. apply loadData_reads. simpl.
  apply getItem_setItem_other. intros E. apply H.
  unfold STORAGE_PREFIX in E. simpl in E. now inversion E.
Qed.

Lemma list_not_null {T} {S : Serializable T} (l : list T) : to_json l <> JSON.Null.
Proof. discriminate. Qed.

Lemma saveData_outside {T} {S : Serializable T} key (data : T) w :
  outside (snd (saveData key data w)) = outside w.
Proof. reflexivity. Qed.

(** *** The three collections *)

Lemma loadScripts_run w : loadScripts w = (scriptsOf w, w).
Proof.
  unfold scriptsOf, loadScripts, bind.
  pose proof (loadData_world (T := list Script.t) "scripts" w) as H.
  destruct (loadData "scripts" w) as [[a|e] w']; simpl in *; now subst.
Qed.

Lemma loadCharacters_run w : loadCharacters w = (charactersOf w, w).
Proof.
  unfold charactersOf, loadCharacters, bind.
  pose proof (loadData_world (T := list Character.t) "characters" w) as H.
  destruct (loadData "characters" w) as [[a|e] w']; simpl in *; now subst.
Qed.

Lemma loadScenes_run w : loadScenes w = (scenesOf w, w).
Proof.
  unfold scenesOf, loadScenes, bind.
  pose proof (loadData_world (T := list Scene.t) "scenes" w) as H.
  destruct (loadData "scenes" w) as [[a|e] w']; simpl in *; now subst.
Qed.

Lemma scriptsOf_saveScripts l w : scriptsOf (snd (saveScripts l w)) = Ok l.
Proof.
  unfold scriptsOf, loadScripts, saveScripts, bind.
  rewrite (loadData_saveData (lawful_list lawful_Script) (@list_not_null _ _)).
  reflexivity.
Qed.

Lemma charactersOf_saveCharacters l w :
  charactersOf (snd (saveCharacters l w)) = Ok l.
Proof.
  unfold charactersOf, loadCharacters, saveCharacters, bind.
  rewrite (loadData_saveData (lawful_list lawful_Character) (@list_not_null _ _)).
  reflexivity.
Qed.

Lemma scenesOf_saveScenes l w : scenesOf (snd (saveScenes l w)) = Ok l.
Proof.
  unfold scenesOf, loadScenes, saveScenes, bind.
  rewrite (loadData_saveData (lawful_list lawful_Scene) (@list_not_null _ _)).
  reflexivity.
Qed.

Lemma view_bind {A B} (m : M (option A)) (f : option A -> B) w1 w2 :
  fst (m w1) = fst (m w2) ->
  fst ((x <- m ;; ret (f x)) w1) = fst ((x <- m ;; ret (f x)) w2).
Proof.
  unfold bind, ret. destruct (m w1) as [[a|e] ?], (m w2) as [[a'|e'] ?];
    simpl; congruence.
Qed.

Lemma scriptsOf_saveCharacters l w : scriptsOf (snd (saveCharacters l w)) = scriptsOf w.
Proof. apply view_bind, loadData_saveData_other. discriminate. Qed.

Lemma scriptsOf_saveScenes l w : scriptsOf (snd (saveScenes l w)) = scriptsOf w.
Proof. apply view_bind, loadData_saveData_other. discriminate. Qed.

Lemma charactersOf_saveScripts l w : charactersOf (snd (saveScripts l w)) = charactersOf w.
Proof. apply view_bind, loadData_saveData_other. discriminate. Qed.

Lemma charactersOf_saveScenes l w : charactersOf (snd (saveScenes l w)) = charactersOf w.
Proof. apply view_bind, loadData_saveData_other. discriminate. Qed.

Lemma scenesOf_saveScripts l w : scenesOf (snd (saveScripts l w)) = scenesOf w.
Proof. apply view_bind, loadData_saveData_other. discriminate. Qed.

Lemma scenesOf_saveCharacters l w : scenesOf (snd (saveCharacters l w)) = scenesOf w.
Proof. apply view_bind, loadData_saveData_other. discriminate. Qed.

Lemma saveScripts_run l w : saveScripts l w = (Ok tt, snd (saveScripts l w)).
Proof. reflexivity. Qed.

Lemma saveCharacters_run l w : saveCharacters l w = (Ok tt, snd (saveCharacters l w)).
Proof. reflexivity. Qed.

Lemma saveScenes_run l w : saveScenes l w = (Ok tt, snd (saveScenes l w)).
Proof. reflexivity. Qed.

(** *** Views depend on the text of their key only *)

Lemma view_text {T} {S : Serializable T} key w w' :
  storedText key w' = storedText key w ->
  fst (loadData (T := T) key w') = fst (loadData (T := T) key w).
Proof. intros H. now apply loadData_reads. Qed.

Lemma scriptsOf_text w w' :
  storedText "scripts" w' = storedText "scripts" w -> scriptsOf w' = scriptsOf w.
Proof. intros H. apply view_bind. now apply view_text. Qed.

Lemma charactersOf_text w w' :
  storedText "characters" w' = storedText "characters" w ->
  charactersOf w' = charactersOf w.
Proof. intros H. apply view_bind. now apply view_text. Qed.

Lemma scenesOf_text w w' :
  storedText "scenes" w' = storedText "scenes" w -> scenesOf w' = scenesOf w.
Proof. intros H. apply view_bind. now apply view_text. Qed.

Lemma scriptsOf_ls w w' : localStorage w' = localStorage w -> scriptsOf w' = scriptsOf w.
Proof. intros H. apply scriptsOf_text. unfold storedText. now rewrite H. Qed.

Lemma charactersOf_ls w w' :
  localStorage w' = localStorage w -> charactersOf w' = charactersOf w.
Proof. intros H. apply charactersOf_text. unfold storedText. now rewrite H. Qed.

Lemma scenesOf_ls w w' : localStorage w' = localStorage w -> scenesOf w' = scenesOf w.
Proof. intros H. apply scenesOf_text. unfold storedText. now rewrite H. Qed.

Lemma besideRecords_save {T} {S : Serializable T} key (data : T) w :
  key <> "apiKey" -> besideRecords w (snd (saveData key data w)).
Proof.
  intros H. repeat split. unfold storedText. simpl.
  apply getItem_setItem_other. intros E. apply H.
  unfold STORAGE_PREFIX in E. simpl in E. now inversion E.
Qed.

Lemma besideRecords_refl w : besideRecords w w.
Proof. now repeat split. Qed.

Lemma besideRecords_trans w1 w2 w3 :
  besideRecords w1 w2 -> besideRecords w2 w3 -> besideRecords w1 w3.
Proof.
  intros (a1 & a2 & a3 & a4 & a5 & a6 & a7) (b1 & b2 & b3 & b4 & b5 & b6 & b7).
  repeat split; congruence.
Qed.

Lemma besideRecords_ticks n w : besideRecords w (with_ticks n w).
Proof. now repeat split. Qed.

(** *** Updating the first record of an id *)

Lemma findIndex_updateFirst {A} (p : A -> bool) (f : A -> A) l :
  match JS.findIndex p l with
  | Some i => exists x, nth_error l i = Some x /\ JS.set_at i (f x) l = JS.updateFirst p f l
  | None => JS.updateFirst p f l = l
  end.
Proof.
  induction l as [|x l IH]; simpl; [reflexivity|].
  destruct (p x); [now exists x|].
  destruct (JS.findIndex p l) as [i|].
  - destruct IH as (y & Hy & E). exists y. split; [assumption|]. simpl. now rewrite E.
  - now rewrite IH.
Qed.

Lemma find_updateFirst {A} (p : A -> bool) (f : A -> A) l :
  (forall x, p (f x) = p x) ->
  find p (JS.updateFirst p f l) = option_map f (find p l).
Proof.
  intros H. induction l as [|x l IH]; simpl; [reflexivity|].
  destruct (p x) eqn:E; simpl.
  - now rewrite H, E.
  - now rewrite E.
Qed.

Lemma Date_toISOString_run w :
  Date_toISOString w
  = (Ok (toISOString (clock (env w) (ticks w))), with_ticks (S (ticks w)) w).
Proof. reflexivity. Qed.

Lemma updateScene_run id updates w l :
  scenesOf w = Ok l ->
  exists w',
    updateScene id updates w = (Ok tt, w')
    /\ scenesOf w'
       = Ok (JS.updateFirst (fun s => Scene.id s =? id)%string
               (touchedScene w updates) l)
    /\ scriptsOf w' = scriptsOf w /\ charactersOf w' = charactersOf w
    /\ besideRecords w w'.
Proof.
  intros H. unfold updateScene.
  rewrite (bind_Ok _ _ _ (eq_trans (loadScenes_run w) (f_equal (fun r => (r, w)) H))).
  pose proof (findIndex_updateFirst (fun s => Scene.id s =? id)%string
                (touchedScene w updates) l) as F.
  destruct (JS.findIndex _ l) as [i|].
  - destruct F as (old & Hold & E). rewrite Hold.
    rewrite (bind_Ok _ _ _ (Date_toISOString_run w)).
    fold (touchedScene w updates old). rewrite E, saveScenes_run.
    eexists. split; [reflexivity|].
    split; [apply scenesOf_saveScenes|].
    split; [rewrite scriptsOf_saveScenes; now apply scriptsOf_ls|].
    split; [rewrite charactersOf_saveScenes; now apply charactersOf_ls|].
    eapply besideRecords_trans; [apply besideRecords_ticks|].
    now apply besideRecords_save.
  - rewrite F. exists w. repeat split; assumption.
Qed.

Lemma updateCharacter_run id updates w l :
  charactersOf w = Ok l ->
  exists w',
    updateCharacter id updates w = (Ok tt, w')
    /\ charactersOf w'
       = Ok (JS.updateFirst (fun c => Character.id c =? id)%string
               (touchedCharacter w updates) l)
    /\ scriptsOf w' = scriptsOf w /\ scenesOf w' = scenesOf w
    /\ besideRecords w w'.
Proof.
  intros H. unfold updateCharacter.
  rewrite (bind_Ok _ _ _ (eq_trans (loadCharacters_run w) (f_equal (fun r => (r, w)) H))).
  pose proof (findIndex_updateFirst (fun c => Character.id c =? id)%string
                (touchedCharacter w updates) l) as F.
  destruct (JS.findIndex _ l) as [i|].
  - destruct F as (old & Hold & E). rewrite Hold.
    rewrite (bind_Ok _ _ _ (Date_toISOString_run w)).
    fold (touchedCharacter w updates old). rewrite E, saveCharacters_run.
    eexists. split; [reflexivity|].
    split; [apply charactersOf_saveCharacters|].
    split; [rewrite scriptsOf_saveCharacters; now apply scriptsOf_ls|].
    split; [rewrite scenesOf_saveCharacters; now apply scenesOf_ls|].
    eapply besideRecords_trans; [apply besideRecords_ticks|].
    now apply besideRecords_save.
  - rewrite F. exists w. repeat split; assumption.
Qed.

Lemma updateScript_run id updates w l :
  scriptsOf w = Ok l ->
  exists w',
    updateScript id updates w = (Ok tt, w')
    /\ scriptsOf w'
       = Ok (JS.updateFirst (fun s => Script.id s =? id)%string
               (touchedScript w updates) l)
    /\ charactersOf w' = charactersOf w /\ scenesOf w' = scenesOf w
    /\ besideRecords w w'.
Proof.
  intros H. unfold updateScript.
  rewrite (bind_Ok _ _ _ (eq_trans (loadScripts_run w) (f_equal (fun r => (r, w)) H))).
  pose proof (findIndex_updateFirst (fun s => Script.id s =? id)%string
                (touchedScript w updates) l) as F.
  destruct (JS.findIndex _ l) as [i|].
  - destruct F as (old & Hold & E). rewrite Hold.
    rewrite (bind_Ok _ _ _ (Date_toISOString_run w)).
    fold (touchedScript w updates old). rewrite E, saveScripts_run.
    eexists. split; [reflexivity|].
    split; [apply scriptsOf_saveScripts|].
    split; [rewrite charactersOf_saveScripts; now apply charactersOf_ls|].
    split; [rewrite scenesOf_saveScripts; now apply scenesOf_ls|].
    eapply besideRecords_trans; [apply besideRecords_ticks|].
    now apply besideRecords_save.
  - rewrite F. exists w. repeat split; assumption.
Qed.

Lemma addScript_run script w l :
  scriptsOf w = Ok l ->
  exists w',
    addScript script w = (Ok tt, w')
    /\ scriptsOf w' = Ok (l ++ [script])
    /\ charactersOf w' = charactersOf w /\ scenesOf w' = scenesOf w
    /\ besideRecords w w'.
Proof.
  intros H. unfold addScript.
  rewrite (bind_Ok _ _ _ (eq_trans (loadScripts_run w) (f_equal (fun r => (r, w)) H))).
  rewrite saveScripts_run. eexists. split; [reflexivity|].
  split; [apply scriptsOf_saveScripts|].
  split; [now rewrite charactersOf_saveScripts|].
  split; [now rewrite scenesOf_saveScripts|].
  now apply besideRecords_save.
Qed.

Lemma saveAnalysisResult_run S newCharacters newScenes w characters scenes :
  charactersOf w = Ok characters ->
  scenesOf w = Ok scenes ->
  exists w',
    saveAnalysisResult S newCharacters newScenes w = (Ok tt, w')
    /\ charactersOf w'
       = Ok (filter (fun c => negb (Character.scriptId c =? S)%string) characters
             ++ newCharacters)
    /\ scenesOf w'
       = Ok (filter (fun s => negb (Scene.scriptId s =? S)%string) scenes
             ++ newScenes)
    /\ scriptsOf w' = scriptsOf w
    /\ besideRecords w w'.
Proof.
  intros Hc Hn. unfold saveAnalysisResult.
  rewrite (bind_Ok _ _ _ (eq_trans (loadCharacters_run w) (f_equal (fun r => (r, w)) Hc))).
  rewrite (bind_Ok _ _ _ (eq_trans (loadScenes_run w) (f_equal (fun r => (r, w)) Hn))).
  rewrite (bind_Ok _ _ _ (saveCharacters_run _ w)).
  rewrite saveScenes_run.
  eexists. split; [reflexivity|].
  split; [rewrite charactersOf_saveScenes; apply charactersOf_saveCharacters|].
  split; [apply scenesOf_saveScenes|].
  split; [now rewrite scriptsOf_saveScenes, scriptsOf_saveCharacters|].
  apply besideRecords_trans with (w2 := snd (saveCharacters
    (filter (fun c => negb (Character.scriptId c =? S)%string) characters
     ++ newCharacters) w)); now apply besideRecords_save.
Qed.

End StorageFacts.

(* ================================================================== *)
(** * Theorems: the record store *)
(* ================================================================== *)

Section RecordStore.
Import Browser Codec CodecFacts Storage StorageFacts Samples.

(** C6.  Deleting the script [S] from a store whose three collections
    load: the delete succeeds; afterwards the scripts are the former
    scripts whose id is not [S], the characters and the scenes are the
    former ones whose scriptId is not [S], each collection in its former
    order, and nothing else of the world has changed. *)
Theorem C6_deleteScript_cascade :
  forall (w : World) (S : string) scripts characters scenes,
    scriptsOf w = Ok scripts ->
    charactersOf w = Ok characters ->
    scenesOf w = Ok scenes ->
    exists w' scripts' characters' scenes',
      deleteScript S w = (Ok tt, w')
      /\ scriptsOf w' = Ok scripts'
      /\ charactersOf w' = Ok characters'
      /\ scenesOf w' = Ok scenes'
      /\ scripts' = filter (fun s => negb (Script.id s =? S)%string) scripts
      /\ characters'
         = filter (fun c => negb (Character.scriptId c =? S)%string) characters
      /\ scenes' = filter (fun s => negb (Scene.scriptId s =? S)%string) scenes
      /\ (forall s, In s scripts' <-> In s scripts /\ Script.id s <> S)
      /\ (forall c, In c characters'
                    <-> In c characters /\ Character.scriptId c <> S)
      /\ (forall s, In s scenes' <-> In s scenes /\ Scene.scriptId s <> S)
      /\ outside w' = outside w.
Proof.
  intros w S scripts characters scenes Hs Hc Hn.
  unfold deleteScript.
  rewrite (bind_Ok _ _ _ (eq_trans (loadScripts_run w) (f_equal (fun r => (r, w)) Hs))).
  rewrite (bind_Ok _ _ _ (saveScripts_run _ w)).
  set (w1 := snd (saveScripts _ w)).
  assert (Hc1 : charactersOf w1 = Ok characters)
    by (unfold w1; now rewrite charactersOf_saveScripts).
  rewrite (bind_Ok _ _ _ (eq_trans (loadCharacters_run w1) (f_equal (fun r => (r, w1)) Hc1))).
  rewrite (bind_Ok _ _ _ (saveCharacters_run _ w1)).
  set (w2 := snd (saveCharacters _ w1)).
  assert (Hn2 : scenesOf w2 = Ok scenes)
    by (unfold w2, w1; now rewrite scenesOf_saveCharacters, scenesOf_saveScripts).
  rewrite (bind_Ok _ _ _ (eq_trans (loadScenes_run w2) (f_equal (fun r => (r, w2)) Hn2))).
  rewrite saveScenes_run.
  eexists; eexists; eexists; eexists.
  split; [reflexivity|].
  split; [rewrite scriptsOf_saveScenes; unfold w2;
          rewrite scriptsOf_saveCharacters; unfold w1;
          apply scriptsOf_saveScripts|].
  split; [rewrite charactersOf_saveScenes; unfold w2;
          apply charactersOf_saveCharacters|].
  split; [apply scenesOf_saveScenes|].
  split; [reflexivity|]. split; [reflexivity|]. split; [reflexivity|].
split; [|split; [|split]]; try reflexivity.
- intros s. rewrite filter_In, negb_true_iff, String.eqb_neq. reflexivity.
- intros c. rewrite filter_In, negb_true_iff, String.eqb_neq. reflexivity.
- intros s. rewrite filter_In, negb_true_iff, String.eqb_neq. reflexivity.
Qed.

Lemma C6_deleteScript_cascade_witness :
  exists w' scripts' characters' scenes',
    deleteScript "s1" sampleWorld = (Ok tt, w')
    /\ scriptsOf w' = Ok scripts'
    /\ charactersOf w' = Ok characters'
    /\ scenesOf w' = Ok scenes'
    /\ scripts' = filter (fun s => negb (Script.id s =? "s1")%string) sampleScripts
    /\ characters'
       = filter (fun c => negb (Character.scriptId c =? "s1")%string) sampleCharacters
    /\ scenes' = filter (fun s => negb (Scene.scriptId s =? "s1")%string) sampleScenes
    /\ (forall s, In s scripts' <-> In s sampleScripts /\ Script.id s <> "s1")
    /\ (forall c, In c characters'
                  <-> In c sampleCharacters /\ Character.scriptId c <> "s1")
    /\ (forall s, In s scenes' <-> In s sampleScenes /\ Scene.scriptId s <> "s1")
    /\ outside w' = outside sampleWorld.
Proof.
  apply (C6_deleteScript_cascade sampleWorld "s1"
           (scripts := sampleScripts) (characters := sampleCharacters)
           (scenes := sampleScenes)); vm_compute; reflexivity.
Defined.

(** C9.  In every world and under every collection key, saving an array
    of Script, Character or Scene records and loading the key again
    returns that array; so do the named save and load functions of the
    three collections. *)
Theorem C9_save_load_round_trip :
  forall (key : string) (w : World),
    (forall X : list Script.t,
        loadData key (snd (saveData key X w))
        = (Ok (Some X), snd (saveData key X w)))
    /\ (forall X : list Character.t,
        loadData key (snd (saveData key X w))
        = (Ok (Some X), snd (saveData key X w)))
    /\ (forall X : list Scene.t,
        loadData key (snd (saveData key X w))
        = (Ok (Some X), snd (saveData key X w)))
    /\ (forall X, scriptsOf (snd (saveScripts X w)) = Ok X)
    /\ (forall X, charactersOf (snd (saveCharacters X w)) = Ok X)
    /\ (forall X, scenesOf (snd (saveScenes X w)) = Ok X).
Proof.
  intros key w. repeat split; intros X.
  - apply (loadData_saveData (lawful_list lawful_Script) (@list_not_null _ _)).
  - apply (loadData_saveData (lawful_list lawful_Character) (@list_not_null _ _)).
  - apply (loadData_saveData (lawful_list lawful_Scene) (@list_not_null _ _)).
  - apply scriptsOf_saveScripts.
  - apply charactersOf_saveCharacters.
  - apply scenesOf_saveScenes.
Qed.

(** C10.  Saving an analysis result for the script [S] into a store whose
    character and scene collections load: the save succeeds; afterwards
    the characters are the former characters of the other scripts, in
    their former order, followed by the new characters, and likewise the
    scenes; no former record of [S] remains unless it is among the new
    ones; the scripts and the rest of the world are unchanged. *)
Theorem C10_saveAnalysisResult_replaces :
  forall (w : World) (S : string) characters scenes newCharacters newScenes,
    charactersOf w = Ok characters ->
    scenesOf w = Ok scenes ->
    exists w',
      saveAnalysisResult S newCharacters newScenes w = (Ok tt, w')
      /\ charactersOf w'
         = Ok (filter (fun c => negb (Character.scriptId c =? S)%string) characters
               ++ newCharacters)
      /\ scenesOf w'
         = Ok (filter (fun s => negb (Scene.scriptId s =? S)%string) scenes
               ++ newScenes)
      /\ (forall c c', charactersOf w' = Ok c' -> In c c' ->
                       Character.scriptId c = S -> In c newCharacters)
      /\ (forall s s', scenesOf w' = Ok s' -> In s s' ->
                       Scene.scriptId s = S -> In s newScenes)
      /\ scriptsOf w' = scriptsOf w
      /\ outside w' = outside w.
Proof.
  intros w S characters scenes newCharacters newScenes Hc Hn.
  unfold saveAnalysisResult.
  rewrite (bind_Ok _ _ _ (eq_trans (loadCharacters_run w) (f_equal (fun r => (r, w)) Hc))).
  rewrite (bind_Ok _ _ _ (eq_trans (loadScenes_run w) (f_equal (fun r => (r, w)) Hn))).
  rewrite (bind_Ok _ _ _ (saveCharacters_run _ w)).
  rewrite saveScenes_run.
  eexists. split; [reflexivity|].
  assert (Hc' : forall l l', charactersOf
              (snd (saveScenes l' (snd (saveCharacters l w)))) = Ok l)
    by (intros; rewrite charactersOf_saveScenes; apply charactersOf_saveCharacters).
  split; [apply Hc'|]. split; [apply scenesOf_saveScenes|].
  split; [|split; [|split]].
  - intros c c' H Hin HS. rewrite Hc' in H. injection H as <-.
    apply in_app_or in Hin as [Hin|Hin]; [|assumption].
    apply filter_In in Hin as [_ Hin].
    rewrite HS, String.eqb_refl in Hin. discriminate.
  - intros s s' H Hin HS. rewrite scenesOf_saveScenes in H. injection H as <-.
    apply in_app_or in Hin as [Hin|Hin]; [|assumption].
    apply filter_In in Hin as [_ Hin].
    rewrite HS, String.eqb_refl in Hin. discriminate.
  - now rewrite scriptsOf_saveScenes, scriptsOf_saveCharacters.
  - reflexivity.
Qed.

Lemma C10_saveAnalysisResult_replaces_witness :
  exists w',
    saveAnalysisResult "s1" [sampleCharacter "c9" "s1" "Dora" [] None]
      [sampleScene "n9" "s1" 1 [] SceneStatus.pending] sampleWorld = (Ok tt, w')
    /\ charactersOf w'
       = Ok ([sampleCharacter "c2" "s2" "Bob" ["char_c2_0_1"] (Some "char_c2_0_1");
              sampleCharacter "c9" "s1" "Dora" [] None])
    /\ scenesOf w'
       = Ok ([sampleScene "n1" "s2" 1 [] SceneStatus.pending;
              sampleScene "n9" "s1" 1 [] SceneStatus.pending]).
Proof.
  destruct (C10_saveAnalysisResult_replaces sampleWorld "s1"
              (characters := sampleCharacters) (scenes := sampleScenes)
              [sampleCharacter "c9" "s1" "Dora" [] None]
              [sampleScene "n9" "s1" 1 [] SceneStatus.pending])
    as (w' & H & Hc & Hn & _); [vm_compute; reflexivity ..|].
  exists w'. split; [exact H|]. split; [exact Hc | exact Hn].
Defined.

End RecordStore.

(* ================================================================== *)
(** * Theorems: the prompt assembler *)
(* ================================================================== *)

Section PromptAssembler.
Import Gemini.
Local Open Scope string_scope.

Lemma or_else_withFallback field fallback :
  JS.or_else field fallback = PromptSpec.withFallback field fallback.
Proof.
  unfold JS.or_else, PromptSpec.withFallback, PromptSpec.present, JS.truthy.
  destruct field as [text|]; [|reflexivity]. now destruct (text =? "").
Qed.

Lemma join_commaSeparated l : JS.join ", " l = PromptSpec.commaSeparated l.
Proof.
  induction l as [|x [|y l] IH]; try reflexivity.
  change (JS.join ", " (x :: y :: l)) with (x ++ ", " ++ JS.join ", " (y :: l)).
  now rewrite IH.
Qed.

Lemma join_lines l : JS.join JS.LF l = PromptSpec.lines l.
Proof.
  induction l as [|x [|y l] IH]; try reflexivity.
  change (JS.join JS.LF (x :: y :: l)) with (x ++ JS.LF ++ JS.join JS.LF (y :: l)).
  now rewrite IH.
Qed.

Lemma lines_cons x y l :
  PromptSpec.lines (x :: y :: l) = x ++ JS.LF ++ PromptSpec.lines (y :: l).
Proof. reflexivity. Qed.

Lemma lines_one x : PromptSpec.lines [x] = x.
Proof. reflexivity. Qed.

Lemma filter_Boolean_cons field rest :
  JS.filter_Boolean (field :: rest)
  = (PromptSpec.present field ++ JS.filter_Boolean rest)%list.
Proof.
  destruct field as [text|]; [|reflexivity].
  simpl. now destruct (text =? "").
Qed.

Lemma filter_Boolean_features l :
  JS.filter_Boolean (map Some l)
  = flat_map (fun f => PromptSpec.present (Some f)) l.
Proof.
  induction l as [|f l IH]; [reflexivity|].
  change (map Some (f :: l)) with (Some f :: map Some l).
  rewrite filter_Boolean_cons, IH. reflexivity.
Qed.

Lemma describeCharacter_characterLine char :
  describeCharacter char = PromptSpec.characterLine char.
Proof.
  unfold describeCharacter, PromptSpec.characterLine, PromptSpec.appearanceFields.
  rewrite join_commaSeparated, or_else_withFallback.
  do 4 f_equal.
  change ([Appearance.age (appearance char); Appearance.gender (appearance char);
           Appearance.height (appearance char); Appearance.hair (appearance char);
           Appearance.face (appearance char); Appearance.skinTone (appearance char)]
          ++ map Some (JS.or_empty (Appearance.features (appearance char))))%list
    with (Appearance.age (appearance char) :: Appearance.gender (appearance char)
          :: Appearance.height (appearance char) :: Appearance.hair (appearance char)
          :: Appearance.face (appearance char) :: Appearance.skinTone (appearance char)
          :: map Some (JS.or_empty (Appearance.features (appearance char)))).
  rewrite !filter_Boolean_cons, filter_Boolean_features.
  now destruct (Appearance.features (appearance char)).
Qed.

(** C4 (as stated) fails.  A scene whose [userEditedPrompt] is set to the
    empty string, which the prompt editor stores when the user saves an
    emptied text box, does not get the empty string back: it gets the
    generated prompt, the same as a scene without the field. *)
Lemma C4_empty_override_counterexample :
  let edited := mkSceneInput (Some "cafe") None None (Some "") in
  let plain := mkSceneInput (Some "cafe") None None None in
  userEditedPrompt edited = Some ""
  /\ buildScenePrompt edited [] realistic <> ""
  /\ buildScenePrompt edited [] realistic = buildScenePrompt plain [] realistic.
Proof. repeat split. discriminate. Qed.

(** C4 (amended).  [buildScenePrompt] is a function of its three arguments,
    and for every scene whose [userEditedPrompt] is set to a string that is
    not empty it returns exactly that string, whatever the other fields of
    the scene, the characters and the style are. *)
Theorem C4_user_override_wins :
  (forall scene scene' characters characters' style style',
      scene = scene' -> characters = characters' -> style = style' ->
      buildScenePrompt scene characters style
      = buildScenePrompt scene' characters' style')
  /\ (forall scene characters style edited,
        userEditedPrompt scene = Some edited -> edited <> "" ->
        buildScenePrompt scene characters style = edited)
  /\ (forall loc loc' time time' desc desc' characters characters' style style' edited,
        edited <> "" ->
        buildScenePrompt (mkSceneInput loc time desc (Some edited)) characters style
        = buildScenePrompt (mkSceneInput loc' time' desc' (Some edited))
            characters' style').
Proof.
  assert (H : forall scene characters style edited,
             userEditedPrompt scene = Some edited -> edited <> "" ->
             buildScenePrompt scene characters style = edited).
  { intros scene characters style edited E Hne.
    unfold buildScenePrompt, JS.or_undefined, JS.truthy. rewrite E.
    apply String.eqb_neq in Hne. now rewrite Hne. }
  split; [now intros; subst|]. split; [exact H|].
  intros. rewrite !(H _ _ _ edited) by (auto; reflexivity). reflexivity.
Qed.

Lemma C4_user_override_wins_witness :
  buildScenePrompt (mkSceneInput (Some "cafe") (Some "night") None (Some "A red door"))
    [mkCharacterInput "Anna" (Appearance.mk (Some "30") None None None None None None) None]
    anime = "A red door".
Proof.
  apply (proj1 (proj2 C4_user_override_wins)
           (mkSceneInput (Some "cafe") (Some "night") None (Some "A red door"))
           [mkCharacterInput "Anna"
              (Appearance.mk (Some "30") None None None None None None) None]
           anime "A red door"); [reflexivity | discriminate].
Defined.

(** C5.  The style decides the modifier phrase and nothing else does:
    each of the five styles has one fixed phrase, none is empty and no two
    styles share one.  For every scene whose [userEditedPrompt] is unset (or
    holds the empty string), [buildScenePrompt] returns the prompt that the
    specification describes: the phrase of the style, the scene section
    with the fallbacks [unspecified] and [day], one line per character with
    its non-empty appearance fields in the fixed order, joined by commas,
    and the outfit with the fallback [casual], the description section with
    the fallback [No description], and the closing block. *)
Theorem C5_generated_prompt :
  (getStyleModifier realistic
   = "Photorealistic, high-resolution photograph, natural lighting, realistic skin texture, shot on professional camera, 8K quality"
   /\ getStyleModifier anime
      = "Japanese anime style, vibrant colors, clean line art, expressive eyes, detailed background, Studio Ghibli quality"
   /\ getStyleModifier cinematic
      = "Cinematic movie still, dramatic lighting, shallow depth of field, anamorphic lens flare, film grain, Hollywood production quality"
   /\ getStyleModifier watercolor
      = "Soft watercolor painting, delicate brush strokes, gentle color blending, artistic and dreamy atmosphere"
   /\ getStyleModifier comic
      = "Comic book style, bold outlines, dynamic composition, graphic novel aesthetic, cel shading")
  /\ (forall style, getStyleModifier style <> "")
  /\ (forall style style',
        getStyleModifier style = getStyleModifier style' -> style = style')
  /\ (forall scene characters style,
        userEditedPrompt scene = None \/ userEditedPrompt scene = Some "" ->
        buildScenePrompt scene characters style
        = PromptSpec.generatedPrompt (getStyleModifier style) scene characters).
Proof.
  split; [repeat split|].
  split; [intros []; discriminate|].
  split; [intros [] []; (reflexivity || discriminate)|].
  intros scene characters style H.
  assert (E : JS.or_undefined (userEditedPrompt scene) = None)
    by (destruct H as [-> | ->]; reflexivity).
  unfold buildScenePrompt. rewrite E.
  unfold PromptSpec.generatedPrompt, PromptSpec.sceneSection,
    PromptSpec.characterSection, PromptSpec.descriptionSection,
    PromptSpec.closingBlock.
  rewrite join_lines, !or_else_withFallback.
  rewrite (map_ext _ _ describeCharacter_characterLine).
  rewrite !lines_cons, !lines_one, !append_assoc. reflexivity.
Qed.

Lemma C5_generated_prompt_witness :
  buildScenePrompt (mkSceneInput None (Some "dusk") None None)
    [mkCharacterInput "Anna"
       (Appearance.mk (Some "30") (Some "") None (Some "black hair") None None
          (Some ["scar"; ""; "glasses"])) None]
    comic
  = PromptSpec.generatedPrompt
      "Comic book style, bold outlines, dynamic composition, graphic novel aesthetic, cel shading"
      (mkSceneInput None (Some "dusk") None None)
      [mkCharacterInput "Anna"
         (Appearance.mk (Some "30") (Some "") None (Some "black hair") None None
            (Some ["scar"; ""; "glasses"])) None].
Proof.
  apply (proj2 (proj2 (proj2 C5_generated_prompt))
           (mkSceneInput None (Some "dusk") None None)
           [mkCharacterInput "Anna"
              (Appearance.mk (Some "30") (Some "") None (Some "black hair") None None
                 (Some ["scar"; ""; "glasses"])) None]
           comic).
  left. reflexivity.
Defined.

End PromptAssembler.

(* ================================================================== *)
(** * Lemmas: the pages *)
(* ================================================================== *)

Module PagesFacts.
Import Browser Codec Storage StorageFacts ImageStorage GeminiClient Pages.
Local Open Scope world_scope.

Lemma try_catch_Ok {A} (body : M A) handler w a w' :
  body w = (Ok a, w') -> try_catch body handler w = (Ok a, w').
Proof. unfold try_catch. now intros ->. Qed.

Lemma try_catch_Throw {A} (body : M A) handler w e w' :
  body w = (Throw e, w') -> try_catch body handler w = handler e w'.
Proof. unfold try_catch. now intros ->. Qed.

Lemma floating_Ok m w w' : m w = (Ok tt, w') -> floating m w = (Ok tt, w').
Proof. apply try_catch_Ok. Qed.

Lemma floating_run m w : floating m w = (Ok tt, snd (m w)).
Proof.
  unfold floating, try_catch. now destruct (m w) as [[[]|e] w'].
Qed.

Lemma try_finally_run {A} (body : M A) cleanup w r w' w'' :
  body w = (r, w') -> cleanup w' = (Ok tt, w'') ->
  try_finally body cleanup w = (r, w'').
Proof. unfold try_finally. now intros -> ->. Qed.

Lemma bind_setUI {B} f (k : unit -> M B) w :
  (x <- setUI f ;; k x) w = k tt (with_ui (f (ui w)) w).
Proof. reflexivity. Qed.

Lemma with_ui_idem u u' w : with_ui u' (with_ui u w) = with_ui u' w.
Proof. reflexivity. Qed.

Lemma ui_with_ui u w : ui (with_ui u w) = u.
Proof. reflexivity. Qed.

(** *** Reading the collections *)

Lemma getScript_run id w l :
  scriptsOf w = Ok l ->
  getScript id w = (Ok (find (fun s => Script.id s =? id)%string l), w).
Proof.
  intros H. unfold getScript.
  now rewrite (bind_Ok _ _ _ (eq_trans (loadScripts_run w) (f_equal (fun r => (r, w)) H))).
Qed.

Lemma getCharactersByScript_run id w l :
  charactersOf w = Ok l ->
  getCharactersByScript id w
  = (Ok (filter (fun c => Character.scriptId c =? id)%string l), w).
Proof.
  intros H. unfold getCharactersByScript.
  now rewrite (bind_Ok _ _ _ (eq_trans (loadCharacters_run w) (f_equal (fun r => (r, w)) H))).
Qed.

Lemma getCharacter_run id w l :
  charactersOf w = Ok l ->
  getCharacter id w = (Ok (find (fun c => Character.id c =? id)%string l), w).
Proof.
  intros H. unfold getCharacter.
  now rewrite (bind_Ok _ _ _ (eq_trans (loadCharacters_run w) (f_equal (fun r => (r, w)) H))).
Qed.

Lemma getScenesByScript_run id w l :
  scenesOf w = Ok l ->
  getScenesByScript id w
  = (Ok (sortByNumber (filter (fun s => Scene.scriptId s =? id)%string l)), w).
Proof.
  intros H. unfold getScenesByScript.
  now rewrite (bind_Ok _ _ _ (eq_trans (loadScenes_run w) (f_equal (fun r => (r, w)) H))).
Qed.

(** [loadData] of the script page reads the three collections and writes
    cells of the page. *)
Lemma ScriptDetail_loadData_run id w scripts characters scenes :
  scriptsOf w = Ok scripts -> charactersOf w = Ok characters ->
  scenesOf w = Ok scenes ->
  exists u,
    ScriptDetail_loadData id w = (Ok tt, with_ui u w) /\ flagsOf u = flagsOf (ui w).
Proof.
  intros Hs Hc Hn. unfold ScriptDetail_loadData.
  rewrite (bind_Ok _ _ _ (getScript_run id _ Hs)).
  destruct (find _ scripts) as [found|].
  - unfold setScript, setCharacters, setScenes. rewrite bind_setUI.
    assert (Hc' : forall u, charactersOf (with_ui u w) = Ok characters)
      by (intros; now rewrite (@charactersOf_ls w)).
    assert (Hn' : forall u, scenesOf (with_ui u w) = Ok scenes)
      by (intros; now rewrite (@scenesOf_ls w)).
    rewrite (bind_Ok _ _ _ (getCharactersByScript_run id _ (Hc' _))).
    rewrite bind_setUI, with_ui_idem.
    rewrite (bind_Ok _ _ _ (getScenesByScript_run id _ (Hn' _))).
    eexists. split; reflexivity.
  - exists (ui w). split; [|reflexivity]. now destruct w.
Qed.

(** *** The analysis *)

Lemma getApiKey_world w : snd (getApiKey w) = w.
Proof.
  unfold getApiKey. destruct (JS.or_undefined _); [reflexivity|].
  apply (loadData_world (T := string)).
Qed.

Lemma getApiKey_reads w w' :
  env w' = env w -> storedText "apiKey" w' = storedText "apiKey" w ->
  fst (getApiKey w') = fst (getApiKey w).
Proof.
  intros He Hk. unfold getApiKey. rewrite He.
  destruct (JS.or_undefined _); [reflexivity|].
  now apply (view_text (T := string)).
Qed.

Lemma getAI_world w : snd (getAI w) = w.
Proof.
  unfold getAI, bind. pose proof (getApiKey_world w) as H.
  destruct (getApiKey w) as [[k|e] w0]; simpl in *; subst; [|reflexivity].
  now destruct (JS.truthy k).
Qed.

Lemma getAI_reads w w' :
  env w' = env w -> storedText "apiKey" w' = storedText "apiKey" w ->
  fst (getAI w') = fst (getAI w).
Proof.
  intros He Hk. unfold getAI, bind.
  pose proof (getApiKey_reads _ _ He Hk) as H.
  destruct (getApiKey w') as [[k'|e'] w0'], (getApiKey w) as [[k|e] w0];
    simpl in H; try discriminate; injection H as ->; [|reflexivity].
  now destruct (JS.truthy k).
Qed.

(** A call of the model reads the key and the next reply, and counts. *)
Lemma generateContent_run w :
  generateContent w
  = match fst (getAI w) with
    | Ok _ => (model (env w) (calls w), with_calls (S (calls w)) w)
    | Throw e => (Throw e, w)
    end.
Proof.
  unfold generateContent, bind. pose proof (getAI_world w) as H.
  destruct (getAI w) as [[[]|e] w0]; simpl in *; now subst.
Qed.

Lemma analyzeScript_steps content w :
  exists w',
    analyzeScript content w = (analysisOf content w, w')
    /\ (w' = w \/ w' = with_calls (S (calls w)) w).
Proof.
  unfold analysisOf, analyzeScript, bind. rewrite generateContent_run.
  destruct (fst (getAI w)) as [[]|e].
  - destruct (model (env w) (calls w)) as [response|e].
    + unfold parseAnalysis.
      destruct (JSON.parse _) as [v|];
        [destruct (analysis_of_json v)|]; eexists; split; try reflexivity; now right.
    + eexists; split; [reflexivity | now right].
  - eexists; split; [reflexivity | now left].
Qed.

Lemma analysisOf_reads content w w' :
  env w' = env w -> calls w' = calls w ->
  storedText "apiKey" w' = storedText "apiKey" w ->
  analysisOf content w' = analysisOf content w.
Proof.
  intros He Hc Hk. unfold analysisOf, analyzeScript, bind.
  rewrite !generateContent_run, (getAI_reads _ _ He Hk), He, Hc.
  destruct (fst (getAI w)) as [[]|e]; [|reflexivity].
  destruct (model (env w) (calls w)) as [response|e]; [|reflexivity].
  unfold parseAnalysis.
  destruct (JSON.parse _) as [v|]; [destruct (analysis_of_json v)|]; reflexivity.
Qed.

(** A reply without JSON text that parses makes the analysis throw the
    [SyntaxError] of [JSON.parse]. *)
Lemma analysisOf_parse_error content w response :
  fst (getAI w) = Ok tt ->
  model (env w) (calls w) = Ok response ->
  JSON.parse (locateJson (firstText response)) = None ->
  analysisOf content w = Throw SyntaxError.
Proof.
  intros Hk Hm Hp. unfold analysisOf, analyzeScript, bind.
  rewrite generateContent_run, Hk, Hm. unfold parseAnalysis. now rewrite Hp.
Qed.

Lemma analyzeScript_run content w :
  exists w',
    analyzeScript content w = (analysisOf content w, w')
    /\ localStorage w' = localStorage w /\ ui w' = ui w /\ env w' = env w
    /\ ticks w' = ticks w /\ uuids w' = uuids w.
Proof.
  destruct (analyzeScript_steps content w) as (w' & H & [-> | ->]);
    eexists; (split; [eassumption|]); now repeat split.
Qed.

Lemma bind_uuidv4 {B} (k : string -> M B) w :
  (x <- uuidv4 ;; k x) w = k (uuid (env w) (uuids w)) (with_uuids (S (uuids w)) w).
Proof. reflexivity. Qed.

Lemma updateFirst_last {A} (p : A -> bool) (f : A -> A) l y :
  (forall x, In x l -> p x = false) -> p y = true ->
  JS.updateFirst p f (l ++ [y]) = l ++ [f y].
Proof.
  intros Hl Hy. induction l as [|x l IH]; simpl.
  - now rewrite Hy.
  - rewrite (Hl x) by now left. rewrite IH; [reflexivity|].
    intros z Hz. apply Hl. now right.
Qed.

(** *** The map from names to ids *)

Lemma JSMap_get_set k k' v m :
  JSMap.get k (JSMap.set k' v m)
  = if (k' =? k)%string then Some v else JSMap.get k m.
Proof.
  induction m as [|[a b] m IH]; simpl; [reflexivity|].
  destruct (String.eqb_spec a k') as [->|Hak]; simpl.
  - now destruct (k' =? k)%string.
  - rewrite IH. destruct (String.eqb_spec a k) as [->|]; [|reflexivity].
    now destruct (String.eqb_spec k' k) as [->|].
Qed.

Lemma JSMap_get_of_entries (cs : list Character.t) name :
  JSMap.get name
    (JSMap.of_entries (map (fun c => (Character.name c, Character.id c)) cs))
  = option_map Character.id (find (LinkSpec.named name) (rev cs)).
Proof.
  unfold JSMap.of_entries.
  induction cs as [|c cs IH] using rev_ind; [reflexivity|].
  rewrite map_app, fold_left_app, rev_app_distr. simpl.
  rewrite JSMap_get_set, IH. unfold LinkSpec.named at 2.
  now destruct (Character.name c =? name)%string.
Qed.

Lemma linkCharacterIds_lastMatch (cs : list Character.t) names :
  Forall (fun c => Character.id c <> "") cs ->
  linkCharacterIds
    (JSMap.of_entries (map (fun c => (Character.name c, Character.id c)) cs)) names
  = LinkSpec.lastMatchIds cs names.
Proof.
  intros Hids. unfold linkCharacterIds, LinkSpec.lastMatchIds.
  induction names as [|name names IH]; [reflexivity|].
  simpl map. rewrite JSMap_get_of_entries. simpl flat_map. rewrite <- IH.
  destruct (find _ (rev cs)) as [c|] eqn:F; [|reflexivity].
  apply find_some in F as [F _]. apply in_rev in F.
  rewrite Forall_forall in Hids. specialize (Hids c F).
  simpl. apply String.eqb_neq in Hids. now rewrite Hids.
Qed.

(** *** Building the records *)

Lemma mapM_cons {A B} (f : A -> M B) x l :
  mapM f (x :: l) = (y <- f x ;; ys <- mapM f l ;; ret (y :: ys)).
Proof. reflexivity. Qed.

Lemma newCharacter_run scriptId now (c : Analysis.character) w :
  newCharacter scriptId now c w
  = (Ok (Character.mk (uuid (env w) (uuids w)) scriptId (Analysis.name c)
           (Analysis.appearance c) (Analysis.defaultOutfit c) [] None None now now),
     with_uuids (S (uuids w)) w).
Proof. reflexivity. Qed.

Lemma newScene_run scriptId now m (s : Analysis.scene) w :
  newScene scriptId now m s w
  = (Ok (Scene.mk (uuid (env w) (uuids w)) scriptId (Analysis.sceneNumber s)
           (Analysis.title s) (Analysis.location s) (Analysis.timeOfDay s)
           (Analysis.originalText s) (Some (Analysis.visualDescription s)) None None
           (linkCharacterIds m (Analysis.characterNames s)) [] None
           SceneStatus.pending now now),
     with_uuids (S (uuids w)) w).
Proof. reflexivity. Qed.

Lemma mapM_newCharacter scriptId now l w :
  exists cs n,
    mapM (newCharacter scriptId now) l w = (Ok cs, with_uuids n w)
    /\ map Character.name cs = map Analysis.name l
    /\ Forall (fun c => exists k, Character.id c = uuid (env w) k) cs
    /\ Forall (fun c => Character.scriptId c = scriptId
                        /\ Character.referenceImages c = []
                        /\ Character.selectedImage c = None) cs.
Proof.
  revert w. induction l as [|x l IH]; intros w.
  - exists [], (uuids w). simpl. unfold ret. repeat split; try constructor.
    now destruct w.
  - destruct (IH (with_uuids (S (uuids w)) w)) as (cs & n & R & Hn & Hi & Hs).
    eexists (_ :: cs), n. split; [|split; [|split]].
    + rewrite mapM_cons, (bind_Ok _ _ _ (newCharacter_run scriptId now x w)).
      rewrite (bind_Ok _ _ _ R). reflexivity.
    + simpl. now rewrite Hn.
    + constructor; [now eexists | exact Hi].
    + constructor; [now repeat split | exact Hs].
Qed.

Lemma mapM_newScene scriptId now m l w :
  exists ss n,
    mapM (newScene scriptId now m) l w = (Ok ss, with_uuids n w)
    /\ Forall2 (fun s a => Scene.characterIds s
                           = linkCharacterIds m (Analysis.characterNames a)
                           /\ Scene.scriptId s = scriptId
                           /\ Scene.sceneNumber s = Analysis.sceneNumber a
                           /\ Scene.status s = SceneStatus.pending
                           /\ Scene.generatedImages s = [])
         ss l.
Proof.
  revert w. induction l as [|x l IH]; intros w.
  - exists [], (uuids w). simpl. unfold ret. split; [|constructor].
    now destruct w.
  - destruct (IH (with_uuids (S (uuids w)) w)) as (ss & n & R & H).
    eexists (_ :: ss), n. split.
    + rewrite mapM_cons, (bind_Ok _ _ _ (newScene_run scriptId now m x w)).
      rewrite (bind_Ok _ _ _ R). reflexivity.
    + constructor; [now repeat split | exact H].
Qed.

(** The records of an analysis result: one character per analysed
    character, under the same name; one scene per analysed scene, linked
    to the last character of each listed name. *)
Lemma buildRecords_run scriptId now result w :
  (forall k, uuid (env w) k <> "") ->
  exists cs ss n,
    buildRecords scriptId now result w = (Ok (cs, ss), with_uuids n w)
    /\ map Character.name cs = map Analysis.name (Analysis.characters result)
    /\ Forall (fun c => Character.scriptId c = scriptId
                        /\ Character.referenceImages c = []
                        /\ Character.selectedImage c = None) cs
    /\ Forall2 (fun s a => Scene.characterIds s
                           = LinkSpec.lastMatchIds cs (Analysis.characterNames a)
                           /\ Scene.scriptId s = scriptId
                           /\ Scene.sceneNumber s = Analysis.sceneNumber a
                           /\ Scene.status s = SceneStatus.pending
                           /\ Scene.generatedImages s = [])
         ss (Analysis.scenes result).
Proof.
  intros Huuid. unfold buildRecords.
  destruct (mapM_newCharacter scriptId now (Analysis.characters result) w)
    as (cs & n & R & Hn & Hi & Hs).
  rewrite (bind_Ok _ _ _ R).
  match goal with
  | |- context [Browser.bind (mapM (newScene scriptId now ?M) ?L) _ ?W] =>
      destruct (mapM_newScene scriptId now M L W) as (ss & n' & R' & H)
  end.
  rewrite (bind_Ok _ _ _ R').
  exists cs, ss, n'. split; [reflexivity|]. split; [exact Hn|]. split; [exact Hs|].
  eapply Forall2_impl; [|exact H].
  intros s a (H1 & Hrest). split; [|exact Hrest].
  rewrite H1. apply linkCharacterIds_lastMatch.
  eapply Forall_impl; [|exact Hi]. intros c (k & ->). apply Huuid.
Qed.

End PagesFacts.

(* ================================================================== *)
(** * Theorems: turning an analysis into records *)
(* ================================================================== *)

Section AnalysisPages.
Import Browser Codec Storage StorageFacts GeminiClient Pages PagesFacts Samples.
Local Open Scope world_scope.

(** C8.  When the analysis throws (a parse error is the [SyntaxError] of
    [JSON.parse], thrown for a reply in which no text that parses can be
    located), the page reports the message in its error cell and the script
    is not left in the status [analyzing]: a new script ends in [draft],
    the status of a script not analysed yet, and a re-analysis changes
    nothing of the record store, so the script keeps the status that it
    had before. *)
Theorem C8_failed_analysis_rolls_back :
  (forall w title rawContent genre scripts e,
      JS.truthy (Some (trim title)) = true ->
      JS.truthy (Some (trim rawContent)) = true ->
      scriptsOf w = Ok scripts ->
      ~ In (uuid (env w) (uuids w)) (map Script.id scripts) ->
      analysisOf rawContent w = Throw e ->
      exists w' created,
        handleSubmit title rawContent genre w = (Ok tt, w')
        /\ scriptsOf w' = Ok (scripts ++ [created])
        /\ Script.id created = uuid (env w) (uuids w)
        /\ Script.status created = ScriptStatus.draft
        /\ error (ui w') = messageOr "분석 중 오류가 발생했습니다." e
        /\ isAnalyzing (ui w') = false
        /\ charactersOf w' = charactersOf w
        /\ scenesOf w' = scenesOf w)
  /\ (forall w script e,
        analysisOf (Script.rawContent script) w = Throw e ->
        exists w',
          handleReanalyze script true w = (Ok tt, w')
          /\ localStorage w' = localStorage w
          /\ scriptsOf w' = scriptsOf w
          /\ charactersOf w' = charactersOf w
          /\ scenesOf w' = scenesOf w
          /\ error (ui w') = messageOr "분석 중 오류가 발생했습니다." e
          /\ isAnalyzing (ui w') = false)
  /\ (forall w content response,
        fst (getAI w) = Ok tt ->
        model (env w) (calls w) = Ok response ->
        JSON.parse (locateJson (firstText response)) = None ->
        analysisOf content w = Throw SyntaxError).
Proof.
  split; [|split].
  - intros w title rawContent genre scripts e Ht Hr Hs Hfresh Ha.
    unfold handleSubmit. unfold setError at 1.
    rewrite bind_setUI, Ht, Hr. cbn [negb].
    rewrite bind_uuidv4, (bind_Ok _ _ _ (Date_toISOString_run _)). norm_world.
    set (id := uuid (env w) (uuids w)) in *.
    set (now := toISOString _).
    match goal with |- context [Browser.bind (addScript ?S) _ ?W] => set (new := S); set (w3 := W) end.
    assert (Hs3 : scriptsOf w3 = Ok scripts) by (rewrite <- Hs; now apply scriptsOf_ls).
    destruct (addScript_run new _ Hs3) as (w4 & R4 & Hs4 & Hc4 & Hn4 & Bk & Be & Bc & Bu & Bui & _).
    rewrite (bind_Ok _ _ _ R4).
    unfold setIsAnalyzing at 1. rewrite bind_setUI.
    match goal with |- context [try_finally _ _ ?W] => set (w5 := W) end.
    assert (Ha5 : analysisOf rawContent w5 = Throw e).
    { rewrite <- Ha. apply analysisOf_reads.
      - unfold w5. norm_world. now rewrite Be.
      - unfold w5. norm_world. now rewrite Bc.
      - unfold storedText in *. unfold w5. norm_world. now rewrite Bk. }
    destruct (analyzeScript_run rawContent w5) as (w6 & R6 & L6 & U6 & E6 & T6 & _).
    rewrite Ha5 in R6.
    match goal with |- context [try_catch ?b ?h] => set (body := b); set (handler := h) end.
    assert (Hbody : body w5 = (Throw e, w6))
      by (unfold body; now rewrite (bind_Throw _ _ _ R6)).
    assert (Hs6 : forall u, scriptsOf (with_ui u w6) = Ok (scripts ++ [new])).
    { intros u. rewrite <- Hs4.
      transitivity (scriptsOf w6); [now apply scriptsOf_ls|].
      transitivity (scriptsOf w5); now apply scriptsOf_ls. }
    assert (Hh : exists w8 created,
               handler e w6 = (Ok tt, w8)
               /\ scriptsOf w8 = Ok (scripts ++ [created])
               /\ Script.id created = id
               /\ Script.status created = ScriptStatus.draft
               /\ error (ui w8) = messageOr "분석 중 오류가 발생했습니다." e
               /\ charactersOf w8 = charactersOf w6 /\ scenesOf w8 = scenesOf w6).
    { unfold handler, setError. rewrite bind_setUI.
      match goal with
      | |- context [updateScript id ?P ?W] =>
          destruct (@updateScript_run id P W _ (Hs6 _))
            as (w8 & R8 & Hs8 & Hc8 & Hn8 & _ & _ & _ & _ & U8 & _)
      end.
      rewrite updateFirst_last in Hs8.
      - eexists; eexists. split; [exact R8|]. split; [exact Hs8|].
        split; [reflexivity|]. split; [reflexivity|].
        split; [now rewrite U8|].
        split; [rewrite Hc8 | rewrite Hn8]; [now apply charactersOf_ls | now apply scenesOf_ls].
      - intros x Hx. apply String.eqb_neq. intros E. apply Hfresh.
        rewrite <- E. now apply in_map.
      - apply String.eqb_refl. }
    destruct Hh as (w8 & created & R8 & Hs8 & Hid & Hst & Herr & Hc8 & Hn8).
    exists (snd (setIsAnalyzing false w8)), created.
    split.
    { apply try_finally_run with (w' := w8); [|reflexivity].
      now rewrite (try_catch_Throw _ _ _ Hbody). }
    split; [rewrite <- Hs8; now apply scriptsOf_ls|].
    split; [assumption|]. split; [assumption|].
    split; [assumption|]. split; [reflexivity|].
    split.
    + transitivity (charactersOf w8); [now apply charactersOf_ls|].
      rewrite Hc8. transitivity (charactersOf w5); [now apply charactersOf_ls|].
      transitivity (charactersOf w4); [now apply charactersOf_ls|].
      rewrite Hc4. now apply charactersOf_ls.
    + transitivity (scenesOf w8); [now apply scenesOf_ls|].
      rewrite Hn8. transitivity (scenesOf w5); [now apply scenesOf_ls|].
      transitivity (scenesOf w4); [now apply scenesOf_ls|].
      rewrite Hn4. now apply scenesOf_ls.
  - intros w script e Ha.
    unfold handleReanalyze. cbn [negb].
    unfold setIsAnalyzing at 1. rewrite bind_setUI.
    unfold setError at 1. rewrite bind_setUI, with_ui_idem.
    match goal with |- context [try_finally _ _ ?W] => set (w2 := W) end.
    assert (Ha2 : analysisOf (Script.rawContent script) w2 = Throw e)
      by (rewrite <- Ha; now apply analysisOf_reads).
    destruct (analyzeScript_run (Script.rawContent script) w2)
      as (w3 & R3 & L3 & U3 & E3 & T3 & _).
    rewrite Ha2 in R3.
    match goal with |- context [try_catch ?b ?h] => set (body := b); set (handler := h) end.
    assert (Hbody : body w2 = (Throw e, w3))
      by (unfold body; now rewrite (bind_Throw _ _ _ R3)).
    eexists. split.
    { eapply try_finally_run; [|reflexivity].
      rewrite (try_catch_Throw _ _ _ Hbody). reflexivity. }
    norm_world.
    assert (L : localStorage w3 = localStorage w) by (now rewrite L3).
    split; [exact L|].
    split; [now apply scriptsOf_ls|]. split; [now apply charactersOf_ls|].
    split; [now apply scenesOf_ls|]. split; reflexivity.
  - intros w content response. apply analysisOf_parse_error.
Qed.

Lemma handleSubmit_success w title rawContent genre scripts characters scenes result :
  JS.truthy (Some (trim title)) = true ->
  JS.truthy (Some (trim rawContent)) = true ->
  scriptsOf w = Ok scripts -> charactersOf w = Ok characters ->
  scenesOf w = Ok scenes ->
  (forall k, uuid (env w) k <> "") ->
  analysisOf rawContent w = Ok result ->
  exists w' cs ss,
    handleSubmit title rawContent genre w = (Ok tt, w')
    /\ charactersOf w'
       = Ok (filter (fun c => negb (Character.scriptId c =? uuid (env w) (uuids w))%string)
               characters ++ cs)
    /\ scenesOf w'
       = Ok (filter (fun s => negb (Scene.scriptId s =? uuid (env w) (uuids w))%string)
               scenes ++ ss)
    /\ LinkSpec.linked result (uuid (env w) (uuids w)) cs ss.
Proof.
  intros Ht Hr Hs Hc Hn Huuid Ha.
  unfold handleSubmit. unfold setError at 1.
  rewrite bind_setUI, Ht, Hr. cbn [negb].
  rewrite bind_uuidv4, (bind_Ok _ _ _ (Date_toISOString_run _)). norm_world.
  set (id := uuid (env w) (uuids w)) in *.
  set (now := toISOString _).
  match goal with
  | |- context [Browser.bind (addScript ?S) _ ?W] => set (new := S); set (w3 := W)
  end.
  assert (Hs3 : scriptsOf w3 = Ok scripts) by (rewrite <- Hs; now apply scriptsOf_ls).
  destruct (addScript_run new _ Hs3)
    as (w4 & R4 & Hs4 & Hc4 & Hn4 & Bk & Be & Bc & Bu & Bui & _).
  rewrite (bind_Ok _ _ _ R4).
  unfold setIsAnalyzing at 1. rewrite bind_setUI.
  match goal with |- context [try_finally _ _ ?W] => set (w5 := W) end.
  assert (Ha5 : analysisOf rawContent w5 = Ok result).
  { rewrite <- Ha. apply analysisOf_reads.
    - unfold w5. norm_world. now rewrite Be.
    - unfold w5. norm_world. now rewrite Bc.
    - unfold storedText in *. unfold w5. norm_world. now rewrite Bk. }
  destruct (analyzeScript_run rawContent w5) as (w6 & R6 & L6 & U6 & E6 & T6 & _).
  rewrite Ha5 in R6.
  assert (E6' : env w6 = env w) by (rewrite E6; unfold w5; norm_world; now rewrite Be).
  destruct (@buildRecords_run id now result w6) as (cs & ss & n & R7 & Hlinked).
  { intros k. rewrite E6'. apply Huuid. }
  set (w7 := with_uuids n w6) in *.
  assert (L7 : localStorage w7 = localStorage w4) by (unfold w7; norm_world; now rewrite L6).
  assert (Hc7 : charactersOf w7 = Ok characters).
  { rewrite <- Hc. transitivity (charactersOf w4); [now apply charactersOf_ls|].
    rewrite Hc4. now apply charactersOf_ls. }
  assert (Hn7 : scenesOf w7 = Ok scenes).
  { rewrite <- Hn. transitivity (scenesOf w4); [now apply scenesOf_ls|].
    rewrite Hn4. now apply scenesOf_ls. }
  destruct (saveAnalysisResult_run id cs ss _ Hc7 Hn7)
    as (w8 & R8 & Hc8 & Hn8 & Hs8 & _).
  assert (Hs8' : scriptsOf w8 = Ok (scripts ++ [new])).
  { rewrite Hs8, <- Hs4. now apply scriptsOf_ls. }
  destruct (updateScript_run id
              (statusAndGuide ScriptStatus.ready (Analysis.styleGuide result)) _ Hs8')
    as (w9 & R9 & Hs9 & Hc9 & Hn9 & _).
  match goal with |- context [try_catch ?b ?h] => set (body := b); set (handler := h) end.
  assert (Hbody : body w5 = (Ok tt, snd (navigate ("/scripts/" ++ id) w9))).
  { unfold body. rewrite (bind_Ok _ _ _ R6), (bind_Ok _ _ _ R7).
    cbn [fst snd]. fold w7. rewrite (bind_Ok _ _ _ R8), (bind_Ok _ _ _ R9).
    reflexivity. }
  eexists; exists cs, ss. split.
  { eapply try_finally_run; [|reflexivity].
    rewrite (try_catch_Ok _ _ _ Hbody). reflexivity. }
  split; [|split; [|exact Hlinked]].
  - rewrite <- Hc8, <- Hc9. now apply charactersOf_ls.
  - rewrite <- Hn8, <- Hn9. now apply scenesOf_ls.
Qed.

Lemma handleReanalyze_success w script scripts characters scenes result :
  scriptsOf w = Ok scripts -> charactersOf w = Ok characters ->
  scenesOf w = Ok scenes ->
  (forall k, uuid (env w) k <> "") ->
  analysisOf (Script.rawContent script) w = Ok result ->
  exists w' cs ss,
    handleReanalyze script true w = (Ok tt, w')
    /\ charactersOf w'
       = Ok (filter (fun c => negb (Character.scriptId c =? Script.id script)%string)
               characters ++ cs)
    /\ scenesOf w'
       = Ok (filter (fun s => negb (Scene.scriptId s =? Script.id script)%string)
               scenes ++ ss)
    /\ LinkSpec.linked result (Script.id script) cs ss.
Proof.
  intros Hs Hc Hn Huuid Ha.
  unfold handleReanalyze. cbn [negb].
  unfold setIsAnalyzing at 1. rewrite bind_setUI.
  unfold setError at 1. rewrite bind_setUI, with_ui_idem.
  match goal with |- context [try_finally _ _ ?W] => set (w2 := W) end.
  assert (Ha2 : analysisOf (Script.rawContent script) w2 = Ok result)
    by (rewrite <- Ha; now apply analysisOf_reads).
  destruct (analyzeScript_run (Script.rawContent script) w2)
    as (w3 & R3 & L3 & U3 & E3 & T3 & _).
  rewrite Ha2 in R3.
  set (now := toISOString (clock (env w3) (ticks w3))).
  set (w4 := with_ticks (S (ticks w3)) w3).
  destruct (@buildRecords_run (Script.id script) now result w4)
    as (cs & ss & n & R5 & Hlinked).
  { intros k. unfold w4. norm_world. rewrite E3. apply Huuid. }
  set (w5 := with_uuids n w4) in *.
  assert (L5 : localStorage w5 = localStorage w) by (unfold w5, w4; norm_world; now rewrite L3).
  assert (Hc5 : charactersOf w5 = Ok characters)
    by (rewrite <- Hc; now apply charactersOf_ls).
  assert (Hn5 : scenesOf w5 = Ok scenes) by (rewrite <- Hn; now apply scenesOf_ls).
  destruct (saveAnalysisResult_run (Script.id script) cs ss _ Hc5 Hn5)
    as (w6 & R6 & Hc6 & Hn6 & Hs6 & _).
  assert (Hs6' : scriptsOf w6 = Ok scripts)
    by (rewrite Hs6, <- Hs; now apply scriptsOf_ls).
  destruct (updateScript_run (Script.id script)
              (statusAndGuide ScriptStatus.ready (Analysis.styleGuide result)) _ Hs6')
    as (w7 & R7 & Hs7 & Hc7 & Hn7 & _).
  rewrite Hc6 in Hc7. rewrite Hn6 in Hn7.
  destruct (ScriptDetail_loadData_run (Script.id script) _ Hs7 Hc7 Hn7)
    as (u & R8 & _).
  match goal with |- context [try_catch ?b ?h] => set (body := b); set (handler := h) end.
  assert (Hbody : body w2 = (Ok tt, with_ui u w7)).
  { unfold body. rewrite (bind_Ok _ _ _ R3), (bind_Ok _ _ _ (Date_toISOString_run w3)).
    fold now w4. rewrite (bind_Ok _ _ _ R5). cbn [fst snd]. fold w5.
    rewrite (bind_Ok _ _ _ R6), (bind_Ok _ _ _ R7). exact R8. }
  eexists; exists cs, ss. split.
  { eapply try_finally_run; [|reflexivity].
    rewrite (try_catch_Ok _ _ _ Hbody). reflexivity. }
  split; [|split; [|exact Hlinked]].
  - rewrite <- Hc7. now apply charactersOf_ls.
  - rewrite <- Hn7. now apply scenesOf_ls.
Qed.

(** C7 (as stated) fails.  The analysis names two characters Anna and a
    scene that lists Anna: the page creates the characters uuid-1 and
    uuid-2, and the scene is linked to uuid-2, the last of them, where a
    first-match map gives uuid-1. *)
Lemma C7_first_match_counterexample :
  let run := handleSubmit "Cafe" "INT. CAFE - DAY" "" annaTwiceWorld in
  fst run = Ok tt
  /\ match charactersOf (snd run), scenesOf (snd run) with
     | Ok cs, Ok ss =>
         let created := filter (fun c => Character.scriptId c =? "uuid-0")%string cs in
         map (fun c => (Character.name c, Character.id c)) created
         = [("Anna", "uuid-1"); ("Anna", "uuid-2")]
         /\ map Scene.characterIds
              (filter (fun x => Scene.scriptId x =? "uuid-0")%string ss)
            = [["uuid-2"]]
         /\ map (fun a => LinkSpec.firstMatchIds created (Analysis.characterNames a))
              (Analysis.scenes annaTwice)
            = [["uuid-1"]]
     | _, _ => False
     end.
Proof. vm_compute. repeat split. Qed.

(** C7 (amended).  When either page turns an analysis result into
    records, it stores one character per analysed character under the
    same name and one scene per analysed scene, and the characterIds of
    each scene are, for its listed names in order, the id of the character
    of exactly that name (of the last one, when several new characters
    have the name); a name that no new character has is dropped without
    an error.  So a scene that lists a name without character gets no id
    for it, and a scene that lists the name of exactly one character gets
    that character's id. *)
Theorem C7_names_linked_by_exact_match :
  (forall w title rawContent genre scripts characters scenes result,
      JS.truthy (Some (trim title)) = true ->
      JS.truthy (Some (trim rawContent)) = true ->
      scriptsOf w = Ok scripts -> charactersOf w = Ok characters ->
      scenesOf w = Ok scenes ->
      (forall k, uuid (env w) k <> "") ->
      analysisOf rawContent w = Ok result ->
      exists w' cs ss,
        handleSubmit title rawContent genre w = (Ok tt, w')
        /\ charactersOf w'
           = Ok (filter (fun c => negb (Character.scriptId c
                                         =? uuid (env w) (uuids w))%string)
                   characters ++ cs)
        /\ scenesOf w'
           = Ok (filter (fun s => negb (Scene.scriptId s
                                         =? uuid (env w) (uuids w))%string)
                   scenes ++ ss)
        /\ LinkSpec.linked result (uuid (env w) (uuids w)) cs ss)
  /\ (forall w script scripts characters scenes result,
        scriptsOf w = Ok scripts -> charactersOf w = Ok characters ->
        scenesOf w = Ok scenes ->
        (forall k, uuid (env w) k <> "") ->
        analysisOf (Script.rawContent script) w = Ok result ->
        exists w' cs ss,
          handleReanalyze script true w = (Ok tt, w')
          /\ charactersOf w'
             = Ok (filter (fun c => negb (Character.scriptId c
                                           =? Script.id script)%string)
                     characters ++ cs)
          /\ scenesOf w'
             = Ok (filter (fun s => negb (Scene.scriptId s
                                           =? Script.id script)%string)
                     scenes ++ ss)
          /\ LinkSpec.linked result (Script.id script) cs ss)
  /\ (forall cs name names,
        (forall c, In c cs -> Character.name c <> name) ->
        LinkSpec.lastMatchIds cs (name :: names) = LinkSpec.lastMatchIds cs names)
  /\ (forall cs c names,
        In c cs ->
        (forall c', In c' cs -> Character.name c' = Character.name c -> c' = c) ->
        LinkSpec.lastMatchIds cs (Character.name c :: names)
        = Character.id c :: LinkSpec.lastMatchIds cs names).
Proof.
  split; [|split; [|split]].
  - intros. now apply handleSubmit_success with (scripts := scripts).
  - intros. now apply handleReanalyze_success with (scripts := scripts).
  - intros cs name names H. unfold LinkSpec.lastMatchIds. simpl.
    destruct (find _ (rev cs)) as [c|] eqn:F; [|reflexivity].
    apply find_some in F as [F1 F2]. apply in_rev in F1.
    apply String.eqb_eq in F2. now apply H in F1.
  - intros cs c names Hin Huniq. unfold LinkSpec.lastMatchIds. simpl.
    destruct (find _ (rev cs)) as [c'|] eqn:F.
    + apply find_some in F as [F1 F2]. apply in_rev in F1.
      apply String.eqb_eq in F2. now rewrite (Huniq c' F1 F2).
    + exfalso. apply in_rev in Hin.
      pose proof (find_none _ _ F c Hin) as N. unfold LinkSpec.named in N.
      now rewrite String.eqb_refl in N.
Qed.

Lemma C7_names_linked_by_exact_match_witness :
  (exists w' cs ss,
      handleSubmit "Cafe" "INT. CAFE - DAY" "" annaAndBobWorld = (Ok tt, w')
      /\ charactersOf w'
         = Ok (filter (fun c => negb (Character.scriptId c =? "uuid-0")%string)
                 sampleCharacters ++ cs)
      /\ scenesOf w'
         = Ok (filter (fun s => negb (Scene.scriptId s =? "uuid-0")%string)
                 sampleScenes ++ ss)
      /\ LinkSpec.linked annaAndBob "uuid-0" cs ss)
  /\ LinkSpec.lastMatchIds sampleCharacters ["Zed"; "Anna"]
     = LinkSpec.lastMatchIds sampleCharacters ["Anna"]
  /\ LinkSpec.lastMatchIds sampleCharacters ["Anna"] = ["c1"].
Proof.
  split; [|split].
  - apply (proj1 C7_names_linked_by_exact_match annaAndBobWorld "Cafe"
             "INT. CAFE - DAY" "" sampleScripts sampleCharacters sampleScenes
             annaAndBob); try (vm_compute; reflexivity).
    intros k. discriminate.
  - apply (proj1 (proj2 (proj2 C7_names_linked_by_exact_match))
             sampleCharacters "Zed" ["Anna"]).
    intros c [<-|[<-|[<-|[]]]]; discriminate.
  - apply (proj2 (proj2 (proj2 C7_names_linked_by_exact_match))
             sampleCharacters (sampleCharacter "c1" "s1" "Anna" [] None) []).
    + now left.
    + intros c' [<-|[<-|[<-|[]]]]; (reflexivity || discriminate).
Defined.

Lemma C8_failed_analysis_rolls_back_witness :
  (exists w' created,
      handleSubmit "Cafe" "INT. CAFE - DAY" "" apologyWorld = (Ok tt, w')
      /\ scriptsOf w' = Ok (sampleScripts ++ [created])
      /\ Script.id created = "uuid-0"
      /\ Script.status created = ScriptStatus.draft
      /\ error (ui w') = "SyntaxError"
      /\ isAnalyzing (ui w') = false
      /\ charactersOf w' = charactersOf apologyWorld
      /\ scenesOf w' = scenesOf apologyWorld)
  /\ (exists w',
        handleReanalyze (sampleScript "s1") true apologyWorld = (Ok tt, w')
        /\ localStorage w' = localStorage apologyWorld
        /\ scriptsOf w' = scriptsOf apologyWorld
        /\ charactersOf w' = charactersOf apologyWorld
        /\ scenesOf w' = scenesOf apologyWorld
        /\ error (ui w') = "SyntaxError"
        /\ isAnalyzing (ui w') = false)
  /\ analysisOf "INT. CAFE - DAY" apologyWorld = Throw SyntaxError.
Proof.
  split; [|split].
  - apply (proj1 C8_failed_analysis_rolls_back apologyWorld "Cafe"
             "INT. CAFE - DAY" "" sampleScripts SyntaxError);
      try (vm_compute; reflexivity).
    vm_compute. intros [H|[H|[]]]; discriminate H.
  - apply (proj1 (proj2 C8_failed_analysis_rolls_back) apologyWorld
             (sampleScript "s1") SyntaxError).
    vm_compute. reflexivity.
  - apply (proj2 (proj2 C8_failed_analysis_rolls_back) apologyWorld
             "INT. CAFE - DAY"
             (GenAI.mkResponse
                (Some [GenAI.mkCandidate
                         (Some [GenAI.mkPart
                                  (Some "Sorry, I cannot analyze this script.") None])])));
      vm_compute; reflexivity.
Defined.

End AnalysisPages.

(* ================================================================== *)
(** * Lemmas: the reference images of a character *)
(* ================================================================== *)

Module CharacterFacts.
Import Browser Codec Storage StorageFacts ImageStorage GeminiClient Pages PagesFacts.
Import CharactersPage.
Local Open Scope world_scope.

#[local] Arguments firstn : simpl never.

(** *** Lists *)

Lemma slice0_firstn {A} (l : list A) (n : nat) : JS.slice0 l (Z.of_nat n) = firstn n l.
Proof.
  unfold JS.slice0. destruct (Z.leb_spec 0 (Z.of_nat n)); [|lia].
  now rewrite Nat2Z.id.
Qed.

Lemma In_remove_at {A} (x y : A) l i :
  In x l -> nth_error l i = Some y -> x <> y -> In x (JS.remove_at i l).
Proof.
  revert i. induction l as [|a l IH]; intros [|i] Hin Hn Hne; simpl in *;
    try contradiction.
  - injection Hn as ->. destruct Hin as [->|H]; [contradiction | assumption].
  - destruct Hin as [->|H]; [now left | right; eauto].
Qed.

Lemma remove_at_incl {A} (l : list A) i x : In x (JS.remove_at i l) -> In x l.
Proof.
  revert i. induction l as [|a l IH]; intros [|i] H; simpl in *; try contradiction.
  - now right.
  - destruct H as [->|H]; [now left | right; eauto].
Qed.

Lemma remove_at_length {A} (l : list A) i : length (JS.remove_at i l) <= length l.
Proof.
  revert i. induction l as [|a l IH]; intros [|i]; simpl; try lia.
  specialize (IH i). lia.
Qed.

Lemma Forall_remove_at {A} (P : A -> Prop) l i : Forall P l -> Forall P (JS.remove_at i l).
Proof.
  rewrite !Forall_forall. intros H x Hx. apply H. eapply remove_at_incl, Hx.
Qed.

Lemma firstn_incl {A} (x : A) n l : In x (firstn n l) -> In x l.
Proof.
  intros H. rewrite <- (firstn_skipn n l). apply in_or_app. now left.
Qed.

Lemma hd_error_In {A} (l : list A) x : hd_error l = Some x -> In x l.
Proof. destruct l; [discriminate|]. intros [= ->]. now left. Qed.

Lemma In_firstn_app_l {A} (x : A) l l' n : In x l -> length l <= n -> In x (firstn n (l ++ l')).
Proof.
  intros Hin Hlen. rewrite firstn_app.
  apply in_or_app. left. now rewrite firstn_all2.
Qed.

Lemma hd_firstn_app_r {A} (x : A) l l' n :
  hd_error l' = Some x -> length l < n -> In x (firstn n (l ++ l')).
Proof.
  intros Hhd Hlen. rewrite firstn_app. apply in_or_app. right.
  destruct l' as [|y l']; [discriminate|]. injection Hhd as ->.
  destruct (n - length l) eqn:E; [lia|]. now left.
Qed.

Lemma truthy_Some s : JS.truthy (Some s) = true <-> s <> "".
Proof.
  unfold JS.truthy. rewrite negb_true_iff. apply String.eqb_neq.
Qed.

Lemma or_undefined_nonempty s : s <> "" -> JS.or_undefined (Some s) = Some s.
Proof. intros H. unfold JS.or_undefined. apply truthy_Some in H. now rewrite H. Qed.

(** *** The four updates keep the invariant *)

Lemma selected_truthy c :
  referencesOk c -> selectionOk c ->
  JS.truthy (Character.selectedImage c) = true
  \/ Character.selectedImage c = None.
Proof.
  unfold referencesOk, selectionOk. intros Hr Hs.
  destruct (Character.selectedImage c) as [sel|]; [left | now right].
  apply truthy_Some. rewrite Forall_forall in Hr. now apply Hr.
Qed.

Lemma uploaded_invariant t c imageId :
  pageInvariant c -> length (Character.referenceImages c) < 8 -> imageId <> "" ->
  let c' := merged t (uploadedUpdates c imageId) c in
  pageInvariant c'
  /\ Character.referenceImages c' = Character.referenceImages c ++ [imageId]
  /\ Character.id c' = Character.id c.
Proof.
  intros (Hlen & Hr & Hs) Hlt Hid. split; [|split; reflexivity].
  unfold pageInvariant, referencesOk, selectionOk, merged. simpl.
  split; [rewrite length_app; simpl; lia|].
  split; [apply Forall_app; split; [assumption | now constructor]|].
  destruct (selected_truthy Hr Hs) as [H|H]; rewrite H.
  - simpl. unfold selectionOk in Hs.
    destruct (Character.selectedImage c); [|trivial]. apply in_or_app. now left.
  - simpl. apply in_or_app. right. now left.
Qed.

Lemma generated_invariant t c ids :
  pageInvariant c -> length (Character.referenceImages c) < 8 ->
  ids <> [] -> Forall (fun id => id <> "") ids ->
  let c' := merged t (generatedUpdates c ids) c in
  pageInvariant c'
  /\ Character.referenceImages c' = firstn 8 (Character.referenceImages c ++ ids)
  /\ Character.id c' = Character.id c.
Proof.
  intros (Hlen & Hr & Hs) Hlt Hne Hids.
  split; [|split; [apply (slice0_firstn _ 8) | reflexivity]].
  unfold pageInvariant, referencesOk, selectionOk, merged. simpl.
  change 8%Z with (Z.of_nat 8). rewrite slice0_firstn.
  split; [apply firstn_le_length|].
  split.
  { rewrite Forall_forall. intros x Hx. apply firstn_incl in Hx.
    apply in_app_or in Hx as [Hx|Hx].
    - unfold referencesOk in Hr. rewrite Forall_forall in Hr. now apply Hr.
    - rewrite Forall_forall in Hids. now apply Hids. }
  destruct (selected_truthy Hr Hs) as [H|H]; rewrite H; simpl.
  - unfold selectionOk in Hs.
    destruct (Character.selectedImage c); [|trivial]. now apply In_firstn_app_l.
  - destruct ids as [|id ids]; [contradiction|]. simpl.
    now apply hd_firstn_app_r.
Qed.

Lemma generated_length t c ids :
  length (Character.referenceImages (merged t (generatedUpdates c ids) c)) <= 8.
Proof.
  unfold merged. simpl. change 8%Z with (Z.of_nat 8). rewrite slice0_firstn.
  apply firstn_le_length.
Qed.

Lemma removed_invariant t c index imageId :
  pageInvariant c ->
  nth_error (Character.referenceImages c) index = Some imageId ->
  let c' := merged t (removedUpdates c index imageId) c in
  pageInvariant c'
  /\ Character.referenceImages c' = JS.remove_at index (Character.referenceImages c)
  /\ (Character.selectedImage c = Some imageId ->
      Character.selectedImage c' = hd_error (Character.referenceImages c'))
  /\ (Character.selectedImage c <> Some imageId ->
      Character.selectedImage c' = Character.selectedImage c)
  /\ Character.id c' = Character.id c.
Proof.
  intros (Hlen & Hr & Hs) Hn.
  assert (Hr' : Forall (fun id => id <> "")
                  (JS.remove_at index (Character.referenceImages c)))
    by now apply Forall_remove_at.
  assert (Hhd : JS.or_undefined
                  (hd_error (JS.remove_at index (Character.referenceImages c)))
                = hd_error (JS.remove_at index (Character.referenceImages c))).
  { destruct (JS.remove_at index (Character.referenceImages c)) as [|x r];
      [reflexivity|]. simpl. apply or_undefined_nonempty. now inversion Hr'. }
  assert (Hlen' : length (JS.remove_at index (Character.referenceImages c)) <= 8).
  { pose proof (remove_at_length (Character.referenceImages c) index). lia. }
  unfold pageInvariant, referencesOk, selectionOk, merged in *. simpl.
  destruct (Character.selectedImage c) as [sel|] eqn:Es; simpl.
  - destruct (String.eqb_spec sel imageId) as [->|Hne]; simpl.
    + rewrite Hhd. repeat split; try assumption; try reflexivity; try congruence.
      destruct (hd_error _) eqn:E; [now apply hd_error_In | trivial].
    + repeat split; try assumption; try reflexivity; try congruence.
      now apply In_remove_at with (y := imageId).
  - repeat split; try assumption; try reflexivity; try congruence.
Qed.

Lemma selected_invariant t c index imageId :
  pageInvariant c ->
  nth_error (Character.referenceImages c) index = Some imageId ->
  let c' := merged t (selectedUpdates imageId) c in
  pageInvariant c'
  /\ Character.selectedImage c' = Some imageId
  /\ Character.referenceImages c' = Character.referenceImages c
  /\ Character.id c' = Character.id c.
Proof.
  intros (Hlen & Hr & Hs) Hn. repeat split; try assumption.
  unfold selectionOk, merged. simpl. eapply nth_error_In, Hn.
Qed.

(** *** The page: loading and updating *)

Lemma quiet_refl w : quiet w w.
Proof. now repeat split. Qed.

Lemma quiet_trans w1 w2 w3 : quiet w1 w2 -> quiet w2 w3 -> quiet w1 w3.
Proof. intros (a & b & c) (a' & b' & c'). repeat split; congruence. Qed.

Lemma cacheCharacterImages_run ids cache w :
  exists cache', cacheCharacterImages ids cache w = (Ok cache', w).
Proof.
  revert cache. induction ids as [|id ids IH]; intros cache; simpl.
  - now eexists.
  - destruct (negb (JS.truthy (cache id)) && negb (startsWithData id)).
    + unfold bind, getCharacterImage.
      destruct (JS.or_undefined _); apply IH.
    + destruct (startsWithData id); apply IH.
Qed.

Lemma cacheAllCharacters_run chars cache w :
  exists cache', cacheAllCharacters chars cache w = (Ok cache', w).
Proof.
  revert cache. induction chars as [|c chars IH]; intros cache; simpl.
  - now eexists.
  - destruct (cacheCharacterImages_run (Character.referenceImages c) cache w)
      as (cache1 & R).
    rewrite (bind_Ok _ _ _ R). apply IH.
Qed.

Lemma loadCharacters_page_run scriptId w l :
  charactersOf w = Ok l ->
  exists u,
    loadCharacters scriptId w = (Ok tt, with_ui u w) /\ flagsOf u = flagsOf (ui w).
Proof.
  intros H. unfold loadCharacters.
  rewrite (bind_Ok _ _ _ (getCharactersByScript_run scriptId _ H)).
  unfold setCharacters at 1. rewrite bind_setUI.
  match goal with
  | |- context [Browser.bind (cacheAllCharacters ?C ?K) _ ?W] =>
      destruct (cacheAllCharacters_run C K W) as (cache & R)
  end.
  rewrite (bind_Ok _ _ _ R). eexists. split; reflexivity.
Qed.

Lemma handleUpdateCharacter_run scriptId id updates w scripts l scenes :
  scriptsOf w = Ok scripts -> charactersOf w = Ok l -> scenesOf w = Ok scenes ->
  exists w' t,
    handleUpdateCharacter scriptId id updates w = (Ok tt, w')
    /\ charactersOf w' = Ok (JS.updateFirst (hasId id) (merged t updates) l)
    /\ scriptsOf w' = Ok scripts /\ scenesOf w' = Ok scenes
    /\ env w' = env w /\ calls w' = calls w
    /\ storedText "apiKey" w' = storedText "apiKey" w
    /\ flagsOf (ui w') = flagsOf (ui w).
Proof.
  intros Hs Hc Hn. unfold handleUpdateCharacter.
  destruct (updateCharacter_run id updates _ Hc)
    as (w1 & R1 & Hc1 & Hs1 & Hn1 & Bk & Be & Bc & Bu & Bui & _).
  rewrite (bind_Ok _ _ _ R1).
  destruct (loadCharacters_page_run scriptId _ Hc1) as (u & R2 & F2).
  rewrite (bind_Ok _ _ _ (floating_Ok _ _ R2)).
  rewrite Hs in Hs1. rewrite Hn in Hn1.
  assert (Hs2 : scriptsOf (with_ui u w1) = Ok scripts)
    by (rewrite <- Hs1; now apply scriptsOf_ls).
  assert (Hc2 : charactersOf (with_ui u w1) = Ok _)
    by (rewrite <- Hc1; now apply charactersOf_ls).
  assert (Hn2 : scenesOf (with_ui u w1) = Ok scenes)
    by (rewrite <- Hn1; now apply scenesOf_ls).
  destruct (ScriptDetail_loadData_run scriptId _ Hs2 Hc2 Hn2) as (u' & R3 & F3).
  rewrite with_ui_idem in R3.
  exists (with_ui u' w1), (toISOString (clock (env w) (ticks w))).
  split; [exact R3|].
  split; [rewrite (@charactersOf_ls w1) by reflexivity; exact Hc1|].
  split; [rewrite <- Hs1; now apply scriptsOf_ls|].
  split; [rewrite <- Hn1; now apply scenesOf_ls|].
  norm_world. repeat split; try assumption.
  rewrite F3. norm_world. now rewrite F2, Bui.
Qed.

Lemma loads_ls w w' scripts l scenes :
  localStorage w' = localStorage w -> loads w scripts l scenes ->
  loads w' scripts l scenes.
Proof.
  intros L (Hs & Hc & Hn). repeat split.
  - rewrite <- Hs. now apply scriptsOf_ls.
  - rewrite <- Hc. now apply charactersOf_ls.
  - rewrite <- Hn. now apply scenesOf_ls.
Qed.

Lemma updateFirst_absorb {A} (p : A -> bool) (f g : A -> A) l :
  (forall x, f (g x) = f x) -> (forall x, p (g x) = p x) ->
  JS.updateFirst p f (JS.updateFirst p g l) = JS.updateFirst p f l.
Proof.
  intros H Hp. induction l as [|x l IH]; simpl; [reflexivity|].
  destruct (p x) eqn:E; simpl.
  - now rewrite Hp, E, H.
  - now rewrite E, IH.
Qed.

Lemma hasId_merged id t updates old :
  CharacterPatch.id updates = None ->
  hasId id (merged t updates old) = hasId id old.
Proof. intros H. unfold hasId, merged. simpl. now rewrite H. Qed.

Lemma stored_updateFirst id t updates l :
  CharacterPatch.id updates = None ->
  stored id (JS.updateFirst (hasId id) (merged t updates) l)
  = option_map (merged t updates) (stored id l).
Proof.
  intros H. unfold stored. apply find_updateFirst.
  intros x. now apply hasId_merged.
Qed.

(** *** Uploads *)

Lemma saveCharacterImage_run characterId index imageData w :
  exists w' imageId,
    saveCharacterImage characterId index imageData w = (Ok imageId, w')
    /\ imageId <> "" /\ quiet w w' /\ calls w' = calls w.
Proof.
  eexists; eexists. split; [cbv [saveCharacterImage Date_toISOString Date_now bind ret]; reflexivity|].
  split; [discriminate|]. now repeat split.
Qed.

(** *** Generation of portraits *)

Lemma calm_refl w : calm w w.
Proof. now repeat split. Qed.

Lemma calm_trans w1 w2 w3 : calm w1 w2 -> calm w2 w3 -> calm w1 w3.
Proof. intros (a & b & c) (a' & b' & c'). repeat split; congruence. Qed.

Lemma keyConfigured_reads w w' :
  localStorage w' = localStorage w -> env w' = env w ->
  keyConfigured w' = keyConfigured w.
Proof.
  intros L E. unfold keyConfigured.
  rewrite (getApiKey_reads w w'); [reflexivity | assumption |].
  unfold storedText. now rewrite L.
Qed.

Lemma getAI_keyConfigured w :
  if keyConfigured w then fst (getAI w) = Ok tt
  else exists e, fst (getAI w) = Throw e.
Proof.
  unfold keyConfigured, getAI, bind.
  destruct (getApiKey w) as [[k|e] w0]; simpl.
  - destruct (JS.truthy k); simpl; [reflexivity | now eexists].
  - now eexists.
Qed.

(** One call of the model for an image: the counter of calls moves when a
    key is configured, and nothing else does. *)
Lemma generateSceneImage_run prompt refs w :
  exists r,
    generateSceneImage prompt refs w
    = (r, if keyConfigured w then with_calls (S (calls w)) w else w)
    /\ (attemptSucceeds w 0 = true -> exists image, r = Ok image)
    /\ (attemptSucceeds w 0 = false -> exists e, r = Throw e).
Proof.
  unfold generateSceneImage, bind, attemptSucceeds.
  rewrite generateContent_run, Nat.add_0_r.
  pose proof (getAI_keyConfigured w) as K.
  destruct (keyConfigured w); simpl.
  - rewrite K. unfold replyHasImage.
    destruct (model (env w) (calls w)) as [response|e].
    + destruct (extractImage response) as [image|e]; eexists;
        (split; [reflexivity|]); split; intros; try discriminate; now eexists.
    + eexists. split; [reflexivity|]. split; intros; try discriminate; now eexists.
  - destruct K as (e & ->). eexists. split; [reflexivity|].
    split; intros; try discriminate; now eexists.
Qed.

Lemma loads_calm w w' scripts l scenes :
  calm w w' -> loads w scripts l scenes -> loads w' scripts l scenes.
Proof. intros (L & _). now apply loads_ls. Qed.

Lemma onSelectImage_run scriptId character index imageId w scripts l scenes :
  loads w scripts l scenes ->
  nth_error (Character.referenceImages character) index = Some imageId ->
  exists w' t,
    onSelectImage scriptId character index w = (Ok tt, w')
    /\ loads w' scripts
         (JS.updateFirst (hasId (Character.id character))
            (merged t (selectedUpdates imageId)) l) scenes.
Proof.
  intros (Hs & Hc & Hn) N. unfold onSelectImage. rewrite N.
  destruct (handleUpdateCharacter_run scriptId (Character.id character)
              (selectedUpdates imageId) _ Hs Hc Hn)
    as (w2 & t & R2 & Hc2 & Hs2 & Hn2 & _).
  exists w2, t. split; [exact R2 | now repeat split].
Qed.

End CharacterFacts.

(* ================================================================== *)
(** * The character page: async handlers and their runs *)
(* ================================================================== *)

Module AsyncFacts.
Import Browser Async.
Local Open Scope world_scope.

Lemma Step_induction {A} (P : Step A -> Prop) :
  (forall a, P (Finished a)) ->
  (forall next,
      (forall w, match next w with
                 | (Ok s', _) => P s'
                 | (Throw _, _) => True
                 end) ->
      P (Suspended next)) ->
  forall s, P s.
Proof.
  intros HF HS. fix IH 1. intros [a|next]; [apply HF|].
  apply HS. intros w. destruct (next w) as [[s'|e] w']; [apply IH | exact I].
Qed.

Lemma keeps_finish (Inv : World -> Prop) {A} (a : A) : keeps Inv (finish a).
Proof. intros w Hw. cbn. now split. Qed.

Lemma keeps_now (Inv : World -> Prop) {A} (m : M A) : preserves Inv m -> keeps Inv (now m).
Proof.
  intros H w Hw. specialize (H w Hw). unfold now, bind, ret.
  destruct (m w) as [[a|e] w']; cbn in *; [now split | assumption].
Qed.

Lemma keeps_await (Inv : World -> Prop) {A} (m : M A) : preserves Inv m -> keeps Inv (await m).
Proof.
  intros H w Hw. cbn. split; [assumption|]. now apply keeps_now.
Qed.

Lemma keeps_pause (Inv : World -> Prop) : keeps Inv pause.
Proof. apply keeps_await. now intros w Hw. Qed.

Lemma keepsS_bindS (Inv : World -> Prop) {A B} (k : A -> Task B) :
  (forall a, keeps Inv (k a)) ->
  forall s, keepsS Inv s -> keeps Inv (bindS s k).
Proof.
  intros Hk. induction s as [a|next IH] using Step_induction; intros Hs.
  - apply Hk.
  - intros w Hw. cbn. split; [assumption|].
    intros w2 Hw2. specialize (Hs w2 Hw2). specialize (IH w2).
    destruct (next w2) as [[s'|e] w3]; [|assumption].
    destruct Hs as (Hw3 & Hs'). exact (IH Hs' w3 Hw3).
Qed.

Lemma keeps_bindT (Inv : World -> Prop) {A B} (t : Task A) (k : A -> Task B) :
  keeps Inv t -> (forall a, keeps Inv (k a)) -> keeps Inv (bindT t k).
Proof.
  intros Ht Hk w Hw. specialize (Ht w Hw). unfold bindT.
  destruct (t w) as [[s|e] w']; [|assumption].
  destruct Ht as (Hw' & Hs). exact (@keepsS_bindS Inv _ _ k Hk s Hs w' Hw').
Qed.

Lemma keepsS_catchS (Inv : World -> Prop) {A} (handler : exn -> Task A) :
  (forall e, keeps Inv (handler e)) ->
  forall s, keepsS Inv s -> keepsS Inv (catchS s handler).
Proof.
  intros Hh. induction s as [a|next IH] using Step_induction; intros Hs.
  - exact I.
  - intros w Hw. specialize (Hs w Hw). specialize (IH w). cbn.
    destruct (next w) as [[s'|e] w'].
    + destruct Hs as (Hw' & Hs'). split; [assumption | now apply IH].
    + exact (Hh e w' Hs).
Qed.

Lemma keeps_catchT (Inv : World -> Prop) {A} (body : Task A) (handler : exn -> Task A) :
  keeps Inv body -> (forall e, keeps Inv (handler e)) -> keeps Inv (catchT body handler).
Proof.
  intros Hb Hh w Hw. specialize (Hb w Hw). unfold catchT.
  destruct (body w) as [[s|e] w'].
  - destruct Hb as (Hw' & Hs). split; [assumption | now apply keepsS_catchS].
  - exact (Hh e w' Hb).
Qed.

Lemma cleanup_throw (Inv : World -> Prop) {A} (cleanup : M unit) e w :
  preserves Inv cleanup -> Inv w ->
  match (cleanup ;;; throw (A := A) e) w with
  | (Ok _, w') => False
  | (Throw _, w') => Inv w'
  end.
Proof.
  intros Hc Hw. specialize (Hc w Hw). unfold bind, throw.
  destruct (cleanup w) as [[[]|e'] w']; exact Hc.
Qed.

Lemma keepsS_finallyS (Inv : World -> Prop) {A} (cleanup : M unit) :
  preserves Inv cleanup ->
  forall s : Step A, keepsS Inv s -> keeps Inv (finallyS s cleanup).
Proof.
  intros Hc. induction s as [a|next IH] using Step_induction; intros Hs.
  - intros w Hw. specialize (Hc w Hw). cbn. unfold bind, ret.
    destruct (cleanup w) as [[[]|e] w']; cbn in *; [now split | assumption].
  - intros w Hw. cbn. split; [assumption|].
    intros w2 Hw2. specialize (Hs w2 Hw2). specialize (IH w2).
    destruct (next w2) as [[s'|e] w3].
    + destruct Hs as (Hw3 & Hs'). exact (IH Hs' w3 Hw3).
    + pose proof (@cleanup_throw Inv (Step A) cleanup e w3 Hc Hs) as T.
      destruct ((cleanup ;;; throw e) w3) as [[s'|e'] w4]; [contradiction | exact T].
Qed.

Lemma keeps_finallyT (Inv : World -> Prop) {A} (body : Task A) (cleanup : M unit) :
  keeps Inv body -> preserves Inv cleanup -> keeps Inv (finallyT body cleanup).
Proof.
  intros Hb Hc w Hw. specialize (Hb w Hw). unfold finallyT.
  destruct (body w) as [[s|e] w'].
  - destruct Hb as (Hw' & Hs). exact (@keepsS_finallyS Inv _ cleanup Hc s Hs w' Hw').
  - pose proof (@cleanup_throw Inv (Step A) cleanup e w' Hc Hb) as T.
    destruct ((cleanup ;;; throw e) w') as [[s'|e'] w4]; [contradiction | exact T].
Qed.

Lemma preserves_bind (Inv : World -> Prop) {A B} (m : M A) (k : A -> M B) :
  preserves Inv m -> (forall a, preserves Inv (k a)) -> preserves Inv (m' <- m ;; k m').
Proof.
  intros Hm Hk w Hw. specialize (Hm w Hw). unfold bind.
  destruct (m w) as [[a|e] w']; cbn in *; [now apply Hk | assumption].
Qed.

Lemma preserves_ret (Inv : World -> Prop) {A} (a : A) : preserves Inv (ret a).
Proof. now intros w Hw. Qed.

Lemma preserves_throw (Inv : World -> Prop) {A} e : preserves Inv (throw (A := A) e).
Proof. now intros w Hw. Qed.

Lemma steady_spawn (Inv : World -> Prop) t p : steady Inv p -> keeps Inv t -> steady Inv (spawn t p).
Proof.
  intros (Hw & Hp) Ht. specialize (Ht _ Hw). unfold spawn.
  destruct (t (world p)) as [[[a|next]|e] w']; cbn.
  - now split.
  - destruct Ht as (Hw' & Hn). split; [assumption|].
    apply Forall_app. split; [assumption|]. now constructor.
  - now split.
Qed.

Lemma Forall_remove_at' {A} (P : A -> Prop) l i :
  Forall P l -> Forall P (JS.remove_at i l).
Proof.
  intros H. revert i. induction H as [|x l Hx Hl IH]; intros [|i]; cbn;
    try constructor; auto.
Qed.

Lemma Forall_take {A} (P : A -> Prop) l k : Forall P l -> Forall P (firstn k l).
Proof.
  intros H. revert k. induction H as [|x l Hx Hl IH]; intros [|k]; cbn;
    try constructor; auto.
Qed.

Lemma Forall_skip {A} (P : A -> Prop) l k : Forall P l -> Forall P (skipn k l).
Proof.
  intros H. revert k. induction H as [|x l Hx Hl IH]; intros [|k]; cbn;
    try constructor; auto.
Qed.

Lemma steady_resume (Inv : World -> Prop) k p : steady Inv p -> steady Inv (resume k p).
Proof.
  intros (Hw & Hp). unfold resume.
  destruct (nth_error (pending p) k) as [t|] eqn:N; [|now split].
  assert (Ht : keeps Inv t)
    by (apply (proj1 (Forall_forall _ _) Hp); now apply nth_error_In with (n := k)).
  specialize (Ht _ Hw).
  destruct (t (world p)) as [[[a|next]|e] w']; unfold steady; cbn [world pending].
  - split; [apply Ht | now apply Forall_remove_at'].
  - destruct Ht as (Hw' & Hn). split; [assumption|].
    apply Forall_app. split; [now apply Forall_take|].
    constructor; [assumption | now apply Forall_skip].
  - split; [assumption | now apply Forall_remove_at'].
Qed.

End AsyncFacts.

Module TidyFacts.
Import Browser Storage ImageStorage GeminiClient Pages Async CharactersPage.
Import StorageFacts PagesFacts CharacterFacts AsyncFacts.
Local Open Scope string_scope.

Lemma tidy_ui scripts ids scenes w w' :
  localStorage w' = localStorage w ->
  characters (ui w') = characters (ui w) ->
  tidy scripts ids scenes w -> tidy scripts ids scenes w'.
Proof.
  intros L C (l & Hl & Hi & Hc & Hu). exists l.
  split; [now apply (loads_ls (w := w))|].
  split; [assumption|]. split; [assumption|]. now rewrite C.
Qed.

Lemma Forall_updateFirst_all {A} (P : A -> Prop) p f (l : list A) :
  Forall P l -> (forall x, P x -> P (f x)) -> Forall P (JS.updateFirst p f l).
Proof.
  intros H Hf. induction H as [|x l Hx Hl IH]; simpl; [constructor|].
  destruct (p x); constructor; auto.
Qed.

Lemma ids_updateFirst id t updates l :
  CharacterPatch.id updates = None ->
  map Character.id (JS.updateFirst (hasId id) (merged t updates) l)
  = map Character.id l.
Proof.
  intros H. induction l as [|x l IH]; simpl; [reflexivity|].
  destruct (hasId id x); simpl; [|now rewrite IH].
  f_equal. unfold merged. simpl. now rewrite H.
Qed.

Lemma Forall_filter_keep {A} (P : A -> Prop) p (l : list A) :
  Forall P l -> Forall P (filter p l).
Proof.
  intros H. induction H as [|x l Hx Hl IH]; simpl; [constructor|].
  destruct (p x); [constructor|]; assumption.
Qed.

Lemma loadCharacters_shows scriptId w l :
  charactersOf w = Ok l ->
  exists u,
    loadCharacters scriptId w = (Ok tt, with_ui u w)
    /\ characters u = filter (fun c => Character.scriptId c =? scriptId) l.
Proof.
  intros H. unfold loadCharacters.
  rewrite (bind_Ok _ _ _ (getCharactersByScript_run scriptId _ H)).
  unfold setCharacters at 1. rewrite bind_setUI.
  match goal with
  | |- context [Browser.bind (cacheAllCharacters ?C ?K) _ ?W] =>
      destruct (cacheAllCharacters_run C K W) as (cache & R)
  end.
  rewrite (bind_Ok _ _ _ R). eexists. split; reflexivity.
Qed.

Lemma ScriptDetail_loadData_shows id w scripts l scenes :
  scriptsOf w = Ok scripts -> charactersOf w = Ok l -> scenesOf w = Ok scenes ->
  exists u,
    ScriptDetail_loadData id w = (Ok tt, with_ui u w)
    /\ (characters u = characters (ui w)
        \/ characters u = filter (fun c => Character.scriptId c =? id) l).
Proof.
  intros Hs Hc Hn. unfold ScriptDetail_loadData.
  rewrite (bind_Ok _ _ _ (getScript_run id _ Hs)).
  destruct (find _ scripts) as [found|].
  - unfold setScript, setCharacters, setScenes. rewrite bind_setUI.
    assert (Hc' : forall u, charactersOf (with_ui u w) = Ok l)
      by (intros; now rewrite (@charactersOf_ls w)).
    assert (Hn' : forall u, scenesOf (with_ui u w) = Ok scenes)
      by (intros; now rewrite (@scenesOf_ls w)).
    rewrite (bind_Ok _ _ _ (getCharactersByScript_run id _ (Hc' _))).
    rewrite bind_setUI, with_ui_idem.
    rewrite (bind_Ok _ _ _ (getScenesByScript_run id _ (Hn' _))).
    eexists. split; [reflexivity|]. right. reflexivity.
  - exists (ui w). split; [now destruct w | now left].
Qed.

(** A write of the page keeps the store tidy when the list that it
    writes, if any, has at most eight images. *)
Lemma handleUpdateCharacter_tidy scripts ids scenes scriptId id updates :
  CharacterPatch.id updates = None ->
  match CharacterPatch.referenceImages updates with
  | Some images => length images <= 8
  | None => True
  end ->
  preserves (tidy scripts ids scenes) (handleUpdateCharacter scriptId id updates).
Proof.
  intros Hid Hr w (l & (Hs & Hc & Hn) & Hi & Hcap & Hu).
  unfold handleUpdateCharacter.
  destruct (updateCharacter_run id updates _ Hc)
    as (w1 & R1 & Hc1 & Hs1 & Hn1 & Bk & Be & Bc & Bu & Bui & _).
  rewrite (bind_Ok _ _ _ R1).
  destruct (loadCharacters_shows scriptId _ Hc1) as (u & R2 & C2).
  rewrite (bind_Ok _ _ _ (floating_Ok _ _ R2)).
  rewrite Hs in Hs1. rewrite Hn in Hn1.
  assert (Hs2 : scriptsOf (with_ui u w1) = Ok scripts)
    by (rewrite <- Hs1; now apply scriptsOf_ls).
  assert (Hc2 : charactersOf (with_ui u w1) = Ok _)
    by (rewrite <- Hc1; now apply charactersOf_ls).
  assert (Hn2 : scenesOf (with_ui u w1) = Ok scenes)
    by (rewrite <- Hn1; now apply scenesOf_ls).
  destruct (ScriptDetail_loadData_shows scriptId _ Hs2 Hc2 Hn2) as (u' & R3 & C3).
  rewrite with_ui_idem in R3. rewrite R3. cbn [snd].
  set (l1 := JS.updateFirst (fun c => Character.id c =? id)
               (touchedCharacter w updates) l) in *.
  assert (Hcap1 : Forall capped l1).
  { apply Forall_updateFirst_all; [assumption|].
    intros x Hx. unfold capped, touchedCharacter. simpl.
    destruct (CharacterPatch.referenceImages updates); [exact Hr | exact Hx]. }
  exists l1.
  split.
  { split; [rewrite <- Hs1; now apply scriptsOf_ls|].
    split; [rewrite (@charactersOf_ls w1) by reflexivity; exact Hc1|].
    rewrite <- Hn1. now apply scenesOf_ls. }
  split; [rewrite <- Hi; exact (@ids_updateFirst id _ updates l Hid)|].
  split; [assumption|].
  norm_world.
  assert (Hu' : Forall capped (characters u))
    by (rewrite C2; now apply Forall_filter_keep).
  destruct C3 as [-> | ->]; [exact Hu' | now apply Forall_filter_keep].
Qed.

Lemma setUI_tidy scripts ids scenes f :
  (forall u, characters (f u) = characters u) ->
  preserves (tidy scripts ids scenes) (setUI f).
Proof.
  intros H w Hw. apply (tidy_ui (w := w)); [reflexivity | apply H | assumption].
Qed.

Lemma setError_tidy scripts ids scenes message :
  preserves (tidy scripts ids scenes) (setError message).
Proof. now apply setUI_tidy. Qed.

Lemma setGenerating_tidy scripts ids scenes g :
  preserves (tidy scripts ids scenes) (setGenerating g).
Proof. now apply setUI_tidy. Qed.

Lemma setImageCache_tidy scripts ids scenes cache :
  preserves (tidy scripts ids scenes) (setImageCache cache).
Proof. now apply setUI_tidy. Qed.

Lemma generateSceneImage_tidy scripts ids scenes prompt refs :
  preserves (tidy scripts ids scenes) (generateSceneImage prompt refs).
Proof.
  intros w Hw. destruct (generateSceneImage_run prompt refs w) as (r & R & _).
  rewrite R. cbn [snd].
  destruct (keyConfigured w); [|assumption].
  now apply (tidy_ui (w := w)).
Qed.

Lemma saveCharacterImage_tidy scripts ids scenes characterId index imageData :
  preserves (tidy scripts ids scenes)
    (saveCharacterImage characterId index imageData).
Proof. intros w Hw. now apply (tidy_ui (w := w)). Qed.

Lemma deleteCharacterImage_tidy scripts ids scenes imageId :
  preserves (tidy scripts ids scenes) (deleteCharacterImage imageId).
Proof. intros w Hw. now apply (tidy_ui (w := w)). Qed.

Lemma getCharactersByScript_tidy scripts ids scenes scriptId :
  preserves (tidy scripts ids scenes) (getCharactersByScript scriptId).
Proof.
  intros w Hw. destruct Hw as (l & (Hs & Hc & Hn) & H).
  rewrite (getCharactersByScript_run scriptId _ Hc). cbn [snd].
  exists l. now split.
Qed.

Ltac keeps_step :=
  lazymatch goal with
  | |- keeps _ (bindT _ _) => apply keeps_bindT; [|intros ?]
  | |- keeps _ (catchT _ _) => apply keeps_catchT; [|intros ?]
  | |- keeps _ (finallyT _ _) => apply keeps_finallyT
  | |- keeps _ pause => apply keeps_pause
  | |- keeps _ (finish _) => apply keeps_finish
  | |- keeps _ (await _) => apply keeps_await
  | |- keeps _ (now _) => apply keeps_now
  | |- preserves _ (Browser.bind _ _) => apply preserves_bind; [|intros ?]
  | |- preserves _ (ret _) => apply preserves_ret
  | |- preserves _ (throw _) => apply preserves_throw
  | |- preserves _ (setError _) => apply setError_tidy
  | |- preserves _ (setGenerating _) => apply setGenerating_tidy
  | |- preserves _ (setImageCache _) => apply setImageCache_tidy
  | |- preserves _ (generateSceneImage _ _) => apply generateSceneImage_tidy
  | |- preserves _ (saveCharacterImage _ _ _) => apply saveCharacterImage_tidy
  | |- preserves _ (deleteCharacterImage _) => apply deleteCharacterImage_tidy
  | |- preserves _ (getCharactersByScript _) => apply getCharactersByScript_tidy
  end.

Lemma portraitAttempts_keeps scripts ids scenes character prompt indices :
  forall newImageIds,
    keeps (tidy scripts ids scenes)
      (portraitAttempts character prompt indices newImageIds).
Proof.
  induction indices as [|i rest IH]; intros newImageIds;
    cbn [portraitAttempts]; [apply keeps_finish|].
  apply keeps_bindT; [|intros acc; apply IH].
  repeat keeps_step.
  destruct (i <? IMAGES_PER_CHARACTER - 1)%nat; keeps_step.
Qed.

Lemma generatedUpdates_capped character newImageIds :
  match CharacterPatch.referenceImages (generatedUpdates character newImageIds) with
  | Some images => length images <= 8
  | None => True
  end.
Proof.
  cbn [generatedUpdates CharacterPatch.referenceImages].
  change 8%Z with (Z.of_nat 8). rewrite slice0_firstn, length_firstn. lia.
Qed.

Lemma handleGenerateCharacterImages_keeps scripts ids scenes render scriptId character :
  keeps (tidy scripts ids scenes)
    (handleGenerateCharacterImages render scriptId character).
Proof.
  unfold handleGenerateCharacterImages.
  apply keeps_bindT; [repeat keeps_step|intros _].
  apply keeps_finallyT; [|apply setGenerating_tidy].
  apply keeps_catchT; [|intros e; repeat keeps_step].
  apply keeps_bindT; [apply portraitAttempts_keeps|intros newImageIds].
  destruct newImageIds as [|first more]; [repeat keeps_step|].
  apply keeps_now. apply handleUpdateCharacter_tidy;
    [reflexivity | apply generatedUpdates_capped].
Qed.

Lemma clickGenerate_keeps scripts ids scenes scriptId character :
  keeps (tidy scripts ids scenes) (clickGenerate scriptId character).
Proof.
  unfold clickGenerate. apply keeps_bindT.
  - apply keeps_now. now intros w Hw.
  - intros render. destruct (_ || _); [apply keeps_finish|].
    apply handleGenerateCharacterImages_keeps.
Qed.

Lemma generateAllLoop_keeps scripts ids scenes render scriptId targets :
  keeps (tidy scripts ids scenes) (generateAllLoop render scriptId targets).
Proof.
  induction targets as [|char rest IH]; cbn [generateAllLoop];
    [apply keeps_finish|].
  apply keeps_bindT; [|intros _; apply keeps_bindT; [|intros _; exact IH]].
  - unfold generateAllStep. apply keeps_catchT; [|intros e; apply keeps_finish].
    apply keeps_bindT; [repeat keeps_step|intros freshChars].
    destruct (find _ freshChars) as [freshChar|]; [|apply keeps_finish].
    destruct (_ <? 8)%nat; [|apply keeps_finish].
    apply handleGenerateCharacterImages_keeps.
  - destruct rest; keeps_step.
Qed.

Lemma handleGenerateAll_keeps scripts ids scenes render scriptId :
  keeps (tidy scripts ids scenes) (handleGenerateAll render scriptId).
Proof.
  unfold handleGenerateAll. destruct (filter _ _); [repeat keeps_step|].
  apply keeps_bindT; [repeat keeps_step|intros _].
  apply generateAllLoop_keeps.
Qed.

Lemma onload_keeps scripts ids scenes scriptId character base64 :
  length (Character.referenceImages character) < 8 ->
  keeps (tidy scripts ids scenes) (onload scriptId character base64).
Proof.
  intros H. unfold onload. apply keeps_bindT; [repeat keeps_step|intros imageId].
  apply keeps_now. apply preserves_bind; [apply setImageCache_tidy|intros _].
  apply handleUpdateCharacter_tidy; [reflexivity|].
  cbn [uploadedUpdates CharacterPatch.referenceImages].
  rewrite length_app. cbn [length]. lia.
Qed.

Lemma handleRemoveImage_keeps scripts ids scenes scriptId character index :
  capped character ->
  keeps (tidy scripts ids scenes) (handleRemoveImage scriptId character index).
Proof.
  intros H. unfold handleRemoveImage.
  destruct (nth_error _ index) as [imageId|]; [|repeat keeps_step].
  apply keeps_bindT; [destruct (negb _); repeat keeps_step|intros _].
  apply keeps_now. apply handleUpdateCharacter_tidy; [reflexivity|].
  cbn [removedUpdates CharacterPatch.referenceImages].
  pose proof (remove_at_length (Character.referenceImages character) index).
  unfold capped in H. lia.
Qed.

Lemma onSelectImage_tidy scripts ids scenes scriptId character index :
  preserves (tidy scripts ids scenes) (onSelectImage scriptId character index).
Proof.
  unfold onSelectImage. destruct (nth_error _ index) as [imageId|];
    [|apply preserves_ret].
  now apply handleUpdateCharacter_tidy.
Qed.

Lemma shown_capped scripts ids scenes characterId w character :
  tidy scripts ids scenes w -> shown characterId w = Some character ->
  capped character.
Proof.
  intros (l & _ & _ & _ & Hu) F. apply find_some in F.
  exact (proj1 (Forall_forall _ _) Hu _ (proj1 F)).
Qed.

Lemma fire_steady scripts ids scenes scriptId a p :
  steady (tidy scripts ids scenes) p ->
  steady (tidy scripts ids scenes) (fire scriptId a p).
Proof.
  intros H. pose proof H as (Hw & Hp).
  destruct a as [characterId| |characterId files|characterId index
                |characterId index|style|characterId form|k]; cbn [fire].
  - destruct (shown characterId (world p)) as [character|]; [|assumption].
    apply steady_spawn; [assumption | apply clickGenerate_keeps].
  - destruct (generateAllDisabled _); [assumption|].
    apply steady_spawn; [assumption | apply handleGenerateAll_keeps].
  - destruct (shown characterId (world p)) as [character|]; [|assumption].
    destruct (_ && _) eqn:L; [|assumption].
    apply andb_true_iff in L. destruct L as (_ & L).
    apply Nat.ltb_lt in L. split; cbn [world pending]; [assumption|].
    apply Forall_app. split; [assumption|].
    unfold handleImageUpload. apply Forall_forall.
    intros t [base64 [<- _]]%in_map_iff. now apply onload_keeps.
  - destruct (shown characterId (world p)) as [character|] eqn:S; [|assumption].
    apply steady_spawn; [assumption|].
    apply handleRemoveImage_keeps. exact (shown_capped _ Hw S).
  - destruct (shown characterId (world p)) as [character|]; [|assumption].
    apply steady_spawn; [assumption|].
    apply keeps_now, onSelectImage_tidy.
  - destruct (generating (ui (world p))); [assumption|].
    apply steady_spawn; [assumption|].
    apply keeps_now. now apply setUI_tidy.
  - destruct (shown characterId (world p)) as [character|]; [|assumption].
    apply steady_spawn; [assumption|].
    apply keeps_now. now apply handleUpdateCharacter_tidy.
  - now apply steady_resume.
Qed.

Lemma play_steady scripts ids scenes scriptId actions :
  forall p,
    steady (tidy scripts ids scenes) p ->
    steady (tidy scripts ids scenes) (play scriptId actions p).
Proof.
  unfold play. induction actions as [|a rest IH]; intros p H; [exact H|].
  cbn [fold_left]. apply IH. now apply fire_steady.
Qed.

Lemma mount_steady scripts scenes scriptId w l :
  loads w scripts l scenes -> Forall capped l ->
  steady (tidy scripts (map Character.id l) scenes) (mount scriptId w).
Proof.
  intros Hl Hcap. pose proof Hl as (Hs & Hc & Hn).
  destruct (loadCharacters_shows scriptId _ Hc) as (u & R & C).
  unfold mount, spawn, now. cbn [world pending].
  rewrite (bind_Ok _ _ _ (floating_Ok _ _ R)). unfold ret.
  split; cbn [world pending]; [|constructor].
  exists l. split; [now apply (loads_ls (w := w))|].
  split; [reflexivity|]. split; [assumption|].
  change (Forall capped (characters u)). rewrite C. now apply Forall_filter_keep.
Qed.

End TidyFacts.

Section CharacterPage.
Import Browser Storage ImageStorage GeminiClient Pages Async CharactersPage.
Import StorageFacts PagesFacts CharacterFacts AsyncFacts TidyFacts Samples.
Local Open Scope string_scope.

(** Through the events of the character page, in whatever order they come
    and in whatever order the async handlers are resumed (generation for
    one character or for all, choice of a style, upload, removal and
    selection of an image, edition of the form; each handler writes the
    record from the render in which it started), every stored character
    keeps at most eight reference images, no character is added or removed,
    and the scripts and the scenes stay as they are; the characters shown
    keep at most eight images as well. *)
Theorem characters_stay_capped_in_every_run :
  forall scriptId actions w scripts l scenes,
    loads w scripts l scenes ->
    Forall capped l ->
    exists l',
      loads (world (play scriptId actions (mount scriptId w))) scripts l' scenes
      /\ map Character.id l' = map Character.id l
      /\ Forall capped l'
      /\ Forall capped
           (characters (ui (world (play scriptId actions (mount scriptId w))))).
Proof.
  intros scriptId actions w scripts l scenes Hl Hcap.
  destruct (play_steady scriptId actions (mount_steady scriptId Hl Hcap))
    as ((l' & H) & _).
  now exists l'.
Qed.

Lemma characters_stay_capped_in_every_run_witness :
  exists l',
    loads
      (world (play "s1"
                [ClickGenerate "c6"; ChooseFiles "c6" ["data:a"; "data:b"; "data:c"];
                 Resume 0; Resume 1; Resume 2; Resume 1; Resume 0; Resume 1;
                 Resume 0; Resume 0; Resume 0; Resume 0; Resume 0; Resume 0]
                (mount "s1" atelierWorld)))
      sampleScripts l' sampleScenes
    /\ map Character.id l' = ["c6"]
    /\ Forall capped l'.
Proof.
  destruct (@characters_stay_capped_in_every_run "s1"
              [ClickGenerate "c6"; ChooseFiles "c6" ["data:a"; "data:b"; "data:c"];
               Resume 0; Resume 1; Resume 2; Resume 1; Resume 0; Resume 1;
               Resume 0; Resume 0; Resume 0; Resume 0; Resume 0; Resume 0]
              atelierWorld sampleScripts [fay] sampleScenes
              ltac:(repeat split; vm_compute; reflexivity)
              ltac:(repeat constructor; vm_compute; lia))
    as (l' & Hl & Hi & Hc & _).
  exists l'. split; [exact Hl|]. split; [exact Hi | exact Hc].
Defined.

End CharacterPage.

Section CharacterPageRuns.
Import Browser Storage ImageStorage GeminiClient Pages Async CharactersPage.
Import Samples.
Local Open Scope string_scope.

(** C2 (as stated) fails in the code.  A character has six reference
    images and the user chooses three files.  Two readers are started, as
    the claim says; each callback saves its image and then writes the six
    images of the render in which the files were chosen followed by its own
    image, so the second write replaces the first.  Whether the callbacks
    run one after the other or in turns, the character ends with seven
    images, not eight, and one of the two saved images is in no list. *)
Lemma C2_upload_overwrites_counterexample :
  let start := mount "s1" atelierWorld in
  let chosen := ChooseFiles "c6" ["data:a"; "data:b"; "data:c"] in
  let inTurn := play "s1" [chosen; Resume 0; Resume 0; Resume 0; Resume 0] start in
  let mixed := play "s1" [chosen; Resume 0; Resume 1; Resume 0; Resume 0] start in
  shown "c6" (world start) = Some fay
  /\ length (Character.referenceImages fay) = 6
  /\ length (pending (play "s1" [chosen] start)) = 2
  /\ pending inTurn = [] /\ pending mixed = []
  /\ map imageId (characterImages (world inTurn))
     = ["char_c6_6_1700000000003"; "char_c6_6_1700000000000"]
  /\ map imageId (characterImages (world mixed))
     = ["char_c6_6_1700000000003"; "char_c6_6_1700000000000"]
  /\ (exists c',
         charactersOf (world inTurn) = Ok [c']
         /\ Character.referenceImages c'
            = (Character.referenceImages fay ++ ["char_c6_6_1700000000003"])%list)
  /\ (exists c',
         charactersOf (world mixed) = Ok [c']
         /\ Character.referenceImages c'
            = (Character.referenceImages fay ++ ["char_c6_6_1700000000003"])%list).
Proof.
  cbv zeta.
  split; [vm_compute; reflexivity|]. split; [reflexivity|].
  split; [vm_compute; reflexivity|].
  split; [vm_compute; reflexivity|]. split; [vm_compute; reflexivity|].
  split; [vm_compute; reflexivity|]. split; [vm_compute; reflexivity|].
  split; eexists; (split; [vm_compute; reflexivity | reflexivity]).
Qed.

(** C3 (as stated) fails in the code.  The generation of portraits awaits
    the model and writes, at its end, the list of the render of the click
    followed by the new images; it writes no selection when that render
    had one.  Meanwhile the page stays in use: the user uploads an image
    and selects it.  When the generation ends, the stored list is the old
    one with two new portraits, and the selected image, the upload, is not
    in it. *)
Lemma C3_stale_generation_counterexample :
  let start := mount "s1" atelierWorld in
  let page :=
    play "s1"
      [ClickGenerate "c6"; ChooseFiles "c6" ["data:a"]; Resume 1; Resume 1;
       ClickImage "c6" 6;
       Resume 0; Resume 0; Resume 0; Resume 0; Resume 0; Resume 0; Resume 0;
       Resume 0] start in
  charactersOf (world start) = Ok [fay]
  /\ pageInvariant fay
  /\ pending page = []
  /\ exists c',
       charactersOf (world page) = Ok [c']
       /\ Character.referenceImages c'
          = (Character.referenceImages fay
             ++ ["char_c6_6_1700000000004"; "char_c6_7_1700000000006"])%list
       /\ Character.selectedImage c' = Some "char_c6_6_1700000000000"
       /\ ~ selectionOk c'.
Proof.
  cbv zeta.
  split; [vm_compute; reflexivity|].
  split.
  { split; [simpl; lia|]. split; [repeat constructor; discriminate|].
    unfold selectionOk. simpl. now left. }
  split; [vm_compute; reflexivity|].
  eexists. split; [vm_compute; reflexivity|].
  split; [reflexivity|]. split; [reflexivity|].
  unfold selectionOk. simpl. intuition discriminate.
Qed.

(** With seven images a single reader is started for three chosen files,
    and the character ends with eight images. *)
Example upload_at_seven_fills_the_list :
  let page :=
    play "s1" [ChooseFiles "c7" ["data:a"; "data:b"; "data:c"]; Resume 0; Resume 0]
      (mount "s1" galleryWorld) in
  shown "c7" (world (mount "s1" galleryWorld)) = Some gwen
  /\ length (Character.referenceImages gwen) = 7
  /\ length (pending (play "s1" [ChooseFiles "c7" ["data:a"; "data:b"; "data:c"]]
                        (mount "s1" galleryWorld))) = 1
  /\ pending page = []
  /\ option_map Character.referenceImages (shown "c7" (world page))
     = Some (Character.referenceImages gwen ++ ["char_c7_7_1700000000000"])%list.
Proof. cbv zeta. repeat split; vm_compute; reflexivity. Qed.

(** A removal that runs to its end before anything else happens: the
    selected image is removed, and the first of the remaining images is
    selected. *)
Example removal_selects_the_next_image :
  let page := play "s1" [ClickRemove "c6" 0; Resume 0] (mount "s1" atelierWorld) in
  Character.selectedImage fay = Some "char_c6_0_1"
  /\ pending page = []
  /\ option_map Character.referenceImages (shown "c6" (world page))
     = Some (tl (Character.referenceImages fay))
  /\ option_map Character.selectedImage (shown "c6" (world page))
     = Some (Some "char_c6_1_2")
  /\ map imageId (characterImages (world page)) = [].
Proof. cbv zeta. repeat split; vm_compute; reflexivity. Qed.

End CharacterPageRuns.


(* ================================================================== *)
(** * The generation of the images of a scene *)
(* ================================================================== *)

Module GenerateFacts.
Import Browser Storage ImageStorage GeminiClient Pages GeneratePage.
Import StorageFacts PagesFacts CharacterFacts.
Local Open Scope string_scope.

Lemma cacheSceneImages_run ids cache w :
  exists cache', cacheSceneImages ids cache w = (Ok cache', w).
Proof.
  revert cache. induction ids as [|id ids IH]; intros cache; simpl.
  - now eexists.
  - destruct (negb (JS.truthy (cache id)) && negb (startsWithData id)).
    + unfold bind, getImage.
      destruct (JS.or_undefined _); apply IH.
    + apply IH.
Qed.

Lemma cacheAllScenes_run l cache w :
  exists cache', cacheAllScenes l cache w = (Ok cache', w).
Proof.
  revert cache. induction l as [|x l IH]; intros cache; simpl.
  - now eexists.
  - destruct (cacheSceneImages_run (Scene.generatedImages x) cache w)
      as (cache1 & R1).
    rewrite (bind_Ok _ _ _ R1).
    assert (R2 : exists cache2,
               match JS.or_undefined (Scene.selectedImage x) with
               | Some selected => cacheSceneImages [selected] cache1
               | None => ret cache1
               end w = (Ok cache2, w)).
    { destruct (JS.or_undefined _); [apply cacheSceneImages_run | now eexists]. }
    destruct R2 as (cache2 & R2). rewrite (bind_Ok _ _ _ R2). apply IH.
Qed.

(** [loadData] of the page reads the record store and the image stores and
    writes cells of the page. *)
Lemma loadData_run scriptId w l n :
  charactersOf w = Ok l -> scenesOf w = Ok n ->
  exists u,
    loadData scriptId w = (Ok tt, with_ui u w) /\ flagsOf u = flagsOf (ui w).
Proof.
  intros Hc Hn. unfold loadData.
  rewrite (bind_Ok _ _ _ (getScenesByScript_run scriptId _ Hn)).
  unfold setScenes at 1. rewrite bind_setUI.
  assert (Hc' : forall u, charactersOf (with_ui u w) = Ok l)
    by (intros; now rewrite (@charactersOf_ls w)).
  rewrite (bind_Ok _ _ _ (getCharactersByScript_run scriptId _ (Hc' _))).
  unfold setCharacters at 1. rewrite bind_setUI.
  match goal with
  | |- context [Browser.bind (cacheAllScenes ?C ?K) _ ?W] =>
      destruct (cacheAllScenes_run C K W) as (cache & R)
  end.
  rewrite (bind_Ok _ _ _ R).
  unfold setImageCache at 1. rewrite bind_setUI.
  match goal with
  | |- context [Browser.bind (CharactersPage.cacheAllCharacters ?C ?K) _ ?W] =>
      destruct (cacheAllCharacters_run C K W) as (charCache & R')
  end.
  rewrite (bind_Ok _ _ _ R'). eexists. split; reflexivity.
Qed.

Lemma getSceneCharacters_run ids w l :
  charactersOf w = Ok l ->
  exists found, getSceneCharacters ids w = (Ok found, w).
Proof.
  intros H. induction ids as [|id ids (found & IH)]; simpl.
  - now eexists.
  - rewrite (bind_Ok _ _ _ (getCharacter_run id _ H)), (bind_Ok _ _ _ IH).
    now eexists.
Qed.

(** *** The scene that the page finds again *)

Lemma insertByNumber_perm x l : Permutation (insertByNumber x l) (x :: l).
Proof.
  induction l as [|y l IH]; simpl; [reflexivity|].
  destruct (_ <=? _)%Z; [reflexivity|].
  rewrite IH. apply perm_swap.
Qed.

Lemma sortByNumber_perm l : Permutation (sortByNumber l) l.
Proof.
  induction l as [|x l IH]; simpl; [reflexivity|].
  rewrite insertByNumber_perm. now constructor.
Qed.

Lemma NoDup_map_filter {A B} (f : A -> B) p (l : list A) :
  NoDup (map f l) -> NoDup (map f (filter p l)).
Proof.
  induction l as [|x l IH]; simpl; intros H; [constructor|].
  inversion H as [|? ? Hx Hl]; subst.
  destruct (p x); simpl; [|now apply IH].
  constructor; [|now apply IH].
  intros (y & E & Hy)%in_map_iff. apply Hx. rewrite <- E.
  apply in_map. now apply filter_In in Hy.
Qed.

Lemma find_unique x (l : list Scene.t) s :
  NoDup (map Scene.id l) -> In s l -> Scene.id s = x ->
  find (fun s => Scene.id s =? x) l = Some s.
Proof.
  induction l as [|a l IH]; simpl; intros ND Hin E; [contradiction|].
  inversion ND as [|? ? Ha Hl]; subst.
  destruct Hin as [->|Hin]; [now rewrite String.eqb_refl|].
  destruct (Scene.id a =? Scene.id s) eqn:Q; [|now apply IH].
  apply String.eqb_eq in Q. exfalso. apply Ha. rewrite Q. now apply in_map.
Qed.

Lemma find_sorted sid x l s :
  NoDup (map Scene.id l) ->
  find (fun s => Scene.id s =? x) l = Some s -> Scene.scriptId s = sid ->
  find (fun s => Scene.id s =? x)
    (sortByNumber (filter (fun s => Scene.scriptId s =? sid) l)) = Some s.
Proof.
  intros ND F E. apply find_some in F. destruct F as (Hin & Hx).
  apply String.eqb_eq in Hx.
  apply find_unique; [| |assumption].
  - apply (Permutation_NoDup
             (Permutation_map Scene.id (Permutation_sym (sortByNumber_perm _)))).
    now apply NoDup_map_filter.
  - apply (Permutation_in _ (Permutation_sym (sortByNumber_perm _))).
    apply filter_In. split; [assumption|]. now apply String.eqb_eq.
Qed.

Lemma map_updateFirst {A B} (g : A -> B) p f (l : list A) :
  (forall x, g (f x) = g x) -> map g (JS.updateFirst p f l) = map g l.
Proof.
  intros H. induction l as [|x l IH]; simpl; [reflexivity|].
  destruct (p x); simpl; [now rewrite H | now rewrite IH].
Qed.

Lemma updateFirst_found {A} p (f g : A -> A) l x :
  find p l = Some x -> f x = g x -> JS.updateFirst p f l = JS.updateFirst p g l.
Proof.
  induction l as [|y l IH]; simpl; [discriminate|].
  destruct (p y); [now intros [= ->] -> | intros F E; now rewrite IH].
Qed.

Lemma updateFirst_twice {A} p (f g : A -> A) l :
  (forall x, p (g x) = p x) ->
  JS.updateFirst p f (JS.updateFirst p g l)
  = JS.updateFirst p (fun x => f (g x)) l.
Proof.
  intros H. induction l as [|y l IH]; simpl; [reflexivity|].
  destruct (p y) eqn:E; simpl; [now rewrite H, E | now rewrite E, IH].
Qed.

(** *** The loop of attempts *)

Lemma keyConfigured_calm w w' : calm w w' -> keyConfigured w' = keyConfigured w.
Proof. intros (L & E & _). now apply keyConfigured_reads. Qed.

Lemma attemptSucceeds_at w0 w k :
  calm w0 w -> (keyConfigured w0 = true -> calls w = calls w0 + k) ->
  attemptSucceeds w 0 = attemptSucceeds w0 k.
Proof.
  intros C Hk. unfold attemptSucceeds.
  rewrite (keyConfigured_calm C).
  destruct (keyConfigured w0); [|reflexivity].
  destruct C as (_ & -> & _). now rewrite Hk, Nat.add_0_r.
Qed.

Lemma attemptSucceeds_reads w w' i :
  env w' = env w -> calls w' = calls w ->
  storedText "apiKey" w' = storedText "apiKey" w ->
  attemptSucceeds w' i = attemptSucceeds w i.
Proof.
  intros E C K. unfold attemptSucceeds, keyConfigured.
  now rewrite (getApiKey_reads w w' E K), E, C.
Qed.

Lemma saveImage_run sceneId index imageData w :
  exists w' now,
    saveImage sceneId index imageData w
    = (Ok (sceneId ++ "_" ++ JS.decimal (N.of_nat index) ++ "_" ++ JS.decimal now), w')
    /\ calm w w' /\ calls w' = calls w.
Proof.
  eexists; eexists.
  split; [cbv [saveImage Date_toISOString Date_now bind ret]; reflexivity|].
  now repeat split.
Qed.

Lemma sceneAttempts_run scene prompt refs w0 n :
  forall k acc w,
    calm w0 w -> (keyConfigured w0 = true -> calls w = calls w0 + k) ->
    exists w' new,
      sceneAttempts scene prompt refs (seq k n) acc w = (Ok (acc ++ new)%list, w')
      /\ calm w0 w'
      /\ Forall2 (producedBy scene) new (filter (attemptSucceeds w0) (seq k n)).
Proof.
  induction n as [|n IH]; intros k acc w C Hk.
  - exists w, []. rewrite app_nil_r. split; [reflexivity|]. split; [assumption|constructor].
  - simpl seq. simpl sceneAttempts. simpl filter.
    destruct (generateSceneImage_run prompt refs w) as (r & G & Hok & Hfail).
    rewrite (@attemptSucceeds_at w0 w k C Hk) in Hok, Hfail.
    pose proof (keyConfigured_calm C) as Kw.
    set (w1 := if keyConfigured w then with_calls (S (calls w)) w else w) in G.
    assert (C1 : calm w0 w1).
    { apply calm_trans with (w2 := w); [assumption|].
      unfold w1. destruct (keyConfigured w); now repeat split. }
    assert (Hk1 : keyConfigured w0 = true -> calls w1 = calls w0 + S k).
    { intros K. unfold w1. rewrite Kw, K. simpl. rewrite (Hk K). lia. }
    destruct (attemptSucceeds w0 k).
    + destruct (Hok eq_refl) as (image & ->).
      destruct (saveImage_run (Scene.id scene)
                  (length (Scene.generatedImages scene) + k) image w1)
        as (w2 & now & R2 & C2 & K2).
      set (imageId := imageIdOf scene k now).
      set (w3 := snd (setImageCache (cachePut imageId image (fun _ => None)) w2)).
      match goal with
      | |- context [try_catch ?B ?H] =>
          assert (X : try_catch B H w = (Ok (acc ++ [imageId])%list, w3))
      end.
      { apply try_catch_Ok.
        now rewrite (bind_Ok _ _ _ G), (bind_Ok _ _ _ R2). }
      rewrite (bind_Ok _ _ _ X).
      destruct (IH (S k) (acc ++ [imageId])%list w3) as (w' & new & R & C' & F).
      { apply calm_trans with (w2 := w1); [assumption|].
        apply calm_trans with (w2 := w2); [assumption | now repeat split]. }
      { intros K. rewrite <- (Hk1 K). exact K2. }
      exists w', (imageId :: new). split; [|split; [assumption|]].
      * rewrite R. now rewrite <- app_assoc.
      * constructor; [now exists now | assumption].
    + destruct (Hfail eq_refl) as (e & ->).
      match goal with
      | |- context [try_catch ?B ?H] =>
          assert (X : try_catch B H w = (Ok acc, w1))
      end.
      { now rewrite (try_catch_Throw _ _ _ (bind_Throw _ _ _ G)). }
      rewrite (bind_Ok _ _ _ X).
      destruct (IH (S k) acc w1 C1 Hk1) as (w' & new & R & C' & F).
      exists w', new. split; [exact R|]. split; assumption.
Qed.

Lemma flags_error u u' : flagsOf u = flagsOf u' -> error u = error u'.
Proof. unfold flagsOf. now intros [=]. Qed.

(** What a run leaves of the stored scene, and what it makes of the rest,
    by the images that it produced. *)
Lemma handleGenerateOne_run_script render scriptId scene count w scripts characters scenes stored :
  loads w scripts characters scenes ->
  NoDup (map Scene.id scenes) ->
  find (isScene (Scene.id scene)) scenes = Some stored ->
  Scene.scriptId stored = scriptId ->
  exists w' final newImageIds,
    handleGenerateOne render scriptId scene count w = (Ok tt, w')
    /\ loads w' scripts characters
         (JS.updateFirst (isScene (Scene.id scene)) (fun _ => final) scenes)
    /\ Forall2 (producedBy scene) newImageIds
         (filter (attemptSucceeds w) (seq 0 count))
    /\ generating (ui w') = None
    /\ Scene.id final = Scene.id stored
    /\ Scene.scriptId final = Scene.scriptId stored
    /\ match newImageIds with
       | [] =>
           Scene.status final = SceneStatus.failed
           /\ Scene.generatedImages final = Scene.generatedImages stored
           /\ Scene.selectedImage final = Scene.selectedImage stored
           /\ error (ui w') = "이미지 생성에 모두 실패했습니다."
       | first :: _ =>
           Scene.status final = SceneStatus.completed
           /\ Scene.generatedImages final
              = (Scene.generatedImages stored ++ newImageIds)%list
           /\ Scene.selectedImage final = Some first
           /\ error (ui w') = ""
       end.
Proof.
  intros (Hs & Hc & Hn) ND F E.
  set (p := isScene (Scene.id scene)) in *.
  unfold handleGenerateOne.
  unfold setError at 1. rewrite bind_setUI.
  unfold setGenerating at 1. rewrite bind_setUI.
  match goal with
  | |- exists w' final newImageIds, try_finally _ _ ?W = _ /\ _ => set (w0 := W)
  end.
  assert (L0 : localStorage w0 = localStorage w) by reflexivity.
  assert (Hn0 : scenesOf w0 = Ok scenes) by (rewrite <- Hn; now apply scenesOf_ls).
  (* the status [generating] *)
  destruct (updateScene_run (Scene.id scene) (statusOnly SceneStatus.generating) _ Hn0)
    as (w1 & R1 & Hn1 & Hs1 & Hc1 & B1).
  set (f1 := touchedScene w0 (statusOnly SceneStatus.generating)) in *.
  change (fun s : Scene.t => (Scene.id s =? Scene.id scene)%string) with p in Hn1.
  assert (Hc1' : charactersOf w1 = Ok characters)
    by (rewrite Hc1, <- Hc; now apply charactersOf_ls).
  assert (Hs1' : scriptsOf w1 = Ok scripts)
    by (rewrite Hs1, <- Hs; now apply scriptsOf_ls).
  destruct (loadData_run scriptId _ Hc1' Hn1) as (u2 & R2 & F2).
  set (w2 := with_ui u2 w1) in *.
  assert (Hc2 : charactersOf w2 = Ok characters)
    by (rewrite <- Hc1'; now apply charactersOf_ls).
  destruct (getSceneCharacters_run (Scene.characterIds scene) _ Hc2) as (found & R3).
  (* the attempts *)
  set (referenceImages := collectReferences (charImageCache render) found).
  set (prompt :=
         Gemini.buildScenePrompt
           (Gemini.mkSceneInput (Scene.location scene) (Scene.timeOfDay scene)
              (Scene.visualDescription scene) (Scene.userEditedPrompt scene))
           (map (fun c => Gemini.mkCharacterInput (Character.name c)
                            (Character.appearance c) (Character.defaultOutfit c))
              found)
           (selectedStyle render)).
  destruct (sceneAttempts_run scene prompt referenceImages (w0 := w2) count 0 []
              (calm_refl w2) (fun _ => eq_sym (Nat.add_0_r _)))
    as (w3 & new & R4 & C4 & FA).
  simpl app in R4.
  assert (FA' : Forall2 (producedBy scene) new (filter (attemptSucceeds w) (seq 0 count))).
  { erewrite filter_ext; [exact FA|]. intros i. symmetry.
    destruct B1 as (Bk & Be & Bc & _).
    apply attemptSucceeds_reads.
    - change (env w2) with (env w1). now rewrite Be.
    - change (calls w2) with (calls w1). now rewrite Bc.
    - change (storedText "apiKey" w2) with (storedText "apiKey" w1). now rewrite Bk. }
  assert (E2 : error (ui w2) = "").
  { change (ui w2) with u2. rewrite (flags_error F2).
    destruct B1 as (_ & _ & _ & _ & -> & _). reflexivity. }
  assert (E3 : error (ui w3) = "")
    by (rewrite (flags_error (proj2 (proj2 C4))); exact E2).
  assert (L3 : localStorage w3 = localStorage w1) by apply C4.
  assert (Hn3 : scenesOf w3 = Ok (JS.updateFirst p f1 scenes))
    by (rewrite <- Hn1; now apply scenesOf_ls).
  assert (Hc3 : charactersOf w3 = Ok characters)
    by (rewrite <- Hc1'; now apply charactersOf_ls).
  assert (Hs3 : scriptsOf w3 = Ok scripts)
    by (rewrite <- Hs1'; now apply scriptsOf_ls).
  assert (Pf1 : forall x, p (f1 x) = p x) by reflexivity.
  assert (F1 : find p (JS.updateFirst p f1 scenes) = Some (f1 stored))
    by (rewrite (find_updateFirst p f1 scenes Pf1); now rewrite F).
  assert (Run : forall (k : list string -> M unit),
             (updateScene (Scene.id scene) (statusOnly SceneStatus.generating) ;;;
              loadData scriptId ;;;
              sceneCharacters <- getSceneCharacters (Scene.characterIds scene) ;;
              newImageIds <-
                sceneAttempts scene
                  (Gemini.buildScenePrompt
                     (Gemini.mkSceneInput (Scene.location scene)
                        (Scene.timeOfDay scene) (Scene.visualDescription scene)
                        (Scene.userEditedPrompt scene))
                     (map (fun c => Gemini.mkCharacterInput (Character.name c)
                                      (Character.appearance c)
                                      (Character.defaultOutfit c))
                        sceneCharacters)
                     (selectedStyle render))
                  (collectReferences (charImageCache render) sceneCharacters)
                  (seq 0 count) [] ;;
              k newImageIds)%world w0
             = k new w3).
  { intros k. rewrite (bind_Ok _ _ _ R1), (bind_Ok _ _ _ R2), (bind_Ok _ _ _ R3).
    fold referenceImages prompt. now rewrite (bind_Ok _ _ _ R4). }
  destruct new as [|first new].
  - (* no image: the status [failed] *)
    set (message := "이미지 생성에 모두 실패했습니다.") in *.
    set (w4 := snd (setError message w3)).
    assert (Hn4 : scenesOf w4 = Ok (JS.updateFirst p f1 scenes))
      by (rewrite <- Hn3; now apply scenesOf_ls).
    destruct (updateScene_run (Scene.id scene) (statusOnly SceneStatus.failed) _ Hn4)
      as (w5 & R5 & Hn5 & Hs5 & Hc5 & B5).
    set (f2 := touchedScene w4 (statusOnly SceneStatus.failed)) in *.
    change (fun s : Scene.t => (Scene.id s =? Scene.id scene)%string) with p in Hn5.
    assert (Hc5' : charactersOf w5 = Ok characters)
      by (rewrite Hc5, <- Hc3; now apply charactersOf_ls).
    assert (Hs5' : scriptsOf w5 = Ok scripts)
      by (rewrite Hs5, <- Hs3; now apply scriptsOf_ls).
    destruct (loadData_run scriptId _ Hc5' Hn5) as (u6 & R6 & F6).
    exists (snd (setGenerating None (with_ui u6 w5))), (f2 (f1 stored)), [].
    split; [|split; [|split; [exact FA'|split; [reflexivity|split; [reflexivity|split; [reflexivity|]]]]]].
    + apply try_finally_run with (w' := with_ui u6 w5); [|reflexivity].
      rewrite (try_catch_Throw _ _ _ (w' := w3) (e := Error message)).
      * unfold setError at 1. rewrite bind_setUI.
        change (with_ui _ w3) with w4.
        now rewrite (bind_Ok _ _ _ R5).
      * rewrite Run. reflexivity.
    + apply (@loads_ls (with_ui u6 w5)); [reflexivity|].
      rewrite updateFirst_twice in Hn5 by exact Pf1.
      rewrite (updateFirst_found p (fun x => f2 (f1 x)) (fun _ => f2 (f1 stored))
                 scenes F eq_refl) in Hn5.
      repeat split; try assumption.
      * rewrite <- Hs5'. now apply scriptsOf_ls.
      * rewrite <- Hc5'. now apply charactersOf_ls.
      * rewrite <- Hn5. now apply scenesOf_ls.
    + split; [reflexivity|]. split; [reflexivity|]. split; [reflexivity|].
      change (error u6 = message). rewrite (flags_error F6).
      destruct B5 as (_ & _ & _ & _ & -> & _). reflexivity.
  - (* some image: the status [completed] *)
    assert (ND1 : NoDup (map Scene.id (JS.updateFirst p f1 scenes)))
      by (rewrite map_updateFirst by reflexivity; exact ND).
    pose proof (@find_sorted scriptId (Scene.id scene) _ _ ND1 F1 E) as F1'.
    destruct (updateScene_run (Scene.id scene)
                (completedUpdates (Scene.generatedImages stored) (first :: new))
                _ Hn3)
      as (w4 & R4' & Hn4 & Hs4 & Hc4 & B4).
    set (f2 := touchedScene w3
                 (completedUpdates (Scene.generatedImages stored) (first :: new))) in *.
    change (fun s : Scene.t => (Scene.id s =? Scene.id scene)%string) with p in Hn4.
    assert (Hc4' : charactersOf w4 = Ok characters) by (now rewrite Hc4).
    assert (Hs4' : scriptsOf w4 = Ok scripts) by (now rewrite Hs4).
    destruct (loadData_run scriptId _ Hc4' Hn4) as (u5 & R5 & F5).
    assert (Hc5 : charactersOf (with_ui u5 w4) = Ok characters)
      by (rewrite <- Hc4'; now apply charactersOf_ls).
    assert (Hs5 : scriptsOf (with_ui u5 w4) = Ok scripts)
      by (rewrite <- Hs4'; now apply scriptsOf_ls).
    assert (Hn5 : scenesOf (with_ui u5 w4) = Ok (JS.updateFirst p f2 (JS.updateFirst p f1 scenes)))
      by (rewrite <- Hn4; now apply scenesOf_ls).
    destruct (ScriptDetail_loadData_run scriptId _ Hs5 Hc5 Hn5) as (u6 & R6 & F6).
    rewrite with_ui_idem in R6.
    exists (snd (setGenerating None (with_ui u6 w4))), (f2 (f1 stored)), (first :: new).
    split; [|split; [|split; [exact FA'|split; [reflexivity|split; [reflexivity|split; [reflexivity|]]]]]].
    + apply try_finally_run with (w' := with_ui u6 w4); [|reflexivity].
      apply try_catch_Ok. rewrite Run.
      rewrite (bind_Ok _ _ _ (w' := w4) (a := tt)).
      * now rewrite (bind_Ok _ _ _ R5).
      * rewrite (bind_Ok _ _ _ (getScenesByScript_run scriptId _ Hn3)).
        cbv beta zeta. rewrite F1'. exact R4'.
    + apply (@loads_ls (with_ui u6 w4)); [reflexivity|].
      rewrite updateFirst_twice in Hn4 by exact Pf1.
      rewrite (updateFirst_found p (fun x => f2 (f1 x)) (fun _ => f2 (f1 stored))
                 scenes F eq_refl) in Hn4.
      repeat split; try assumption.
      * rewrite <- Hs4'. now apply scriptsOf_ls.
      * rewrite <- Hc4'. now apply charactersOf_ls.
      * rewrite <- Hn4. now apply scenesOf_ls.
    + split; [reflexivity|]. split; [reflexivity|]. split; [reflexivity|].
      change (error u6 = ""). rewrite (flags_error F6).
      change (error u5 = ""). rewrite (flags_error F5).
      destruct B4 as (_ & _ & _ & _ & -> & _). exact E3.
Qed.

Lemma handleGenerateOne_run render scriptId scene count w scripts characters scenes stored :
  loads w scripts characters scenes ->
  NoDup (map Scene.id scenes) ->
  find (isScene (Scene.id scene)) scenes = Some stored ->
  Scene.scriptId stored = scriptId ->
  exists w' final newImageIds,
    handleGenerateOne render scriptId scene count w = (Ok tt, w')
    /\ loads w' scripts characters
         (JS.updateFirst (isScene (Scene.id scene)) (fun _ => final) scenes)
    /\ Forall2 (producedBy scene) newImageIds
         (filter (attemptSucceeds w) (seq 0 count))
    /\ generating (ui w') = None
    /\ Scene.id final = Scene.id stored
    /\ match newImageIds with
       | [] =>
           Scene.status final = SceneStatus.failed
           /\ Scene.generatedImages final = Scene.generatedImages stored
           /\ Scene.selectedImage final = Scene.selectedImage stored
           /\ error (ui w') = "이미지 생성에 모두 실패했습니다."
       | first :: _ =>
           Scene.status final = SceneStatus.completed
           /\ Scene.generatedImages final
              = (Scene.generatedImages stored ++ newImageIds)%list
           /\ Scene.selectedImage final = Some first
           /\ error (ui w') = ""
       end.
Proof.
  intros Hl ND F E.
  destruct (handleGenerateOne_run_script render scene count Hl ND F E)
    as (w' & final & new & R & Hl' & FA & G & Hid & _ & Hfinal).
  exists w', final, new. now repeat (split; [assumption|]).
Qed.

End GenerateFacts.

Section GeneratedImages.
Import Browser Storage GeminiClient Pages GeneratePage GenerateFacts.
Import Samples.
Local Open Scope string_scope.

(** C1.  A run of [count] attempts for a scene of the page ends without
    throwing.  The images that it produced are those of the attempts that
    succeeded, in the order of the attempts.  When there is one, the stored
    scene ends with these identifiers after the images that it had, with
    the first of them selected whatever was selected before, and with the
    status [completed]; when there is none, the scene ends with the status
    [failed] and with its images as they were, and the failure of the run
    is reported in the error cell of the page.  No other scene changes.
    The button of a scene runs three attempts; with three attempts of which
    the first and the third succeed and the second fails, the scene ends
    [completed] with exactly the images of the first and of the third
    attempt appended, in that order. *)
Theorem C1_batch_generation_outcome :
  (forall scriptId scene w,
      clickGenerate scriptId scene w
      = handleGenerateOne (ui w) scriptId scene 3 w)
  /\ forall render scriptId scene count w scripts characters scenes stored,
      loads w scripts characters scenes ->
      NoDup (map Scene.id scenes) ->
      find (isScene (Scene.id scene)) scenes = Some stored ->
      Scene.scriptId stored = scriptId ->
      exists w' final newImageIds,
        handleGenerateOne render scriptId scene count w = (Ok tt, w')
        /\ scenesOf w'
           = Ok (JS.updateFirst (isScene (Scene.id scene)) (fun _ => final) scenes)
        /\ Forall2 (producedBy scene) newImageIds
             (filter (attemptSucceeds w) (seq 0 count))
        /\ (newImageIds <> [] ->
            Scene.generatedImages final
            = (Scene.generatedImages stored ++ newImageIds)%list
            /\ Scene.selectedImage final = hd_error newImageIds
            /\ Scene.status final = SceneStatus.completed
            /\ error (ui w') = "")
        /\ (newImageIds = [] ->
            Scene.status final = SceneStatus.failed
            /\ Scene.generatedImages final = Scene.generatedImages stored
            /\ error (ui w') = "이미지 생성에 모두 실패했습니다.")
        /\ (count = 3 ->
            attemptSucceeds w 0 = true -> attemptSucceeds w 1 = false ->
            attemptSucceeds w 2 = true ->
            exists first third,
              producedBy scene first 0 /\ producedBy scene third 2
              /\ Scene.generatedImages final
                 = (Scene.generatedImages stored ++ [first; third])%list
              /\ Scene.selectedImage final = Some first
              /\ Scene.status final = SceneStatus.completed).
Proof.
  split; [reflexivity|].
  intros render scriptId scene count w scripts characters scenes stored Hl ND F E.
  destruct (handleGenerateOne_run render scene count Hl ND F E)
    as (w' & final & new & R & (_ & _ & Hn) & FA & _ & _ & Hfinal).
  exists w', final, new.
  split; [exact R|]. split; [exact Hn|]. split; [exact FA|].
  destruct new as [|first new].
  - destruct Hfinal as (Hst & Hg & _ & He).
    split; [now intros []|]. split; [now intros _|].
    intros -> A0 A1 A2. cbn [seq filter] in FA. rewrite A0 in FA. inversion FA.
  - destruct Hfinal as (Hst & Hg & Hsel & He).
    split; [now intros _|]. split; [discriminate|].
    intros -> A0 A1 A2. cbn [seq filter] in FA. rewrite A0, A1, A2 in FA.
    inversion FA as [|a i new' rest P0 FA1]; subst.
    inversion FA1 as [|third i new'' rest P2 FA2]; subst.
    inversion FA2; subst.
    exists first, third. now repeat split.
Qed.

Lemma C1_batch_generation_outcome_witness :
  exists w' final first third,
    handleGenerateOne emptyUI "s1"
      (sampleScene "n2" "s1" 2 ["n2_0_5"] SceneStatus.completed) 3 studioWorld
    = (Ok tt, w')
    /\ scenesOf w'
       = Ok [sampleScene "n1" "s2" 1 [] SceneStatus.pending; final;
             sampleScene "n3" "s1" 1 [] SceneStatus.pending]
    /\ Scene.generatedImages final = ["n2_0_5"; first; third]
    /\ Scene.selectedImage final = Some first
    /\ Scene.status final = SceneStatus.completed.
Proof.
  destruct (proj2 C1_batch_generation_outcome emptyUI "s1"
              (sampleScene "n2" "s1" 2 ["n2_0_5"] SceneStatus.completed) 3
              studioWorld sampleScripts sampleCharacters sampleScenes
              (sampleScene "n2" "s1" 2 ["n2_0_5"] SceneStatus.completed))
    as (w' & final & new & R & Hn & _ & _ & _ & H3).
  - repeat split; vm_compute; reflexivity.
  - repeat constructor; simpl; intuition discriminate.
  - reflexivity.
  - reflexivity.
  - destruct (H3 eq_refl ltac:(vm_compute; reflexivity)
                ltac:(vm_compute; reflexivity) ltac:(vm_compute; reflexivity))
      as (first & third & _ & _ & Hg & Hsel & Hst).
    exists w', final, first, third.
    split; [exact R|]. split; [exact Hn|]. split; [exact Hg|]. split; assumption.
Defined.

End GeneratedImages.

(* ================================================================== *)
(** * The record store beyond the cascade and the bulk save *)
(* ================================================================== *)

Module StoreFacts.
Import Browser Codec Storage StorageFacts.
Local Open Scope string_scope.

Lemma find_app {A} (p : A -> bool) l l' :
  find p (l ++ l')
  = match find p l with Some x => Some x | None => find p l' end.
Proof.
  induction l as [|x l IH]; simpl; [reflexivity|]. now destruct (p x).
Qed.

Lemma findIndex_None {A} (p : A -> bool) l :
  find p l = None -> JS.findIndex p l = None.
Proof.
  induction l as [|x l IH]; simpl; [reflexivity|].
  destruct (p x); [discriminate|]. intros H. now rewrite IH.
Qed.

Lemma find_filter_negb {A} (p : A -> bool) l :
  find p (filter (fun x => negb (p x)) l) = None.
Proof.
  induction l as [|x l IH]; simpl; [reflexivity|].
  destruct (p x) eqn:E; simpl; [assumption|]. now rewrite E.
Qed.

Lemma filter_idem {A} (p : A -> bool) l : filter p (filter p l) = filter p l.
Proof.
  induction l as [|x l IH]; simpl; [reflexivity|].
  destruct (p x) eqn:E; simpl; [now rewrite E, IH | assumption].
Qed.

Lemma length_updateFirst {A} (p : A -> bool) f l :
  length (JS.updateFirst p f l) = length l.
Proof.
  induction l as [|x l IH]; simpl; [reflexivity|].
  destruct (p x); simpl; [reflexivity | now rewrite IH].
Qed.

Lemma run_view {A} (m : M A) w r : m w = (r, w) -> fst (m w) = r.
Proof. now intros ->. Qed.

Lemma addCharacter_run character w l :
  charactersOf w = Ok l ->
  exists w',
    addCharacter character w = (Ok tt, w')
    /\ charactersOf w' = Ok (l ++ [character])%list
    /\ scriptsOf w' = scriptsOf w /\ scenesOf w' = scenesOf w
    /\ besideRecords w w'.
Proof.
  intros H. unfold addCharacter.
  rewrite (bind_Ok _ _ _ (eq_trans (loadCharacters_run w) (f_equal (fun r => (r, w)) H))).
  rewrite saveCharacters_run. eexists. split; [reflexivity|].
  split; [apply charactersOf_saveCharacters|].
  split; [now rewrite scriptsOf_saveCharacters|].
  split; [now rewrite scenesOf_saveCharacters|].
  now apply besideRecords_save.
Qed.

Lemma addScene_run scene w l :
  scenesOf w = Ok l ->
  exists w',
    addScene scene w = (Ok tt, w')
    /\ scenesOf w' = Ok (l ++ [scene])%list
    /\ scriptsOf w' = scriptsOf w /\ charactersOf w' = charactersOf w
    /\ besideRecords w w'.
Proof.
  intros H. unfold addScene.
  rewrite (bind_Ok _ _ _ (eq_trans (loadScenes_run w) (f_equal (fun r => (r, w)) H))).
  rewrite saveScenes_run. eexists. split; [reflexivity|].
  split; [apply scenesOf_saveScenes|].
  split; [now rewrite scriptsOf_saveScenes|].
  split; [now rewrite charactersOf_saveScenes|].
  now apply besideRecords_save.
Qed.

Lemma deleteCharacter_run id w l :
  charactersOf w = Ok l ->
  exists w',
    deleteCharacter id w = (Ok tt, w')
    /\ charactersOf w'
       = Ok (filter (fun c => negb (Character.id c =? id)) l)
    /\ scriptsOf w' = scriptsOf w /\ scenesOf w' = scenesOf w
    /\ besideRecords w w'.
Proof.
  intros H. unfold deleteCharacter.
  rewrite (bind_Ok _ _ _ (eq_trans (loadCharacters_run w) (f_equal (fun r => (r, w)) H))).
  rewrite saveCharacters_run. eexists. split; [reflexivity|].
  split; [apply charactersOf_saveCharacters|].
  split; [now rewrite scriptsOf_saveCharacters|].
  split; [now rewrite scenesOf_saveCharacters|].
  now apply besideRecords_save.
Qed.

Lemma deleteScene_run id w l :
  scenesOf w = Ok l ->
  exists w',
    deleteScene id w = (Ok tt, w')
    /\ scenesOf w' = Ok (filter (fun s => negb (Scene.id s =? id)) l)
    /\ scriptsOf w' = scriptsOf w /\ charactersOf w' = charactersOf w
    /\ besideRecords w w'.
Proof.
  intros H. unfold deleteScene.
  rewrite (bind_Ok _ _ _ (eq_trans (loadScenes_run w) (f_equal (fun r => (r, w)) H))).
  rewrite saveScenes_run. eexists. split; [reflexivity|].
  split; [apply scenesOf_saveScenes|].
  split; [now rewrite scriptsOf_saveScenes|].
  split; [now rewrite charactersOf_saveScenes|].
  now apply besideRecords_save.
Qed.

Lemma getScene_run id w l :
  scenesOf w = Ok l ->
  getScene id w = (Ok (find (fun s => Scene.id s =? id) l), w).
Proof.
  intros H. unfold getScene.
  now rewrite (bind_Ok _ _ _ (eq_trans (loadScenes_run w) (f_equal (fun r => (r, w)) H))).
Qed.

Lemma storedText_saveData_other {T} {S : Serializable T} key key' (data : T) w :
  key' <> key -> storedText key' (snd (saveData key data w)) = storedText key' w.
Proof.
  intros H. unfold storedText. simpl.
  apply getItem_setItem_other. intros E. apply H.
  unfold STORAGE_PREFIX in E. simpl in E. now inversion E.
Qed.

Lemma loadData_corrupted {T} {S : Serializable T} key w :
  corrupted key w -> loadData (T := T) key w = (Throw SyntaxError, w).
Proof.
  intros (text & H & Hne & Hp). unfold loadData. fold (storedText key w).
  rewrite H. apply String.eqb_neq in Hne. now rewrite Hne, Hp.
Qed.

Lemma loadData_blank {T} {S : Serializable T} key w :
  blank key w -> loadData (T := T) key w = (Ok None, w).
Proof.
  unfold loadData. fold (storedText key w).
  now intros [-> | [-> | ->]].
Qed.

Lemma corrupted_text key w w' :
  storedText key w' = storedText key w -> corrupted key w -> corrupted key w'.
Proof. intros E (text & H & R). exists text. now rewrite E. Qed.

(** *** The order of the scenes of a script *)

Lemma insertByNumber_sorted x l :
  StronglySorted byNumber l -> StronglySorted byNumber (insertByNumber x l).
Proof.
  induction 1 as [|y l Hl IH Hy]; simpl.
  - constructor; constructor.
  - destruct (Z.leb_spec (Scene.sceneNumber x) (Scene.sceneNumber y)) as [L|L].
    + constructor; [now constructor|].
      constructor; [exact L|].
      apply (Forall_impl _ (P := byNumber y)); [|exact Hy].
      intros z Hz. unfold byNumber in *. lia.
    + constructor; [exact IH|].
      apply (Permutation_Forall
               (Permutation_sym (GenerateFacts.insertByNumber_perm x l))).
      constructor; [unfold byNumber; lia | exact Hy].
Qed.

Lemma sortByNumber_sorted l : StronglySorted byNumber (sortByNumber l).
Proof.
  induction l as [|x l IH]; simpl; [constructor | now apply insertByNumber_sorted].
Qed.

Lemma insertByNumber_stable n x l :
  filter (fun s => Scene.sceneNumber s =? n)%Z (insertByNumber x l)
  = filter (fun s => Scene.sceneNumber s =? n)%Z (x :: l).
Proof.
  induction l as [|y l IH]; [reflexivity|].
  cbn [insertByNumber].
  destruct (Z.leb_spec (Scene.sceneNumber x) (Scene.sceneNumber y)) as [L|L];
    [reflexivity|].
  cbn [filter] in *. rewrite IH.
  destruct (Z.eqb_spec (Scene.sceneNumber x) n) as [Ex|Ex];
    destruct (Z.eqb_spec (Scene.sceneNumber y) n) as [Ey|Ey]; try reflexivity.
  lia.
Qed.

Lemma sortByNumber_stable n l :
  filter (fun s => Scene.sceneNumber s =? n)%Z (sortByNumber l)
  = filter (fun s => Scene.sceneNumber s =? n)%Z l.
Proof.
  induction l as [|x l IH]; [reflexivity|].
  cbn [sortByNumber fold_right]. fold (sortByNumber l).
  rewrite insertByNumber_stable. cbn [filter]. now rewrite IH.
Qed.

Lemma filter_all {A} (p : A -> bool) l :
  Forall (fun x => p x = true) l -> filter p l = l.
Proof.
  induction 1 as [|x l Hx _ IH]; simpl; [reflexivity|]. now rewrite Hx, IH.
Qed.

Lemma filter_negb_all {A} (p : A -> bool) l :
  Forall (fun x => p x = true) l -> filter (fun x => negb (p x)) l = [].
Proof.
  induction 1 as [|x l Hx _ IH]; simpl; [reflexivity|]. now rewrite Hx.
Qed.

Lemma filter_none {A} (p : A -> bool) l :
  filter p (filter (fun x => negb (p x)) l) = [].
Proof.
  induction l as [|x l IH]; simpl; [reflexivity|].
  destruct (p x) eqn:E; simpl; [assumption|]. now rewrite E.
Qed.

End StoreFacts.

Section RecordStoreMore.
Import Browser Codec Storage StorageFacts PagesFacts StoreFacts.
Import Samples.
Local Open Scope string_scope.

(** An added record goes to the end of its collection.  A lookup by its id
    then finds it when no older record has this id, and finds the oldest
    record of this id otherwise: an added record never replaces one. *)
Theorem added_record_is_found :
  (forall script w l,
      scriptsOf w = Ok l ->
      exists w',
        addScript script w = (Ok tt, w')
        /\ scriptsOf w' = Ok (l ++ [script])%list
        /\ fst (getScript (Script.id script) w')
           = Ok (Some (match find (fun s => Script.id s =? Script.id script) l with
                       | Some older => older
                       | None => script
                       end)))
  /\ (forall character w l,
        charactersOf w = Ok l ->
        exists w',
          addCharacter character w = (Ok tt, w')
          /\ charactersOf w' = Ok (l ++ [character])%list
          /\ fst (getCharacter (Character.id character) w')
             = Ok (Some (match find (fun c => Character.id c =? Character.id character) l with
                         | Some older => older
                         | None => character
                         end)))
  /\ (forall scene w l,
        scenesOf w = Ok l ->
        exists w',
          addScene scene w = (Ok tt, w')
          /\ scenesOf w' = Ok (l ++ [scene])%list
          /\ fst (getScene (Scene.id scene) w')
             = Ok (Some (match find (fun s => Scene.id s =? Scene.id scene) l with
                         | Some older => older
                         | None => scene
                         end))).
Proof.
  split; [|split].
  - intros script w l H.
    destruct (addScript_run script _ H) as (w' & R & H' & _).
    exists w'. split; [exact R|]. split; [exact H'|].
    rewrite (getScript_run _ _ H'). simpl. rewrite find_app. simpl.
    rewrite String.eqb_refl. now destruct (find _ l).
  - intros character w l H.
    destruct (addCharacter_run character _ H) as (w' & R & H' & _).
    exists w'. split; [exact R|]. split; [exact H'|].
    rewrite (getCharacter_run _ _ H'). simpl. rewrite find_app. simpl.
    rewrite String.eqb_refl. now destruct (find _ l).
  - intros scene w l H.
    destruct (addScene_run scene _ H) as (w' & R & H' & _).
    exists w'. split; [exact R|]. split; [exact H'|].
    rewrite (getScene_run _ _ H'). simpl. rewrite find_app. simpl.
    rewrite String.eqb_refl. now destruct (find _ l).
Qed.

Lemma added_record_is_found_witness :
  exists w',
    addScript (sampleScript "s1") sampleWorld = (Ok tt, w')
    /\ scriptsOf w' = Ok [sampleScript "s1"; sampleScript "s2"; sampleScript "s1"]
    /\ fst (getScript "s1" w') = Ok (Some (sampleScript "s1")).
Proof.
  destruct (proj1 added_record_is_found (sampleScript "s1") sampleWorld
              sampleScripts ltac:(vm_compute; reflexivity))
    as (w' & R & H & G).
  exists w'. split; [exact R|]. split; [exact H|]. exact G.
Defined.

(** An update under an id that no record has is no operation at all: the
    collection is not written and the clock is not read. *)
Theorem update_of_unknown_id_does_nothing :
  forall id w,
    (forall updates l,
        scriptsOf w = Ok l -> find (fun s => Script.id s =? id) l = None ->
        updateScript id updates w = (Ok tt, w))
    /\ (forall updates l,
          charactersOf w = Ok l -> find (fun c => Character.id c =? id) l = None ->
          updateCharacter id updates w = (Ok tt, w))
    /\ (forall updates l,
          scenesOf w = Ok l -> find (fun s => Scene.id s =? id) l = None ->
          updateScene id updates w = (Ok tt, w)).
Proof.
  intros id w. split; [|split]; intros updates l H F.
  - unfold updateScript.
    rewrite (bind_Ok _ _ _ (eq_trans (loadScripts_run w) (f_equal (fun r => (r, w)) H))).
    now rewrite (findIndex_None _ _ F).
  - unfold updateCharacter.
    rewrite (bind_Ok _ _ _ (eq_trans (loadCharacters_run w) (f_equal (fun r => (r, w)) H))).
    now rewrite (findIndex_None _ _ F).
  - unfold updateScene.
    rewrite (bind_Ok _ _ _ (eq_trans (loadScenes_run w) (f_equal (fun r => (r, w)) H))).
    now rewrite (findIndex_None _ _ F).
Qed.

Lemma update_of_unknown_id_does_nothing_witness :
  updateScene "n9" (GeneratePage.statusOnly SceneStatus.failed) sampleWorld
  = (Ok tt, sampleWorld).
Proof.
  apply (proj2 (proj2 (update_of_unknown_id_does_nothing "n9" sampleWorld))
           (GeneratePage.statusOnly SceneStatus.failed) sampleScenes);
    vm_compute; reflexivity.
Defined.

(** An update under an id that a record has changes the first record of
    this id and no other: the fields of [updates] are written over it, and
    its [updatedAt] becomes the current time even when [updates] has an
    [updatedAt] of its own.  The other collections and the blob store are
    left alone. *)
Theorem update_rewrites_first_match :
  forall id w,
    (forall updates l old,
        scriptsOf w = Ok l -> find (fun s => Script.id s =? id) l = Some old ->
        exists w',
          updateScript id updates w = (Ok tt, w')
          /\ scriptsOf w'
             = Ok (JS.updateFirst (fun s => Script.id s =? id)
                     (fun _ => touchedScript w updates old) l)
          /\ Script.updatedAt (touchedScript w updates old)
             = toISOString (clock (env w) (ticks w))
          /\ charactersOf w' = charactersOf w /\ scenesOf w' = scenesOf w
          /\ besideRecords w w')
    /\ (forall updates l old,
          charactersOf w = Ok l -> find (fun c => Character.id c =? id) l = Some old ->
          exists w',
            updateCharacter id updates w = (Ok tt, w')
            /\ charactersOf w'
               = Ok (JS.updateFirst (fun c => Character.id c =? id)
                       (fun _ => touchedCharacter w updates old) l)
            /\ Character.updatedAt (touchedCharacter w updates old)
               = toISOString (clock (env w) (ticks w))
            /\ scriptsOf w' = scriptsOf w /\ scenesOf w' = scenesOf w
            /\ besideRecords w w')
    /\ (forall updates l old,
          scenesOf w = Ok l -> find (fun s => Scene.id s =? id) l = Some old ->
          exists w',
            updateScene id updates w = (Ok tt, w')
            /\ scenesOf w'
               = Ok (JS.updateFirst (fun s => Scene.id s =? id)
                       (fun _ => touchedScene w updates old) l)
            /\ Scene.updatedAt (touchedScene w updates old)
               = toISOString (clock (env w) (ticks w))
            /\ scriptsOf w' = scriptsOf w /\ charactersOf w' = charactersOf w
            /\ besideRecords w w').
Proof.
  intros id w. split; [|split]; intros updates l old H F.
  - destruct (updateScript_run id updates _ H) as (w' & R & H' & Hc & Hn & B).
    exists w'. split; [exact R|].
    rewrite (GenerateFacts.updateFirst_found _ (touchedScript w updates)
               (fun _ => touchedScript w updates old)
               l F eq_refl) in H'.
    split; [exact H'|]. split; [reflexivity|]. split; [exact Hc|].
    split; [exact Hn | exact B].
  - destruct (updateCharacter_run id updates _ H) as (w' & R & H' & Hc & Hn & B).
    exists w'. split; [exact R|].
    rewrite (GenerateFacts.updateFirst_found _ (touchedCharacter w updates)
               (fun _ => touchedCharacter w updates old)
               l F eq_refl) in H'.
    split; [exact H'|]. split; [reflexivity|]. split; [exact Hc|].
    split; [exact Hn | exact B].
  - destruct (updateScene_run id updates _ H) as (w' & R & H' & Hc & Hn & B).
    exists w'. split; [exact R|].
    rewrite (GenerateFacts.updateFirst_found _ (touchedScene w updates)
               (fun _ => touchedScene w updates old)
               l F eq_refl) in H'.
    split; [exact H'|]. split; [reflexivity|]. split; [exact Hc|].
    split; [exact Hn | exact B].
Qed.

Lemma update_rewrites_first_match_witness :
  exists w',
    updateScene "n2"
      (ScenePatch.mk None None None None None None None None None None None None
         None (Some SceneStatus.failed) None (Some "1999-01-01T00:00:00.000Z"))
      sampleWorld = (Ok tt, w')
    /\ scenesOf w'
       = Ok [sampleScene "n1" "s2" 1 [] SceneStatus.pending;
             Scene.mk "n2" "s1" 2 (Some "Opening") (Some "cafe") None
               "Anna drinks coffee." (Some "A woman drinks coffee.") None None
               ["c1"] ["n2_0_5"] None SceneStatus.failed
               "2023-11-14T22:13:20.000Z" "2023-11-14T22:13:20.000Z";
             sampleScene "n3" "s1" 1 [] SceneStatus.pending].
Proof.
  destruct (proj2 (proj2 (update_rewrites_first_match "n2" sampleWorld))
              (ScenePatch.mk None None None None None None None None None None None
                 None None (Some SceneStatus.failed) None
                 (Some "1999-01-01T00:00:00.000Z"))
              sampleScenes
              (sampleScene "n2" "s1" 2 ["n2_0_5"] SceneStatus.completed)
              ltac:(vm_compute; reflexivity) ltac:(reflexivity))
    as (w' & R & H & _).
  exists w'. split; [exact R|]. rewrite H. vm_compute. reflexivity.
Defined.

(** The deletion of a character or of a scene removes every record of the
    id and keeps the others in their order; a lookup of the id then finds
    nothing, and a second deletion changes nothing.  Nothing else is
    cleaned up: the scenes that list the character keep its id, and the
    images of the blob store stay. *)
Theorem deleted_record_is_gone :
  forall id w,
    (forall l,
        charactersOf w = Ok l ->
        exists w',
          deleteCharacter id w = (Ok tt, w')
          /\ charactersOf w'
             = Ok (filter (fun c => negb (Character.id c =? id)) l)
          /\ fst (getCharacter id w') = Ok None
          /\ scriptsOf w' = scriptsOf w /\ scenesOf w' = scenesOf w
          /\ characterImages w' = characterImages w
          /\ exists w'',
               deleteCharacter id w' = (Ok tt, w'')
               /\ charactersOf w'' = charactersOf w')
    /\ (forall l,
          scenesOf w = Ok l ->
          exists w',
            deleteScene id w = (Ok tt, w')
            /\ scenesOf w' = Ok (filter (fun s => negb (Scene.id s =? id)) l)
            /\ fst (getScene id w') = Ok None
            /\ scriptsOf w' = scriptsOf w /\ charactersOf w' = charactersOf w
            /\ images w' = images w
            /\ exists w'',
                 deleteScene id w' = (Ok tt, w'')
                 /\ scenesOf w'' = scenesOf w').
Proof.
  intros id w. split; intros l H.
  - destruct (deleteCharacter_run id _ H) as (w' & R & H' & Hs & Hn & B).
    exists w'. split; [exact R|]. split; [exact H'|].
    split.
    { rewrite (getCharacter_run _ _ H'). simpl.
      now rewrite (find_filter_negb (fun c => Character.id c =? id)). }
    split; [exact Hs|]. split; [exact Hn|]. split; [apply B|].
    destruct (deleteCharacter_run id _ H') as (w'' & R' & H'' & _).
    exists w''. split; [exact R'|]. now rewrite H'', H', filter_idem.
  - destruct (deleteScene_run id _ H) as (w' & R & H' & Hs & Hn & B).
    exists w'. split; [exact R|]. split; [exact H'|].
    split.
    { rewrite (getScene_run _ _ H'). simpl.
      now rewrite (find_filter_negb (fun s => Scene.id s =? id)). }
    split; [exact Hs|]. split; [exact Hn|]. split; [apply B|].
    destruct (deleteScene_run id _ H') as (w'' & R' & H'' & _).
    exists w''. split; [exact R'|]. now rewrite H'', H', filter_idem.
Qed.

Lemma deleted_record_is_gone_witness :
  exists w',
    deleteCharacter "c1" sampleWorld = (Ok tt, w')
    /\ charactersOf w'
       = Ok [sampleCharacter "c2" "s2" "Bob" ["char_c2_0_1"] (Some "char_c2_0_1");
             sampleCharacter "c3" "s1" "Carl" [] None]
    /\ scenesOf w' = Ok sampleScenes.
Proof.
  destruct (proj1 (deleted_record_is_gone "c1" sampleWorld) sampleCharacters
              ltac:(vm_compute; reflexivity))
    as (w' & R & H & _ & _ & Hn & _).
  exists w'. split; [exact R|]. split; [exact H|].
  rewrite Hn. vm_compute. reflexivity.
Defined.

(** The scenes of a script are listed in ascending order of their number;
    the listing holds exactly the stored scenes of the script, and scenes of
    one number keep the order in which they are stored.  The store is not
    written. *)
Theorem scenes_of_a_script_are_sorted :
  forall scriptId w l,
    scenesOf w = Ok l ->
    exists listed,
      getScenesByScript scriptId w = (Ok listed, w)
      /\ Permutation listed (filter (fun s => Scene.scriptId s =? scriptId) l)
      /\ StronglySorted byNumber listed
      /\ forall n,
           filter (fun s => Scene.sceneNumber s =? n)%Z listed
           = filter (fun s => Scene.sceneNumber s =? n)%Z
               (filter (fun s => Scene.scriptId s =? scriptId) l).
Proof.
  intros scriptId w l H. eexists. split; [apply (getScenesByScript_run _ _ H)|].
  split; [apply GenerateFacts.sortByNumber_perm|].
  split; [apply sortByNumber_sorted|].
  intros n. apply sortByNumber_stable.
Qed.

Lemma scenes_of_a_script_are_sorted_witness :
  getScenesByScript "s1" sampleWorld
  = (Ok [sampleScene "n3" "s1" 1 [] SceneStatus.pending;
         sampleScene "n2" "s1" 2 ["n2_0_5"] SceneStatus.completed], sampleWorld).
Proof.
  destruct (scenes_of_a_script_are_sorted "s1" sampleWorld (l := sampleScenes)
              ltac:(vm_compute; reflexivity))
    as (listed & R & _).
  rewrite R. f_equal. f_equal.
  injection (eq_trans (eq_sym R)
               (getScenesByScript_run "s1" sampleWorld (l := sampleScenes)
                  ltac:(vm_compute; reflexivity))) as ->.
  reflexivity.
Defined.

(** What a bulk save stores for a script is what the listings of this
    script return afterwards, the scenes in the order of their numbers; and
    a second bulk save of the same records changes nothing. *)
Theorem bulk_save_reads_back :
  forall scriptId characters scenes w storedCharacters storedScenes,
    charactersOf w = Ok storedCharacters ->
    scenesOf w = Ok storedScenes ->
    Forall (fun c => Character.scriptId c = scriptId) characters ->
    Forall (fun s => Scene.scriptId s = scriptId) scenes ->
    exists w',
      saveAnalysisResult scriptId characters scenes w = (Ok tt, w')
      /\ getCharactersByScript scriptId w' = (Ok characters, w')
      /\ getScenesByScript scriptId w' = (Ok (sortByNumber scenes), w')
      /\ exists w'',
           saveAnalysisResult scriptId characters scenes w' = (Ok tt, w'')
           /\ charactersOf w'' = charactersOf w'
           /\ scenesOf w'' = scenesOf w'.
Proof.
  intros scriptId characters scenes w sc sn Hc Hn Fc Fn.
  destruct (@saveAnalysisResult_run scriptId characters scenes w _ _ Hc Hn)
    as (w' & R & Hc' & Hn' & _).
  assert (Pc : filter (fun c => Character.scriptId c =? scriptId) characters
               = characters).
  { apply filter_all. apply (Forall_impl _ (P := fun c => Character.scriptId c = scriptId));
      [|exact Fc]. intros c ->. apply String.eqb_refl. }
  assert (Pn : filter (fun s => Scene.scriptId s =? scriptId) scenes = scenes).
  { apply filter_all. apply (Forall_impl _ (P := fun s => Scene.scriptId s = scriptId));
      [|exact Fn]. intros c ->. apply String.eqb_refl. }
  assert (Qc : filter (fun c => negb (Character.scriptId c =? scriptId)) characters = []).
  { apply (filter_negb_all (fun c => Character.scriptId c =? scriptId)).
    apply (Forall_impl _ (P := fun c => Character.scriptId c = scriptId));
      [|exact Fc]. intros c ->. apply String.eqb_refl. }
  assert (Qn : filter (fun s => negb (Scene.scriptId s =? scriptId)) scenes = []).
  { apply (filter_negb_all (fun s => Scene.scriptId s =? scriptId)).
    apply (Forall_impl _ (P := fun s => Scene.scriptId s = scriptId));
      [|exact Fn]. intros c ->. apply String.eqb_refl. }
  exists w'. split; [exact R|].
  split.
  { rewrite (getCharactersByScript_run _ _ Hc'). f_equal. f_equal.
    rewrite filter_app, Pc.
    now rewrite (filter_none (fun c => Character.scriptId c =? scriptId)). }
  split.
  { rewrite (getScenesByScript_run _ _ Hn'). f_equal. f_equal. f_equal.
    rewrite filter_app, Pn.
    now rewrite (filter_none (fun s => Scene.scriptId s =? scriptId)). }
  destruct (@saveAnalysisResult_run scriptId characters scenes w' _ _ Hc' Hn')
    as (w'' & R' & Hc'' & Hn'' & _).
  exists w''. split; [exact R'|].
  rewrite Hc'', Hn'', Hc', Hn', !filter_app, !filter_idem, Qc, Qn, !app_nil_r.
  now split.
Qed.

Lemma bulk_save_reads_back_witness :
  exists w',
    saveAnalysisResult "s1" [sampleCharacter "c9" "s1" "Dora" [] None]
      [sampleScene "n9" "s1" 4 [] SceneStatus.pending;
       sampleScene "n8" "s1" 3 [] SceneStatus.pending] sampleWorld = (Ok tt, w')
    /\ getScenesByScript "s1" w'
       = (Ok [sampleScene "n8" "s1" 3 [] SceneStatus.pending;
              sampleScene "n9" "s1" 4 [] SceneStatus.pending], w').
Proof.
  destruct (@bulk_save_reads_back "s1"
              [sampleCharacter "c9" "s1" "Dora" [] None]
              [sampleScene "n9" "s1" 4 [] SceneStatus.pending;
               sampleScene "n8" "s1" 3 [] SceneStatus.pending]
              sampleWorld sampleCharacters sampleScenes
              ltac:(vm_compute; reflexivity) ltac:(vm_compute; reflexivity)
              ltac:(repeat constructor) ltac:(repeat constructor))
    as (w' & R & _ & G & _).
  exists w'. split; [exact R | exact G].
Defined.

(** A stored text that is no JSON stops every operation that loads it, with
    the [SyntaxError] of [JSON.parse] and before anything is written.  The
    cascade of [deleteScript] is not one step: when it is the text of the
    characters that is broken, the script is already removed when the error
    is thrown, and its scenes stay.  The bulk save loads both collections
    before it writes one, and writes nothing. *)
Theorem broken_text_stops_the_store :
  forall w,
    (corrupted "scripts" w ->
     loadScripts w = (Throw SyntaxError, w)
     /\ (forall script, addScript script w = (Throw SyntaxError, w))
     /\ (forall id updates, updateScript id updates w = (Throw SyntaxError, w))
     /\ (forall id, deleteScript id w = (Throw SyntaxError, w)))
    /\ (forall id l,
          scriptsOf w = Ok l -> corrupted "characters" w ->
          exists w',
            deleteScript id w = (Throw SyntaxError, w')
            /\ scriptsOf w' = Ok (filter (fun s => negb (Script.id s =? id)) l)
            /\ storedText "characters" w' = storedText "characters" w
            /\ storedText "scenes" w' = storedText "scenes" w)
    /\ (forall scriptId characters scenes l,
          charactersOf w = Ok l -> corrupted "scenes" w ->
          saveAnalysisResult scriptId characters scenes w = (Throw SyntaxError, w)).
Proof.
  intros w. split; [|split].
  - intros C.
    assert (L : loadScripts w = (Throw SyntaxError, w)).
    { unfold loadScripts.
      apply bind_Throw, (loadData_corrupted (T := list Script.t)), C. }
    split; [exact L|]. split; [|split]; intros.
    + unfold addScript. now apply bind_Throw.
    + unfold updateScript. now apply bind_Throw.
    + unfold deleteScript. now apply bind_Throw.
  - intros id l H C. unfold deleteScript.
    rewrite (bind_Ok _ _ _ (eq_trans (loadScripts_run w) (f_equal (fun r => (r, w)) H))).
    cbv zeta. rewrite (bind_Ok _ _ _ (saveScripts_run _ w)).
    set (w' := snd (saveScripts (filter (fun s => negb (Script.id s =? id)) l) w)).
    exists w'.
    assert (Tc : storedText "characters" w' = storedText "characters" w)
      by (apply storedText_saveData_other; discriminate).
    split.
    { apply bind_Throw. unfold loadCharacters.
      apply bind_Throw, (loadData_corrupted (T := list Character.t)).
      now apply (corrupted_text _ Tc). }
    split; [apply scriptsOf_saveScripts|]. split; [exact Tc|].
    apply storedText_saveData_other; discriminate.
  - intros scriptId characters scenes l H C. unfold saveAnalysisResult.
    rewrite (bind_Ok _ _ _ (eq_trans (loadCharacters_run w) (f_equal (fun r => (r, w)) H))).
    cbv zeta. apply bind_Throw. unfold loadScenes.
    apply bind_Throw, (loadData_corrupted (T := list Scene.t)), C.
Qed.

Lemma broken_text_stops_the_store_witness :
  exists w',
    deleteScript "s1" brokenCharactersWorld = (Throw SyntaxError, w')
    /\ scriptsOf w' = Ok [sampleScript "s2"]
    /\ scenesOf w' = Ok sampleScenes.
Proof.
  destruct (proj1 (proj2 (broken_text_stops_the_store brokenCharactersWorld))
              "s1" sampleScripts ltac:(vm_compute; reflexivity)
              ltac:(exists "{oops"; split;
                    [vm_compute; reflexivity
                    | split; [discriminate | vm_compute; reflexivity]]))
    as (w' & R & H & _ & Hn).
  exists w'. split; [exact R|]. split; [exact H|].
  rewrite (scenesOf_text _ _ Hn). vm_compute. reflexivity.
Defined.

(** A key of the store that is absent, or whose text is empty or [null],
    reads as an empty collection, and as no key for the API key; nothing
    is thrown and nothing is written. *)
Theorem blank_store_is_empty :
  forall w,
    (blank "scripts" w ->
     loadScripts w = (Ok [], w) /\ forall id, getScript id w = (Ok None, w))
    /\ (blank "characters" w ->
        loadCharacters w = (Ok [], w)
        /\ (forall id, getCharacter id w = (Ok None, w))
        /\ forall scriptId, getCharactersByScript scriptId w = (Ok [], w))
    /\ (blank "scenes" w ->
        loadScenes w = (Ok [], w)
        /\ (forall id, getScene id w = (Ok None, w))
        /\ forall scriptId, getScenesByScript scriptId w = (Ok [], w))
    /\ (blank "apiKey" w -> loadApiKey w = (Ok None, w)).
Proof.
  intros w. split; [|split; [|split]]; intros B.
  - assert (L : loadScripts w = (Ok [], w)).
    { unfold loadScripts.
      now rewrite (bind_Ok _ _ _ (loadData_blank (T := list Script.t) B)). }
    split; [exact L|]. intros id. unfold getScript. now rewrite (bind_Ok _ _ _ L).
  - assert (L : loadCharacters w = (Ok [], w)).
    { unfold loadCharacters.
      now rewrite (bind_Ok _ _ _ (loadData_blank (T := list Character.t) B)). }
    split; [exact L|]. split; intros id.
    + unfold getCharacter. now rewrite (bind_Ok _ _ _ L).
    + unfold getCharactersByScript. now rewrite (bind_Ok _ _ _ L).
  - assert (L : loadScenes w = (Ok [], w)).
    { unfold loadScenes.
      now rewrite (bind_Ok _ _ _ (loadData_blank (T := list Scene.t) B)). }
    split; [exact L|]. split; intros id.
    + unfold getScene. now rewrite (bind_Ok _ _ _ L).
    + unfold getScenesByScript. now rewrite (bind_Ok _ _ _ L).
  - apply (loadData_blank (T := string) B).
Qed.

Lemma blank_store_is_empty_witness :
  getScenesByScript "s1" emptyWorld = (Ok [], emptyWorld).
Proof.
  apply (proj1 (proj2 (proj2 (blank_store_is_empty emptyWorld)))).
  left. reflexivity.
Defined.

End RecordStoreMore.

(* ================================================================== *)
(** * The key of the model *)
(* ================================================================== *)

Section ApiKey.
Import Browser Codec Storage GeminiClient StorageFacts PagesFacts StoreFacts.
Import Samples.
Local Open Scope string_scope.

(** A saved key is the key that loads afterwards.  The client uses the key
    of the build when this one is not empty and the saved key otherwise, so
    that a saved key never replaces a key of the build; a saved empty key
    counts as no key.  The records are left alone. *)
Theorem saved_key_comes_after_build_key :
  forall apiKey w,
    exists w',
      saveApiKey apiKey w = (Ok tt, w')
      /\ loadApiKey w' = (Ok (Some apiKey), w')
      /\ getApiKey w'
         = (Ok (match JS.or_undefined (VITE_GOOGLE_API_KEY (env w)) with
                | Some buildKey => Some buildKey
                | None => Some apiKey
                end), w')
      /\ keyConfigured w'
         = (JS.truthy (VITE_GOOGLE_API_KEY (env w)) || negb (apiKey =? ""))%bool
      /\ scriptsOf w' = scriptsOf w /\ charactersOf w' = charactersOf w
      /\ scenesOf w' = scenesOf w.
Proof.
  intros apiKey w. exists (snd (saveApiKey apiKey w)).
  assert (L : loadApiKey (snd (saveApiKey apiKey w))
              = (Ok (Some apiKey), snd (saveApiKey apiKey w))).
  { apply (loadData_saveData CodecFacts.lawful_string). discriminate. }
  assert (G : getApiKey (snd (saveApiKey apiKey w))
              = (Ok (match JS.or_undefined (VITE_GOOGLE_API_KEY (env w)) with
                     | Some buildKey => Some buildKey
                     | None => Some apiKey
                     end), snd (saveApiKey apiKey w))).
  { unfold getApiKey. change (env (snd (saveApiKey apiKey w))) with (env w).
    destruct (JS.or_undefined _); [reflexivity | exact L]. }
  split; [reflexivity|]. split; [exact L|]. split; [exact G|].
  split.
  { unfold keyConfigured. rewrite G. cbn [fst]. unfold JS.or_undefined.
    destruct (VITE_GOOGLE_API_KEY (env w)) as [buildKey|]; [|reflexivity].
    destruct (JS.truthy (Some buildKey)) eqn:T; [exact T | reflexivity]. }
  split; [|split].
  - apply scriptsOf_text, storedText_saveData_other. discriminate.
  - apply charactersOf_text, storedText_saveData_other. discriminate.
  - apply scenesOf_text, storedText_saveData_other. discriminate.
Qed.

(** Without a key, neither of the build nor stored, the analysis and the
    generation of an image throw the error that asks for a key, and the
    model is not called: the world is as it was. *)
Theorem missing_key_fails_before_any_call :
  forall w apiKey,
    fst (getApiKey w) = Ok apiKey -> JS.truthy apiKey = false ->
    (forall content,
        analyzeScript content w
        = (Throw (Error "API 키가 설정되지 않았습니다. 설정 페이지에서 Gemini API 키를 입력해주세요."), w))
    /\ (forall prompt referenceImages,
          generateSceneImage prompt referenceImages w
          = (Throw (Error "API 키가 설정되지 않았습니다. 설정 페이지에서 Gemini API 키를 입력해주세요."), w)).
Proof.
  intros w apiKey G T.
  assert (A : getAI w
              = (Throw (Error "API 키가 설정되지 않았습니다. 설정 페이지에서 Gemini API 키를 입력해주세요."), w)).
  { unfold getAI, bind. pose proof (getApiKey_world w) as W.
    destruct (getApiKey w) as [r w0]. simpl in *. subst. now rewrite T. }
  assert (C : generateContent w
              = (Throw (Error "API 키가 설정되지 않았습니다. 설정 페이지에서 Gemini API 키를 입력해주세요."), w)).
  { unfold generateContent. now apply bind_Throw. }
  split; intros.
  - unfold analyzeScript. now apply bind_Throw.
  - unfold generateSceneImage. now apply bind_Throw.
Qed.

Lemma missing_key_fails_before_any_call_witness :
  generateSceneImage "a cafe" [] noKeyWorld
  = (Throw (Error "API 키가 설정되지 않았습니다. 설정 페이지에서 Gemini API 키를 입력해주세요."),
     noKeyWorld).
Proof.
  apply (proj2 (@missing_key_fails_before_any_call noKeyWorld None
                  ltac:(vm_compute; reflexivity) ltac:(reflexivity))).
Defined.

End ApiKey.

(* ================================================================== *)
(** * The blob store *)
(* ================================================================== *)

Module BlobFacts.
Import Browser ImageStorage StorageFacts.
Local Open Scope string_scope.

Lemma find_filter_keep {A} (p q : A -> bool) l :
  (forall x, p x = true -> q x = true) -> find p (filter q l) = find p l.
Proof.
  intros H. induction l as [|x l IH]; simpl; [reflexivity|].
  destruct (q x) eqn:Q; simpl.
  - now destruct (p x).
  - destruct (p x) eqn:P; [|assumption]. rewrite (H _ P) in Q. discriminate.
Qed.

Lemma find_filter_some {A} (p q : A -> bool) l x :
  find p l = Some x -> q x = true -> find p (filter q l) = Some x.
Proof.
  induction l as [|y l IH]; simpl; [discriminate|].
  destruct (p y) eqn:P.
  - intros [= ->] Q. rewrite Q. simpl. now rewrite P.
  - intros F Q. destruct (q y); simpl; [rewrite P|]; now apply IH.
Qed.

Lemma get_put id r store :
  get id (put r store) = if imageId r =? id then Some r else get id store.
Proof.
  unfold get, put. simpl. destruct (imageId r =? id) eqn:E; [reflexivity|].
  apply find_filter_keep. intros x Hx. apply String.eqb_eq in Hx. subst.
  now rewrite String.eqb_sym, E.
Qed.

Lemma get_delete id id' store :
  get id (delete id' store) = if id' =? id then None else get id store.
Proof.
  unfold get, delete. destruct (id' =? id) eqn:E.
  - apply String.eqb_eq in E. subst.
    apply (StoreFacts.find_filter_negb (fun x => imageId x =? id)).
  - apply find_filter_keep. intros x Hx. apply String.eqb_eq in Hx. subst.
    now rewrite String.eqb_sym, E.
Qed.

Lemma insertByKey_perm r l : Permutation (insertByKey r l) (r :: l).
Proof.
  induction l as [|y l IH]; simpl; [reflexivity|].
  destruct (_ <=? _); [reflexivity|]. rewrite IH. apply perm_swap.
Qed.

Lemma getAll_perm store : Permutation (getAll store) store.
Proof.
  induction store as [|r l IH]; simpl; [reflexivity|].
  rewrite insertByKey_perm. now constructor.
Qed.

Lemma deleteImages_run imgs :
  forall w,
    deleteImages imgs w
    = (Ok tt,
       with_images (fold_left (fun st (img : string * string) => delete (fst img) st)
                      imgs (images w)) w).
Proof.
  induction imgs as [|img imgs IH]; intros w; [now destruct w|].
  cbn [deleteImages fold_left].
  rewrite (bind_Ok _ _ _ (eq_refl : deleteImage (fst img) w = (Ok tt, _))).
  now rewrite IH.
Qed.

Lemma fold_delete imgs :
  forall store,
    fold_left (fun st (img : string * string) => delete (fst img) st) imgs store
    = filter (fun r => negb (existsb (String.eqb (imageId r))
                              (map (@fst string string) imgs))) store.
Proof.
  induction imgs as [|img imgs IH]; intros store; simpl.
  - symmetry. apply StoreFacts.filter_all. now apply Forall_forall.
  - rewrite IH. unfold delete. induction store as [|r l IHl]; simpl; [reflexivity|].
    destruct (imageId r =? fst img); simpl; [assumption|]. now rewrite IHl.
Qed.

Lemma same_key_same_record (store : list ImageRecord) r r' :
  NoDup (map imageId store) -> In r store -> In r' store ->
  imageId r = imageId r' -> r = r'.
Proof.
  induction store as [|x l IH]; simpl; [contradiction|].
  intros ND [->|Hr] [->|Hr'] E; inversion ND as [|? ? Hx Hl]; subst.
  - reflexivity.
  - exfalso. apply Hx. rewrite E. now apply in_map.
  - exfalso. apply Hx. rewrite <- E. now apply in_map.
  - now apply IH.
Qed.

Lemma filter_nothing {A} (p : A -> bool) l :
  (forall x, In x l -> p x = false) -> filter p l = [].
Proof.
  induction l as [|x l IH]; simpl; intros H; [reflexivity|].
  rewrite (H x (or_introl eq_refl)). apply IH. intros y Hy. apply H. now right.
Qed.

End BlobFacts.

Section BlobStore.
Import Browser ImageStorage StorageFacts BlobFacts.
Import Samples.
Local Open Scope string_scope.

(** A saved image is read back under the identifier that the save returns,
    except that an image whose data is the empty string reads back as
    [null].  The save replaces what was stored under this identifier and
    touches no other image, nor the other object store, nor the record
    store. *)
Theorem saved_image_reads_back :
  (forall sceneId index imageData w,
      exists id w',
        saveImage sceneId index imageData w = (Ok id, w')
        /\ getImage id w' = (Ok (JS.or_undefined (Some imageData)), w')
        /\ (forall other, other <> id ->
            fst (getImage other w') = fst (getImage other w))
        /\ characterImages w' = characterImages w
        /\ localStorage w' = localStorage w)
  /\ (forall characterId index imageData w,
        exists id w',
          saveCharacterImage characterId index imageData w = (Ok id, w')
          /\ getCharacterImage id w' = (Ok (JS.or_undefined (Some imageData)), w')
          /\ (forall other, other <> id ->
              fst (getCharacterImage other w') = fst (getCharacterImage other w))
          /\ images w' = images w
          /\ localStorage w' = localStorage w).
Proof.
  split; intros owner index imageData w; eexists; eexists;
    (split; [cbv [saveImage saveCharacterImage Date_toISOString Date_now bind ret];
             reflexivity|]).
  - split; [|split; [|split; reflexivity]].
    + unfold getImage. norm_world. rewrite get_put. cbn [imageId]. now rewrite String.eqb_refl.
    + intros other Hne. unfold getImage. norm_world. rewrite get_put.
      cbn [imageId]. apply String.eqb_neq in Hne. rewrite String.eqb_sym in Hne.
      now rewrite Hne.
  - split; [|split; [|split; reflexivity]].
    + unfold getCharacterImage. norm_world.
      rewrite get_put. cbn [imageId]. now rewrite String.eqb_refl.
    + intros other Hne. unfold getCharacterImage. norm_world. rewrite get_put.
      cbn [imageId]. apply String.eqb_neq in Hne. rewrite String.eqb_sym in Hne.
      now rewrite Hne.
Qed.

(** A deleted image reads back as [null]; the deletion touches no other
    image, nor the other object store, nor the record store. *)
Theorem deleted_image_is_gone :
  forall id w,
    (exists w',
        deleteImage id w = (Ok tt, w')
        /\ getImage id w' = (Ok None, w')
        /\ (forall other, other <> id ->
            fst (getImage other w') = fst (getImage other w))
        /\ characterImages w' = characterImages w
        /\ localStorage w' = localStorage w)
    /\ (exists w',
          deleteCharacterImage id w = (Ok tt, w')
          /\ getCharacterImage id w' = (Ok None, w')
          /\ (forall other, other <> id ->
              fst (getCharacterImage other w') = fst (getCharacterImage other w))
          /\ images w' = images w
          /\ localStorage w' = localStorage w).
Proof.
  intros id w. split; eexists; (split; [reflexivity|]).
  - split; [|split; [|split; reflexivity]].
    + unfold getImage. norm_world. now rewrite get_delete, String.eqb_refl.
    + intros other Hne. unfold getImage. norm_world. rewrite get_delete.
      apply String.eqb_neq in Hne. rewrite String.eqb_sym in Hne.
      now rewrite Hne.
  - split; [|split; [|split; reflexivity]].
    + unfold getCharacterImage. norm_world.
      now rewrite get_delete, String.eqb_refl.
    + intros other Hne. unfold getCharacterImage. norm_world. rewrite get_delete.
      apply String.eqb_neq in Hne. rewrite String.eqb_sym in Hne.
      now rewrite Hne.
Qed.

(** In a store whose keys are distinct, the deletion of the images of a
    scene removes exactly the records of this scene: the listing of the
    scene is empty afterwards, and every other record is kept, in place. *)
Theorem images_of_a_scene_are_deleted :
  forall sceneId w,
    NoDup (map imageId (images w)) ->
    exists w',
      deleteImagesByScene sceneId w = (Ok tt, w')
      /\ images w' = filter (fun r => negb (ownerId r =? sceneId)) (images w)
      /\ getImagesByScene sceneId w' = (Ok [], w')
      /\ characterImages w' = characterImages w
      /\ localStorage w' = localStorage w.
Proof.
  intros sceneId w ND. unfold deleteImagesByScene.
  rewrite (bind_Ok _ _ _ (eq_refl : getImagesByScene sceneId w = (Ok _, w))).
  rewrite deleteImages_run, fold_delete.
  set (kept := filter _ (images w)).
  assert (K : kept = filter (fun r => negb (ownerId r =? sceneId)) (images w)).
  { apply filter_ext_in. intros r Hr. f_equal.
    rewrite map_map. cbn [idAndData fst].
    destruct (ownerId r =? sceneId) eqn:O.
    - apply existsb_exists. exists (imageId r). split; [|apply String.eqb_refl].
      apply in_map_iff. exists r. split; [reflexivity|].
      apply filter_In. split; [|exact O].
      now apply (Permutation_in _ (Permutation_sym (getAll_perm _))).
    - destruct (existsb _ _) eqn:X; [|reflexivity].
      apply existsb_exists in X. destruct X as (k & Hk & Ek).
      apply String.eqb_eq in Ek. subst k.
      apply in_map_iff in Hk. destruct Hk as (r' & E & Hr').
      apply filter_In in Hr'. destruct Hr' as (Hin & O').
      apply (Permutation_in _ (getAll_perm _)) in Hin.
      rewrite (@same_key_same_record _ r r' ND Hr Hin (eq_sym E)) in O.
      rewrite O in O'. discriminate. }
  eexists. split; [reflexivity|]. norm_world.
  split; [exact K|]. split; [|split; reflexivity].
  unfold getImagesByScene. norm_world. f_equal. f_equal.
  rewrite K, filter_nothing; [reflexivity|].
  intros r Hr. apply (Permutation_in _ (getAll_perm _)) in Hr.
  apply filter_In in Hr. destruct Hr as (_ & Hr).
  now apply negb_true_iff in Hr.
Qed.

Lemma images_of_a_scene_are_deleted_witness :
  exists w',
    deleteImagesByScene "n2"
      (with_images [mkImage "n2_1_9" "n2" 1 "BBBB" "t"; mkImage "n3_0_7" "n3" 0 "CCCC" "t";
                    mkImage "n2_0_5" "n2" 0 "AAAA" "t"] sampleWorld) = (Ok tt, w')
    /\ images w' = [mkImage "n3_0_7" "n3" 0 "CCCC" "t"].
Proof.
  destruct (images_of_a_scene_are_deleted "n2"
              (with_images [mkImage "n2_1_9" "n2" 1 "BBBB" "t";
                            mkImage "n3_0_7" "n3" 0 "CCCC" "t";
                            mkImage "n2_0_5" "n2" 0 "AAAA" "t"] sampleWorld)
              ltac:(repeat constructor; simpl; intuition discriminate))
    as (w' & R & H & _).
  exists w'. split; [exact R|]. rewrite H. reflexivity.
Defined.

End BlobStore.

(* ================================================================== *)
(** * Texts: identifiers, data URLs and the JSON of a reply *)
(* ================================================================== *)

Module TextFacts.
Import GeminiClient.
Local Open Scope string_scope.

Lemma append_cancel_l (s a b : string) : s ++ a = s ++ b -> a = b.
Proof. induction s as [|c s IH]; simpl; [easy|]. intros [= H]. now apply IH. Qed.

Lemma every_app p a b : Text.every p (a ++ b) = Text.every p a && Text.every p b.
Proof.
  induction a as [|c a IH]; simpl; [reflexivity|]. now rewrite IH, andb_assoc.
Qed.

Lemma without_app c a b :
  Text.without c (a ++ b) = Text.without c a && Text.without c b.
Proof. apply every_app. Qed.

(** Two texts that agree up to a separator which neither has. *)
Lemma split_at_separator sep x y r r' :
  Text.without sep x = true -> Text.without sep y = true ->
  x ++ String sep r = y ++ String sep r' -> x = y /\ r = r'.
Proof.
  unfold Text.without.
  revert y. induction x as [|c x IH]; intros [|d y]; cbn [Text.every append].
  - now intros _ _ [= ->].
  - intros _ Hy [= <- _]. apply andb_prop in Hy. destruct Hy as (Hy & _).
    now rewrite Ascii.eqb_refl in Hy.
  - intros Hx _ [= -> _]. apply andb_prop in Hx. destruct Hx as (Hx & _).
    now rewrite Ascii.eqb_refl in Hx.
  - intros Hx Hy [= -> E]. apply andb_prop in Hx, Hy.
    destruct (IH y (proj2 Hx) (proj2 Hy) E) as (-> & ->). now split.
Qed.

Lemma digits_of_uint d : Text.every JSON.is_digit (NilEmpty.string_of_uint d) = true.
Proof. induction d; simpl; try reflexivity; assumption. Qed.

Lemma decimal_digits n : Text.every JSON.is_digit (JS.decimal n) = true.
Proof.
  unfold JS.decimal, NilZero.string_of_uint.
  destruct (N.to_uint n); try reflexivity; apply (digits_of_uint (_ _)).
Qed.

Lemma digits_without c s :
  JSON.is_digit c = false -> Text.every JSON.is_digit s = true ->
  Text.without c s = true.
Proof.
  intros Hc. unfold Text.without.
  induction s as [|x s IH]; cbn [Text.every]; [reflexivity|].
  intros H. apply andb_prop in H. destruct H as (Hx & Hs).
  rewrite (IH Hs), andb_true_r. apply negb_true_iff, Ascii.eqb_neq.
  intros ->. rewrite Hc in Hx. discriminate.
Qed.

Lemma decimal_inj n m : JS.decimal n = JS.decimal m -> n = m.
Proof.
  unfold JS.decimal. intros H.
  assert (Nn : forall k, N.to_uint k <> Decimal.Nil).
  { intros [|p]; [discriminate | apply DecimalPos.Unsigned.to_uint_nonnil]. }
  pose proof (NilZero.usu _ (Nn n)) as Un. pose proof (NilZero.usu _ (Nn m)) as Um.
  rewrite H, Um in Un. injection Un as Un.
  rewrite <- (DecimalN.Unsigned.of_to n), <- (DecimalN.Unsigned.of_to m).
  now rewrite Un.
Qed.

(** An identifier [owner_index_time] tells the index. *)
Lemma indexed_id_inj owner i j t t' :
  owner ++ "_" ++ JS.decimal (N.of_nat i) ++ "_" ++ JS.decimal t
  = owner ++ "_" ++ JS.decimal (N.of_nat j) ++ "_" ++ JS.decimal t' ->
  i = j.
Proof.
  intros H. apply append_cancel_l in H. injection H as H.
  apply split_at_separator in H;
    try (apply digits_without; [reflexivity | apply decimal_digits]).
  destruct H as (H & _). apply decimal_inj in H. lia.
Qed.

(** *** The first occurrence of a character *)

Lemma index_char_none c s :
  Text.without c s = true -> index 0 (String c "") s = None.
Proof.
  unfold Text.without.
  induction s as [|x s IH]; cbn [Text.every index prefix]; [reflexivity|].
  intros H. apply andb_prop in H. destruct H as (Hx & Hs).
  apply negb_true_iff, Ascii.eqb_neq in Hx.
  destruct (ascii_dec c x) as [->|_]; [now destruct Hx|].
  now rewrite (IH Hs).
Qed.

Lemma index_char_here c pre rest :
  Text.without c pre = true ->
  index 0 (String c "") (pre ++ String c rest) = Some (String.length pre).
Proof.
  unfold Text.without.
  induction pre as [|x pre IH]; cbn [Text.every index prefix append String.length].
  - intros _. destruct (ascii_dec c c) as [_|N]; [|now destruct N].
    now destruct rest.
  - intros H. apply andb_prop in H. destruct H as (Hx & Hs).
    apply negb_true_iff, Ascii.eqb_neq in Hx.
    destruct (ascii_dec c x) as [->|_]; [now destruct Hx|].
    now rewrite (IH Hs).
Qed.

Lemma substring_all s : substring 0 (String.length s) s = s.
Proof. induction s as [|c s IH]; simpl; [reflexivity | now rewrite IH]. Qed.

Lemma substring_head a b : substring 0 (String.length a) (a ++ b) = a.
Proof.
  induction a as [|c a IH]; simpl; [now destruct b | now rewrite IH].
Qed.

Lemma substring_skip a b n :
  substring (String.length a) n (a ++ b) = substring 0 n b.
Proof. induction a as [|c a IH]; simpl; [reflexivity | exact IH]. Qed.

Lemma drop_app a b : drop (String.length a) (a ++ b) = b.
Proof.
  unfold drop. rewrite substring_skip, length_append.
  replace (String.length a + String.length b - String.length a)
    with (String.length b) by lia.
  apply substring_all.
Qed.

Lemma firstImage_form parts image :
  firstImage parts = Some image ->
  exists mimeType payload,
    payload <> "" /\ image = "data:" ++ mimeType ++ ";base64," ++ payload.
Proof.
  induction parts as [|part parts IH]; simpl; [discriminate|].
  destruct (GenAI.inlineData part) as [inline|]; [|exact IH].
  unfold JS.or_undefined.
  destruct (JS.truthy (GenAI.data inline)) eqn:T; [|exact IH].
  destruct (GenAI.data inline) as [payload|]; [|discriminate T].
  intros [= <-]. exists (JS.or_else (GenAI.mimeType inline) "image/png"), payload.
  split; [|reflexivity]. intros ->. discriminate T.
Qed.

Lemma Forall2_NoDup {A B} (R : A -> B -> Prop) l l' :
  (forall a b i j, R a i -> R b j -> a = b -> i = j) ->
  Forall2 R l l' -> NoDup l' -> NoDup l.
Proof.
  intros Inj. induction 1 as [|a i l l' Ha Hl IH]; intros ND; [constructor|].
  inversion ND as [|? ? Hi Hl']; subst. constructor; [|now apply IH].
  intros Hin. apply Hi. clear - Inj Ha Hl Hin.
  induction Hl as [|b j l l' Hb Hl IH]; [contradiction|].
  destruct Hin as [->|Hin]; [left; symmetry; now apply (Inj a a i j) | right; now apply IH].
Qed.

End TextFacts.

Section ImageTexts.
Import Browser ImageStorage GeminiClient GeneratePage StorageFacts PagesFacts.
Import CharacterFacts TextFacts.
Import Samples.
Local Open Scope string_scope.

(** The identifier of a saved image tells the index that it was saved
    with, whatever the clock says: two saves for one owner with different
    indices never give one identifier.  So the images that one run of
    attempts produces have distinct identifiers, and none overwrites
    another in the blob store. *)
Theorem image_ids_tell_the_index :
  (forall sceneId i j imageData imageData' w w',
      fst (saveImage sceneId i imageData w)
      = fst (saveImage sceneId j imageData' w') -> i = j)
  /\ (forall characterId i j imageData imageData' w w',
        fst (saveCharacterImage characterId i imageData w)
        = fst (saveCharacterImage characterId j imageData' w') -> i = j)
  /\ (forall scene ids (succeeds : nat -> bool) count,
        Forall2 (producedBy scene) ids (filter succeeds (seq 0 count)) ->
        NoDup ids).
Proof.
  split; [|split].
  - intros sceneId i j d d' w w'.
    cbv [saveImage Date_toISOString Date_now bind ret]. cbn [fst].
    intros [= H]. exact (indexed_id_inj _ _ _ _ _ H).
  - intros characterId i j d d' w w'.
    cbv [saveCharacterImage Date_toISOString Date_now bind ret]. cbn [fst].
    intros [= H]. exact (indexed_id_inj _ _ _ _ _ H).
  - intros scene ids succeeds count F.
    apply (Forall2_NoDup (R := producedBy scene)) with (l' := filter succeeds (seq 0 count));
      [|exact F|apply NoDup_filter, seq_NoDup].
    intros a b i j (t & ->) (t' & ->) E. unfold imageIdOf in E.
    apply indexed_id_inj in E. lia.
Qed.

Lemma image_ids_tell_the_index_witness :
  fst (saveImage "n2" 1 "AAAA" sampleWorld) <> fst (saveImage "n2" 2 "AAAA" sampleWorld).
Proof.
  intros E.
  pose proof (proj1 image_ids_tell_the_index "n2" 1 2 "AAAA" "AAAA"
                sampleWorld sampleWorld E) as H.
  discriminate H.
Defined.

Lemma firstImage_skips before rest :
  Forall (fun p => forall inline,
              GenAI.inlineData p = Some inline ->
              JS.truthy (GenAI.data inline) = false) before ->
  firstImage (before ++ rest) = firstImage rest.
Proof.
  induction 1 as [|p before Hp _ IH]; [reflexivity|].
  cbn [app firstImage].
  destruct (GenAI.inlineData p) as [inline|]; [|exact IH].
  unfold JS.or_undefined. now rewrite (Hp inline eq_refl).
Qed.

Lemma find_skips {A} (q : A -> bool) before rest :
  Forall (fun p => q p = false) before ->
  find q (before ++ rest) = find q rest.
Proof.
  induction 1 as [|p before Hp _ IH]; [reflexivity|].
  cbn [app find]. now rewrite Hp.
Qed.

(** With a key, one generation is one call of the model, and its result
    is read off the reply.  An error of the call is thrown as it is.  A
    reply without candidates is an error.  Otherwise the first part of the
    first candidate that carries image data decides: the result is the data
    URL made of its MIME type ([image/png] when it names none) and of its
    data.  When no part carries image data, the error holds the text of the
    first part with a text, or says that no image data was found. *)
Theorem generated_image_is_a_data_url :
  forall prompt referenceImages w,
    keyConfigured w = true ->
    (forall e,
        model (env w) (calls w) = Throw e ->
        generateSceneImage prompt referenceImages w
        = (Throw e, with_calls (S (calls w)) w))
    /\ (forall response,
          model (env w) (calls w) = Ok response ->
          match GenAI.candidates response with
          | None | Some [] =>
              generateSceneImage prompt referenceImages w
              = (Throw (Error "이미지 생성 실패: 응답이 없습니다."),
                 with_calls (S (calls w)) w)
          | Some (candidate :: _) =>
              (forall before part inline payload rest,
                  JS.or_empty (GenAI.parts candidate) = (before ++ part :: rest)%list ->
                  Forall (fun p => forall i,
                              GenAI.inlineData p = Some i ->
                              JS.truthy (GenAI.data i) = false) before ->
                  GenAI.inlineData part = Some inline ->
                  GenAI.data inline = Some payload -> payload <> "" ->
                  generateSceneImage prompt referenceImages w
                  = (Ok ("data:" ++ JS.or_else (GenAI.mimeType inline) "image/png"
                           ++ ";base64," ++ payload),
                     with_calls (S (calls w)) w))
              /\ (Forall (fun p => forall i,
                              GenAI.inlineData p = Some i ->
                              JS.truthy (GenAI.data i) = false)
                    (JS.or_empty (GenAI.parts candidate)) ->
                  (forall before part message rest,
                      JS.or_empty (GenAI.parts candidate)
                      = (before ++ part :: rest)%list ->
                      Forall (fun p => JS.truthy (GenAI.text p) = false) before ->
                      GenAI.text part = Some message -> message <> "" ->
                      generateSceneImage prompt referenceImages w
                      = (Throw (Error ("이미지 생성 실패: " ++ message)),
                         with_calls (S (calls w)) w))
                  /\ (Forall (fun p => JS.truthy (GenAI.text p) = false)
                        (JS.or_empty (GenAI.parts candidate)) ->
                      generateSceneImage prompt referenceImages w
                      = (Throw (Error "이미지 생성 실패: 이미지 데이터를 찾을 수 없습니다."),
                         with_calls (S (calls w)) w)))
          end).
Proof.
  intros prompt referenceImages w K.
  assert (G : generateSceneImage prompt referenceImages w
              = match model (env w) (calls w) with
                | Ok response =>
                    (extractImage response, with_calls (S (calls w)) w)
                | Throw e => (Throw e, with_calls (S (calls w)) w)
                end).
  { unfold generateSceneImage, bind. rewrite generateContent_run.
    pose proof (getAI_keyConfigured w) as A. rewrite K in A. rewrite A.
    destruct (model (env w) (calls w)) as [response|e]; [|reflexivity].
    now destruct (extractImage response). }
  split.
  - intros e E. now rewrite G, E.
  - intros response E. rewrite G, E. unfold extractImage.
    destruct (GenAI.candidates response) as [[|candidate others]|];
      [reflexivity| |reflexivity].
    split.
    + intros before part inline payload rest Hparts Hbefore Hin Hdata Hne.
      rewrite Hparts, (firstImage_skips _ Hbefore). cbn [firstImage].
      rewrite Hin, Hdata. unfold JS.or_undefined, JS.truthy.
      apply String.eqb_neq in Hne. now rewrite Hne.
    + intros Hnone.
      assert (F : firstImage (JS.or_empty (GenAI.parts candidate)) = None).
      { rewrite <- (app_nil_r (JS.or_empty _)).
        now rewrite (firstImage_skips _ Hnone). }
      rewrite F. split.
      * intros before part message rest Hparts Hbefore Htext Hne.
        rewrite Hparts, (find_skips _ _ Hbefore). cbn [find].
        assert (T : JS.truthy (GenAI.text part) = true).
        { rewrite Htext. unfold JS.truthy. apply String.eqb_neq in Hne.
          now rewrite Hne. }
        rewrite T. unfold JS.or_else. now rewrite Htext, <- Htext, T.
      * intros Hnotext.
        rewrite <- (app_nil_r (JS.or_empty _)), (find_skips _ _ Hnotext).
        reflexivity.
Qed.

Lemma generated_image_is_a_data_url_witness :
  generateSceneImage "a cafe" [] studioWorld
  = (Ok "data:image/png;base64,AAAA", with_calls 1 studioWorld).
Proof.
  apply (proj1 (proj2 (generated_image_is_a_data_url "a cafe" [] studioWorld
                         ltac:(vm_compute; reflexivity))
                 _ eq_refl)
           [] (GenAI.mkPart None
                 (Some (GenAI.mkInlineData (Some "image/png") (Some "AAAA"))))
           (GenAI.mkInlineData (Some "image/png") (Some "AAAA")) "AAAA" []);
    [reflexivity | constructor | reflexivity | reflexivity | discriminate].
Defined.

End ImageTexts.

(* ================================================================== *)
(** * The JSON text of a reply *)
(* ================================================================== *)

Module ReplyFacts.
Import JSON Codec GeminiClient TextFacts.
Local Open Scope string_scope.

Lemma prefix_nil s : prefix "" s = true.
Proof. now destruct s. Qed.

Lemma prefix_app p s : prefix p (p ++ s) = true.
Proof.
  induction p as [|c p IH]; simpl; [apply prefix_nil|].
  destruct (ascii_dec c c) as [_|N]; [exact IH | now destruct N].
Qed.

Lemma index_prefix_here c p s :
  index 0 (String c p) (String c p ++ s) = Some 0.
Proof.
  change (String c p ++ s) with (String c (p ++ s)).
  cbn [index]. change (String c (p ++ s)) with (String c p ++ s).
  now rewrite prefix_app.
Qed.

Lemma index_fence_here x after :
  Text.without "`" x = true ->
  index 0 fence (x ++ fence ++ after) = Some (String.length x).
Proof.
  unfold Text.without.
  induction x as [|c x IH]; cbn [Text.every append String.length].
  - intros _. apply index_prefix_here.
  - intros H. apply andb_prop in H. destruct H as (Hc & Hx).
    apply negb_true_iff, Ascii.eqb_neq in Hc.
    cbn [index]. unfold fence at 1. cbn [prefix].
    destruct (ascii_dec "`" c) as [E|_]; [now destruct Hc|].
    now rewrite (IH Hx).
Qed.

Lemma trimStart_spaces ws c rest :
  Text.every is_space ws = true -> is_space c = false ->
  trimStart (ws ++ String c rest) = String c rest.
Proof.
  intros H Hc. induction ws as [|x ws IH]; cbn [append trimStart].
  - now rewrite Hc.
  - cbn [Text.every] in H. apply andb_prop in H. destruct H as (Hx & Hs).
    rewrite Hx. now apply IH.
Qed.

Lemma trimEnd_spaces ws : Text.every is_space ws = true -> trimEnd ws = "".
Proof.
  induction ws as [|x ws IH]; cbn [Text.every trimEnd]; [reflexivity|].
  intros H. apply andb_prop in H. destruct H as (Hx & Hs).
  now rewrite (IH Hs), Hx.
Qed.

Lemma trimEnd_keeps a c ws :
  Text.every is_space ws = true -> is_space c = false ->
  trimEnd (a ++ String c ws) = a ++ String c "".
Proof.
  intros H Hc. induction a as [|x a IH]; cbn [append trimEnd].
  - now rewrite Hc, (@trimEnd_spaces _ H).
  - rewrite IH. destruct (a ++ String c "") eqn:E; [now destruct a|].
    now rewrite andb_false_r.
Qed.

Lemma lastIndexOf_none c s : Text.without c s = true -> lastIndexOf c s = None.
Proof.
  unfold Text.without.
  induction s as [|x s IH]; cbn [Text.every lastIndexOf]; [reflexivity|].
  intros H. apply andb_prop in H. destruct H as (Hx & Hs).
  rewrite (IH Hs). apply negb_true_iff in Hx. now rewrite Hx.
Qed.

Lemma lastIndexOf_here c a post :
  Text.without c post = true ->
  lastIndexOf c (a ++ String c post) = Some (String.length a).
Proof.
  intros H. induction a as [|x a IH]; cbn [append lastIndexOf String.length].
  - now rewrite (@lastIndexOf_none _ _ H), Ascii.eqb_refl.
  - now rewrite IH.
Qed.

Lemma membs_closes l : exists inner, membs l = inner ++ "}".
Proof.
  induction l as [|[k x] l (inner & IH)]; [now exists ""|].
  destruct l as [|kv l].
  - exists (quoted k ++ ":" ++ stringify x).
    change (membs [(k, x)]) with (quoted k ++ ":" ++ stringify x ++ "}").
    now rewrite !append_assoc.
  - exists (quoted k ++ ":" ++ stringify x ++ "," ++ inner).
    change (membs ((k, x) :: kv :: l))
      with (quoted k ++ ":" ++ stringify x ++ "," ++ membs (kv :: l)).
    now rewrite IH, !append_assoc.
Qed.

Lemma analysisCharacter_back c :
  analysisCharacter_of_json (Reply.character_json c) = Some c.
Proof.
  destruct c as [name app [outfit|]]; unfold Reply.character_json;
    cbn -[appearance_of_json appearance_to_json];
    rewrite CodecFacts.appearance_back; reflexivity.
Qed.

Lemma analysisScene_back x :
  analysisScene_of_json (Reply.scene_json x) = Some x.
Proof.
  destruct x as [num [title|] [loc|] [time|] text desc names];
    unfold Reply.scene_json;
    cbn -[as_list]; rewrite CodecFacts.as_strings; reflexivity.
Qed.

Lemma analysis_back r : analysis_of_json (Reply.analysis_json r) = Some r.
Proof.
  destruct r as [characters scenes [guide|]];
    unfold Reply.analysis_json, Reply.members, analysis_of_json;
    cbn -[as_list analysisCharacter_of_json analysisScene_of_json
          Reply.character_json Reply.scene_json];
    rewrite (CodecFacts.as_list_map analysisCharacter_of_json _ analysisCharacter_back);
    cbn -[as_list analysisCharacter_of_json analysisScene_of_json
          Reply.character_json Reply.scene_json];
    rewrite (CodecFacts.as_list_map analysisScene_of_json _ analysisScene_back);
    reflexivity.
Qed.

Lemma spaces_without c ws :
  is_space c = false -> Text.every is_space ws = true -> Text.without c ws = true.
Proof.
  intros Hc. unfold Text.without.
  induction ws as [|x ws IH]; cbn [Text.every]; [reflexivity|].
  intros H. apply andb_prop in H. destruct H as (Hx & Hs).
  rewrite (IH Hs), andb_true_r. apply negb_true_iff, Ascii.eqb_neq.
  intros ->. rewrite Hc in Hx. discriminate.
Qed.

(** The group of the fence: the text between the fences, trimmed. *)
Lemma located_in_fence inner ws ws' after :
  Text.every is_space ws = true -> Text.every is_space ws' = true ->
  Text.without "`" inner = true ->
  locateJson ("```json" ++ ws ++ "{" ++ inner ++ "}" ++ ws' ++ "```" ++ after)
  = "{" ++ inner ++ "}".
Proof.
  intros Hws Hws' Hin. unfold locateJson, fenced.
  set (rest := ws ++ "{" ++ inner ++ "}" ++ ws' ++ "```" ++ after).
  assert (I : index 0 (fence ++ "json") ("```json" ++ rest) = Some 0)
    by apply (index_prefix_here "`" "``json" rest).
  rewrite I. cbv zeta.
  assert (D : drop (0 + 7) ("```json" ++ rest) = rest)
    by apply (drop_app "```json" rest).
  rewrite D. unfold rest.
  change (ws ++ "{" ++ inner ++ "}" ++ ws' ++ "```" ++ after)
    with (ws ++ String "{" (inner ++ String "}" (ws' ++ fence ++ after))).
  rewrite (trimStart_spaces ws "{" _ Hws eq_refl).
  assert (E : String "{" (inner ++ String "}" (ws' ++ fence ++ after))
              = (("{" ++ inner) ++ String "}" ws') ++ fence ++ after).
  { cbn [append]. now rewrite !append_assoc. }
  rewrite E.
  assert (W : Text.without "`" (("{" ++ inner) ++ String "}" ws') = true).
  { rewrite !without_app, Hin. cbn.
    apply (spaces_without "`" ws' eq_refl Hws'). }
  rewrite (index_fence_here _ after W), substring_head.
  rewrite (trimEnd_keeps ("{" ++ inner) "}" ws' Hws' eq_refl).
  reflexivity.
Qed.

(** Without a fence: the text from the first [{] to the last [}]. *)
Lemma located_in_braces inner before after :
  fenced (before ++ "{" ++ inner ++ "}" ++ after) = None ->
  Text.without "{" before = true -> Text.without "}" after = true ->
  locateJson (before ++ "{" ++ inner ++ "}" ++ after) = "{" ++ inner ++ "}".
Proof.
  intros Hf Hb Ha. unfold locateJson. rewrite Hf.
  change (before ++ "{" ++ inner ++ "}" ++ after)
    with (before ++ String "{" (inner ++ "}" ++ after)).
  rewrite (index_char_here "{" before (inner ++ "}" ++ after) Hb).
  assert (E : before ++ String "{" (inner ++ "}" ++ after)
              = (before ++ "{" ++ inner) ++ String "}" after).
  { cbn [append]. now rewrite !append_assoc. }
  rewrite E at 1. rewrite (lastIndexOf_here "}" (before ++ "{" ++ inner) after Ha).
  unfold slice.
  assert (N : String.length (before ++ "{" ++ inner) + 1
              = String.length before + String.length ("{" ++ inner ++ "}")).
  { rewrite length_append. cbn [append String.length].
    rewrite length_append. cbn [String.length]. lia. }
  rewrite N.
  destruct (Nat.leb_spec
              (String.length before + String.length ("{" ++ inner ++ "}"))
              (String.length before)) as [L|_].
  { cbn [append String.length] in L. lia. }
  replace (String.length before + String.length ("{" ++ inner ++ "}")
           - String.length before)
    with (String.length ("{" ++ inner ++ "}")) by lia.
  rewrite substring_skip.
  replace (String "{" (inner ++ "}" ++ after)) with (("{" ++ inner ++ "}") ++ after)
    by (cbn [append]; now rewrite append_assoc).
  apply substring_head.
Qed.

Lemma located_without_braces text :
  fenced text = None ->
  Text.without "{" text = true \/ Text.without "}" text = true ->
  locateJson text = text.
Proof.
  intros Hf [H|H]; unfold locateJson; rewrite Hf.
  - now rewrite (index_char_none "{" text H).
  - rewrite (lastIndexOf_none "}" text H). now destruct (index 0 "{" text).
Qed.

Lemma firstText_withText text : firstText (Reply.withText text) = text.
Proof.
  unfold firstText, Reply.withText. cbn. unfold JS.or_else, JS.truthy.
  destruct (String.eqb_spec text ""); simpl; congruence.
Qed.

End ReplyFacts.

Section ReplyJson.
Import Browser JSON Codec GeminiClient StorageFacts PagesFacts CharacterFacts.
Import TextFacts ReplyFacts.
Import Samples.
Local Open Scope string_scope.

(** Where the analysis looks for JSON in a reply.  In a reply that opens
    with a fence marked [json], it takes the text between this fence and
    the next one, without the white space around it.  In a reply without
    such a fence it takes the text from the first opening brace to the last
    closing brace, so that words around an object are dropped.  Without a
    fence and without one of the two braces it takes the whole reply. *)
Theorem reply_json_is_located :
  forall inner,
    (forall ws ws' after,
        Text.every is_space ws = true -> Text.every is_space ws' = true ->
        Text.without "`" inner = true ->
        locateJson ("```json" ++ ws ++ "{" ++ inner ++ "}" ++ ws' ++ "```" ++ after)
        = "{" ++ inner ++ "}")
    /\ (forall before after,
          fenced (before ++ "{" ++ inner ++ "}" ++ after) = None ->
          Text.without "{" before = true -> Text.without "}" after = true ->
          locateJson (before ++ "{" ++ inner ++ "}" ++ after) = "{" ++ inner ++ "}")
    /\ (forall text,
          fenced text = None ->
          Text.without "{" text = true \/ Text.without "}" text = true ->
          locateJson text = text).
Proof.
  intros inner. split; [|split].
  - intros ws ws' after. apply located_in_fence.
  - intros before after. apply located_in_braces.
  - apply located_without_braces.
Qed.

Lemma reply_json_is_located_witness :
  locateJson ("Here is the analysis: " ++ "{" ++ "1:2" ++ "}" ++ " Done.") = "{1:2}".
Proof.
  apply (proj1 (proj2 (reply_json_is_located "1:2")) "Here is the analysis: " " Done.");
    reflexivity.
Defined.

(** With a key, an analysis is one call of the model, and it returns the
    result whose JSON text the reply carries, property by property,
    whether the text stands in a fence marked [json] (and has no backquote)
    or between words without braces. *)
Theorem analysis_of_a_reply_reads_back :
  forall content w result text,
    keyConfigured w = true ->
    model (env w) (calls w) = Ok (Reply.withText text) ->
    ((exists ws ws' after,
         Text.every is_space ws = true /\ Text.every is_space ws' = true
         /\ Text.without "`" (stringify (Reply.analysis_json result)) = true
         /\ text = "```json" ++ ws ++ stringify (Reply.analysis_json result)
                   ++ ws' ++ "```" ++ after)
     \/ (exists before after,
           fenced text = None
           /\ Text.without "{" before = true /\ Text.without "}" after = true
           /\ text = before ++ stringify (Reply.analysis_json result) ++ after)) ->
    analyzeScript content w = (Ok result, with_calls (S (calls w)) w).
Proof.
  intros content w result text K Hm Hwrap.
  destruct (membs_closes (Reply.members result)) as (inner & Hinner).
  assert (J : stringify (Reply.analysis_json result) = "{" ++ inner ++ "}").
  { unfold Reply.analysis_json. now rewrite JSONFacts.stringify_Object, Hinner. }
  assert (L : locateJson text = stringify (Reply.analysis_json result)).
  { destruct Hwrap as [(ws & ws' & after & Hws & Hws' & Hb & ->)
                      |(before & after & Hf & Hb & Ha & E)].
    - rewrite J in *.
      replace (("{" ++ inner ++ "}") ++ ws' ++ "```" ++ after)
        with ("{" ++ inner ++ "}" ++ ws' ++ "```" ++ after)
        by (cbn [append]; now rewrite !append_assoc).
      apply located_in_fence; try assumption.
      rewrite !without_app in Hb. apply andb_prop in Hb. destruct Hb as (_ & Hb).
      apply andb_prop in Hb. apply Hb.
    - subst text. rewrite J in *.
      replace (before ++ ("{" ++ inner ++ "}") ++ after)
        with (before ++ "{" ++ inner ++ "}" ++ after) in *
        by (cbn [append]; now rewrite !append_assoc).
      now apply located_in_braces. }
  unfold analyzeScript, bind. rewrite generateContent_run.
  pose proof (getAI_keyConfigured w) as A. rewrite K in A. rewrite A, Hm.
  unfold parseAnalysis. rewrite firstText_withText, L.
  now rewrite JSONFacts.parse_stringify, analysis_back.
Qed.

Lemma analysis_of_a_reply_reads_back_witness :
  analyzeScript "INT. CAFE" Reply.chattyWorld
  = (Ok annaAndBob, with_calls 1 Reply.chattyWorld).
Proof.
  apply (@analysis_of_a_reply_reads_back "INT. CAFE" Reply.chattyWorld annaAndBob
           Reply.chattyText).
  - vm_compute. reflexivity.
  - reflexivity.
  - right. exists "Sure. ", " Anything else?".
    repeat split; vm_compute; reflexivity.
Defined.

End ReplyJson.

(* ================================================================== *)
(** * The references and the characters of a scene *)
(* ================================================================== *)

Module ReferenceFacts.
Import Browser Storage Pages CharactersPage GeneratePage StorageFacts PagesFacts.
Local Open Scope string_scope.

Lemma referenceData_nonempty cache imageId d :
  referenceData cache imageId = Some d -> d <> "".
Proof.
  unfold referenceData, JS.or_undefined.
  destruct (JS.truthy (cache imageId)) eqn:T.
  - destruct (cache imageId) as [x|]; [|discriminate T].
    intros [= <-] ->. discriminate T.
  - destruct (startsWithData imageId); [|discriminate].
    destruct (JS.truthy (Some imageId)) eqn:T'; [|discriminate].
    intros [= <-] ->. discriminate T'.
Qed.

Lemma pushReference_collected cache imageId acc :
  collected acc -> collected (pushReference cache imageId acc).
Proof.
  intros (L & F). unfold pushReference.
  destruct (Nat.ltb_spec (length acc) 8) as [Lt|_]; [|now split].
  destruct (referenceData cache imageId) as [d|] eqn:R; [|now split].
  split; [rewrite length_app; simpl; lia|].
  apply Forall_app. split; [assumption|].
  constructor; [now apply (referenceData_nonempty _ _ R) | constructor].
Qed.

Lemma pushReference_extends cache imageId acc :
  exists more, pushReference cache imageId acc = (acc ++ more)%list.
Proof.
  unfold pushReference. destruct (_ <? _)%nat; [|exists []; now rewrite app_nil_r].
  destruct (referenceData cache imageId) as [d|];
    [now exists [d] | exists []; now rewrite app_nil_r].
Qed.

Lemma characterReferences_collected cache char acc :
  collected acc -> collected (characterReferences cache char acc).
Proof.
  intros H. unfold characterReferences.
  set (first := match JS.or_undefined (Character.selectedImage char) with
                | Some selected => pushReference cache selected acc
                | None => acc
                end).
  assert (Hf : collected first)
    by (unfold first; destruct (JS.or_undefined _);
        [now apply pushReference_collected | assumption]).
  clearbody first. revert first Hf.
  induction (Character.referenceImages char) as [|imageId l IH]; intros first Hf;
    [exact Hf|].
  cbn [fold_left]. apply IH.
  destruct (match Character.selectedImage char with
            | Some selected => imageId =? selected
            | None => false
            end); [assumption | now apply pushReference_collected].
Qed.

Lemma characterReferences_extends cache char acc :
  exists more, characterReferences cache char acc = (acc ++ more)%list.
Proof.
  unfold characterReferences.
  set (first := match JS.or_undefined (Character.selectedImage char) with
                | Some selected => pushReference cache selected acc
                | None => acc
                end).
  assert (Hf : exists more, first = (acc ++ more)%list).
  { unfold first. destruct (JS.or_undefined _);
      [apply pushReference_extends | exists []; now rewrite app_nil_r]. }
  clearbody first. revert first Hf.
  induction (Character.referenceImages char) as [|imageId l IH]; intros first Hf;
    [exact Hf|].
  cbn [fold_left]. apply IH.
  destruct (match Character.selectedImage char with
            | Some selected => imageId =? selected
            | None => false
            end); [assumption|].
  destruct Hf as (more & ->).
  destruct (pushReference_extends cache imageId (acc ++ more)) as (more' & ->).
  exists (more ++ more')%list. now rewrite app_assoc.
Qed.

Lemma fold_characters_collected cache chars :
  forall acc, collected acc ->
    collected (fold_left (fun acc char => characterReferences cache char acc) chars acc).
Proof.
  induction chars as [|c chars IH]; intros acc H; [exact H|].
  cbn [fold_left]. apply IH. now apply characterReferences_collected.
Qed.

Lemma fold_characters_extends cache chars :
  forall acc, exists more,
    fold_left (fun acc char => characterReferences cache char acc) chars acc
    = (acc ++ more)%list.
Proof.
  induction chars as [|c chars IH]; intros acc; [exists []; now rewrite app_nil_r|].
  cbn [fold_left].
  destruct (characterReferences_extends cache c acc) as (m1 & ->).
  destruct (IH (acc ++ m1)%list) as (m2 & ->).
  exists (m1 ++ m2)%list. now rewrite app_assoc.
Qed.

(** The characters that [getSceneCharacters] finds in a list. *)
Lemma getSceneCharacters_found ids w l :
  charactersOf w = Ok l ->
  getSceneCharacters ids w
  = (Ok (flat_map (fun id => match find (hasId id) l with
                             | Some c => [c]
                             | None => []
                             end) ids), w).
Proof.
  intros H. induction ids as [|id ids IH]; [reflexivity|].
  cbn [getSceneCharacters flat_map].
  rewrite (bind_Ok _ _ _ (getCharacter_run id _ H)), (bind_Ok _ _ _ IH).
  unfold ret. f_equal. f_equal.
  change (fun c : Character.t => Character.id c =? id) with (hasId id).
  now destruct (find (hasId id) l).
Qed.

Lemma find_after_delete id k (l : list Character.t) :
  find (hasId k) (filter (fun c => negb (Character.id c =? id)) l)
  = if k =? id then None else find (hasId k) l.
Proof.
  destruct (k =? id) eqn:E.
  - apply String.eqb_eq in E. subst.
    apply (StoreFacts.find_filter_negb (hasId id)).
  - apply BlobFacts.find_filter_keep. intros c Hc. unfold hasId in Hc.
    apply String.eqb_eq in Hc. subst. now rewrite E.
Qed.

Lemma fold_push_extends cache (selected : option string) l :
  forall first, exists more,
    fold_left
      (fun acc imageId =>
         if match selected with
            | Some sel => imageId =? sel
            | None => false
            end
         then acc
         else pushReference cache imageId acc) l first
    = (first ++ more)%list.
Proof.
  induction l as [|imageId l IH]; intros first; [exists []; now rewrite app_nil_r|].
  cbn [fold_left].
  destruct (match selected with Some sel => imageId =? sel | None => false end);
    [apply IH|].
  destruct (pushReference_extends cache imageId first) as (m1 & ->).
  destruct (IH (first ++ m1)%list) as (m2 & ->).
  exists (m1 ++ m2)%list. now rewrite app_assoc.
Qed.

Lemma handleSelectImage_run scriptId sceneId imageId w characters l :
  charactersOf w = Ok characters -> scenesOf w = Ok l ->
  exists w',
    handleSelectImage scriptId sceneId imageId w = (Ok tt, w')
    /\ scenesOf w'
       = Ok (JS.updateFirst (isScene sceneId)
               (touchedScene w (GeneratePage.selectedUpdates imageId)) l)
    /\ charactersOf w' = Ok characters /\ scriptsOf w' = scriptsOf w
    /\ images w' = images w /\ calls w' = calls w.
Proof.
  intros Hc Hn. unfold handleSelectImage.
  destruct (updateScene_run sceneId (GeneratePage.selectedUpdates imageId) _ Hn)
    as (w1 & R1 & Hn1 & Hs1 & Hc1 & B1).
  rewrite (bind_Ok _ _ _ R1).
  assert (Hc1' : charactersOf w1 = Ok characters) by (now rewrite Hc1).
  destruct (GenerateFacts.loadData_run scriptId _ Hc1' Hn1) as (u & R2 & _).
  exists (with_ui u w1). split; [now apply floating_Ok|].
  split; [rewrite (@scenesOf_ls w1) by reflexivity; exact Hn1|].
  split; [rewrite <- Hc1'; now apply charactersOf_ls|].
  split; [rewrite <- Hs1; now apply scriptsOf_ls|].
  destruct B1 as (_ & _ & Bc & _ & _ & Bi & _). now split.
Qed.

End ReferenceFacts.

Section SceneReferences.
Import Browser Storage Pages CharactersPage GeneratePage StorageFacts PagesFacts.
Import StoreFacts ReferenceFacts.
Import Samples.
Local Open Scope string_scope.

(** Whatever the characters of a scene and the cache of their images, the
    references that go with a generation are at most eight and none is
    empty; and when the first character has a selected image with data,
    this data comes first. *)
Theorem references_are_capped :
  forall cache sceneCharacters,
    length (collectReferences cache sceneCharacters) <= 8
    /\ Forall (fun d => d <> "") (collectReferences cache sceneCharacters)
    /\ forall char rest selected d,
         sceneCharacters = char :: rest ->
         Character.selectedImage char = Some selected -> selected <> "" ->
         referenceData cache selected = Some d ->
         hd_error (collectReferences cache sceneCharacters) = Some d.
Proof.
  intros cache sceneCharacters.
  assert (C : collected (collectReferences cache sceneCharacters))
    by (apply fold_characters_collected; split; [simpl; lia | constructor]).
  split; [apply C|]. split; [apply C|].
  intros char rest selected d -> Hsel Hne Hd.
  unfold collectReferences. cbn [fold_left].
  destruct (fold_characters_extends cache rest (characterReferences cache char []))
    as (m1 & ->).
  unfold characterReferences. rewrite Hsel.
  assert (T : JS.or_undefined (Some selected) = Some selected).
  { unfold JS.or_undefined, JS.truthy.
    apply String.eqb_neq in Hne. now rewrite Hne. }
  assert (P : pushReference cache selected [] = [d])
    by (unfold pushReference; cbn [length Nat.ltb Nat.leb]; now rewrite Hd).
  rewrite T, P.
  destruct (fold_push_extends cache (Some selected)
              (Character.referenceImages char) [d]) as (m2 & ->).
  reflexivity.
Qed.

Lemma references_are_capped_witness :
  hd_error
    (collectReferences
       (fun k => if k =? "char_c2_0_1" then Some "data:image/png;base64,QQ" else None)
       [sampleCharacter "c2" "s2" "Bob" ["char_c2_0_1"] (Some "char_c2_0_1")])
  = Some "data:image/png;base64,QQ".
Proof.
  apply (proj2 (proj2 (references_are_capped _ _))
           (sampleCharacter "c2" "s2" "Bob" ["char_c2_0_1"] (Some "char_c2_0_1")) []
           "char_c2_0_1"); try reflexivity.
  discriminate.
Defined.

(** The characters of a scene are the stored characters of the listed ids,
    in the order of the list; an id that no character has is passed over,
    and nothing is written.  So a scene that lists a deleted character is
    generated with the remaining ones. *)
Theorem scene_characters_skip_missing_ids :
  forall characterIds id w l,
    charactersOf w = Ok l ->
    getSceneCharacters characterIds w
    = (Ok (flat_map (fun k => match find (hasId k) l with
                              | Some c => [c]
                              | None => []
                              end) characterIds), w)
    /\ exists w',
         deleteCharacter id w = (Ok tt, w')
         /\ getSceneCharacters characterIds w'
            = (Ok (flat_map (fun k => match find (hasId k) l with
                                      | Some c => [c]
                                      | None => []
                                      end)
                     (filter (fun k => negb (k =? id)) characterIds)), w').
Proof.
  intros characterIds id w l H.
  split; [now apply getSceneCharacters_found|].
  destruct (deleteCharacter_run id _ H) as (w' & R & H' & _).
  exists w'. split; [exact R|].
  rewrite (getSceneCharacters_found characterIds _ H'). f_equal. f_equal.
  induction characterIds as [|k ids IH]; [reflexivity|].
  cbn [flat_map filter]. rewrite find_after_delete.
  destruct (k =? id); cbn [negb]; [exact IH|].
  cbn [flat_map]. now rewrite IH.
Qed.

Lemma scene_characters_skip_missing_ids_witness :
  getSceneCharacters ["c9"; "c3"; "c1"] sampleWorld
  = (Ok [sampleCharacter "c3" "s1" "Carl" [] None;
         sampleCharacter "c1" "s1" "Anna" [] None], sampleWorld).
Proof.
  rewrite (proj1 (@scene_characters_skip_missing_ids ["c9"; "c3"; "c1"] "c9"
                    sampleWorld sampleCharacters ltac:(vm_compute; reflexivity))).
  reflexivity.
Defined.

(** The selection of an image of a scene writes the given identifier as the
    selected image of the first scene of the id, whether or not it is one
    of the generated images of the scene; the images and the status of the
    scene are as before. *)
Theorem scene_selection_is_not_checked :
  forall scriptId sceneId imageId w characters l old,
    charactersOf w = Ok characters -> scenesOf w = Ok l ->
    find (isScene sceneId) l = Some old ->
    exists w' new,
      handleSelectImage scriptId sceneId imageId w = (Ok tt, w')
      /\ scenesOf w' = Ok (JS.updateFirst (isScene sceneId) (fun _ => new) l)
      /\ Scene.selectedImage new = Some imageId
      /\ Scene.generatedImages new = Scene.generatedImages old
      /\ Scene.status new = Scene.status old
      /\ images w' = images w.
Proof.
  intros scriptId sceneId imageId w characters l old Hc Hn F.
  destruct (handleSelectImage_run scriptId sceneId imageId w Hc Hn)
    as (w' & R & Hn' & _ & _ & Hi & _).
  exists w', (touchedScene w (GeneratePage.selectedUpdates imageId) old).
  split; [exact R|].
  split.
  { rewrite Hn'. f_equal. now apply GenerateFacts.updateFirst_found with (x := old). }
  now repeat split.
Qed.

Lemma scene_selection_is_not_checked_witness :
  exists w' new,
    handleSelectImage "s1" "n3" "no-such-image" sampleWorld = (Ok tt, w')
    /\ scenesOf w'
       = Ok [sampleScene "n1" "s2" 1 [] SceneStatus.pending;
             sampleScene "n2" "s1" 2 ["n2_0_5"] SceneStatus.completed; new]
    /\ Scene.selectedImage new = Some "no-such-image"
    /\ Scene.generatedImages new = [].
Proof.
  destruct (@scene_selection_is_not_checked "s1" "n3" "no-such-image" sampleWorld
              sampleCharacters sampleScenes
              (sampleScene "n3" "s1" 1 [] SceneStatus.pending)
              ltac:(vm_compute; reflexivity) ltac:(vm_compute; reflexivity)
              ltac:(reflexivity))
    as (w' & new & R & Hn & Hs & Hg & _).
  exists w', new. split; [exact R|]. split; [exact Hn|]. split; [exact Hs | exact Hg].
Defined.

End SceneReferences.

(* ================================================================== *)
(** * Generating for every scene *)
(* ================================================================== *)


Module SceneBatchFacts.
Import Browser Storage ImageStorage GeminiClient Pages GeneratePage.
Import StorageFacts PagesFacts CharacterFacts StoreFacts GenerateFacts.
Local Open Scope string_scope.

Lemma sameScenes_refl l : sameScenes l l.
Proof. induction l; constructor; [now split | assumption]. Qed.

Lemma sameScenes_trans l1 l2 l3 :
  sameScenes l1 l2 -> sameScenes l2 l3 -> sameScenes l1 l3.
Proof.
  intros H. revert l3. induction H as [|a b l1 l2 (Hi & Hs) _ IH]; intros l3 H';
    inversion H' as [|? c ? l3' (Hi' & Hs') Hl]; subst; constructor.
  - split; congruence.
  - now apply IH.
Qed.

Lemma sameScenes_ids l l0 : sameScenes l l0 -> map Scene.id l = map Scene.id l0.
Proof.
  induction 1 as [|a b l l0 (Hi & _) _ IH]; [reflexivity|].
  simpl. now rewrite Hi, IH.
Qed.

Lemma sameScenes_update p final stored l :
  find p l = Some stored ->
  Scene.id final = Scene.id stored -> Scene.scriptId final = Scene.scriptId stored ->
  sameScenes (JS.updateFirst p (fun _ => final) l) l.
Proof.
  intros F Hi Hs. revert F. induction l as [|x l IH]; simpl; [discriminate|].
  destruct (p x).
  - intros [= ->]. constructor; [now split | apply sameScenes_refl].
  - intros F. constructor; [now split | now apply IH].
Qed.

Lemma storedIn_same scriptId l l0 scene :
  sameScenes l l0 -> storedIn scriptId l0 scene -> storedIn scriptId l scene.
Proof.
  intros H (stored & F & E). revert F.
  induction H as [|a b l l0 (Hi & Hs) _ IH]; [discriminate|].
  assert (Eab : isScene (Scene.id scene) a = isScene (Scene.id scene) b)
    by (unfold isScene; now rewrite Hi).
  unfold storedIn. cbn [find]. rewrite Eab.
  destruct (isScene (Scene.id scene) b).
  - intros [= ->]. exists a. split; [reflexivity | congruence].
  - exact IH.
Qed.

Lemma find_updated p (y x : Scene.t) l :
  find p l = Some x -> p y = true ->
  find p (JS.updateFirst p (fun _ => y) l) = Some y.
Proof.
  intros F Hy. revert F. induction l as [|a l IH]; simpl; [discriminate|].
  destruct (p a) eqn:Pa; simpl.
  - now rewrite Hy.
  - rewrite Pa. exact IH.
Qed.

Lemma find_beside q p (y : Scene.t) l :
  q y = false -> (forall x, p x = true -> q x = false) ->
  find q (JS.updateFirst p (fun _ => y) l) = find q l.
Proof.
  intros Hy H. induction l as [|a l IH]; simpl; [reflexivity|].
  destruct (p a) eqn:Pa; simpl.
  - now rewrite Hy, (H _ Pa).
  - now rewrite IH.
Qed.

Lemma In_beside p (f : Scene.t -> Scene.t) s l :
  In s l -> p s = false -> In s (JS.updateFirst p f l).
Proof.
  intros Hin Hs. induction l as [|a l IH]; simpl; [contradiction|].
  destruct Hin as [->|Hin].
  - rewrite Hs. now left.
  - destruct (p a); right; [assumption | now apply IH].
Qed.

Lemma isScene_same a b s : a = b -> isScene a s = isScene b s.
Proof. now intros ->. Qed.

Lemma sceneLoop_settles render scriptId pending :
  forall w scripts characters l,
    loads w scripts characters l ->
    NoDup (map Scene.id l) ->
    Forall (storedIn scriptId l) pending ->
    exists w' l',
      generateAllLoop render scriptId pending w = (Ok tt, w')
      /\ loads w' scripts characters l'
      /\ sameScenes l' l
      /\ Forall (settled l') pending
      /\ forall s, In s l -> ~ In (Scene.id s) (map Scene.id pending) -> In s l'.
Proof.
  induction pending as [|scene rest IH]; intros w scripts characters l Hl ND Hp.
  - exists w, l. split; [reflexivity|]. split; [exact Hl|].
    split; [apply sameScenes_refl|]. split; [constructor | now intros].
  - inversion Hp as [|? ? (stored & F & E) Hrest]; subst.
    destruct (handleGenerateOne_run_script render scene IMAGES_PER_GENERATION
                Hl ND F eq_refl)
      as (w1 & final & new & R1 & Hl1 & _ & _ & Hid & Hsid & Hfinal).
    set (l1 := JS.updateFirst (isScene (Scene.id scene)) (fun _ => final) l) in *.
    assert (S1 : sameScenes l1 l) by (now apply sameScenes_update with (stored := stored)).
    assert (ND1 : NoDup (map Scene.id l1)) by (now rewrite (sameScenes_ids S1)).
    assert (Hp1 : Forall (storedIn (Scene.scriptId stored) l1) rest).
    { apply (Forall_impl _ (P := storedIn (Scene.scriptId stored) l)); [|exact Hrest].
      intros s. now apply storedIn_same. }
    destruct (IH w1 scripts characters l1 Hl1 ND1 Hp1)
      as (w' & l' & R & Hl' & S' & Hset & Hkeep).
    assert (Pf : isScene (Scene.id scene) final = true)
      by (unfold isScene; rewrite Hid; apply find_some in F; apply F).
    assert (F1 : find (isScene (Scene.id scene)) l1 = Some final)
      by (now apply find_updated with (x := stored)).
    assert (St : Scene.status final = SceneStatus.completed
                 \/ Scene.status final = SceneStatus.failed).
    { destruct new; [right | left]; apply Hfinal. }
    exists w', l'.
    split.
    { cbn [generateAllLoop].
      now rewrite (bind_Ok _ _ _ (try_catch_Ok _ _ _ R1)). }
    split; [exact Hl'|].
    split; [now apply sameScenes_trans with (l2 := l1)|].
    split.
    + constructor; [|exact Hset].
      destruct (in_dec string_dec (Scene.id scene) (map Scene.id rest)) as [Hin|Hout].
      * apply in_map_iff in Hin. destruct Hin as (r & Er & Hr).
        destruct (proj1 (Forall_forall _ _) Hset _ Hr) as (fr & Fr & Sr).
        exists fr. split; [|exact Sr].
        rewrite <- Er. exact Fr.
      * assert (Es : Scene.id stored = Scene.id scene).
        { apply find_some in F. destruct F as (_ & Es).
          unfold isScene in Es. now apply String.eqb_eq in Es. }
        assert (Hf : In final l').
        { apply Hkeep; [apply (find_some _ _ F1) | now rewrite Hid, Es]. }
        exists final. split; [|exact St].
        assert (ND' : NoDup (map Scene.id l'))
          by (now rewrite (sameScenes_ids S')).
        apply (@find_unique (Scene.id scene) l' final ND' Hf). now rewrite Hid.
    + intros s Hs Hout.
      apply Hkeep.
      * apply In_beside; [exact Hs|].
        unfold isScene. apply String.eqb_neq. intros Eq. apply Hout. now left.
      * intros Hin. apply Hout. now right.
Qed.

End SceneBatchFacts.

Section SceneBatch.
Import Browser Storage ImageStorage GeminiClient Pages GeneratePage Samples.
Import StorageFacts PagesFacts CharacterFacts SceneBatchFacts.
Local Open Scope string_scope.

(** "Generate all" of the image page (Generate.tsx, [handleGenerateAll]):
    the scenes of the render that wait or have failed are generated one after
    the other, and no failure stops the loop. When each of them is still
    stored in the script of the page and the stored ids are distinct, the
    click returns normally; the stored scenes keep their ids, scripts and
    order; every scene that was tried ends completed or failed, none is left
    generating; and a stored scene whose id was not tried is stored
    unchanged. With no scene to try the click sets the error text and
    leaves everything else as it was. *)
Theorem generating_all_settles_the_waiting_scenes
    render scriptId w scripts characters scenes :
  loads w scripts characters scenes ->
  NoDup (map Scene.id scenes) ->
  Forall (storedIn scriptId scenes) (filter isPending (Browser.scenes render)) ->
  exists w' scenes',
    handleGenerateAll render scriptId w = (Ok tt, w')
    /\ loads w' scripts characters scenes'
    /\ sameScenes scenes' scenes
    /\ Forall (settled scenes') (filter isPending (Browser.scenes render))
    /\ (forall s, In s scenes ->
          ~ In (Scene.id s) (map Scene.id (filter isPending (Browser.scenes render))) ->
          In s scenes')
    /\ (filter isPending (Browser.scenes render) = [] ->
          handleGenerateAll render scriptId w
          = setError "생성할 장면이 없습니다." w
          /\ scenes' = scenes).
Proof.
  intros Hl ND Hp. unfold handleGenerateAll.
  destruct (filter isPending (Browser.scenes render)) as [|scene rest] eqn:Ep.
  - exists (with_ui (mkUI "생성할 장면이 없습니다." (isAnalyzing (ui w))
                      (generating (ui w)) (imageCache (ui w))
                      (charImageCache (ui w)) (selectedStyle (ui w))
                      (script (ui w)) (Browser.characters (ui w))
                      (Browser.scenes (ui w)) (navigated (ui w))) w), scenes.
    split; [reflexivity|].
    split; [now apply (loads_ls (w := w))|].
    split; [apply sameScenes_refl|].
    split; [constructor|].
    split; [now intros|].
    intros _. now split.
  - set (w0 := with_ui (mkUI "" (isAnalyzing (ui w))
                      (generating (ui w)) (imageCache (ui w))
                      (charImageCache (ui w)) (selectedStyle (ui w))
                      (script (ui w)) (Browser.characters (ui w))
                      (Browser.scenes (ui w)) (navigated (ui w))) w).
    assert (Hl0 : loads w0 scripts characters scenes)
      by (now apply (loads_ls (w := w))).
    destruct (@sceneLoop_settles render scriptId (scene :: rest) w0 scripts
                characters scenes Hl0 ND Hp)
      as (w' & scenes' & R & Hl' & S' & Hset & Hkeep).
    exists w', scenes'.
    split; [exact R|].
    split; [exact Hl'|]. split; [exact S'|]. split; [exact Hset|].
    split; [exact Hkeep|]. discriminate.
Qed.

Lemma generating_all_settles_the_waiting_scenes_witness :
  exists w' scenes',
    handleGenerateAll studioRender "s1" studioWorld = (Ok tt, w')
    /\ loads w' sampleScripts sampleCharacters scenes'
    /\ settled scenes' (sampleScene "n3" "s1" 1 [] SceneStatus.pending)
    /\ In (sampleScene "n2" "s1" 2 ["n2_0_5"] SceneStatus.completed) scenes'.
Proof.
  destruct (@generating_all_settles_the_waiting_scenes studioRender "s1"
              studioWorld sampleScripts sampleCharacters sampleScenes)
    as (w' & scenes' & R & Hl' & _ & Hset & Hkeep & _).
  - repeat split; vm_compute; reflexivity.
  - repeat constructor; simpl; intuition discriminate.
  - constructor; [|constructor].
    exists (sampleScene "n3" "s1" 1 [] SceneStatus.pending).
    split; reflexivity.
  - exists w', scenes'.
    split; [exact R|]. split; [exact Hl'|].
    split; [now inversion Hset|].
    apply Hkeep; [simpl; tauto|].
    simpl. intros [E|[]]. discriminate E.
Defined.

End SceneBatch.

Module PageMoreFacts.
Import Browser Storage GeminiClient Pages GeneratePage ScenesPage.
Import StorageFacts PagesFacts CharacterFacts StoreFacts.
Local Open Scope string_scope.

Lemma trimStart_blank s : Text.every is_space s = true -> trimStart s = "".
Proof.
  induction s as [|c s IH]; cbn [Text.every trimStart]; [reflexivity|].
  intros H. apply andb_true_iff in H. destruct H as (Hc & Hs).
  rewrite Hc. now apply IH.
Qed.

Lemma trim_blank s : Text.every is_space s = true -> trim s = "".
Proof. intros H. unfold trim. now rewrite trimStart_blank. Qed.

Lemma trimStart_nonblank s :
  Text.every is_space s = false ->
  exists c rest, trimStart s = String c rest /\ is_space c = false.
Proof.
  induction s as [|c s IH]; cbn [Text.every trimStart]; [discriminate|].
  destruct (is_space c) eqn:Hc; cbn [andb].
  - exact IH.
  - intros _. now exists c, s.
Qed.

Lemma trim_nonblank s :
  Text.every is_space s = false -> JS.truthy (Some (trim s)) = true.
Proof.
  intros H. destruct (trimStart_nonblank s H) as (c & rest & E & Hc).
  unfold trim. rewrite E. cbn [trimEnd]. now rewrite Hc.
Qed.

Lemma filter_beside {A} (p q : A -> bool) l :
  (forall x, q x = true -> p x = false) ->
  filter q (filter (fun x => negb (p x)) l) = filter q l.
Proof.
  intros H. induction l as [|x l IH]; simpl; [reflexivity|].
  destruct (p x) eqn:Px; simpl.
  - destruct (q x) eqn:Qx; [|exact IH].
    rewrite (H _ Qx) in Px. discriminate.
  - now rewrite IH.
Qed.

Lemma deleteScript_run id w scripts characters scenes :
  loads w scripts characters scenes ->
  exists w',
    deleteScript id w = (Ok tt, w')
    /\ loads w' (filter (fun s => negb (Script.id s =? id)) scripts)
         (filter (fun c => negb (Character.scriptId c =? id)) characters)
         (filter (fun s => negb (Scene.scriptId s =? id)) scenes)
    /\ outside w' = outside w.
Proof.
  intros (Hs & Hc & Hn). unfold deleteScript.
  rewrite (bind_Ok _ _ _ (eq_trans (loadScripts_run w) (f_equal (fun r => (r, w)) Hs))).
  rewrite (bind_Ok _ _ _ (saveScripts_run _ w)).
  set (w1 := snd (saveScripts _ w)).
  assert (Hc1 : charactersOf w1 = Ok characters)
    by (unfold w1; now rewrite charactersOf_saveScripts).
  rewrite (bind_Ok _ _ _ (eq_trans (loadCharacters_run w1) (f_equal (fun r => (r, w1)) Hc1))).
  rewrite (bind_Ok _ _ _ (saveCharacters_run _ w1)).
  set (w2 := snd (saveCharacters _ w1)).
  assert (Hn2 : scenesOf w2 = Ok scenes)
    by (unfold w2, w1; now rewrite scenesOf_saveCharacters, scenesOf_saveScripts).
  rewrite (bind_Ok _ _ _ (eq_trans (loadScenes_run w2) (f_equal (fun r => (r, w2)) Hn2))).
  rewrite saveScenes_run.
  eexists. split; [reflexivity|]. split; [|reflexivity].
  split; [rewrite scriptsOf_saveScenes; unfold w2;
          rewrite scriptsOf_saveCharacters; unfold w1;
          apply scriptsOf_saveScripts|].
  split; [rewrite charactersOf_saveScenes; unfold w2;
          apply charactersOf_saveCharacters|].
  apply scenesOf_saveScenes.
Qed.

Lemma handleUpdateScene_run scriptId id updates w scripts characters scenes :
  loads w scripts characters scenes ->
  exists w',
    handleUpdateScene scriptId id updates w = (Ok tt, w')
    /\ loads w' scripts characters
         (JS.updateFirst (isScene id) (touchedScene w updates) scenes)
    /\ images w' = images w /\ characterImages w' = characterImages w
    /\ calls w' = calls w.
Proof.
  intros (Hs & Hc & Hn). unfold handleUpdateScene.
  destruct (updateScene_run id updates _ Hn) as (w1 & R1 & Hn1 & Hs1 & Hc1 & B1).
  rewrite (bind_Ok _ _ _ R1).
  rewrite (bind_Ok _ _ _ (getScenesByScript_run scriptId _ Hn1)).
  unfold setScenes. rewrite bind_setUI.
  match goal with |- context [ScriptDetail_loadData _ ?W] => set (w2 := W) end.
  assert (Hs2 : scriptsOf w2 = Ok scripts)
    by (rewrite <- Hs, <- Hs1; now apply scriptsOf_ls).
  assert (Hc2 : charactersOf w2 = Ok characters)
    by (rewrite <- Hc, <- Hc1; now apply charactersOf_ls).
  assert (Hn2 : scenesOf w2
                = Ok (JS.updateFirst (isScene id) (touchedScene w updates) scenes))
    by (rewrite (@scenesOf_ls w1) by reflexivity; exact Hn1).
  destruct (ScriptDetail_loadData_run scriptId _ Hs2 Hc2 Hn2) as (u & R3 & _).
  exists (with_ui u w2). split; [exact R3|].
  split.
  { split; [rewrite <- Hs2; now apply scriptsOf_ls|].
    split; [rewrite <- Hc2; now apply charactersOf_ls|].
    rewrite <- Hn2. now apply scenesOf_ls. }
  destruct B1 as (_ & _ & Bc & _ & _ & Bi & Bci). now repeat split.
Qed.

End PageMoreFacts.

Section ScenePrompts.
Import Browser Storage GeminiClient Pages GeneratePage ScenesPage Samples.
Import StorageFacts PagesFacts PageMoreFacts.
Local Open Scope string_scope.

(** Saving the prompt editor of a scene card (Scenes.tsx,
    [handleSavePrompt]) stores the text of the editor as the scene's
    [userEditedPrompt] and nothing else of the scene but the update time;
    no image is touched and the model is not called. From then on a text
    that is not empty is the whole prompt of a generation: style, characters
    and requirements are no longer part of it. An empty text brings the
    built prompt back. As the editor starts from the description when the
    scene has no prompt of its own, saving it untouched makes the bare
    description the prompt. *)
Theorem saved_prompt_is_the_whole_prompt
    scriptId scene text w scripts characters scenes :
  loads w scripts characters scenes ->
  exists w',
    handleSavePrompt scriptId scene text w = (Ok tt, w')
    /\ loads w' scripts characters
         (JS.updateFirst (isScene (Scene.id scene))
            (touchedScene w (promptUpdates text)) scenes)
    /\ images w' = images w /\ calls w' = calls w
    /\ forall stored chars style,
         let final := touchedScene w (promptUpdates text) stored in
         Scene.userEditedPrompt final = Some text
         /\ final
            = Scene.mk (Scene.id stored) (Scene.scriptId stored)
                (Scene.sceneNumber stored) (Scene.title stored)
                (Scene.location stored) (Scene.timeOfDay stored)
                (Scene.originalText stored) (Scene.visualDescription stored)
                (Scene.generatedPrompt stored) (Some text)
                (Scene.characterIds stored) (Scene.generatedImages stored)
                (Scene.selectedImage stored) (Scene.status stored)
                (Scene.createdAt stored) (toISOString (clock (env w) (ticks w)))
         /\ (text <> "" ->
             Gemini.buildScenePrompt (promptInput final) chars style = text)
         /\ (text = "" ->
             Gemini.buildScenePrompt (promptInput final) chars style
             = Gemini.buildScenePrompt
                 (Gemini.mkSceneInput (Scene.location stored) (Scene.timeOfDay stored)
                    (Scene.visualDescription stored) None) chars style)
         /\ forall d,
              Scene.userEditedPrompt scene = None ->
              Scene.generatedPrompt scene = None ->
              Scene.visualDescription scene = Some d -> d <> "" ->
              text = initialPromptText scene ->
              Gemini.buildScenePrompt (promptInput final) chars style = d.
Proof.
  intros Hl. unfold handleSavePrompt.
  destruct (handleUpdateScene_run scriptId (Scene.id scene) (promptUpdates text) Hl)
    as (w' & R & Hl' & Hi & _ & Hc).
  exists w'. split; [exact R|]. split; [exact Hl'|].
  split; [exact Hi|]. split; [exact Hc|].
  intros stored chars style.
  set (final := touchedScene w (promptUpdates text) stored).
  split; [reflexivity|]. split; [reflexivity|].
  assert (Hne : text <> "" ->
                Gemini.buildScenePrompt (promptInput final) chars style = text).
  { intros Ht. unfold Gemini.buildScenePrompt, JS.or_undefined, JS.truthy.
    cbn. destruct text; [now elim Ht | reflexivity]. }
  split; [exact Hne|].
  split; [now intros ->|].
  intros d Hu Hg Hv Hd Et.
  assert (E : initialPromptText scene = d).
  { unfold initialPromptText. rewrite Hu, Hg, Hv. cbn.
    destruct d; [now elim Hd | reflexivity]. }
  rewrite Hne; congruence.
Qed.

Lemma saved_prompt_is_the_whole_prompt_witness :
  exists w',
    handleSavePrompt "s1" (sampleScene "n3" "s1" 1 [] SceneStatus.pending)
      "A woman drinks coffee." sampleWorld = (Ok tt, w')
    /\ forall stored chars style,
         Gemini.buildScenePrompt
           (promptInput (touchedScene sampleWorld
                           (promptUpdates "A woman drinks coffee.") stored))
           chars style
         = "A woman drinks coffee.".
Proof.
  destruct (@saved_prompt_is_the_whole_prompt "s1"
              (sampleScene "n3" "s1" 1 [] SceneStatus.pending)
              "A woman drinks coffee." sampleWorld sampleScripts
              sampleCharacters sampleScenes
              ltac:(repeat split; vm_compute; reflexivity))
    as (w' & R & _ & _ & _ & H).
  exists w'. split; [exact R|].
  intros stored chars style.
  destruct (H stored chars style) as (_ & _ & _ & _ & Hd).
  apply (Hd "A woman drinks coffee."); try reflexivity. discriminate.
Defined.

End ScenePrompts.

Section BlankForm.
Import Browser Storage GeminiClient Pages Samples.
Import StorageFacts PagesFacts PageMoreFacts.
Local Open Scope string_scope.

(** A new script whose title or whose content is only white space is
    refused (ScriptNew, [handleSubmit]): the click only sets the error text,
    about the title when the trimmed title is empty and about the content
    otherwise. Nothing is stored, no id is drawn, the clock is not read, the
    model is not called and the page does not navigate. *)
Theorem blank_form_is_refused title rawContent genre w :
  Text.every is_space title = true \/ Text.every is_space rawContent = true ->
  exists message,
    handleSubmit title rawContent genre w = setError message w
    /\ message = (if negb (JS.truthy (Some (trim title))) then "제목을 입력해주세요."
                  else "대본 내용을 입력해주세요.")
    /\ (Text.every is_space title = true -> message = "제목을 입력해주세요.")
    /\ forall w', snd (handleSubmit title rawContent genre w) = w' ->
         fst (handleSubmit title rawContent genre w) = Ok tt
         /\ error (ui w') = message
         /\ localStorage w' = localStorage w /\ uuids w' = uuids w
         /\ calls w' = calls w /\ ticks w' = ticks w
         /\ isAnalyzing (ui w') = isAnalyzing (ui w)
         /\ navigated (ui w') = navigated (ui w).
Proof.
  intros H.
  assert (R : handleSubmit title rawContent genre w
              = setError (if negb (JS.truthy (Some (trim title)))
                          then "제목을 입력해주세요."
                          else "대본 내용을 입력해주세요.") w).
  { unfold handleSubmit. unfold setError at 1. rewrite bind_setUI.
    destruct (Text.every is_space title) eqn:Et.
    - now rewrite (trim_blank _ Et).
    - destruct H as [H|H]; [discriminate|].
      now rewrite (trim_nonblank _ Et), (trim_blank _ H). }
  eexists. split; [exact R|]. split; [reflexivity|].
  split; [intros Et; now rewrite (trim_blank _ Et)|].
  intros w' <-. rewrite R. now repeat split.
Qed.

Lemma blank_form_is_refused_witness :
  handleSubmit "Cafe" "  " "drama" sampleWorld
  = setError "대본 내용을 입력해주세요." sampleWorld.
Proof.
  destruct (@blank_form_is_refused "Cafe" "  " "drama" sampleWorld
              (or_intror eq_refl)) as (message & R & E & _).
  rewrite R, E. reflexivity.
Defined.

End BlankForm.

Section HomeList.
Import Browser Storage GeminiClient Pages Samples.
Import StorageFacts PagesFacts StoreFacts PageMoreFacts.
Local Open Scope string_scope.

(** Deleting from the list of scripts (Home.tsx, [handleDelete]): when the
    dialog is declined nothing happens. When it is confirmed the list shown
    becomes the stored scripts without this id, whatever was shown before;
    afterwards the script is not found and has no character and no scene,
    the characters and scenes of every other script are listed as before,
    and the stored images are all still there. *)
Theorem home_delete_takes_the_script_away id shown w scripts characters scenes :
  loads w scripts characters scenes ->
  HomePage.handleDelete false id shown w = (Ok shown, w)
  /\ exists w',
       HomePage.handleDelete true id shown w
       = (Ok (filter (fun s => negb (Script.id s =? id)) scripts), w')
       /\ getScript id w' = (Ok None, w')
       /\ getCharactersByScript id w' = (Ok [], w')
       /\ getScenesByScript id w' = (Ok [], w')
       /\ (forall other, other <> id ->
             fst (getCharactersByScript other w') = fst (getCharactersByScript other w)
             /\ fst (getScenesByScript other w') = fst (getScenesByScript other w))
       /\ images w' = images w /\ characterImages w' = characterImages w.
Proof.
  intros Hl. split; [reflexivity|].
  destruct (deleteScript_run id Hl) as (w' & R & (Hs' & Hc' & Hn') & Ho).
  exists w'. unfold HomePage.handleDelete.
  rewrite (bind_Ok _ _ _ R), loadScripts_run, Hs'.
  split; [reflexivity|].
  split; [now rewrite (getScript_run id _ Hs'), find_filter_negb|].
  split; [now rewrite (getCharactersByScript_run id _ Hc'), filter_none|].
  split; [now rewrite (getScenesByScript_run id _ Hn'), filter_none|].
  split.
  - intros other Hne. destruct Hl as (_ & Hc & Hn).
    rewrite (getCharactersByScript_run other _ Hc'), (getCharactersByScript_run other _ Hc),
      (getScenesByScript_run other _ Hn'), (getScenesByScript_run other _ Hn).
    cbn [fst].
    rewrite !filter_beside; [now split | |].
    + intros x Hx. apply String.eqb_eq in Hx. apply String.eqb_neq. congruence.
    + intros x Hx. apply String.eqb_eq in Hx. apply String.eqb_neq. congruence.
  - unfold outside in Ho. now inversion Ho.
Qed.

Lemma home_delete_takes_the_script_away_witness :
  exists w',
    HomePage.handleDelete true "s1" [] sampleWorld = (Ok [sampleScript "s2"], w')
    /\ getScenesByScript "s1" w' = (Ok [], w')
    /\ images w' = images sampleWorld.
Proof.
  destruct (@home_delete_takes_the_script_away "s1" [] sampleWorld sampleScripts
              sampleCharacters sampleScenes
              ltac:(repeat split; vm_compute; reflexivity))
    as (_ & w' & R & _ & _ & Hn & _ & Hi & _).
  exists w'. split; [exact R|]. now split.
Defined.

End HomeList.

Module CacheFacts.
Import Browser Storage ImageStorage GeminiClient Pages CharactersPage.
Import StorageFacts PagesFacts.
Local Open Scope string_scope.

Lemma or_undefined_Some o d : JS.or_undefined o = Some d -> o = Some d.
Proof. unfold JS.or_undefined. now destruct (JS.truthy o). Qed.

Lemma or_undefined_truthy o d :
  JS.or_undefined o = Some d -> JS.truthy (Some d) = true.
Proof.
  unfold JS.or_undefined. destruct (JS.truthy o) eqn:E; [|discriminate].
  now intros ->.
Qed.

Lemma found_truthy w k v : found w k = Some v -> JS.truthy (Some v) = true.
Proof.
  unfold found. destruct (startsWithData k) eqn:E.
  - intros [= <-]. now destruct k.
  - destruct (get k (characterImages w)); [apply or_undefined_truthy | discriminate].
Qed.

Lemma found_fetch w k :
  startsWithData k = false -> getCharacterImage k w = (Ok (found w k), w).
Proof. intros E. unfold found, getCharacterImage. now rewrite E. Qed.

Lemma found_twice w k :
  startsWithData k = false -> JS.or_undefined (found w k) = found w k.
Proof.
  intros E. unfold found. rewrite E.
  destruct (get k (characterImages w)) as [r|]; [|reflexivity].
  unfold JS.or_undefined at 1.
  destruct (JS.or_undefined (Some (data r))) as [d|] eqn:O; [|reflexivity].
  now rewrite (or_undefined_truthy _ O).
Qed.

(** One turn of the inner loop. *)
Lemma cache_step w imageId cache :
  (forall k v, cache k = Some v -> found w k = Some v) ->
  exists c1,
    (forall rest, cacheCharacterImages (imageId :: rest) cache w
                  = cacheCharacterImages rest c1 w)
    /\ (forall k v, c1 k = Some v -> found w k = Some v)
    /\ (forall k v, cache k = Some v -> c1 k = Some v)
    /\ c1 imageId = found w imageId.
Proof.
  intros I. cbn [cacheCharacterImages].
  destruct (startsWithData imageId) eqn:D.
  - rewrite andb_false_r.
    assert (F : found w imageId = Some imageId) by (unfold found; now rewrite D).
    exists (cachePut imageId imageId cache).
    split; [reflexivity|]. unfold cachePut.
    split; [|split].
    + intros k v. destruct (k =? imageId) eqn:E; [|apply I].
      apply String.eqb_eq in E. subst k. now intros [= <-].
    + intros k v H. destruct (k =? imageId) eqn:E; [|exact H].
      apply String.eqb_eq in E. subst k. pose proof (I _ _ H). congruence.
    + now rewrite String.eqb_refl.
  - rewrite andb_true_r. cbn [negb].
    destruct (JS.truthy (cache imageId)) eqn:T; cbn [negb].
    + exists cache. split; [reflexivity|]. split; [exact I|]. split; [tauto|].
      destruct (cache imageId) as [v|] eqn:C; [|discriminate].
      symmetry. now apply I.
    + assert (C : cache imageId = None).
      { destruct (cache imageId) as [v|] eqn:C; [|reflexivity].
        rewrite (found_truthy _ _ (I _ _ C)) in T. discriminate. }
      destruct (found w imageId) as [d|] eqn:F.
      * exists (cachePut imageId d cache).
        split.
        { intros rest. rewrite (bind_Ok _ _ _ (found_fetch w _ D)).
          now rewrite (found_twice w _ D), F. }
        unfold cachePut. split; [|split].
        -- intros k v. destruct (k =? imageId) eqn:E; [|apply I].
           apply String.eqb_eq in E. subst k. now intros [= <-].
        -- intros k v H. destruct (k =? imageId) eqn:E; [|exact H].
           apply String.eqb_eq in E. subst k. congruence.
        -- now rewrite String.eqb_refl.
      * exists cache.
        split.
        { intros rest. rewrite (bind_Ok _ _ _ (found_fetch w _ D)).
          now rewrite (found_twice w _ D), F. }
        split; [exact I|]. split; [tauto | exact C].
Qed.

Lemma kept_entry w (c1 c2 : string -> option string) k :
  (forall k v, c2 k = Some v -> found w k = Some v) ->
  (forall k v, c1 k = Some v -> c2 k = Some v) ->
  c1 k = found w k -> c2 k = found w k.
Proof.
  intros I M E. destruct (c1 k) as [v|] eqn:C.
  - rewrite <- E. now apply M.
  - destruct (c2 k) as [v|] eqn:C2; [|exact E]. pose proof (I _ _ C2). congruence.
Qed.

Lemma cacheCharacterImages_found w ids :
  forall cache,
    (forall k v, cache k = Some v -> found w k = Some v) ->
    exists cache',
      cacheCharacterImages ids cache w = (Ok cache', w)
      /\ (forall k v, cache' k = Some v -> found w k = Some v)
      /\ (forall k v, cache k = Some v -> cache' k = Some v)
      /\ (forall k, In k ids -> cache' k = found w k).
Proof.
  induction ids as [|imageId rest IH]; intros cache I.
  - exists cache. split; [reflexivity|]. split; [exact I|]. split; [tauto|].
    now intros.
  - destruct (cache_step w imageId cache I) as (c1 & R1 & I1 & M1 & E1).
    destruct (IH c1 I1) as (cache' & R & I' & M' & E').
    exists cache'. split; [now rewrite R1|]. split; [exact I'|].
    split; [intros k v H; apply M'; now apply M1|].
    intros k [<-|Hk]; [|now apply E'].
    now apply kept_entry with (c1 := c1).
Qed.

Lemma cacheAllCharacters_found w chars :
  forall cache,
    (forall k v, cache k = Some v -> found w k = Some v) ->
    exists cache',
      cacheAllCharacters chars cache w = (Ok cache', w)
      /\ (forall k v, cache' k = Some v -> found w k = Some v)
      /\ (forall k v, cache k = Some v -> cache' k = Some v)
      /\ (forall char k, In char chars -> In k (Character.referenceImages char) ->
            cache' k = found w k).
Proof.
  induction chars as [|char rest IH]; intros cache I.
  - exists cache. split; [reflexivity|]. split; [exact I|]. split; [tauto|].
    now intros.
  - destruct (cacheCharacterImages_found w (Character.referenceImages char) cache I)
      as (c1 & R1 & I1 & M1 & E1).
    destruct (IH c1 I1) as (cache' & R & I' & M' & E').
    exists cache'. cbn [cacheAllCharacters].
    split; [now rewrite (bind_Ok _ _ _ R1)|]. split; [exact I'|].
    split; [intros k v H; apply M'; now apply M1|].
    intros c k [<-|Hc] Hk; [|now apply E' with (char := c)].
    apply kept_entry with (c1 := c1); [exact I' | exact M' | now apply E1].
Qed.

End CacheFacts.

Section CharacterCache.
Import Browser Storage ImageStorage GeminiClient Pages CharactersPage Samples.
Import StorageFacts PagesFacts CacheFacts.
Local Open Scope string_scope.

(** Loading the character page (Characters.tsx, [loadCharacters]) shows the
    characters of the script and fills the image cache from the image
    store, which it only reads. For every reference image of a shown
    character: a data URL is cached as itself; an id with data in the store
    is cached with this data, so that [getImageSrc] shows it; an id with no
    data keeps the entry that the cache had, since entries are only ever
    added. Ids that belong to no shown character keep their entry unless
    the loop found data for them. *)
Theorem character_cache_follows_the_store scriptId w characters :
  charactersOf w = Ok characters ->
  exists w',
    loadCharacters scriptId w = (Ok tt, w')
    /\ Browser.characters (ui w')
       = filter (fun c => Character.scriptId c =? scriptId) characters
    /\ localStorage w' = localStorage w
    /\ characterImages w' = characterImages w
    /\ (forall char imageId,
          In char characters -> Character.scriptId char = scriptId ->
          In imageId (Character.referenceImages char) ->
          match found w imageId with
          | Some d => imageCache (ui w') imageId = Some d
                      /\ getImageSrc (imageCache (ui w')) imageId = d
          | None => imageCache (ui w') imageId = imageCache (ui w) imageId
          end)
    /\ (forall imageId,
          imageCache (ui w') imageId = imageCache (ui w) imageId
          \/ imageCache (ui w') imageId = found w imageId).
Proof.
  intros Hc. unfold loadCharacters.
  rewrite (bind_Ok _ _ _ (getCharactersByScript_run scriptId _ Hc)).
  unfold setCharacters. rewrite bind_setUI.
  set (chars := filter (fun c => Character.scriptId c =? scriptId) characters).
  match goal with |- context [Browser.bind (cacheAllCharacters _ _) _ ?W] => set (w1 := W) end.
  destruct (cacheAllCharacters_found w1 chars (fun _ => None))
    as (cache & R & I & _ & E); [discriminate|].
  rewrite (bind_Ok _ _ _ R).
  eexists. split; [reflexivity|].
  split; [reflexivity|]. split; [reflexivity|]. split; [reflexivity|].
  cbn [ui with_ui imageCache]. fold w1.
  split.
  - intros char imageId Hin Hs Hk.
    assert (Hch : In char chars)
      by (apply filter_In; split; [exact Hin | now apply String.eqb_eq]).
    pose proof (E _ _ Hch Hk) as Ek.
    change (found w1 imageId) with (found w imageId) in Ek.
    rewrite Ek.
    destruct (found w imageId) as [d|] eqn:F; [|reflexivity].
    split; [reflexivity|].
    unfold getImageSrc.
    destruct (startsWithData imageId) eqn:D.
    + unfold found in F. rewrite D in F. congruence.
    + rewrite Ek. unfold JS.or_else. now rewrite (found_truthy _ _ F).
  - intros imageId. destruct (cache imageId) as [v|] eqn:C; [right | now left].
    symmetry. apply (I _ _ C).
Qed.

Lemma character_cache_follows_the_store_witness :
  exists w',
    loadCharacters "s1"
      (with_characterImages [mkImage "char_c7_0_1" "c7" 0 "PNG" "2023-11-14T22:13:20.000Z"] galleryWorld)
    = (Ok tt, w')
    /\ getImageSrc (imageCache (ui w')) "char_c7_0_1" = "PNG"
    /\ imageCache (ui w') "char_c7_1_2" = None.
Proof.
  destruct (@character_cache_follows_the_store "s1"
              (with_characterImages [mkImage "char_c7_0_1" "c7" 0 "PNG" "2023-11-14T22:13:20.000Z"]
                 galleryWorld)
              galleryCharacters ltac:(vm_compute; reflexivity))
    as (w' & R & _ & _ & _ & H & _).
  exists w'. split; [exact R|].
  split.
  - apply (H gwen "char_c7_0_1"); [simpl; tauto | reflexivity | simpl; tauto].
  - apply (H gwen "char_c7_1_2"); [simpl; tauto | reflexivity | simpl; tauto].
Defined.

End CharacterCache.

Section BlobStoreSamples.
Import Browser ImageStorage StorageFacts BlobFacts.
Import Samples.
Local Open Scope string_scope.

Lemma saved_image_reads_back_witness :
  exists id w',
    saveImage "n2" 0 "AAAA" sampleWorld = (Ok id, w')
    /\ getImage id w' = (Ok (Some "AAAA"), w')
    /\ fst (getImage "n2_0_5" w') = fst (getImage "n2_0_5" sampleWorld).
Proof.
  destruct (proj1 saved_image_reads_back "n2" 0 "AAAA" sampleWorld)
    as (id & w' & R & G & O & _).
  exists id, w'. split; [exact R|]. split; [exact G|].
  apply O. intros E. rewrite <- E in R.
  apply (f_equal fst) in R. vm_compute in R. discriminate R.
Defined.

Lemma deleted_image_is_gone_witness :
  exists w',
    deleteImage "n2_0_5" sampleWorld = (Ok tt, w')
    /\ getImage "n2_0_5" w' = (Ok None, w')
    /\ fst (getImage "n2_1_6" w') = fst (getImage "n2_1_6" sampleWorld).
Proof.
  destruct (proj1 (deleted_image_is_gone "n2_0_5" sampleWorld))
    as (w' & R & G & O & _).
  exists w'. split; [exact R|]. split; [exact G|].
  apply O. discriminate.
Defined.

End BlobStoreSamples.
